(* ===== verification/_CoqProject ===== *)
-Q . S2P
Prelude.v
Text.v
Values.v
Account.v
Player.v
Room.v
Session.v
Tokio.v
Frame.v
Connection.v
Protocol.v
App.v
MemRepos.v
TokenStore.v
RedisTokens.v
UseCases.v
RoomActor.v
RoomService.v
RoomCalls.v
RoomCallsInv.v
RoomCallsTruth.v
RoomSchedule.v
Speech.v
Presence.v
AuthGate.v
Float64.v
RateLimit.v
Config.v
Gateway.v
ConnLoop.v
Lifecycle.v
Listener.v
SqlRepos.v
SqlStore.v
Production.v
Fakes.v
Password.v
Http.v
EndToEnd.v
Tls.v
Events.v
Schema.v
Bootstrap.v
TurnEffects.v
System.v
SystemProofs.v
SystemRun.v
SystemPresence.v
SystemTenure.v
SystemAccept.v
Client.v
TestsDomain.v
UnitOfWork.v
TestsApplication.v
TestsInfrastructure.v
TestsNet.v
TestsGateway.v
