(* ===== verification/Prelude.v ===== *)
(** * LongshipX: a verification library of the game server

    LongshipX is a game server in Rust: players register and log in over HTTPS, bind a TCP
    connection with the token they were given, and talk in rooms.  This library models the
    workspace under [src/crates] and [src/migration] and proves what makes its parts, and
    the parts together, correct.  Paths below are relative to [src/crates] unless they
    start with [migration].

    ** The parts of the program

    - [domain]: aggregates without effects.  An account has credentials and a status; a
      player has a level and experience; a room has members and a life cycle; a session
      has a heartbeat.  Names and passwords are validated on construction.
    - [application]: the use cases (register, login, profile, experience) over ports, and
      rooms: one actor task per room, a service that owns the registry of actors.
    - [infrastructure]: the ports' implementations: SeaORM repositories, in-memory
      repositories, token stores in Redis and in memory, the argon2 hasher, the event bus,
      the audit log, the configuration.
    - [net-kit] and [protocol]: frames over a byte stream, a connection with a bounded
      outbound queue, the accept loop, TLS; typed messages, opcodes and the router.
    - [gateway]: HTTP routes over the use cases, and the TCP gateway: admission by address,
      handshake, the read loop of a connection, its handlers, the relay of room events,
      registry and clean-up.
    - [server-bin]: reads the configuration, wires the parts, starts and stops them.
    - [migration]: the tables.

    A request over HTTP runs a use case over the repositories and the token store.  A TCP
    connection is admitted by the gate, handshaken, and then reads frames in a loop; a
    frame passes the rate limiter, the codec and the session check before the router hands
    it to a handler, which calls the token store, the repositories or the room service.
    The room service sends a command to a room's actor; the actor pushes events into the
    members' sinks, and each connection relays its sink's events to its own queue, from
    which a writer task feeds the socket.

    ** How the library is laid out

    Each file opens with what it models.  The correspondence in short:

    - [Prelude]: [Result], [?], effects ([io W A := W -> A * W]), machine integers with
      their wrap-around and saturation written out, runs of a step relation ([star]),
      tactics.  [Text]: Rust's strings (Unicode scalar values, UTF-8, trimming, numbers).
    - [Values] ([domain/src/shared]), [Account], [Player], [Room] (with the abstract
      [RoomSpec] it refines), [Session] (with [events.rs]): one file per aggregate; the
      struct is a record, each method a definition of the same name.
    - [Tokio]: the asynchronous runtime as classes: [AsyncRead], [AsyncWrite], [Mpsc],
      [Semaphore].
    - [Frame] ([net-kit/src/codec.rs]), [Connection] ([backpressure.rs],
      [connection.rs]), [Protocol] ([protocol/src]), [Tls] ([tls.rs], [transport.rs]).
    - [App] ([application/src/error.rs], [dto.rs], [ports.rs] and the repository traits):
      the ports as classes with their contracts.  [UseCases] ([auth], [player]): the use
      cases, proved against the ports alone.
    - The ports' instances: [MemRepos] and [TokenStore] (in memory), [SqlRepos] and
      [SqlStore] (SeaORM), [RedisTokens] (Redis), [Password] (argon2), [Events] (event bus
      and audit log).  [Schema]: the migrations and the entities that must fit them.
    - [RoomActor] ([application/src/room/actor.rs], [sink.rs]), [RoomService]
      ([service.rs]), where a method is one step.  [RoomCalls]: the same methods as programs
      whose calls interleave with each other and with the actors wherever a task can be
      suspended; [RoomCallsInv] its invariants, [RoomCallsTruth] what its calls answer and
      that they answer, [RoomSchedule] its relation to [RoomService].
    - [AuthGate], [Float64] and [RateLimit], [Gateway] ([context.rs], [convert.rs], [handlers.rs],
      [router_setup.rs]), [ConnLoop] ([handler.rs]: admission of frames, read loop,
      relay), [Lifecycle] ([connections.rs], [lifecycle.rs], opening and closing in
      [handler.rs]), [Listener] ([net-kit/src/listener.rs] and [TcpGateway::run] of
      [server.rs]): [gateway/src/tcp].
    - [Http] ([gateway/src/http]), [Config] ([infrastructure/src/config.rs]), [Bootstrap]
      ([server-bin/src]).
    - [Fakes] ([application/src/fakes.rs]): the doubles the unit tests of the use cases run
      on, against the in-memory stores.
    - [UnitOfWork] ([application/src/unit_of_work.rs]).
    - Compositions: [Production] (the use cases over SQL and Redis together), [EndToEnd]
      (from the login form to a bound TCP connection), and the running server: all
      connections, the rooms and the HTTP side over the shared stores.  [Speech] and
      [Presence] say who is quoted by the rooms and who is in them, [TurnEffects] what one
      round of a read loop does to the rest of the server; [System] is the server as a
      transition system, [SystemProofs] its invariants, [SystemRun], [SystemPresence] and
      [SystemTenure] the theorems of its runs and runs by example.  [SystemAccept] puts the
      accept loop of [Listener] in front of it.  [Client]
      ([server-bin/examples/quickstart_client.rs]) talks to it.
    - [TestsDomain], [TestsApplication], [TestsInfrastructure], [TestsNet] and
      [TestsGateway]: the unit tests of the crates on the models, one definition for each
      test function, of its name, that evaluates to [true].

    State is passed explicitly: a function with effects takes the world it works on and
    returns its result next to the new world, so what was changed before an early return
    stays changed.  Tasks that interleave are step relations over these executable
    functions: [conn_step] (senders and writer of a connection), [gate_step], [job_step]
    (hashings), [listener_step] and [socket_step] (accepting), [app_step] (use cases over
    time), [bus_step] (event bus), the environment of a read loop in [ConnLoop],
    [RoomCalls.step] (calls of the room service and actors), [System.run], whose action is
    one round of one task of the server, and [SystemAccept.server_run], which adds the
    workers of the accept loop and their tasks.
    Clock readings, random bytes and fresh identifiers are arguments, in the order the
    code draws them.

    ** What the theorems show

    - Domain: growth settles and is unique ([gain_exp_correct]); the level loop is the
      source's [while] and ends ([level_loop_while]); every reachable room is well formed
      ([room_reachable_invariant]); constructors accept exactly the stated texts.
    - Wire: [read_frame] follows the stream format on every input and however the stream
      ends; messages survive encoding and framing both ways; under any interleaving the
      peer has received a prefix of the accepted frames, and all of them once the queue is
      drained; a slow client is cut off for good.
    - Use cases: registration stores both rows or neither; a login succeeds only with the
      right password for an allowed account and leaves one token; consistency of accounts,
      players and tokens is invariant along any run, against the ports
      ([application_stays_consistent]) and as deployed ([production_stays_consistent]).
    - Stores: each implements its port; both token stores refine "one current token per
      player"; rows survive the conversion to columns, saturating and never wrapping; the
      migrations build the schema the rows fit, and their undoing removes it.
    - Rooms: an actor serves correctly and stops exactly when its room has closed; a member
      that stays hears a part of the room's history in order, and is marked failed exactly
      when something is missing, at a moment when its queue was full
      ([members_see_one_history]); after [leave_all] the player is in no room and only closed
      rooms were unregistered ([leave_all_cleans_up]); [close_all] closes every room.  With calls interleaved at every point, what a
      call answers was true at a moment between its beginning and its end
      ([answers_were_true]), no call waits for ever ([every_call_can_return]), and a method
      read as one step is one of its schedules ([atomic_calls_are_schedules]); a room whose
      creation is under way is missed by [close_all] ([close_all_misses_a_room_being_created]).
    - Gateway: nothing but a bind is served to an unbound connection and nothing to a dead
      session; identity never changes; a permit is held exactly while unbound; deadlines
      end connections; limits are exact and leak nothing; a connection leaves no trace
      once its clean-up has run, be it its own or the one detached when its task is aborted.
    - Process: reading the configuration refuses exactly the first bad variable; an
      accepted one gives the components settings in range, but for three capacities that are
      not checked and make a constructor panic ([accepted_settings_are_usable]); the start-up
      is ordered and stops at the first failure, and lets no client in before the migrations
      and TLS, the metrics listener apart ([start_up_is_ordered]); every connection of the
      gateway is TLS 1.3; waiting for connections to drain ends.
    - The whole server, in every run: permits, registry and gauge agree with the
      connections that are open ([server_books_balance]); an identity comes from a login
      ([identities_come_from_logins]); a line of chat comes from a connection of its
      player ([nobody_is_misquoted]); rooms hold whom their actors serve
      ([rooms_belong_to_their_members]); a member is at an open connection that is in that
      room, unless a clean-up met its deadline ([members_are_connected]), and the room a
      connection takes for its own lists its player, unless the player is at two
      connections ([connections_know_their_room]); a shutdown can always be
      completed and leaves nothing open ([shutdown_drains_the_server]). What a
      second connection of one player does to the first when it closes is
      [closing_a_connection_evicts_the_others].
    - The accept loop in front of it: handshakes and attended connections never exceed the
      configured limits, aborted tasks leave nothing but the clean-ups their guards detached,
      which are still to run, and every run is one of [System]
      ([accept_loop_bounds_the_server]); it can
      always be shut down to the end without cutting anybody off ([accept_loop_shuts_down]).
    - The client: it sends each request only after a message came for the one before, prints
      what that says, and that all is done when four came, which is less than that anything
      worked ([client_talks_in_turn]); it talks only over TLS 1.3
      ([client_connects_securely]).  [quickstart_session] is the session of the README,
      client and server together.

    ** Interfaces and parameters

    What is not in the repository is never defined here, only stated: [Prost] (encoding a
    message is inverted by decoding), [UuidFmt], [Argon2], [Sql] (statements, constraints,
    transactions), [Redis] (commands), [SchemaManager] and [Migrator], [Rustls] and [Net],
    [Broadcast], [AuditTable], [Host], [TlsClient], and the classes of [Tokio].  Every class has a
    concrete instance in its file or in a [...Demo] module, on which the theorems are
    instantiated, so the laws can hold together.  A store may fail at any call: an
    operation that answers an error may have taken place or not, but not in part.

    ** Bounds and fuel

    [usize] has 64 bits.  [level_loop] is given [MAX_LEVEL - level] iterations and
    satisfies the loop's own equation.  [write_task] is given one iteration per queued
    frame and one more ([write_task_drains]).  [from_utf8_lossy] takes at least one byte
    per step.  [drain] looks as often as the deadline allows, which is enough
    ([polls_enough], [drain_answers]).  Floating-point
    numbers of the rate limiter are IEEE binary64 in the Standard Library's specification
    ([Float64] proves what rounding keeps); its theorem covers every burst up to 2^53,
    the whole numbers that binary64 holds, and every rate. Everything else is exact. Counts that the
    code keeps in [usize] and that are bounded by the length of a list in memory are
    natural numbers.

    ** What is not modelled, and why

    - Logging, metrics and tracing spans: they change no state.  [init_tracing]'s choice of
      settings is in [Bootstrap].
    - Waiting for a signal, the metrics endpoint, axum's dispatch of a request to its
      endpoint, reading a request body: input/output of frameworks.
    - [net-kit/src/test_support.rs]: certificates for tests; the unit tests that open
      sockets, connect to Redis or look into the output of argon2 or prost.
    - In [System] a round of a task is one step, also where it waits for a room or a store
      inside; the interleavings within the room service are those of [RoomCalls], and its
      theorems are about the service alone.
    - Panics: a poisoned lock and a capacity above what [tokio] supports end a task in the
      code; the models have no such state.  [constructor_panics] says which capacities do the
      second, and [connection_limit_is_not_checked] shows a configuration that does.

    ** Where to extend it

    Steps inside a round of [System] (its rounds as programs over [RoomCalls]); the stores'
    own concurrency; bounds of [Instant] arithmetic with extreme timeouts. *)
From stdpp Require Export base tactics option list numbers gmap.
From Stdlib Require Export ZArith Lia.

(* ------------------------------------------------------------------ *)
(** ** Results: Rust's [Result<T, E>] and the [?] operator *)

Inductive result (T E : Type) : Type :=
| Ok (v : T)
| Err (e : E).
Arguments Ok {T E} v.
Arguments Err {T E} e.

Definition is_ok {T E} (r : result T E) : bool :=
  match r with Ok _ => true | Err _ => false end.

Definition is_err {T E} (r : result T E) : bool := negb (is_ok r).

Definition res_bind {T U E} (r : result T E) (k : T -> result U E) : result U E :=
  match r with Ok v => k v | Err e => Err e end.

Definition map_err {T E F} (f : E -> F) (r : result T E) : result T F :=
  match r with Ok v => Ok v | Err e => Err (f e) end.

Definition ok_or {T E} (e : E) (o : option T) : result T E :=
  match o with Some v => Ok v | None => Err e end.

(** [Option<Result<T, E>>::transpose] *)
Definition transpose {T E} (o : option (result T E)) : result (option T) E :=
  match o with
  | None => Ok None
  | Some (Ok v) => Ok (Some v)
  | Some (Err e) => Err e
  end.

Declare Scope rust_scope.
Delimit Scope rust_scope with rust.
Open Scope rust_scope.

(** [let? x := e in k] is [let x = e?; k]. *)
Notation "'let?' x ':=' e 'in' k" := (res_bind e (fun x => k))
  (at level 10, x pattern, e at level 100, k at level 200)
  : rust_scope.

#[global] Instance result_eq_dec {T E} `{EqDecision T, EqDecision E} : EqDecision (result T E).
Proof. solve_decision. Defined.

(* ------------------------------------------------------------------ *)
(** ** Effects: a computation that reads and updates a world [W]

    An [async fn] that awaits ports is a function of the world the ports
    live in.  State changed before an early return stays changed, as in
    the source, so an error is a value next to the new world. *)

Definition io (W A : Type) : Type := W -> A * W.

Definition io_ret {W A} (a : A) : io W A := fun w => (a, w).
Definition io_bind {W A B} (m : io W A) (k : A -> io W B) : io W B :=
  fun w => let '(a, w') := m w in k a w'.

(** [bind] for fallible steps: an [Err] is returned at once. *)
Definition io_try {W A B E} (m : io W (result A E)) (k : A -> io W (result B E))
  : io W (result B E) :=
  fun w => match m w with
           | (Ok a, w') => k a w'
           | (Err e, w') => (Err e, w')
           end.

(** A pure fallible step inside an effectful computation. *)
Definition io_lift {W A} (r : A) : io W A := io_ret r.

Notation "'let*' x ':=' m 'in' k" := (io_bind m (fun x => k))
  (at level 10, x pattern, m at level 100, k at level 200)
  : rust_scope.
Notation "'await?' x ':=' m 'in' k" := (io_try m (fun x => k))
  (at level 10, x pattern, m at level 100, k at level 200)
  : rust_scope.

(* ------------------------------------------------------------------ *)
(** ** Machine integers: values of a [w]-bit unsigned type are integers in
    [0, 2^w); the operations the sources use write their overflow out. *)

Open Scope Z_scope.

Definition u_max (w : Z) : Z := 2 ^ w - 1.
Definition is_u (w x : Z) : Prop := 0 <= x <= u_max w.
Definition is_i (w x : Z) : Prop := - 2 ^ (w - 1) <= x <= 2 ^ (w - 1) - 1.

Definition saturating_add (w a b : Z) : Z := Z.min (a + b) (u_max w).
Definition saturating_sub (a b : Z) : Z := Z.max (a - b) 0.
Definition saturating_mul (w a b : Z) : Z := Z.min (a * b) (u_max w).
Definition wrapping_mul (w a b : Z) : Z := (a * b) mod 2 ^ w.
(** [a as uW]: truncation to the low [w] bits. *)
Definition as_u (w a : Z) : Z := a mod 2 ^ w.

#[global] Instance is_u_dec w x : Decision (is_u w x).
Proof. unfold is_u. apply _. Defined.
#[global] Instance is_i_dec w x : Decision (is_i w x).
Proof. unfold is_i. apply _. Defined.

(* ------------------------------------------------------------------ *)
(** ** Proof automation *)

Create HintDb longship.
#[export] Hint Extern 1 (_ <= _) => lia : longship.
#[export] Hint Extern 1 (_ < _) => lia : longship.

(** Case analysis on every [if]/[match] of the goal or the context whose
    scrutinee is not itself a match, keeping the equations. *)
Ltac case_all :=
  repeat match goal with
    | |- context [match ?x with _ => _ end] =>
        lazymatch x with context [match _ with _ => _ end] => fail | _ => destruct x eqn:? end
    | H : context [match ?x with _ => _ end] |- _ =>
        lazymatch x with context [match _ with _ => _ end] => fail | _ => destruct x eqn:? end
    end.

(** Boolean comparisons in the context become propositions. *)
Ltac b2p :=
  repeat match goal with
    | H : (_ <? _) = true |- _ => apply Z.ltb_lt in H
    | H : (_ <? _) = false |- _ => apply Z.ltb_ge in H
    | H : (_ <=? _) = true |- _ => apply Z.leb_le in H
    | H : (_ <=? _) = false |- _ => apply Z.leb_gt in H
    | H : (_ =? _) = true |- _ => apply Z.eqb_eq in H
    | H : (_ =? _) = false |- _ => apply Z.eqb_neq in H
    | H : (_ && _) = true |- _ => apply andb_true_iff in H as [? ?]
    | H : (_ || _) = false |- _ => apply orb_false_iff in H as [? ?]
    | H : negb _ = true |- _ => apply negb_true_iff in H
    | H : negb _ = false |- _ => apply negb_false_iff in H
    | H : bool_decide _ = true |- _ => apply bool_decide_eq_true in H
    | H : bool_decide _ = false |- _ => apply bool_decide_eq_false in H
    end.

(** Unfold the machine-integer vocabulary and finish with [lia]. *)
Ltac mlia :=
  unfold is_u, is_i, saturating_add, saturating_sub, saturating_mul, u_max in *; lia.

(* ------------------------------------------------------------------ *)
(** ** Generic lemmas *)

Lemma res_bind_ok {T U E} (r : result T E) (k : T -> result U E) u :
  res_bind r k = Ok u <-> exists v, r = Ok v /\ k v = Ok u.
Proof.
  destruct r; simpl; split; [by eauto|by intros (? & [= ->] & ?)|done|by intros (? & ? & _)].
Qed.

(** Inversion of a run through [await?] and [let*]. *)
Lemma io_try_inv {W A B E} (m : io W (result A E)) (k : A -> io W (result B E)) w r w' :
  io_try m k w = (r, w') ->
  (exists a w1, m w = (Ok a, w1) /\ k a w1 = (r, w')) \/
  (exists e, m w = (Err e, w') /\ r = Err e).
Proof. unfold io_try. destruct (m w) as [[a|e] w1] eqn:Em; intros; simplify_eq; eauto. Qed.

Lemma io_bind_inv {W A B} (m : io W A) (k : A -> io W B) w r w' :
  io_bind m k w = (r, w') -> exists a w1, m w = (a, w1) /\ k a w1 = (r, w').
Proof. unfold io_bind. destruct (m w) as [a w1] eqn:Em; eauto. Qed.

Lemma io_ret_inv {W A} (a b : A) (w w' : W) : io_ret a w = (b, w') -> a = b /\ w = w'.
Proof. unfold io_ret. by intros [= <- <-]. Qed.

Lemma map_err_ok {T E F} (f : E -> F) (r : result T E) v :
  map_err f r = Ok v <-> r = Ok v.
Proof. destruct r; simpl; split; congruence. Qed.

Lemma saturating_add_range w a b :
  0 <= w -> 0 <= a -> 0 <= b -> is_u w (saturating_add w a b).
Proof. intros. pose proof (Z.pow_pos_nonneg 2 w ltac:(lia) ltac:(lia)). mlia. Qed.

Lemma saturating_add_exact w a b :
  a + b <= u_max w -> saturating_add w a b = a + b.
Proof. mlia. Qed.

Lemma as_u_small w a : is_u w a -> as_u w a = a.
Proof. intros. unfold as_u. apply Z.mod_small. mlia. Qed.

(** Reflexive-transitive closure of a step relation, extended at the end so
    that an invariant is proved by induction on the run. *)
Inductive star {S} (step : S -> S -> Prop) (s0 : S) : S -> Prop :=
| star_refl : star step s0 s0
| star_snoc s1 s2 : star step s0 s1 -> step s1 s2 -> star step s0 s2.

(** Extending a run to a state given up to computation. *)
Lemma star_to {S} (step : S -> S -> Prop) a b c c' :
  star step a b -> step b c -> c = c' -> star step a c'.
Proof. intros ? ? <-. eauto using @star. Qed.

Lemma star_trans {S} (step : S -> S -> Prop) a b c :
  star step a b -> star step b c -> star step a c.
Proof. intros Hab Hbc. induction Hbc; eauto using @star. Qed.

Lemma star_invariant {S} (step : S -> S -> Prop) (I : S -> Prop) s0 s :
  (forall a b, I a -> step a b -> I b) -> I s0 -> star step s0 s -> I s.
Proof. intros Hstep H0 Hs. induction Hs; eauto. Qed.

(** Removing a value by [filter] (Rust's [Vec::retain]) from a list. *)
Lemma filter_ne_id {A} `{EqDecision A} (x : A) (l : list A) :
  x ∉ l -> filter (.≠ x) l = l.
Proof.
  induction l as [|y l IH]; intros Hx; [done|].
  apply not_elem_of_cons in Hx as [? ?].
  rewrite filter_cons_True by congruence. f_equal. by apply IH.
Qed.

Lemma length_filter_ne {A} `{EqDecision A} (x : A) (l : list A) :
  NoDup l -> x ∈ l -> S (length (filter (.≠ x) l)) = length l.
Proof.
  induction 1 as [|y l Hy Hnd IH]; intros Hin; [by apply elem_of_nil in Hin|].
  apply elem_of_cons in Hin as [->|Hin].
  - rewrite filter_cons_False by naive_solver. by rewrite filter_ne_id.
  - rewrite filter_cons_True by (intros ->; done). simpl. f_equal. by apply IH.
Qed.

(** Boolean quantifiers over lists ([Iterator::all] and [Iterator::any]). *)
Lemma forallb_Forall {A} (f : A -> bool) (l : list A) :
  forallb f l = true <-> Forall (fun x => f x = true) l.
Proof.
  induction l as [|x l IH]; simpl; [split; auto|].
  rewrite andb_true_iff, IH. split.
  - intros [? ?]. by constructor.
  - intros H. by inversion H.
Qed.

Lemma existsb_Forall {A} (f : A -> bool) (l : list A) :
  existsb f l = false <-> Forall (fun x => f x = false) l.
Proof.
  induction l as [|x l IH]; simpl; [split; auto|].
  rewrite orb_false_iff, IH. split.
  - intros [? ?]. by constructor.
  - intros H. by inversion H.
Qed.
