(* ===== verification/Text.v ===== *)
(** Text: what the sources use of Rust's [char], [str] and [String].

    A [String] is the list of its Unicode scalar values ([str::chars]); its
    [len] is the length of its UTF-8 encoding.  [trim], the character classes,
    ASCII lower-casing, decimal and hexadecimal formatting and integer parsing
    are those of the Rust standard library. *)
From S2P Require Import Prelude.
From stdpp Require Import pretty.
From Stdlib Require Import Strings.String Strings.Byte.
Import Stdlib.Lists.List.

Open Scope Z_scope.
Abbreviation length := Datatypes.length.

(** A Unicode scalar value. *)
Definition is_char (c : Z) : Prop := (0 <= c < 0xD800) \/ (0xE000 <= c <= 0x10FFFF).
#[global] Instance is_char_dec c : Decision (is_char c).
Proof. unfold is_char. apply _. Defined.

Abbreviation rstr := (list Z) (only parsing).
Definition is_rstr (s : rstr) : Prop := Forall is_char s.
#[global] Instance is_rstr_dec s : Decision (is_rstr s).
Proof. unfold is_rstr. apply _. Defined.

(* ------------------------------------------------------------------ *)
(** ** UTF-8 *)

(** [char::len_utf8] *)
Definition len_utf8 (c : Z) : Z :=
  if c <? 0x80 then 1 else if c <? 0x800 then 2 else if c <? 0x10000 then 3 else 4.

(** [str::len]: the number of bytes. *)
Definition str_len (s : rstr) : Z := fold_right Z.add 0 (map len_utf8 s).

(** [char::encode_utf8], bytes as integers in [0, 256). *)
Definition encode_char (c : Z) : list Z :=
  if c <? 0x80 then [c]
  else if c <? 0x800 then [0xC0 + c / 64; 0x80 + c mod 64]
  else if c <? 0x10000 then [0xE0 + c / 4096; 0x80 + (c / 64) mod 64; 0x80 + c mod 64]
  else [0xF0 + c / 262144; 0x80 + (c / 4096) mod 64; 0x80 + (c / 64) mod 64; 0x80 + c mod 64].

(** [str::as_bytes] *)
Definition as_bytes (s : rstr) : list Z := flat_map encode_char s.

Definition is_cont (b : Z) : bool := (0x80 <=? b) && (b <? 0xC0).

(** [str::from_utf8]: rejects stray continuation bytes, overlong forms,
    surrogates and values above U+10FFFF. *)
Fixpoint from_utf8 (bs : list Z) : option rstr :=
  match bs with
  | [] => Some []
  | b0 :: t0 =>
      if b0 <? 0x80 then cons b0 <$> from_utf8 t0
      else match t0 with
      | [] => None
      | b1 :: t1 =>
          if negb (is_cont b1) then None
          else if (0xC2 <=? b0) && (b0 <? 0xE0) then
            cons ((b0 - 0xC0) * 64 + (b1 - 0x80)) <$> from_utf8 t1
          else match t1 with
          | [] => None
          | b2 :: t2 =>
              if negb (is_cont b2) then None
              else if (0xE0 <=? b0) && (b0 <? 0xF0) then
                let c := (b0 - 0xE0) * 4096 + (b1 - 0x80) * 64 + (b2 - 0x80) in
                if (c <? 0x800) || ((0xD800 <=? c) && (c <? 0xE000)) then None
                else cons c <$> from_utf8 t2
              else match t2 with
              | [] => None
              | b3 :: t3 =>
                  if negb (is_cont b3) then None
                  else if (0xF0 <=? b0) && (b0 <? 0xF5) then
                    let c := (b0 - 0xF0) * 262144 + (b1 - 0x80) * 4096
                             + (b2 - 0x80) * 64 + (b3 - 0x80) in
                    if (c <? 0x10000) || (0x10FFFF <? c) then None
                    else cons c <$> from_utf8 t3
                  else None
              end
          end
      end
  end.

(** A string literal of the sources: the UTF-8 text between the quotes. *)
Definition lit (s : string) : rstr :=
  default [] (from_utf8 (map (fun b => Z.of_N (Byte.to_N b)) (list_byte_of_string s))).

(* ------------------------------------------------------------------ *)
(** ** Character classes *)

(** [char::is_whitespace]: the Unicode property White_Space. *)
Definition is_whitespace (c : Z) : bool :=
  ((9 <=? c) && (c <=? 13)) || (c =? 32) || (c =? 0x85) || (c =? 0xA0) || (c =? 0x1680)
  || ((0x2000 <=? c) && (c <=? 0x200A)) || (c =? 0x2028) || (c =? 0x2029) || (c =? 0x202F)
  || (c =? 0x205F) || (c =? 0x3000).

(** [char::is_control]: the Unicode category Cc. *)
Definition is_control (c : Z) : bool :=
  ((0 <=? c) && (c <=? 0x1F)) || ((0x7F <=? c) && (c <=? 0x9F)).

Definition is_ascii_digit (c : Z) : bool := (48 <=? c) && (c <=? 57).
Definition is_ascii_upper (c : Z) : bool := (65 <=? c) && (c <=? 90).
Definition is_ascii_lower (c : Z) : bool := (97 <=? c) && (c <=? 122).
Definition is_ascii_alphanumeric (c : Z) : bool :=
  is_ascii_digit c || is_ascii_upper c || is_ascii_lower c.

Definition to_ascii_lowercase_char (c : Z) : Z := if is_ascii_upper c then c + 32 else c.
Definition to_ascii_lowercase (s : rstr) : rstr := map to_ascii_lowercase_char s.

(* ------------------------------------------------------------------ *)
(** ** Trimming *)

Fixpoint trim_start (s : rstr) : rstr :=
  match s with
  | [] => []
  | c :: t => if is_whitespace c then trim_start t else s
  end.
Definition trim_end (s : rstr) : rstr := rev (trim_start (rev s)).
Definition trim (s : rstr) : rstr := trim_end (trim_start s).

Definition is_empty (s : rstr) : bool := match s with [] => true | _ => false end.

(** [str::strip_prefix] *)
Fixpoint strip_prefix (p s : rstr) : option rstr :=
  match p, s with
  | [], _ => Some s
  | a :: p', b :: s' => if a =? b then strip_prefix p' s' else None
  | _ :: _, [] => None
  end.

(* ------------------------------------------------------------------ *)
(** ** Numbers as text *)

(** [{n}] of a non-negative integer. *)
Definition show_u (n : Z) : rstr := lit (pretty (Z.to_N n)).

Definition hex_digit (d : Z) : Z := if d <? 10 then 48 + d else 87 + d.
(** [{b:02x}] of a byte. *)
Definition show_02x (b : Z) : rstr := [hex_digit (b / 16); hex_digit (b mod 16)].

Fixpoint parse_digits (w acc : Z) (s : rstr) : option Z :=
  match s with
  | [] => Some acc
  | c :: t =>
      if is_ascii_digit c then
        let acc' := acc * 10 + (c - 48) in
        if acc' <=? u_max w then parse_digits w acc' t else None
      else None
  end.

(** [<uW as FromStr>::from_str]: an optional [+], then at least one decimal
    digit, the value within the type. *)
Definition parse_u (w : Z) (s : rstr) : option Z :=
  match s with
  | [] => None
  | c :: t =>
      if c =? 43 then (if is_empty t then None else parse_digits w 0 t)
      else parse_digits w 0 s
  end.

(* ------------------------------------------------------------------ *)
(** ** Lemmas *)

Lemma str_len_app s t : str_len (s ++ t) = str_len s + str_len t.
Proof.
  unfold str_len. rewrite map_app. induction (map len_utf8 s) as [|x l IH]; simpl; lia.
Qed.

Lemma len_utf8_pos c : 1 <= len_utf8 c <= 4.
Proof. unfold len_utf8. repeat case_match; lia. Qed.

Lemma str_len_bounds s : Z.of_nat (length s) <= str_len s <= 4 * Z.of_nat (length s).
Proof.
  induction s as [|c s IH]; [done|]. unfold str_len in *. simpl.
  pose proof (len_utf8_pos c). lia.
Qed.

(** On ASCII text the byte length is the number of characters. *)
Lemma str_len_ascii s :
  Forall (fun c => 0 <= c < 0x80) s -> str_len s = Z.of_nat (length s).
Proof.
  unfold str_len. induction 1 as [|c s Hc Hs IH]; [done|].
  simpl. rewrite IH. unfold len_utf8. rewrite (proj2 (Z.ltb_lt c 0x80)) by lia. lia.
Qed.

Lemma encode_char_length c : Z.of_nat (length (encode_char c)) = len_utf8 c.
Proof. unfold encode_char, len_utf8. repeat case_match; done. Qed.

Lemma as_bytes_length s : Z.of_nat (length (as_bytes s)) = str_len s.
Proof.
  induction s as [|c s IH]; [done|].
  unfold as_bytes, str_len in *. simpl. rewrite length_app, Nat2Z.inj_add, IH.
  by rewrite encode_char_length.
Qed.

Lemma encode_char_bytes c : is_char c -> Forall (is_u 8) (encode_char c).
Proof.
  intros Hc. unfold encode_char, is_char, is_u, u_max in *.
  repeat case_match; b2p; repeat constructor;
    Z.to_euclidean_division_equations; lia.
Qed.

(** Decoding an encoded character gives it back, whatever follows. *)
Lemma from_utf8_encode_char c bs :
  is_char c -> from_utf8 (encode_char c ++ bs) = cons c <$> from_utf8 bs.
Proof.
  intros Hc. unfold encode_char, is_char in *.
  repeat case_match; b2p; simpl; unfold is_cont; simpl;
    repeat match goal with
    | |- context [if ?b then _ else _] => destruct b eqn:?; b2p
    end;
    repeat match goal with
    | H : negb _ = true |- _ => apply negb_true_iff in H
    | H : (_ && _) = false |- _ => apply andb_false_iff in H as [?|?]
    | H : (_ || _) = true |- _ => apply orb_true_iff in H as [?|?]
    end; b2p;
    try (exfalso; Z.to_euclidean_division_equations; lia); try done;
    f_equal; f_equal; Z.to_euclidean_division_equations; lia.
Qed.

(** UTF-8 round trip. *)
Lemma from_utf8_as_bytes s : is_rstr s -> from_utf8 (as_bytes s) = Some s.
Proof.
  induction 1 as [|c s Hc Hs IH]; [done|].
  unfold as_bytes. simpl. fold (as_bytes s).
  by rewrite from_utf8_encode_char, IH.
Qed.

Lemma trim_start_idemp s : trim_start (trim_start s) = trim_start s.
Proof. induction s as [|c s IH]; [done|]. simpl. case_match eqn:E; [done|]. simpl. by rewrite E. Qed.

Lemma trim_start_snoc s c :
  is_whitespace c = false -> trim_start (s ++ [c]) = trim_start s ++ [c].
Proof.
  intros Hc. induction s as [|a s IH]; simpl; [by rewrite Hc|]. by case_match.
Qed.

Lemma trim_end_cons c s : is_whitespace c = false -> trim_end (c :: s) = c :: trim_end s.
Proof.
  intros Hc. unfold trim_end. simpl. rewrite trim_start_snoc by done.
  by rewrite rev_app_distr.
Qed.

Lemma trim_start_cases s :
  trim_start s = [] \/ exists c t, trim_start s = c :: t /\ is_whitespace c = false.
Proof.
  induction s as [|c s IH]; simpl; [by left|].
  destruct (is_whitespace c) eqn:E; [done|]. right. by exists c, s.
Qed.

Lemma trim_idemp s : trim (trim s) = trim s.
Proof.
  unfold trim. destruct (trim_start_cases s) as [->|(c & t & -> & Hc)]; [done|].
  rewrite trim_end_cons by done. simpl. rewrite Hc.
  rewrite trim_end_cons by done. f_equal. unfold trim_end.
  by rewrite rev_involutive, trim_start_idemp.
Qed.

Lemma trim_start_no_ws s :
  Forall (fun c => is_whitespace c = false) s -> trim_start s = s.
Proof. destruct 1 as [|c s Hc Hs]; [done|]. simpl. by rewrite Hc. Qed.

Lemma trim_no_ws s : Forall (fun c => is_whitespace c = false) s -> trim s = s.
Proof.
  intros H. unfold trim, trim_end. rewrite (trim_start_no_ws s) by done.
  rewrite trim_start_no_ws by by apply Forall_rev. apply rev_involutive.
Qed.

Lemma trim_start_Forall (P : Z -> Prop) s : Forall P s -> Forall P (trim_start s).
Proof. induction 1; simpl; [done|]. case_match; [done|]. by constructor. Qed.

Lemma trim_Forall (P : Z -> Prop) s : Forall P s -> Forall P (trim s).
Proof.
  intros H. unfold trim, trim_end. apply Forall_rev, trim_start_Forall, Forall_rev.
  by apply trim_start_Forall.
Qed.

Lemma to_ascii_lowercase_idemp s : to_ascii_lowercase (to_ascii_lowercase s) = to_ascii_lowercase s.
Proof.
  unfold to_ascii_lowercase. rewrite map_map. apply map_ext. intros c.
  unfold to_ascii_lowercase_char, is_ascii_upper.
  repeat case_match; b2p; try done; try lia.
Qed.

Lemma to_ascii_lowercase_length s : length (to_ascii_lowercase s) = length s.
Proof. apply length_map. Qed.

(** The digits accepted by [parse_u] stay within the type. *)
Lemma parse_digits_range w acc s n :
  is_u w acc -> parse_digits w acc s = Some n -> is_u w n.
Proof.
  revert acc. induction s as [|c s IH]; intros acc Hacc; simpl; [by intros [= <-]|].
  destruct (is_ascii_digit c) eqn:Ed; [|done].
  destruct (_ <=? _) eqn:Eb; [|done]. apply IH.
  unfold is_ascii_digit in Ed. b2p. mlia.
Qed.

Lemma parse_u_range w s n : 0 <= w -> parse_u w s = Some n -> is_u w n.
Proof.
  intros Hw. pose proof (Z.pow_pos_nonneg 2 w ltac:(lia) ltac:(lia)).
  assert (is_u w 0) by mlia.
  unfold parse_u. repeat case_match; try done; by apply parse_digits_range.
Qed.

(** [strip_prefix] is the inverse of prepending. *)
Lemma strip_prefix_some p s t : strip_prefix p s = Some t <-> s = p ++ t.
Proof.
  revert s. induction p as [|a p IH]; intros s; simpl.
  - split; [by intros [= ->]|by intros ->].
  - destruct s as [|b s]; [by split|]. destruct (Z.eqb_spec a b) as [->|Hne].
    + rewrite IH. split; [by intros ->|by intros [= ->]].
    + split; [done|]. by intros [= ? _].
Qed.

Lemma show_02x_no_ws b :
  0 <= b < 256 -> Forall (fun c => is_whitespace c = false) (show_02x b).
Proof.
  intros Hb. assert (Hd : forall d, 0 <= d < 16 -> is_whitespace (hex_digit d) = false).
  { intros d Hd.
    assert (Hall : forallb (fun d => negb (is_whitespace (hex_digit d))) (seqZ 0 16) = true) by reflexivity.
    rewrite forallb_forall in Hall. apply negb_true_iff, Hall, list_elem_of_In, elem_of_seqZ. lia. }
  unfold show_02x. repeat constructor; apply Hd; Z.to_euclidean_division_equations; lia.
Qed.
