(* ===== verification/Values.v ===== *)
(** Shared kernel of the domain crate: identifiers, domain and repository
    errors ([shared/error.rs]) and the validated value objects
    ([shared/value.rs]): [Username], [Nickname], [PlainPassword],
    [PasswordHash]. *)
From S2P Require Import Prelude Text.
From Stdlib Require Import Strings.String.
Open Scope Z_scope.
Open Scope list_scope.
Abbreviation length := Datatypes.length.

(** A UUID is its 128-bit value; the crate [uuid] is not part of the
    repository, so its text format is a parameter with the documented round
    trip: the hyphenated form parses back to the same value. *)
Definition is_uuid (u : Z) : Prop := is_u 128 u.

Class UuidFmt := {
  uuid_to_string : Z -> rstr;
  uuid_parse_str : rstr -> option Z;
  uuid_parse_to_string u : is_uuid u -> uuid_parse_str (uuid_to_string u) = Some u;
  uuid_parse_range s u : uuid_parse_str s = Some u -> is_uuid u;
  uuid_string_plain u c :
    c ∈ uuid_to_string u -> is_whitespace c = false /\ 0 <= c < 0x80;
  uuid_string_nonempty u : uuid_to_string u <> []
}.

(** An instance, to run the model: 32 digits to the base 16, the lowest first. *)
Fixpoint nibbles (n : nat) (u : Z) : rstr :=
  match n with O => [] | S n' => (48 + u mod 16) :: nibbles n' (u / 16) end.
Definition nibbles_value (s : rstr) : Z := foldr (fun c acc => (c - 48) + 16 * acc) 0 s.
Definition is_nibble (c : Z) : bool := (48 <=? c) && (c <? 64).

Lemma nibbles_chars n : forall u c, c ∈ nibbles n u -> 48 <= c < 64.
Proof.
  induction n as [|n IH]; intros u c; simpl; [by intros ?%elem_of_nil|].
  intros [->|?]%elem_of_cons; [|by eapply IH]. pose proof (Z.mod_pos_bound u 16). lia.
Qed.
Lemma nibbles_length n : forall u, length (nibbles n u) = n.
Proof. induction n; intros; simpl; auto. Qed.
Lemma nibbles_value_nibbles n : forall u, 0 <= u < 16 ^ Z.of_nat n -> nibbles_value (nibbles n u) = u.
Proof.
  induction n as [|n IH]; intros u Hu; simpl.
  - change (16 ^ Z.of_nat 0) with 1 in Hu. lia.
  - rewrite Nat2Z.inj_succ, Z.pow_succ_r in Hu by lia. unfold nibbles_value in *. rewrite IH.
    + pose proof (Z.div_mod u 16). lia.
    + split; [apply Z.div_pos; lia|apply Z.div_lt_upper_bound; lia].
Qed.
Lemma nibbles_value_range s :
  forallb is_nibble s = true -> 0 <= nibbles_value s < 16 ^ Z.of_nat (length s).
Proof.
  unfold nibbles_value, is_nibble. induction s as [|c s IH]; [done|]. cbn [forallb foldr length].
  intros [Hc Hs]%andb_true_iff. apply IH in Hs.
  rewrite Nat2Z.inj_succ, Z.pow_succ_r by lia. b2p. lia.
Qed.

Definition parse_nibbles (s : rstr) : option Z :=
  if (length s =? 32)%nat && forallb is_nibble s then Some (nibbles_value s) else None.

Lemma parse_nibbles_nibbles u : is_uuid u -> parse_nibbles (nibbles 32 u) = Some u.
Proof.
  intros Hu. unfold parse_nibbles. rewrite nibbles_length, (proj2 (forallb_forall _ _)).
  - cbn [Nat.eqb andb]. f_equal. apply nibbles_value_nibbles. unfold is_uuid, is_u, u_max in Hu.
    change (16 ^ Z.of_nat 32) with (2 ^ 128). lia.
  - intros c Hc%list_elem_of_In. apply nibbles_chars in Hc. unfold is_nibble. apply andb_true_iff. lia.
Qed.
Lemma parse_nibbles_range s u : parse_nibbles s = Some u -> is_uuid u.
Proof.
  unfold parse_nibbles. destruct (_ && _) eqn:Hs; [|done]. intros [= <-].
  apply andb_true_iff in Hs as [Hl Hs]. apply Nat.eqb_eq in Hl.
  apply nibbles_value_range in Hs. rewrite Hl in Hs. change (16 ^ Z.of_nat 32) with (2 ^ 128) in Hs.
  unfold is_uuid, is_u, u_max. lia.
Qed.
Lemma nibbles_plain u c : c ∈ nibbles 32 u -> is_whitespace c = false /\ 0 <= c < 0x80.
Proof.
  intros Hc%nibbles_chars. split; [|lia].
  unfold is_whitespace. rewrite !orb_false_iff, !andb_false_iff, !Z.leb_gt, !Z.eqb_neq. lia.
Qed.
Lemma nibbles_nonempty u : nibbles 32 u <> [].
Proof. done. Qed.

Definition hex_uuid : UuidFmt :=
  Build_UuidFmt (nibbles 32) parse_nibbles parse_nibbles_nibbles parse_nibbles_range nibbles_plain nibbles_nonempty.

Abbreviation AccountId := Z (only parsing).
Abbreviation PlayerId := Z (only parsing).
Abbreviation RoomId := Z (only parsing).
Abbreviation SessionId := Z (only parsing).

(** [DateTime<Utc>]: an instant, in nanoseconds from the Unix epoch. *)
Abbreviation DateTime := Z (only parsing).

Inductive DomainError :=
| InvalidValue (field : string) (reason : rstr)
| RoomFull (room_id : RoomId)
| RoomClosed (room_id : RoomId)
| NotMember (player_id : PlayerId) (room_id : RoomId)
| IllegalTransition (from to : rstr).

Inductive RepoError :=
| RStorage (reason : rstr)
| RConflict (reason : rstr).

#[global] Instance DomainError_eq_dec : EqDecision DomainError.
Proof. solve_decision. Defined.
#[global] Instance RepoError_eq_dec : EqDecision RepoError.
Proof. solve_decision. Defined.

(** [Display] of the errors, from their [#[error("...")]] attributes. *)
Definition DomainError_to_string `{UuidFmt} (e : DomainError) : rstr :=
  match e with
  | InvalidValue field reason => lit field ++ lit " 不合法: " ++ reason
  | RoomFull r => lit "房间 " ++ uuid_to_string r ++ lit " 已满"
  | RoomClosed r => lit "房间 " ++ uuid_to_string r ++ lit " 已关闭"
  | NotMember p r =>
      lit "玩家 " ++ uuid_to_string p ++ lit " 不在房间 " ++ uuid_to_string r ++ lit " 中"
  | IllegalTransition a b => lit "房间状态机不允许从 " ++ a ++ lit " 迁移到 " ++ b
  end.

Definition RepoError_to_string (e : RepoError) : rstr :=
  match e with
  | RStorage r => lit "存储故障: " ++ r
  | RConflict r => lit "数据冲突: " ++ r
  end.

(* ------------------------------------------------------------------ *)
(** ** Username *)
Module Username.

Record Username := mk { as_str : rstr }.

Definition allowed (c : Z) : bool := is_ascii_alphanumeric c || (c =? 95).

Definition try_new (raw : rstr) : result Username DomainError :=
  let trimmed := trim raw in
  if negb ((3 <=? str_len trimmed) && (str_len trimmed <=? 32)) then
    Err (InvalidValue "username" (lit "长度必须在 3~32 之间"))
  else if negb (forallb allowed trimmed) then
    Err (InvalidValue "username" (lit "只能包含字母、数字与下划线"))
  else Ok (mk (to_ascii_lowercase trimmed)).

(** The shape of every username the constructor returns. *)
Definition normal_char (c : Z) : Prop :=
  is_ascii_digit c = true \/ is_ascii_lower c = true \/ c = 95.
Definition valid (u : Username) : Prop :=
  (3 <= length (as_str u) <= 32)%nat /\ Forall normal_char (as_str u).

#[global] Instance eq_dec : EqDecision Username.
Proof. solve_decision. Defined.

Lemma as_str_inj u v : as_str u = as_str v -> u = v.
Proof. destruct u, v. cbn. congruence. Qed.

Lemma allowed_ascii c : allowed c = true -> 0 <= c < 0x80 /\ is_whitespace c = false.
Proof.
  unfold allowed, is_ascii_alphanumeric, is_ascii_digit, is_ascii_upper, is_ascii_lower.
  intros H. rewrite !orb_true_iff, !andb_true_iff, !Z.leb_le, Z.eqb_eq in H.
  split; [lia|]. unfold is_whitespace.
  rewrite !orb_false_iff, !andb_false_iff, !Z.leb_gt, !Z.eqb_neq. lia.
Qed.

Lemma lower_allowed c : allowed c = true -> normal_char (to_ascii_lowercase_char c).
Proof.
  unfold allowed, is_ascii_alphanumeric, to_ascii_lowercase_char, normal_char,
    is_ascii_upper, is_ascii_digit, is_ascii_lower.
  rewrite !orb_true_iff, !andb_true_iff, !Z.leb_le, Z.eqb_eq.
  intros H. case_match; b2p; rewrite ?andb_true_iff, ?Z.leb_le; [lia|].
  apply andb_false_iff in H0. rewrite !Z.leb_gt in H0. lia.
Qed.

Lemma normal_char_allowed c :
  normal_char c -> allowed c = true /\ to_ascii_lowercase_char c = c.
Proof.
  unfold allowed, is_ascii_alphanumeric, to_ascii_lowercase_char, normal_char,
    is_ascii_upper, is_ascii_digit, is_ascii_lower.
  rewrite !orb_true_iff, !andb_true_iff, !Z.leb_le, Z.eqb_eq.
  intros H. split; [lia|]. case_match; [|done]. b2p. lia.
Qed.

Lemma try_new_ok raw u :
  try_new raw = Ok u <->
  3 <= str_len (trim raw) <= 32 /\ forallb allowed (trim raw) = true /\
  u = mk (to_ascii_lowercase (trim raw)).
Proof.
  unfold try_new.
  destruct (3 <=? _) eqn:E1, (str_len _ <=? 32) eqn:E2, (forallb _ _) eqn:E3;
    simpl; b2p; split; try (intros; simplify_eq; done); try lia;
    intros (? & ? & ->); done.
Qed.

Lemma try_new_valid raw u : try_new raw = Ok u -> valid u.
Proof.
  intros (Hlen & Hall & ->)%try_new_ok.
  apply forallb_Forall in Hall as Hall'.
  rewrite str_len_ascii in Hlen.
  2:{ eapply Forall_impl; [exact Hall'|]. intros c Hc. by apply allowed_ascii. }
  split; simpl.
  - rewrite to_ascii_lowercase_length. lia.
  - unfold to_ascii_lowercase. apply Forall_map. eapply Forall_impl; [exact Hall'|].
    simpl. apply lower_allowed.
Qed.

(** A valid username is a fixed point of the constructor. *)
Lemma try_new_valid_id u : valid u -> try_new (as_str u) = Ok u.
Proof.
  destruct u as [s]. intros [Hlen Hall]. simpl in *.
  assert (Forall (fun c => allowed c = true /\ to_ascii_lowercase_char c = c) s) as Hn.
  { eapply Forall_impl; [exact Hall|]. apply normal_char_allowed. }
  assert (trim s = s) as Ht.
  { apply trim_no_ws. eapply Forall_impl; [exact Hn|]. intros c [Hc _].
    by apply allowed_ascii. }
  apply try_new_ok. rewrite Ht. split; [|split].
  - rewrite str_len_ascii; [lia|].
    eapply Forall_impl; [exact Hn|]. intros c [Hc _]. by apply allowed_ascii.
  - apply forallb_Forall. eapply Forall_impl; [exact Hn|]. by intros c [Hc _].
  - f_equal. clear -Hn. induction Hn as [|c s [_ Hc] Hs IH]; [done|].
    unfold to_ascii_lowercase in *. simpl. congruence.
Qed.

(** The constructor accepts exactly the texts whose trimmed form has 3 to
    32 bytes of ASCII letters, digits and underscores; what it returns is the
    trimmed text in lower case, 3 to 32 characters of [0-9a-z_], and is a fixed
    point of the constructor, so normalisation is idempotent and two spellings
    of one name collide. *)
Theorem try_new_normalises (raw : rstr) :
  (forall u, try_new raw = Ok u ->
     as_str u = to_ascii_lowercase (trim raw) /\ valid u /\ try_new (as_str u) = Ok u) /\
  (is_ok (try_new raw) = true <->
     3 <= str_len (trim raw) <= 32 /\ Forall (fun c => allowed c = true) (trim raw)).
Proof.
  split.
  - intros u Hu. pose proof (try_new_valid raw u Hu) as Hv.
    apply try_new_ok in Hu as (_ & _ & ->). auto using try_new_valid_id.
  - rewrite <- forallb_Forall. unfold try_new.
    destruct (3 <=? _) eqn:E1, (str_len _ <=? 32) eqn:E2, (forallb _ _) eqn:E3;
      simpl; b2p; split; intros; try done; try lia.
Qed.

End Username.

(* ------------------------------------------------------------------ *)
(** ** Nickname *)
Module Nickname.

Record Nickname := mk { as_str : rstr }.

Definition try_new (raw : rstr) : result Nickname DomainError :=
  let trimmed := trim raw in
  let count := length trimmed in
  if (count =? 0)%nat || (32 <? count)%nat then
    Err (InvalidValue "nickname" (lit "长度必须在 1~32 个字符之间"))
  else if existsb is_control trimmed then
    Err (InvalidValue "nickname" (lit "不允许包含控制字符"))
  else Ok (mk trimmed).

#[global] Instance eq_dec : EqDecision Nickname.
Proof. solve_decision. Defined.

(** Trimmed, 1 to 32 characters, no control character. *)
Definition valid (n : Nickname) : Prop :=
  (1 <= length (as_str n) <= 32)%nat /\ trim (as_str n) = as_str n /\
  Forall (fun c => is_control c = false) (as_str n).

Lemma nick_new_ok raw n :
  try_new raw = Ok n <->
  (1 <= length (trim raw) <= 32)%nat /\ existsb is_control (trim raw) = false /\
  n = mk (trim raw).
Proof.
  unfold try_new.
  destruct (length (trim raw) =? 0)%nat eqn:E1; simpl;
    [|destruct (32 <? length (trim raw))%nat eqn:E2; simpl].
  - apply Nat.eqb_eq in E1. split; [done|lia].
  - apply Nat.ltb_lt in E2. split; [done|lia].
  - apply Nat.eqb_neq in E1. apply Nat.ltb_ge in E2.
    destruct (existsb _ _); split; intros; destruct_and?; simplify_eq; try done.
    split; [lia|done].
Qed.

Lemma nick_new_valid raw n : try_new raw = Ok n -> valid n.
Proof.
  intros (Hlen & Hc & ->)%nick_new_ok. split; [done|].
  split; simpl; [apply trim_idemp|by apply existsb_Forall].
Qed.

Lemma nick_new_valid_id n : valid n -> try_new (as_str n) = Ok n.
Proof.
  destruct n as [s]. intros (Hl & Ht & Hc). simpl in *. apply nick_new_ok.
  rewrite Ht. split; [done|]. split; [by apply existsb_Forall|done].
Qed.

(** The constructor accepts exactly the texts whose trimmed form has 1 to
    32 characters and no control character, and stores the trimmed text; a
    stored nickname is accepted again unchanged. *)
Theorem try_new_trims (raw : rstr) :
  (forall n, try_new raw = Ok n ->
     as_str n = trim raw /\ valid n /\ try_new (as_str n) = Ok n) /\
  (is_ok (try_new raw) = true <->
     (1 <= length (trim raw) <= 32)%nat /\ Forall (fun c => is_control c = false) (trim raw)).
Proof.
  split.
  - intros n Hn. pose proof (nick_new_valid raw n Hn) as Hv.
    apply nick_new_ok in Hn as (_ & _ & ->). auto using nick_new_valid_id.
  - rewrite <- existsb_Forall. split.
    + intros H. destruct (try_new raw) as [n|] eqn:E; [|done].
      by apply nick_new_ok in E as (? & ? & _).
    + intros [Hl Hc]. assert (try_new raw = Ok (mk (trim raw))) as ->; [|done].
      by apply nick_new_ok.
Qed.

End Nickname.

(* ------------------------------------------------------------------ *)
(** ** Passwords *)
Module PlainPassword.

Record PlainPassword := mk { expose : rstr }.

Definition try_new (raw : rstr) : result PlainPassword DomainError :=
  let len := str_len raw in
  if negb ((8 <=? len) && (len <=? 128)) then
    Err (InvalidValue "password" (lit "长度必须在 8~128 字节之间"))
  else if existsb is_control raw then
    Err (InvalidValue "password" (lit "不允许包含控制字符"))
  else Ok (mk raw).

(** [Debug] and [Display]: always masked. *)
Definition debug (p : PlainPassword) : rstr := lit "PlainPassword(***)".
Definition display (p : PlainPassword) : rstr := lit "***".

Lemma password_new_ok raw p :
  try_new raw = Ok p <->
  8 <= str_len raw <= 128 /\ existsb is_control raw = false /\ p = mk raw.
Proof.
  unfold try_new.
  destruct (8 <=? _) eqn:E1, (str_len _ <=? 128) eqn:E2, (existsb _ _) eqn:E3;
    simpl; b2p; split; intros; destruct_and?; simplify_eq; try done; lia.
Qed.

End PlainPassword.

Module PasswordHash.

Record PasswordHash := mk { expose : rstr }.

Definition new (hash : rstr) : PasswordHash := mk hash.
Definition debug (h : PasswordHash) : rstr := lit "PasswordHash(***)".

#[global] Instance eq_dec : EqDecision PasswordHash.
Proof. solve_decision. Defined.

End PasswordHash.

Abbreviation Username := Username.Username.
Abbreviation Nickname := Nickname.Nickname.
Abbreviation PlainPassword := PlainPassword.PlainPassword.
Abbreviation PasswordHash := PasswordHash.PasswordHash.
