(* ===== verification/Account.v ===== *)
(** The account aggregate ([domain/src/account/aggregate.rs]): credentials and
    the status machine Active / Suspended / Banned, with the state code the
    database stores. *)
From S2P Require Import Prelude Text Values.
From Stdlib Require Import Strings.String.
Open Scope Z_scope.
Open Scope list_scope.

Inductive AccountStatus :=
| Active
| Suspended
| Banned (reason : rstr) (until : option DateTime).

#[global] Instance AccountStatus_eq_dec : EqDecision AccountStatus.
Proof. solve_decision. Defined.

Definition allows_login (s : AccountStatus) (now : DateTime) : bool :=
  match s with
  | Active => true
  | Suspended => false
  | Banned _ until => match until with Some u => u <=? now | None => false end
  end.

Definition code (s : AccountStatus) : Z :=
  match s with Active => 0 | Suspended => 1 | Banned _ _ => 2 end.

Record Account := mkAccount {
  acc_id : AccountId;
  acc_username : Username;
  acc_password_hash : PasswordHash;
  acc_status : AccountStatus;
  acc_created_at : DateTime
}.

#[global] Instance Account_eq_dec : EqDecision Account.
Proof. solve_decision. Defined.

(** [Account::register]; the fresh UUIDv7 is an argument. *)
Definition register (new_id : AccountId) (u : Username) (h : PasswordHash) (now : DateTime) : Account :=
  {| acc_id := new_id; acc_username := u; acc_password_hash := h;
     acc_status := Active; acc_created_at := now |}.

Definition reconstitute (id : AccountId) (u : Username) (h : PasswordHash)
    (s : AccountStatus) (created_at : DateTime) : Account :=
  {| acc_id := id; acc_username := u; acc_password_hash := h;
     acc_status := s; acc_created_at := created_at |}.

Definition set_status (a : Account) (s : AccountStatus) : Account :=
  {| acc_id := acc_id a; acc_username := acc_username a;
     acc_password_hash := acc_password_hash a; acc_status := s;
     acc_created_at := acc_created_at a |}.

Definition suspend (a : Account) : Account := set_status a Suspended.
Definition ban (a : Account) (reason : rstr) (until : option DateTime) : Account :=
  set_status a (Banned reason until).
Definition activate (a : Account) : Account := set_status a Active.

(** The administrative operations as a step relation. *)
Inductive admin_step : Account -> Account -> Prop :=
| admin_suspend a : admin_step a (suspend a)
| admin_ban a reason until : admin_step a (ban a reason until)
| admin_activate a : admin_step a (activate a).

(** When a status permits a login, as the instant from which it does:
    [Some None] always, [Some (Some t)] from [t] on, [None] never. *)
Definition login_from (s : AccountStatus) : option (option DateTime) :=
  match s with
  | Active => Some None
  | Suspended => None
  | Banned _ (Some u) => Some (Some u)
  | Banned _ None => None
  end.

Lemma allows_login_spec s now :
  allows_login s now = true <->
  match login_from s with
  | None => False
  | Some None => True
  | Some (Some t) => t <= now
  end.
Proof.
  destruct s as [| |r [u|]]; simpl; try (split; done). apply Z.leb_le.
Qed.

(** Whatever administrative history an account has, its identity, name,
    credentials and creation time never change, and its permission to log in is
    monotone in time: once the last status allows a login it keeps allowing it
    until the next administrative operation. *)
Theorem admin_history_safe (a a' : Account) :
  star admin_step a a' ->
  acc_id a' = acc_id a /\ acc_username a' = acc_username a /\
  acc_password_hash a' = acc_password_hash a /\ acc_created_at a' = acc_created_at a /\
  (forall t1 t2, t1 <= t2 -> allows_login (acc_status a') t1 = true ->
                 allows_login (acc_status a') t2 = true).
Proof.
  intros Hs. split_and!.
  1-4: induction Hs as [|b c ? IH Hstep]; [done|]; by destruct Hstep.
  intros t1 t2 Ht. rewrite !allows_login_spec. repeat case_match; try done. lia.
Qed.

Lemma admin_history_safe_witness :
  allows_login (acc_status
    (ban (register 7 (Username.mk (lit "alice")) (PasswordHash.mk (lit "h")) 100)
         (lit "cheating") (Some 500))) 600 = true.
Proof.
  refine (proj2 (proj2 (proj2 (proj2 (admin_history_safe
    (register 7 (Username.mk (lit "alice")) (PasswordHash.mk (lit "h")) 100) _ _)))) 500 600 _ _).
  - eapply star_snoc; [apply star_refl|apply admin_ban].
  - lia.
  - reflexivity.
Defined.
