(* ===== verification/Player.v ===== *)
(** The player aggregate ([domain/src/player/aggregate.rs]): profile and
    growth.  [gain_exp] is the level-up loop; its saturating 64-bit arithmetic
    is kept. *)
From S2P Require Import Prelude Text Values.
From Stdlib Require Import Strings.String.
Open Scope Z_scope.
Open Scope list_scope.

Definition MAX_LEVEL : Z := 999.
Definition EXP_PER_LEVEL : Z := 100.

Record Player := mkPlayer {
  pl_id : PlayerId;
  pl_account_id : AccountId;
  pl_nickname : Nickname;
  pl_level : Z;            (* u32 *)
  pl_exp : Z;              (* u64 *)
  pl_last_login_at : option DateTime;
  pl_created_at : DateTime
}.

#[global] Instance Player_eq_dec : EqDecision Player.
Proof. solve_decision. Defined.

(** [Player::create]; the fresh UUIDv7 is an argument. *)
Definition create (new_id : PlayerId) (account_id : AccountId) (nickname : Nickname)
    (now : DateTime) : Player :=
  {| pl_id := new_id; pl_account_id := account_id; pl_nickname := nickname;
     pl_level := 1; pl_exp := 0; pl_last_login_at := None; pl_created_at := now |}.

Definition reconstitute (id : PlayerId) (account_id : AccountId) (nickname : Nickname)
    (level exp : Z) (last_login_at : option DateTime) (created_at : DateTime) : Player :=
  {| pl_id := id; pl_account_id := account_id; pl_nickname := nickname;
     pl_level := level; pl_exp := exp; pl_last_login_at := last_login_at;
     pl_created_at := created_at |}.

Definition exp_to_next (level : Z) : Z := saturating_mul 64 EXP_PER_LEVEL level.

Definition set_growth (p : Player) (level exp : Z) : Player :=
  {| pl_id := pl_id p; pl_account_id := pl_account_id p; pl_nickname := pl_nickname p;
     pl_level := level; pl_exp := exp; pl_last_login_at := pl_last_login_at p;
     pl_created_at := pl_created_at p |}.

(** The condition of the [while] loop and its body, on (level, exp). *)
Definition can_level_up (level exp : Z) : bool :=
  (level <? MAX_LEVEL) && (exp_to_next level <=? exp).
Definition level_up (level exp : Z) : Z * Z :=
  (saturating_add 32 level 1, exp - exp_to_next level).

(** The loop on (level, exp, new_level).  Every iteration raises the level, so
    [MAX_LEVEL - level] iterations are enough; [level_loop_while] shows that
    this function satisfies the loop's own equation. *)
Fixpoint level_loop_n (n : nat) (level exp : Z) (new_level : option Z) : Z * Z * option Z :=
  match n with
  | O => (level, exp, new_level)
  | S n' =>
      if can_level_up level exp then
        let '(level', exp') := level_up level exp in
        level_loop_n n' level' exp' (Some level')
      else (level, exp, new_level)
  end.
Definition level_loop (level exp : Z) (new_level : option Z) : Z * Z * option Z :=
  level_loop_n (Z.to_nat (MAX_LEVEL - level)) level exp new_level.

(** [Player::gain_exp]: the updated player and the level reached, if any. *)
Definition gain_exp (p : Player) (amount : Z) : Player * option Z :=
  let exp := saturating_add 64 (pl_exp p) amount in
  let '(level', exp', new_level) := level_loop (pl_level p) exp None in
  (set_growth p level' exp', new_level).

Definition record_login (p : Player) (at_ : DateTime) : Player :=
  {| pl_id := pl_id p; pl_account_id := pl_account_id p; pl_nickname := pl_nickname p;
     pl_level := pl_level p; pl_exp := pl_exp p; pl_last_login_at := Some at_;
     pl_created_at := pl_created_at p |}.

(** Field ranges: [level: u32], [exp: u64]. *)
Definition in_range (p : Player) : Prop := is_u 32 (pl_level p) /\ is_u 64 (pl_exp p).

(** No pending level-up. *)
Definition settled (level exp : Z) : Prop := MAX_LEVEL <= level \/ exp < exp_to_next level.

(** Experience spent to go from level 0 to [level]: the sum of 100*l. *)
Definition spent (level : Z) : Z := EXP_PER_LEVEL * (level * (level - 1) / 2).

(* ------------------------------------------------------------------ *)
(** ** Lemmas *)

Lemma exp_to_next_eq level : is_u 32 level -> exp_to_next level = 100 * level.
Proof. unfold exp_to_next, EXP_PER_LEVEL. mlia. Qed.

Lemma spent_succ level : spent (level + 1) = spent level + 100 * level.
Proof.
  unfold spent, EXP_PER_LEVEL.
  replace ((level + 1) * (level + 1 - 1)) with (level * (level - 1) + level * 2) by ring.
  rewrite Z.div_add by lia. ring.
Qed.

Lemma spent_mono a b : 0 <= a <= b -> spent a <= spent b.
Proof.
  intros [Ha Hab]. replace b with (a + (b - a)) by lia.
  pattern (b - a). apply natlike_ind; [by rewrite Z.add_0_r| |lia].
  intros x Hx IH. replace (a + Z.succ x) with ((a + x) + 1) by lia.
  rewrite spent_succ. nia.
Qed.

Lemma spent_nonneg a : 0 <= a -> 0 <= spent a.
Proof. intros. change 0 with (spent 0). apply spent_mono. lia. Qed.

Lemma can_level_up_true level exp :
  is_u 32 level -> can_level_up level exp = true <-> level < 999 /\ 100 * level <= exp.
Proof.
  intros H. unfold can_level_up. rewrite exp_to_next_eq by done.
  rewrite andb_true_iff, Z.ltb_lt, Z.leb_le. done.
Qed.

Lemma settled_iff level exp :
  is_u 32 level -> settled level exp <-> can_level_up level exp = false.
Proof.
  intros H. unfold settled, can_level_up, MAX_LEVEL.
  rewrite andb_false_iff, Z.ltb_ge, Z.leb_gt. done.
Qed.

Lemma level_up_eq level exp :
  is_u 32 level -> level < 999 -> level_up level exp = (level + 1, exp - 100 * level).
Proof.
  intros H ?. unfold level_up. rewrite exp_to_next_eq by done. f_equal. mlia.
Qed.

(** The specification of the loop: where it ends, what it conserves, that it
    stops, and what it reports. *)
Lemma level_loop_n_spec n level exp new_level level' exp' new_level' :
  is_u 32 level -> 0 <= exp -> (Z.to_nat (999 - level) <= n)%nat ->
  level_loop_n n level exp new_level = (level', exp', new_level') ->
  level <= level' <= Z.max level 999 /\ is_u 32 level' /\ 0 <= exp' <= exp /\
  spent level' + exp' = spent level + exp /\
  settled level' exp' /\
  new_level' = (if level <? level' then Some level' else new_level).
Proof.
  revert level exp new_level. induction n as [|n IH]; intros level exp nl Hl He Hn; cbn [level_loop_n].
  - intros [= <- <- <-]. split_and!; try lia; try done.
    + left. unfold MAX_LEVEL. lia.
    + by rewrite Z.ltb_irrefl.
  - destruct (can_level_up level exp) eqn:Ec.
    + apply can_level_up_true in Ec as [Hlt Hle]; [|done].
      rewrite level_up_eq by done. intros Hloop.
      apply IH in Hloop as (H1 & H2 & H3 & H4 & H5 & ->); [|mlia|lia|lia].
      rewrite spent_succ in H4. split_and!; try mlia; try done.
      destruct (Z.ltb_spec (level + 1) level'), (Z.ltb_spec level level'); try done; try lia.
      f_equal. lia.
    + intros [= <- <- <-]. split_and!; try lia; try done.
      * by apply settled_iff.
      * by rewrite Z.ltb_irrefl.
Qed.

(** The level-up function satisfies the equation of the source's [while]
    loop, so the number of iterations it is given always suffices and the loop
    terminates for every level and experience of the types. *)
Theorem level_loop_while (level exp : Z) (new_level : option Z) :
  is_u 32 level ->
  level_loop level exp new_level =
    (if can_level_up level exp then
       let '(level', exp') := level_up level exp in level_loop level' exp' (Some level')
     else (level, exp, new_level)).
Proof.
  intros Hl. unfold level_loop, MAX_LEVEL.
  destruct (can_level_up level exp) eqn:Ec.
  - apply can_level_up_true in Ec as Ec'; [|done]. destruct Ec' as [Hlt Hle].
    replace (Z.to_nat (999 - level)) with (S (Z.to_nat (999 - (level + 1)))) by lia.
    cbn [level_loop_n]. rewrite Ec. by rewrite level_up_eq.
  - destruct (Z.to_nat (999 - level)); cbn [level_loop_n]; [done|]. by rewrite Ec.
Qed.

Lemma level_loop_while_witness :
  level_loop 1 600 None = level_loop 2 500 (Some 2) /\ level_loop 1 600 None = (4, 0, Some 4).
Proof.
  split; [|reflexivity].
  rewrite (level_loop_while 1 600 None); [reflexivity|].
  unfold is_u, u_max; split; lia.
Defined.

(** The result of [gain_exp] in one statement, for the lemmas below. *)
Lemma gain_exp_spec p amount p' nl :
  in_range p -> is_u 64 amount -> gain_exp p amount = (p', nl) ->
  p' = set_growth p (pl_level p') (pl_exp p') /\ in_range p' /\
  pl_level p <= pl_level p' <= Z.max (pl_level p) MAX_LEVEL /\
  spent (pl_level p') + pl_exp p' = spent (pl_level p) + saturating_add 64 (pl_exp p) amount /\
  settled (pl_level p') (pl_exp p') /\
  nl = (if pl_level p <? pl_level p' then Some (pl_level p') else None).
Proof.
  intros [Hl He] Ha. unfold gain_exp.
  destruct (level_loop _ _ _) as [[l' e'] nl'] eqn:E. intros [= <- <-].
  apply level_loop_n_spec in E as (H1 & H2 & H3 & H4 & H5 & ->); [|done|mlia|done].
  pose proof (saturating_add_range 64 (pl_exp p) amount ltac:(lia) ltac:(mlia) ltac:(mlia)).
  simpl. split; [done|]. split; [split; [done|]; simpl; mlia|].
  split; [unfold MAX_LEVEL; lia|]. done.
Qed.

(** A settled pair is determined by the conserved total. *)
Lemma settled_unique l1 e1 l2 e2 :
  is_u 32 l1 -> is_u 32 l2 -> 0 <= e1 -> 0 <= e2 ->
  l1 <= 999 -> l2 <= 999 ->
  settled l1 e1 -> settled l2 e2 -> spent l1 + e1 = spent l2 + e2 -> l1 = l2 /\ e1 = e2.
Proof.
  intros Hl1 Hl2 ? ? ? ? Hs1 Hs2 Heq.
  apply settled_iff in Hs1, Hs2; try done.
  assert (forall l e l' e', is_u 32 l -> is_u 32 l' -> 0 <= e' -> l' <= 999 ->
    can_level_up l e = false -> spent l + e = spent l' + e' -> ~ l < l') as Hno.
  { intros l e l' e' Hl Hl' ? ? Hc Hq Hlt.
    assert (~ 100 * l <= e) by (intros ?; assert (can_level_up l e = true)
      by (apply can_level_up_true; [done|lia]); congruence).
    pose proof (spent_mono (l + 1) l' ltac:(mlia)). rewrite spent_succ in *. lia. }
  pose proof (Hno l1 e1 l2 e2). pose proof (Hno l2 e2 l1 e1).
  assert (l1 = l2) as -> by (destruct (Z.lt_trichotomy l1 l2) as [?|[?|?]]; naive_solver).
  split; [done|lia].
Qed.

Lemma set_growth_set p l1 e1 l2 e2 :
  set_growth (set_growth p l1 e1) l2 e2 = set_growth p l2 e2.
Proof. done. Qed.

(** C10: granting experience settles the player: identity, nickname and login
    time are kept, level and experience stay in their types, the level never
    drops and never passes 999 by growth, the experience spent on levels plus the
    remainder equals what the player had plus the (saturating) grant, no further
    level-up is pending, and the reported level is the new level exactly when the
    level rose.  For a player up to level 999 the outcome is the only one with
    these properties. *)
Theorem gain_exp_correct (p : Player) (amount : Z) (p' : Player) (nl : option Z) :
  in_range p -> is_u 64 amount -> gain_exp p amount = (p', nl) ->
  p' = set_growth p (pl_level p') (pl_exp p') /\ in_range p' /\
  pl_level p <= pl_level p' <= Z.max (pl_level p) MAX_LEVEL /\
  spent (pl_level p') + pl_exp p' = spent (pl_level p) + saturating_add 64 (pl_exp p) amount /\
  settled (pl_level p') (pl_exp p') /\
  nl = (if pl_level p <? pl_level p' then Some (pl_level p') else None) /\
  (pl_level p <= MAX_LEVEL ->
   forall l e, 0 <= l <= MAX_LEVEL -> 0 <= e -> settled l e ->
     spent l + e = spent (pl_level p) + saturating_add 64 (pl_exp p) amount ->
     l = pl_level p' /\ e = pl_exp p').
Proof.
  intros Hp Ha Hg. pose proof (gain_exp_spec _ _ _ _ Hp Ha Hg) as (H1 & H2 & H3 & H4 & H5 & H6).
  do 6 (split; [done|]). unfold MAX_LEVEL in *. intros Hmax l e Hl He Hs Heq.
  apply settled_unique; try done; try (destruct H2; mlia); lia.
Qed.

Lemma gain_exp_correct_witness :
  let p := create 1 2 (Nickname.mk (lit "x")) 0 in
  gain_exp p 650 = (set_growth p 4 50, Some 4) /\
  spent 4 + 50 = spent 1 + saturating_add 64 0 650.
Proof.
  split; [reflexivity|].
  refine (proj1 (proj2 (proj2 (proj2 (gain_exp_correct
    (create 1 2 (Nickname.mk (lit "x")) 0) 650
    (set_growth (create 1 2 (Nickname.mk (lit "x")) 0) 4 50) (Some 4) _ _ _))))).
  - split; unfold is_u, u_max; simpl; lia.
  - unfold is_u, u_max; lia.
  - reflexivity.
Defined.

(** Two grants in a row have the effect of one grant of their sum whenever
    the total does not overflow 64 bits: the same player, and the level reported
    by the single grant is the last level the two grants report.  Batching or
    splitting a reward does not change the outcome. *)
Theorem gain_exp_batch (p p1 p2 : Player) (a b : Z) (n1 n2 : option Z) :
  in_range p -> 0 <= a -> 0 <= b -> pl_exp p + a + b <= u_max 64 ->
  gain_exp p a = (p1, n1) -> gain_exp p1 b = (p2, n2) ->
  gain_exp p (a + b) = (p2, match n2 with Some l => Some l | None => n1 end).
Proof.
  intros Hp Ha Hb Hsum H1 H2.
  destruct (gain_exp p (a + b)) as [q n] eqn:Hq.
  pose proof Hp as [Hpl Hpe].
  apply gain_exp_spec in H1 as (E1 & R1 & L1 & S1 & T1 & ->); [|done|mlia].
  pose proof R1 as [R1l R1e].
  rewrite saturating_add_exact in S1 by lia.
  assert (pl_exp p1 <= pl_exp p + a).
  { pose proof (spent_mono (pl_level p) (pl_level p1) ltac:(mlia)). lia. }
  apply gain_exp_spec in H2 as (E2 & R2 & L2 & S2 & T2 & ->); [|done|mlia].
  rewrite saturating_add_exact in S2 by lia. pose proof R2 as [R2l R2e].
  apply gain_exp_spec in Hq as (E3 & R3 & L3 & S3 & T3 & ->); [|done|mlia].
  rewrite saturating_add_exact in S3 by lia. pose proof R3 as [R3l R3e].
  unfold MAX_LEVEL in *.
  assert (pl_level q = pl_level p2 /\ pl_exp q = pl_exp p2) as [Hlq Heq].
  { destruct (Z.le_gt_cases (pl_level p) 999).
    - apply settled_unique; try done; try mlia; lia.
    - assert (pl_level q = pl_level p) as A3 by lia.
      assert (pl_level p1 = pl_level p) as A1 by lia.
      assert (pl_level p2 = pl_level p) as A2 by lia.
      rewrite A1 in S1. rewrite A1, A2 in S2. rewrite A3 in S3. lia. }
  assert (q = p2) as -> by (rewrite E3, E2, E1, set_growth_set; congruence).
  f_equal.
  repeat match goal with |- context [?x <? ?y] => destruct (Z.ltb_spec x y) end;
    try done; try lia; f_equal; lia.
Qed.

Lemma gain_exp_batch_witness :
  let p := create 1 2 (Nickname.mk (lit "x")) 0 in
  gain_exp p (250 + 400) = (set_growth p 4 50, Some 4).
Proof.
  refine (gain_exp_batch (create 1 2 (Nickname.mk (lit "x")) 0)
    (set_growth (create 1 2 (Nickname.mk (lit "x")) 0) 2 150) _ 250 400 (Some 2) (Some 4)
    _ _ _ _ _ _).
  - split; unfold is_u, u_max; simpl; lia.
  - lia.
  - lia.
  - simpl. unfold u_max. lia.
  - reflexivity.
  - reflexivity.
Defined.

(** The extreme grant of the source's own test: [u64::MAX] from level 1. *)
Example gain_exp_max_level :
  snd (gain_exp (create 1 2 (Nickname.mk (lit "x")) 0) (u_max 64)) = Some MAX_LEVEL.
Proof. vm_compute. reflexivity. Qed.
