(* ===== verification/Room.v ===== *)
(** The room aggregate ([domain/src/room/aggregate.rs]): members, capacity and
    the life-cycle state machine.  [RoomSpec] is the contract the actor relies
    on (a set of members under a capacity, open or closed) and
    [room_refines_spec] shows the list implementation meets it. *)
From S2P Require Import Prelude Text Values.
From Stdlib Require Import Strings.String.
Open Scope Z_scope.
Open Scope list_scope.
Abbreviation length := Datatypes.length.

Inductive RoomState := Waiting | InProgress | Settling | Closed.

#[global] Instance RoomState_eq_dec : EqDecision RoomState.
Proof. solve_decision. Defined.

Definition RoomState_to_string (s : RoomState) : rstr :=
  match s with
  | Waiting => lit "Waiting"
  | InProgress => lit "InProgress"
  | Settling => lit "Settling"
  | Closed => lit "Closed"
  end.

Record Room := mkRoom {
  rm_id : RoomId;
  rm_members : list PlayerId;
  rm_max_players : Z;      (* u32 *)
  rm_state : RoomState;
  rm_created_at : DateTime
}.

#[global] Instance Room_eq_dec : EqDecision Room.
Proof. solve_decision. Defined.

(** [Room::open]; the fresh UUIDv7 is an argument. *)
Definition open (new_id : RoomId) (max_players : Z) (now : DateTime) : Room :=
  {| rm_id := new_id; rm_members := []; rm_max_players := Z.max max_players 1;
     rm_state := Waiting; rm_created_at := now |}.

Definition reconstitute (id : RoomId) (members : list PlayerId) (max_players : Z)
    (state : RoomState) (created_at : DateTime) : Room :=
  {| rm_id := id; rm_members := members; rm_max_players := max_players;
     rm_state := state; rm_created_at := created_at |}.

Definition set_members (r : Room) (ms : list PlayerId) : Room :=
  {| rm_id := rm_id r; rm_members := ms; rm_max_players := rm_max_players r;
     rm_state := rm_state r; rm_created_at := rm_created_at r |}.
Definition set_state (r : Room) (s : RoomState) : Room :=
  {| rm_id := rm_id r; rm_members := rm_members r; rm_max_players := rm_max_players r;
     rm_state := s; rm_created_at := rm_created_at r |}.

Definition member_count (r : Room) : nat := length (rm_members r).
Definition is_full (r : Room) : bool := rm_max_players r <=? Z.of_nat (member_count r).
Definition is_closed (r : Room) : bool := bool_decide (rm_state r = Closed).

Definition try_join (r : Room) (player : PlayerId) : result bool DomainError * Room :=
  if is_closed r then (Err (RoomClosed (rm_id r)), r)
  else if bool_decide (player ∈ rm_members r) then (Ok false, r)
  else if is_full r then (Err (RoomFull (rm_id r)), r)
  else (Ok true, set_members r (rm_members r ++ [player])).

Definition try_leave (r : Room) (player : PlayerId) : result bool DomainError * Room :=
  if is_closed r then (Err (RoomClosed (rm_id r)), r)
  else
    let before := length (rm_members r) in
    let r' := set_members r (filter (.≠ player) (rm_members r)) in
    (Ok (negb (length (rm_members r') =? before)%nat), r').

Definition transition_to (r : Room) (target : RoomState) : result unit DomainError * Room :=
  let allowed :=
    match rm_state r, target with
    | Waiting, InProgress | InProgress, Settling | Settling, Closed => true
    | _, _ => false
    end in
  if negb allowed then
    (Err (IllegalTransition (RoomState_to_string (rm_state r)) (RoomState_to_string target)), r)
  else (Ok tt, set_state r target).

Definition close (r : Room) : bool * Room :=
  if is_closed r then (false, r) else (true, set_state r Closed).

(* ------------------------------------------------------------------ *)
(** ** Invariant over every history of operations *)

Inductive room_step : Room -> Room -> Prop :=
| step_join r p : room_step r (snd (try_join r p))
| step_leave r p : room_step r (snd (try_leave r p))
| step_transition r s : room_step r (snd (transition_to r s))
| step_close r : room_step r (snd (close r)).

(** Position of a state in the life cycle. *)
Definition rank (s : RoomState) : nat :=
  match s with Waiting => 0 | InProgress => 1 | Settling => 2 | Closed => 3 end.

Definition wf (r : Room) : Prop :=
  NoDup (rm_members r) /\ Z.of_nat (member_count r) <= rm_max_players r.

Lemma try_join_wf r p : wf r -> wf (snd (try_join r p)).
Proof.
  intros [Hnd Hcap]. unfold try_join, is_full. case_match; [done|].
  case_bool_decide; [done|]. case_match; b2p; [done|].
  split; simpl.
  - apply NoDup_app. split; [done|]. split; [set_solver|]. apply NoDup_singleton.
  - unfold member_count in *. simpl. rewrite length_app. simpl. lia.
Qed.

Lemma try_leave_wf r p : wf r -> wf (snd (try_leave r p)).
Proof.
  intros [Hnd Hcap]. unfold try_leave. case_match; [done|]. simpl. split; simpl.
  - by apply NoDup_filter.
  - unfold member_count in *. simpl. pose proof (length_filter (.≠ p) (rm_members r)). lia.
Qed.

Lemma room_step_wf r r' : wf r -> room_step r r' -> wf r'.
Proof.
  intros Hwf Hs. destruct Hs; auto using try_join_wf, try_leave_wf.
  - unfold transition_to. case_match; done.
  - unfold close. case_match; done.
Qed.

Lemma room_step_frame r r' :
  room_step r r' ->
  rm_id r' = rm_id r /\ rm_max_players r' = rm_max_players r /\
  rm_created_at r' = rm_created_at r /\ (rank (rm_state r) <= rank (rm_state r'))%nat /\
  (rm_state r = Closed -> r' = r).
Proof.
  assert (forall r, rm_state r = Closed -> is_closed r = true) as Hc
    by (intros; by apply bool_decide_eq_true).
  intros Hs; destruct Hs; unfold try_join, try_leave, transition_to, close, is_full.
  - repeat case_match; split_and!; try done; intros E%Hc; congruence.
  - repeat case_match; split_and!; try done; intros E%Hc; congruence.
  - destruct (rm_state r) eqn:Es, s; simpl; rewrite ?Es; split_and!; try done; simpl; lia.
  - destruct (is_closed r) eqn:E; simpl; split_and!; try done.
    + destruct (rm_state r); simpl; lia.
    + intros E'%Hc; congruence.
Qed.

(** C11: in every room reachable from [Room::open] by joins, leaves,
    transitions and closes in any order, members are distinct, their number is
    within the capacity fixed at opening (at least one), identity, capacity and
    creation time never change, the life cycle only moves forward, and a closed
    room never changes again. *)
Theorem room_reachable_invariant (id max now : Z) (r r' : Room) :
  star room_step (open id max now) r -> star room_step r r' ->
  NoDup (rm_members r) /\ Z.of_nat (member_count r) <= Z.max max 1 /\
  rm_id r = id /\ rm_max_players r = Z.max max 1 /\ rm_created_at r = now /\
  (rank (rm_state r) <= rank (rm_state r'))%nat /\ (rm_state r = Closed -> r' = r).
Proof.
  intros Hr Hr'.
  assert (wf r /\ rm_id r = id /\ rm_max_players r = Z.max max 1 /\ rm_created_at r = now)
    as ([Hnd Hcap] & Hid & Hmax & Hat).
  { pattern r. apply (star_invariant room_step) with (3 := Hr).
    - intros a b (Hwf & Hid & Hm & Ha) Hs. split; [by eapply room_step_wf|].
      apply room_step_frame in Hs as (? & ? & ? & _). split_and!; congruence.
    - split; [|done]. split; [apply NoDup_nil_2|]. unfold member_count. simpl. lia. }
  split; [done|]. split; [lia|]. do 3 (split; [done|]). clear -Hr'.
  induction Hr' as [|b c Hb [IH1 IH2] Hs]; [done|].
  apply room_step_frame in Hs as (_ & _ & _ & Hrank & Hcl). split; [lia|].
  intros E. pose proof (IH2 E) as ->. by apply Hcl.
Qed.

Lemma room_reachable_invariant_witness :
  Z.of_nat (member_count (snd (try_join (snd (try_join (open 5 1 0) 11)) 12))) <= Z.max 1 1.
Proof.
  refine (proj1 (proj2 (room_reachable_invariant 5 1 0 _
    (snd (try_join (snd (try_join (open 5 1 0) 11)) 12)) _ _))).
  - eapply star_snoc; [eapply star_snoc; [apply star_refl|]|]; apply step_join.
  - apply star_refl.
Defined.

(* ------------------------------------------------------------------ *)
(** ** The membership contract and its refinement *)
Module RoomSpec.

(** A room as its clients see it: a set of members under a capacity. *)
Record AbsRoom := mkAbs { ar_id : RoomId; ar_members : gset PlayerId; ar_cap : Z; ar_open : bool }.

Definition join (a : AbsRoom) (p : PlayerId) : result bool DomainError * AbsRoom :=
  if negb (ar_open a) then (Err (RoomClosed (ar_id a)), a)
  else if decide (p ∈ ar_members a) then (Ok false, a)
  else if ar_cap a <=? Z.of_nat (size (ar_members a)) then (Err (RoomFull (ar_id a)), a)
  else (Ok true, mkAbs (ar_id a) ({[p]} ∪ ar_members a) (ar_cap a) true).

Definition leave (a : AbsRoom) (p : PlayerId) : result bool DomainError * AbsRoom :=
  if negb (ar_open a) then (Err (RoomClosed (ar_id a)), a)
  else (Ok (bool_decide (p ∈ ar_members a)),
        mkAbs (ar_id a) (ar_members a ∖ {[p]}) (ar_cap a) true).

Definition close (a : AbsRoom) : bool * AbsRoom :=
  (ar_open a, mkAbs (ar_id a) (ar_members a) (ar_cap a) false).

End RoomSpec.

(** The abstraction function: forget the order of the members. *)
Definition abs_room (r : Room) : RoomSpec.AbsRoom :=
  RoomSpec.mkAbs (rm_id r) (list_to_set (rm_members r)) (rm_max_players r) (negb (is_closed r)).

Lemma set_members_closed r ms : is_closed (set_members r ms) = is_closed r.
Proof. done. Qed.

Lemma abs_join r p :
  wf r -> (fst (try_join r p), abs_room (snd (try_join r p))) = RoomSpec.join (abs_room r) p.
Proof.
  intros [Hnd _]. unfold try_join, RoomSpec.join, abs_room. simpl.
  destruct (is_closed r) eqn:Ec; simpl; [by rewrite Ec|].
  rewrite size_list_to_set by done. unfold is_full, member_count.
  destruct (decide (p ∈ list_to_set _)) as [Hin|Hin];
    rewrite elem_of_list_to_set in Hin.
  - rewrite bool_decide_true by done. simpl. by rewrite Ec.
  - rewrite bool_decide_false by done.
    destruct (_ <=? _); simpl; [by rewrite Ec|].
    rewrite set_members_closed, Ec. do 2 f_equal.
    rewrite list_to_set_app_L. simpl. set_solver.
Qed.

Lemma abs_leave r p :
  wf r -> (fst (try_leave r p), abs_room (snd (try_leave r p))) = RoomSpec.leave (abs_room r) p.
Proof.
  intros [Hnd _]. unfold try_leave, RoomSpec.leave, abs_room. simpl.
  destruct (is_closed r) eqn:Ec; simpl; [by rewrite Ec|].
  rewrite set_members_closed, Ec. f_equal; [f_equal|f_equal].
  - destruct (decide (p ∈ rm_members r)) as [Hin|Hin].
    + rewrite bool_decide_true by by apply elem_of_list_to_set.
      pose proof (length_filter_ne p _ Hnd Hin).
      destruct (Nat.eqb_spec (length (filter (.≠ p) (rm_members r))) (length (rm_members r)));
        [lia|done].
    + rewrite bool_decide_false by by rewrite elem_of_list_to_set.
      by rewrite filter_ne_id, Nat.eqb_refl.
  - apply set_eq. intros x.
    rewrite elem_of_difference, !elem_of_list_to_set, list_elem_of_filter, elem_of_singleton.
    naive_solver.
Qed.

(** On every reachable room the list implementation gives the answers of
    the contract and moves to the corresponding abstract room: joining adds the
    player exactly when the room is open, the player is new and there is a free
    place; leaving removes the player and reports whether it was a member; a
    closed room refuses both; closing reports whether it was open. *)
Theorem room_refines_spec (r : Room) (p : PlayerId) :
  wf r ->
  (fst (try_join r p), abs_room (snd (try_join r p))) = RoomSpec.join (abs_room r) p /\
  (fst (try_leave r p), abs_room (snd (try_leave r p))) = RoomSpec.leave (abs_room r) p /\
  (fst (close r), abs_room (snd (close r))) = RoomSpec.close (abs_room r).
Proof.
  intros Hwf. split; [by apply abs_join|]. split; [by apply abs_leave|].
  unfold close, RoomSpec.close, abs_room. simpl.
  destruct (is_closed r) eqn:E; simpl; [by rewrite E|done].
Qed.

Lemma room_refines_spec_witness :
  (fst (try_join (open 5 2 0) 11), abs_room (snd (try_join (open 5 2 0) 11)))
  = RoomSpec.join (abs_room (open 5 2 0)) 11.
Proof.
  refine (proj1 (room_refines_spec (open 5 2 0) 11 _)).
  split; [apply NoDup_nil_2|]. unfold member_count. simpl. lia.
Defined.
