(* ===== verification/Session.v ===== *)
(** The connection session aggregate ([domain/src/session/aggregate.rs]) and the
    domain events ([domain/src/events.rs]). *)
From S2P Require Import Prelude Text Values.
From Stdlib Require Import Strings.String.
Open Scope Z_scope.
Open Scope list_scope.

Inductive DomainEvent :=
| PlayerLeveledUp (player_id : PlayerId) (new_level : Z) (at_ : DateTime)
| PlayerJoinedRoom (room_id : RoomId) (player_id : PlayerId) (at_ : DateTime)
| PlayerLeftRoom (room_id : RoomId) (player_id : PlayerId) (reason : rstr) (at_ : DateTime)
| DRoomClosed (room_id : RoomId) (reason : rstr) (at_ : DateTime).

#[global] Instance DomainEvent_eq_dec : EqDecision DomainEvent.
Proof. solve_decision. Defined.

Definition occurred_at (e : DomainEvent) : DateTime :=
  match e with
  | PlayerLeveledUp _ _ t | PlayerJoinedRoom _ _ t | PlayerLeftRoom _ _ _ t
  | DRoomClosed _ _ t => t
  end.

Module Session.

Record Session := mk {
  id : SessionId;
  player_id : option PlayerId;
  connected_at : DateTime;
  last_heartbeat_at : DateTime
}.

Definition new (new_id : SessionId) (now : DateTime) : Session :=
  {| id := new_id; player_id := None; connected_at := now; last_heartbeat_at := now |}.

Definition reconstitute (i : SessionId) (p : option PlayerId) (c l : DateTime) : Session :=
  {| id := i; player_id := p; connected_at := c; last_heartbeat_at := l |}.

Definition bind_player (s : Session) (p : PlayerId) (now : DateTime) : Session :=
  {| id := id s; player_id := Some p; connected_at := connected_at s; last_heartbeat_at := now |}.

Definition is_authenticated (s : Session) : bool := match player_id s with Some _ => true | None => false end.

Definition touch_heartbeat (s : Session) (now : DateTime) : Session :=
  {| id := id s; player_id := player_id s; connected_at := connected_at s;
     last_heartbeat_at := now |}.

(** [now.signed_duration_since(last) > timeout] *)
Definition is_heartbeat_expired (s : Session) (now : DateTime) (timeout : Z) : bool :=
  timeout <? now - last_heartbeat_at s.

(** What a connection does to its session: bind once authenticated, touch on
    every frame; the clock of each event is given. *)
Inductive activity := ABind (p : PlayerId) (now : DateTime) | ATouch (now : DateTime).
Definition act (s : Session) (a : activity) : Session :=
  match a with ABind p now => bind_player s p now | ATouch now => touch_heartbeat s now end.
Definition act_time (a : activity) : DateTime :=
  match a with ABind _ now => now | ATouch now => now end.

Fixpoint last_time (t0 : DateTime) (l : list activity) : DateTime :=
  match l with [] => t0 | a :: l' => last_time (act_time a) l' end.

Lemma foldl_last_heartbeat l s :
  last_heartbeat_at (fold_left act l s) = last_time (last_heartbeat_at s) l.
Proof. revert s. induction l as [|a l IH]; intros s; [done|]. simpl. rewrite IH. by destruct a. Qed.

(** After any sequence of activity a session counts as timed out exactly
    when more than the timeout has passed since its last activity (or since it
    was opened), it stays authenticated once bound, and it keeps its identity and
    opening time. *)
Theorem heartbeat_expiry_exact (new_id t0 : Z) (l : list activity) (now timeout : Z) :
  let s := fold_left act l (new new_id t0) in
  (is_heartbeat_expired s now timeout = true <-> last_time t0 l + timeout < now) /\
  (is_authenticated s = true <-> exists p t, ABind p t ∈ l) /\
  id s = new_id /\ connected_at s = t0.
Proof.
  simpl. split.
  { unfold is_heartbeat_expired. rewrite foldl_last_heartbeat. simpl.
    rewrite Z.ltb_lt. lia. }
  assert (forall l s, (is_authenticated (fold_left act l s) = true <->
            is_authenticated s = true \/ exists p t, ABind p t ∈ l) /\
          id (fold_left act l s) = id s /\ connected_at (fold_left act l s) = connected_at s)
    as Hgen.
  { clear. induction l as [|a l IH]; intros s; simpl.
    - split; [|done]. split; [by left|]. intros [?|(p & t & Hin)]; [done|].
      by apply elem_of_nil in Hin.
    - destruct (IH (act s a)) as (-> & -> & ->).
      split; [|by destruct a]. unfold is_authenticated.
      setoid_rewrite elem_of_cons.
      destruct a as [p t|t]; simpl; split; naive_solver eauto. }
  destruct (Hgen l (new new_id t0)) as (-> & -> & ->). split; [|done].
  split; [intros [?|?]; done|by right].
Qed.

End Session.
