(* ===== verification/Tokio.v ===== *)
(** The asynchronous runtime as an interface.

    [tokio] is not part of the repository: what the sources use of it is stated
    here as classes, each an abstract type with the operations the code calls,
    an observation of its contents and the documented laws.  The components are
    proved against these classes; the instances at the end of the file, on
    plain lists and counters, show that the laws are satisfiable and make the
    components executable. *)
From S2P Require Import Prelude Text.
Open Scope Z_scope.
Open Scope list_scope.
Abbreviation length := Datatypes.length.

(** [std::io::ErrorKind], the kinds the sources distinguish. *)
Inductive ErrorKind :=
| UnexpectedEof | ConnectionReset | ConnectionAborted | BrokenPipe | OtherKind.
#[global] Instance ErrorKind_eq_dec : EqDecision ErrorKind.
Proof. solve_decision. Defined.

(** [std::io::Error]: its kind and its message. *)
Record IoError := mkIoError { io_kind : ErrorKind; io_text : rstr }.
#[global] Instance IoError_eq_dec : EqDecision IoError.
Proof. solve_decision. Defined.

(** [AsyncReadExt::read_exact] on a byte source.  [pending] is what the peer
    sends from here on, [ending] how the stream then ends: [None] for end of
    file, [Some e] for an I/O error.  A call that fails has read an unspecified number of
    bytes, never more than it was asked for. *)
Class AsyncRead (R : Type) := {
  pending : R -> list Z;
  ending : R -> option IoError;
  read_exact : nat -> R -> result (list Z) IoError * R;
  read_exact_enough n r :
    (n <= length (pending r))%nat ->
    exists r', read_exact n r = (Ok (take n (pending r)), r') /\
               pending r' = drop n (pending r) /\ ending r' = ending r;
  read_exact_short n r :
    (length (pending r) < n)%nat ->
    exists e r', read_exact n r = (Err e, r') /\
      match ending r with
      | None => io_kind e = UnexpectedEof
      | Some e' => e = e'
      end /\
      ending r' = ending r /\ exists k, (k <= n)%nat /\ pending r' = drop k (pending r)
}.

(** [AsyncWriteExt::write_all] and [flush]; [written] is what reached the peer. *)
Class AsyncWrite (W : Type) := {
  written : W -> list Z;
  write_all : list Z -> W -> result unit IoError * W;
  flush : W -> result unit IoError * W;
  write_all_ok bs w w' : write_all bs w = (Ok tt, w') -> written w' = written w ++ bs;
  write_all_err bs w e w' :
    write_all bs w = (Err e, w') -> exists k, written w' = written w ++ take k bs;
  flush_written w r w' : flush w = (r, w') -> written w' = written w
}.

(** The outcome of [mpsc::Sender::try_send]. *)
Inductive try_sent := Sent | Full | ChanClosed.
#[global] Instance try_sent_eq_dec : EqDecision try_sent.
Proof. solve_decision. Defined.

(** The bounded channel [tokio::sync::mpsc].  [items] are the queued messages,
    oldest first; [rx_closed] says that the receiver was dropped. *)
Class Mpsc (Q : Type -> Type) := {
  chan : forall {A}, nat -> Q A;
  items : forall {A}, Q A -> list A;
  max_capacity : forall {A}, Q A -> nat;
  rx_closed : forall {A}, Q A -> bool;
  try_send : forall {A}, Q A -> A -> try_sent * Q A;
  pop : forall {A}, Q A -> option (A * Q A);
  drop_rx : forall {A}, Q A -> Q A;
  chan_spec A n :
    items (@chan A n) = [] /\ max_capacity (@chan A n) = n /\ rx_closed (@chan A n) = false;
  try_send_closed A (q : Q A) a : rx_closed q = true -> try_send q a = (ChanClosed, q);
  try_send_full A (q : Q A) a :
    rx_closed q = false -> (max_capacity q <= length (items q))%nat -> try_send q a = (Full, q);
  try_send_room A (q : Q A) a :
    rx_closed q = false -> (length (items q) < max_capacity q)%nat ->
    exists q', try_send q a = (Sent, q') /\ items q' = items q ++ [a] /\
               max_capacity q' = max_capacity q /\ rx_closed q' = false;
  pop_empty A (q : Q A) : items q = [] -> pop q = None;
  pop_head A (q : Q A) a l :
    items q = a :: l ->
    exists q', pop q = Some (a, q') /\ items q' = l /\
               max_capacity q' = max_capacity q /\ rx_closed q' = rx_closed q;
  drop_rx_spec A (q : Q A) :
    items (drop_rx q) = [] /\ max_capacity (drop_rx q) = max_capacity q /\
    rx_closed (drop_rx q) = true
}.
#[global] Hint Mode Mpsc ! : typeclass_instances.

(** [tokio::sync::Semaphore] with owned permits. *)
Class Semaphore (S : Type) := {
  sem_new : nat -> S;
  available : S -> nat;
  try_acquire : S -> option S;
  sem_release : S -> S;
  sem_new_spec n : available (sem_new n) = n;
  try_acquire_none s : available s = 0%nat -> try_acquire s = None;
  try_acquire_some s n :
    available s = Datatypes.S n -> exists s', try_acquire s = Some s' /\ available s' = n;
  sem_release_spec s : available (sem_release s) = Datatypes.S (available s)
}.

Section MpscLemmas.
Context {Q : Type -> Type} `{Mpsc Q} {A : Type}.
Implicit Types (q : Q A) (a : A).

(** What one [try_send] does, by the outcome. *)
Lemma try_send_cases q a r q' :
  try_send q a = (r, q') ->
  (r = Sent /\ rx_closed q = false /\ (length (items q) < max_capacity q)%nat /\
   items q' = items q ++ [a] /\ max_capacity q' = max_capacity q /\ rx_closed q' = false) \/
  (r = Full /\ rx_closed q = false /\ (max_capacity q <= length (items q))%nat /\ q' = q) \/
  (r = ChanClosed /\ rx_closed q = true /\ q' = q).
Proof.
  intros Hs. destruct (rx_closed q) eqn:Ec.
  - rewrite try_send_closed in Hs by done. right; right. by simplify_eq.
  - destruct (decide (length (items q) < max_capacity q)%nat) as [Hlt|Hge].
    + destruct (try_send_room A q a Ec Hlt) as (q1 & Hq & Hi & Hc & Hr).
      rewrite Hs in Hq. simplify_eq. left. done.
    + rewrite try_send_full in Hs by (done || lia). simplify_eq. right; left.
      split_and!; try done. lia.
Qed.

Lemma try_send_bounded q a :
  (length (items q) <= max_capacity q)%nat ->
  (length (items (snd (try_send q a))) <= max_capacity (snd (try_send q a)))%nat.
Proof.
  intros Hb. destruct (try_send q a) as [r q'] eqn:E.
  apply try_send_cases in E as [(_ & _ & ? & Hi & Hc & _)|[(_ & _ & _ & ->)|(_ & _ & ->)]]; simpl;
    [|done|done].
  rewrite Hi, Hc, length_app. simpl. lia.
Qed.

Lemma pop_cases q r :
  pop q = r ->
  (r = None /\ items q = []) \/
  (exists a l q', r = Some (a, q') /\ items q = a :: l /\ items q' = l /\
     max_capacity q' = max_capacity q /\ rx_closed q' = rx_closed q).
Proof.
  intros <-. destruct (items q) as [|a l] eqn:E.
  - left. by rewrite pop_empty.
  - right. destruct (pop_head A q a l E) as (q' & -> & Hi & ? & ?). by exists a, l, q'.
Qed.

End MpscLemmas.

(* ------------------------------------------------------------------ *)
(** ** Instances *)

(** A byte stream: the bytes still to come and how it ends. *)
Record byte_stream := mkStream { bs_bytes : list Z; bs_end : option IoError }.

#[global, program] Instance byte_stream_read : AsyncRead byte_stream := {
  pending := bs_bytes;
  ending := bs_end;
  read_exact n r :=
    if (n <=? length (bs_bytes r))%nat
    then (Ok (take n (bs_bytes r)), mkStream (drop n (bs_bytes r)) (bs_end r))
    else (Err (default (mkIoError UnexpectedEof []) (bs_end r)), mkStream [] (bs_end r))
}.
Next Obligation. intros n r Hn. simpl in *. rewrite (proj2 (Nat.leb_le _ _) Hn). eauto. Qed.
Next Obligation.
  intros n r Hn. simpl in *. rewrite (proj2 (Nat.leb_gt _ _) Hn).
  do 2 eexists. split; [done|]. split; [by destruct (bs_end r)|]. split; [done|].
  exists (length (bs_bytes r)). split; [lia|]. by rewrite drop_all.
Qed.

(** A byte sink that accepts everything. *)
#[global, program] Instance list_write : AsyncWrite (list Z) := {
  written w := w;
  write_all bs w := (Ok tt, w ++ bs);
  flush w := (Ok tt, w)
}.
Solve All Obligations with naive_solver.

(** A queue as a list with its capacity and the receiver's state. *)
Record queue (A : Type) := mkQueue { qu_items : list A; qu_cap : nat; qu_closed : bool }.
Arguments mkQueue {A}. Arguments qu_items {A}. Arguments qu_cap {A}. Arguments qu_closed {A}.

#[global, program] Instance queue_mpsc : Mpsc queue := {
  chan A n := mkQueue [] n false;
  items A q := qu_items q;
  max_capacity A q := qu_cap q;
  rx_closed A q := qu_closed q;
  try_send A q a :=
    if qu_closed q then (ChanClosed, q)
    else if (qu_cap q <=? length (qu_items q))%nat then (Full, q)
    else (Sent, mkQueue (qu_items q ++ [a]) (qu_cap q) false);
  pop A q :=
    match qu_items q with
    | [] => None
    | a :: l => Some (a, mkQueue l (qu_cap q) (qu_closed q))
    end;
  drop_rx A q := mkQueue [] (qu_cap q) true
}.
Next Obligation. done. Qed.
Next Obligation. intros A q a E. simpl. by rewrite E. Qed.
Next Obligation. intros A q a E Hl. simpl in *. rewrite E. by rewrite (proj2 (Nat.leb_le _ _) Hl). Qed.
Next Obligation.
  intros A q a E Hl. simpl in *. rewrite E. rewrite (proj2 (Nat.leb_gt _ _) Hl). eauto.
Qed.
Next Obligation. intros A q E. simpl in *. by rewrite E. Qed.
Next Obligation. intros A q a l E. simpl in *. rewrite E. eauto. Qed.
Next Obligation. done. Qed.

#[global, program] Instance nat_semaphore : Semaphore nat := {
  sem_new n := n;
  available n := n;
  try_acquire n := match n with O => None | S n' => Some n' end;
  sem_release n := S n
}.
Solve All Obligations with naive_solver.
