(* ===== verification/Frame.v ===== *)
(** The length-prefixed frame protocol of [net-kit]
    ([crates/net-kit/src/codec.rs] and [error.rs]):
    a 4-byte big-endian length, a 2-byte opcode, the payload.

    [read_frame] and [write_frame] run on the reader and writer interfaces of
    [Tokio]; the theorems hold for every stream the peer can send. *)
From S2P Require Import Prelude Text Tokio.
From Stdlib Require Import Strings.String.
Open Scope Z_scope.
Open Scope list_scope.
Abbreviation concat := List.concat.
Abbreviation length := Datatypes.length.

(* ------------------------------------------------------------------ *)
(** ** Errors *)

(** [usize] values are integers. *)
Inductive NetError :=
| Io (e : IoError)
| Tls (m : rstr)
| TlsConfig (m : rstr)
| FrameTooLarge (declared max : Z)
| Malformed (m : rstr)
| QueueFull
| Closed.
#[global] Instance NetError_eq_dec : EqDecision NetError.
Proof. solve_decision. Defined.

Definition NetError_to_string (e : NetError) : rstr :=
  match e with
  | Io e => lit "IO 错误: " ++ io_text e
  | Tls m => lit "TLS 错误: " ++ m
  | TlsConfig m => lit "TLS 配置错误: " ++ m
  | FrameTooLarge d m =>
      lit "帧超限: 声明 " ++ show_u d ++ lit " 字节,上限 " ++ show_u m ++ lit " 字节"
  | Malformed m => lit "非法帧: " ++ m
  | QueueFull => lit "发送队列已满"
  | Closed => lit "连接已关闭"
  end.

Definition is_disconnect (e : NetError) : bool :=
  match e with
  | Io err =>
      match io_kind err with
      | UnexpectedEof | ConnectionReset | ConnectionAborted | BrokenPipe => true
      | OtherKind => false
      end
  | Closed | Tls _ => true
  | _ => false
  end.

Example oversized_text :
  NetError_to_string (FrameTooLarge 10 4) = lit "帧超限: 声明 10 字节,上限 4 字节".
Proof. vm_compute. reflexivity. Qed.

(* ------------------------------------------------------------------ *)
(** ** Big-endian integers: [uN::to_be_bytes] and [uN::from_be_bytes] *)

Fixpoint to_be (n : nat) (x : Z) : list Z :=
  match n with
  | O => []
  | S n' => to_be n' (x / 256) ++ [x mod 256]
  end.

Definition from_be (bs : list Z) : Z := fold_left (fun acc b => acc * 256 + b) bs 0.

Definition is_byte (b : Z) : Prop := 0 <= b < 256.
#[global] Instance is_byte_dec b : Decision (is_byte b).
Proof. unfold is_byte. apply _. Defined.

Lemma length_to_be n x : length (to_be n x) = n.
Proof.
  revert x. induction n as [|n IH]; intros x; [done|].
  simpl. rewrite length_app, IH. simpl. lia.
Qed.

Lemma from_be_snoc bs b : from_be (bs ++ [b]) = from_be bs * 256 + b.
Proof. unfold from_be. by rewrite fold_left_app. Qed.

Lemma to_be_bytes n x : Forall is_byte (to_be n x).
Proof.
  revert x. induction n as [|n IH]; intros x; simpl; [constructor|].
  apply Forall_app. split; [apply IH|]. repeat constructor; apply Z.mod_pos_bound; lia.
Qed.

Lemma from_be_to_be n x : from_be (to_be n x) = x mod 256 ^ Z.of_nat n.
Proof.
  revert x. induction n as [|n IH]; intros x.
  - simpl. by rewrite Z.mod_1_r.
  - cbn [to_be]. rewrite from_be_snoc, IH, Nat2Z.inj_succ, Z.pow_succ_r by lia.
    rewrite (Z.mul_comm 256), Z.mul_comm, (Z.mul_comm (256 ^ _) 256).
    rewrite Z.rem_mul_r by lia. lia.
Qed.

Lemma from_be_range bs :
  Forall is_byte bs -> 0 <= from_be bs < 256 ^ Z.of_nat (length bs).
Proof.
  induction bs as [|b bs IH] using rev_ind; intros Hb; [done|].
  apply Forall_app in Hb as [Hbs Hb]. inversion Hb as [|? ? Hr _]; subst.
  rewrite from_be_snoc, length_app. simpl. unfold is_byte in *.
  rewrite Nat2Z.inj_add, Z.pow_add_r by lia. specialize (IH Hbs). simpl Z.of_nat. lia.
Qed.

Lemma to_be_from_be bs : Forall is_byte bs -> to_be (length bs) (from_be bs) = bs.
Proof.
  induction bs as [|b bs IH] using rev_ind; intros Hb; [done|].
  apply Forall_app in Hb as [Hbs Hb]. inversion Hb as [|? ? Hr _]; subst.
  rewrite from_be_snoc, length_app, Nat.add_1_r. cbn [to_be]. unfold is_byte in *.
  rewrite Z.div_add_l, Z.div_small, Z.add_0_r, IH by (done || lia).
  by rewrite Z.add_comm, Z.mod_add, Z.mod_small by lia.
Qed.

(* ------------------------------------------------------------------ *)
(** ** Frames *)

Definition LENGTH_PREFIX_BYTES : nat := 4.
Definition OPCODE_BYTES : nat := 2.
Definition MIN_FRAME_LEN : Z := Z.of_nat OPCODE_BYTES.

Record Frame := mkFrame { opcode : Z; payload : list Z }.
#[global] Instance Frame_eq_dec : EqDecision Frame.
Proof. solve_decision. Defined.

(** [Frame::new] *)
Definition frame_new (op : Z) (p : list Z) : Frame := mkFrame op p.

Definition wire_len (f : Frame) : Z := Z.of_nat (OPCODE_BYTES + length (payload f)).

(** The values the Rust types allow: a [u16] opcode and a payload of [u8]. *)
Definition frame_ok (f : Frame) : Prop := is_u 16 (opcode f) /\ Forall is_byte (payload f).

Definition encode_frame (frame : Frame) (max_frame_size : Z) : result (list Z) NetError :=
  let wl := wire_len frame in
  if wl >? max_frame_size then Err (FrameTooLarge wl max_frame_size)
  else if wl <? MIN_FRAME_LEN then Err (Malformed (lit "帧体必须包含 opcode"))
  else Ok (to_be LENGTH_PREFIX_BYTES (as_u 32 wl) ++ to_be OPCODE_BYTES (opcode frame)
           ++ payload frame).

Definition decode_wire_len (prefix : list Z) (max_frame_size : Z) : result Z NetError :=
  let declared := from_be prefix in
  if declared <? MIN_FRAME_LEN
  then Err (Malformed (lit "帧长 " ++ show_u declared ++ lit " 小于最小值 "
                       ++ show_u MIN_FRAME_LEN))
  else if declared >? max_frame_size then Err (FrameTooLarge declared max_frame_size)
  else Ok declared.

Definition read_frame {R} `{AsyncRead R} (max_frame_size : Z)
  : io R (result (option Frame) NetError) :=
  let* first := read_exact LENGTH_PREFIX_BYTES in
  match first with
  | Err err =>
      if bool_decide (io_kind err = UnexpectedEof) then io_ret (Ok None)
      else io_ret (Err (Io err))
  | Ok prefix =>
      await? wl := io_lift (decode_wire_len prefix max_frame_size) in
      await? opcode_buf := (let* r := read_exact OPCODE_BYTES in io_ret (map_err Io r)) in
      await? body := (let* r := read_exact (Z.to_nat (wl - Z.of_nat OPCODE_BYTES)) in
                      io_ret (map_err Io r)) in
      io_ret (Ok (Some (mkFrame (from_be opcode_buf) body)))
  end.

Definition write_frame {W} `{AsyncWrite W} (frame : Frame) (max_frame_size : Z)
  : io W (result unit NetError) :=
  await? bytes := io_lift (encode_frame frame max_frame_size) in
  await? _ := (let* r := write_all bytes in io_ret (map_err Io r)) in
  await? _ := (let* r := flush in io_ret (map_err Io r)) in
  io_ret (Ok tt).

(* ------------------------------------------------------------------ *)
(** ** What a stream means

    [parse_frame] is the reference reading of a byte stream: what one call of
    [read_frame] must answer, from the bytes alone. *)

Inductive parsed :=
| PEnd                          (* no byte before the end *)
| PCut                          (* the stream ends inside the length prefix *)
| PBadLen (declared : Z)
| PTooLarge (declared : Z)
| PTruncated                    (* the stream ends inside the frame *)
| PFrame (f : Frame) (rest : list Z).

Definition parse_frame (bytes : list Z) (max : Z) : parsed :=
  if (length bytes =? 0)%nat then PEnd else
  if (length bytes <? 4)%nat then PCut else
  let declared := from_be (take 4 bytes) in
  if declared <? 2 then PBadLen declared
  else if max <? declared then PTooLarge declared
  else if (length bytes <? 4 + Z.to_nat declared)%nat then PTruncated
  else PFrame (mkFrame (from_be (take 2 (drop 4 bytes)))
                       (take (Z.to_nat declared - 2) (drop 6 bytes)))
              (drop (4 + Z.to_nat declared) bytes).

Lemma encode_frame_ok f max bs :
  encode_frame f max = Ok bs <->
  wire_len f <= max /\
  bs = to_be 4 (as_u 32 (wire_len f)) ++ to_be 2 (opcode f) ++ payload f.
Proof.
  unfold encode_frame. rewrite Z.gtb_ltb. unfold MIN_FRAME_LEN, OPCODE_BYTES.
  destruct (Z.ltb_spec max (wire_len f)); [split; [done|lia]|].
  destruct (Z.ltb_spec (wire_len f) (Z.of_nat 2)); [unfold wire_len, OPCODE_BYTES in *; lia|].
  split; [intros [= <-]; eauto|]. by intros [_ ->].
Qed.

Lemma encode_frame_err f max e :
  encode_frame f max = Err e <-> max < wire_len f /\ e = FrameTooLarge (wire_len f) max.
Proof.
  unfold encode_frame. rewrite Z.gtb_ltb. unfold MIN_FRAME_LEN, OPCODE_BYTES.
  destruct (Z.ltb_spec max (wire_len f)); [split; [intros [= <-]; eauto|by intros [_ ->]]|].
  destruct (Z.ltb_spec (wire_len f) (Z.of_nat 2)); [unfold wire_len, OPCODE_BYTES in *; lia|].
  split; [done|lia].
Qed.

Lemma wire_len_ge f : 2 <= wire_len f.
Proof. unfold wire_len, OPCODE_BYTES. lia. Qed.

(** The encoding of a frame, followed by anything, parses back to the frame. *)
Lemma parse_frame_encode f max bs rest :
  frame_ok f -> max <= u_max 32 -> encode_frame f max = Ok bs ->
  parse_frame (bs ++ rest) max = PFrame f rest.
Proof.
  intros [Hop Hpl] Hmax (Hle & ->)%encode_frame_ok. pose proof (wire_len_ge f).
  rewrite as_u_small by mlia. unfold parse_frame.
  set (pre := to_be 4 (wire_len f)). assert (Hpre : length pre = 4%nat) by apply length_to_be.
  pose proof (length_to_be 2 (opcode f)) as Hob.
  rewrite <- !app_assoc. rewrite !length_app, Hpre, Hob. cbn [Nat.add Nat.eqb].
  rewrite (proj2 (Nat.ltb_ge _ _)) by lia.
  rewrite take_app_length' by done.
  assert (Hd : from_be pre = wire_len f).
  { unfold pre. rewrite from_be_to_be. apply Z.mod_small.
    unfold u_max in Hmax. change (256 ^ Z.of_nat 4) with (2 ^ 32). lia. }
  cbv zeta. rewrite Hd.
  rewrite (proj2 (Z.ltb_ge _ _)) by lia. rewrite (proj2 (Z.ltb_ge _ _)) by lia.
  assert (Hw : Z.to_nat (wire_len f) = (2 + length (payload f))%nat).
  { unfold wire_len, OPCODE_BYTES. lia. }
  rewrite Hw, (proj2 (Nat.ltb_ge _ _)) by lia.
  rewrite drop_app_length' by done. rewrite take_app_length' by done.
  rewrite from_be_to_be, Z.mod_small by (unfold is_u, u_max in Hop; change (256 ^ Z.of_nat 2) with (2^16); lia).
  rewrite (app_assoc pre), drop_app_length' by (rewrite length_app; lia).
  replace (2 + length (payload f) - 2)%nat with (length (payload f)) by lia.
  rewrite take_app_length. rewrite app_assoc.
  rewrite drop_app_length' by (rewrite !length_app; lia). by destruct f.
Qed.

(** A frame parsed from bytes is within bounds and re-encodes to those bytes. *)
Lemma parse_frame_sound bytes max f rest :
  Forall is_byte bytes -> parse_frame bytes max = PFrame f rest ->
  frame_ok f /\ exists bs, encode_frame f max = Ok bs /\ bytes = bs ++ rest.
Proof.
  intros Hb. unfold parse_frame. destruct (length bytes =? 0)%nat; [done|].
  destruct (Nat.ltb_spec (length bytes) 4) as [|Hl4]; [done|]. cbv zeta.
  set (d := from_be (take 4 bytes)).
  destruct (Z.ltb_spec d 2); [done|]. destruct (Z.ltb_spec max d); [done|].
  destruct (Nat.ltb_spec (length bytes) (4 + Z.to_nat d)) as [|Hl]; [done|]. intros [= <- <-].
  assert (Hlp : length (take (Z.to_nat d - 2) (drop 6 bytes)) = (Z.to_nat d - 2)%nat).
  { rewrite length_take, length_drop. lia. }
  assert (Hwl : wire_len (mkFrame (from_be (take 2 (drop 4 bytes)))
                                  (take (Z.to_nat d - 2) (drop 6 bytes))) = d).
  { unfold wire_len, OPCODE_BYTES. cbn [payload]. rewrite Hlp. lia. }
  assert (Hl2 : length (take 2 (drop 4 bytes)) = 2%nat)
    by (rewrite length_take, length_drop; lia).
  assert (Hb2 : Forall is_byte (take 2 (drop 4 bytes))) by auto using Forall_take, Forall_drop.
  assert (Hb4 : Forall is_byte (take 4 bytes)) by auto using Forall_take.
  assert (Hlt4 : length (take 4 bytes) = 4%nat) by (rewrite length_take; lia).
  pose proof (from_be_range _ Hb2) as Hr2. rewrite Hl2 in Hr2.
  pose proof (from_be_range _ Hb4) as Hr4. rewrite Hlt4 in Hr4.
  split.
  - split; cbn [opcode payload]; [|by auto using Forall_take, Forall_drop].
    unfold is_u, u_max. change (256 ^ Z.of_nat 2) with (2 ^ 16) in Hr2. lia.
  - eexists. split; [apply encode_frame_ok; split; [lia|reflexivity]|].
    rewrite Hwl, as_u_small
      by (unfold is_u, u_max; change (256 ^ Z.of_nat 4) with (2 ^ 32) in Hr4; fold d in Hr4; lia).
    cbn [opcode payload].
    pose proof (to_be_from_be _ Hb4) as E4. rewrite Hlt4 in E4. fold d in E4. rewrite E4.
    pose proof (to_be_from_be _ Hb2) as E2. rewrite Hl2 in E2. rewrite E2.
    change 6%nat with (4 + 2)%nat. rewrite <- drop_drop.
    rewrite <- !app_assoc. rewrite <- (take_drop 4 bytes) at 1. f_equal.
    rewrite <- (take_drop 2 (drop 4 bytes)) at 1. f_equal.
    rewrite <- (take_drop (Z.to_nat d - 2) (drop 2 (drop 4 bytes))) at 1. f_equal.
    rewrite !drop_drop. f_equal. lia.
Qed.

(* ------------------------------------------------------------------ *)
(** ** [read_frame] reads what the stream means *)

Section ReadFrame.
Context {R : Type} `{AsyncRead R}.
Implicit Types r : R.

(** The error a read that runs past the end of the stream returns. *)
Definition short_error r (e : IoError) : Prop :=
  match ending r with None => io_kind e = UnexpectedEof | Some e' => e = e' end.

(** At least [low] and at most [high] bytes were taken from the front of the stream, and
    its end is as it was. *)
Definition consumed (low high : nat) r r' : Prop :=
  ending r' = ending r /\ exists k, (low <= k <= high)%nat /\ pending r' = drop k (pending r).

(** What [read_frame] must return on a stream, by the reference reading, and which bytes it
    must take. *)
Definition read_frame_spec (max : Z) r (res : result (option Frame) NetError * R) : Prop :=
  match parse_frame (pending r) max with
  | PEnd | PCut =>
      exists e, short_error r e /\ consumed 0 4 r (snd res) /\
        fst res = if bool_decide (io_kind e = UnexpectedEof) then Ok None else Err (Io e)
  | PBadLen d =>
      fst res = Err (Malformed (lit "帧长 " ++ show_u d ++ lit " 小于最小值 2")) /\
      consumed 4 4 r (snd res)
  | PTooLarge d => fst res = Err (FrameTooLarge d max) /\ consumed 4 4 r (snd res)
  | PTruncated =>
      exists e, short_error r e /\ consumed 4 (4 + Z.to_nat (from_be (take 4 (pending r)))) r (snd res) /\
        fst res = Err (Io e)
  | PFrame f rest =>
      fst res = Ok (Some f) /\ pending (snd res) = rest /\ ending (snd res) = ending r
  end.

(** One [read_exact], by whether the stream still holds enough bytes. *)
Lemma read_exact_cases n r :
  ((n <= length (pending r))%nat /\ exists r', read_exact n r = (Ok (take n (pending r)), r') /\
     pending r' = drop n (pending r) /\ ending r' = ending r) \/
  ((length (pending r) < n)%nat /\ exists e r', read_exact n r = (Err e, r') /\ short_error r e /\ consumed 0 n r r').
Proof.
  destruct (decide (n <= length (pending r))%nat) as [Hn|Hn].
  - left. split; [done|]. by apply read_exact_enough.
  - right. split; [lia|]. destruct (read_exact_short n r ltac:(lia)) as (e & r' & Hx & He & Hend & k & Hk & Hp).
    exists e, r'. split; [done|]. split; [done|]. split; [done|]. exists k. split; [lia|done].
Qed.

(** Reading on. *)
Lemma consumed_after n low high r r1 r' :
  pending r1 = drop n (pending r) -> ending r1 = ending r -> consumed low high r1 r' ->
  consumed (n + low) (n + high) r r'.
Proof.
  intros Hp He [He' (k & Hk & Hp')]. split; [by rewrite He', He|]. exists (n + k)%nat. split; [lia|].
  by rewrite Hp', Hp, drop_drop.
Qed.
Lemma consumed_exactly n r r' : pending r' = drop n (pending r) -> ending r' = ending r -> consumed n n r r'.
Proof. intros Hp He. split; [done|]. by exists n. Qed.
Lemma consumed_within low high low' high' r r' :
  (low' <= low)%nat -> (high <= high')%nat -> consumed low high r r' -> consumed low' high' r r'.
Proof. intros Hl Hh [He (k & Hk & Hp)]. split; [done|]. exists k. split; [lia|done]. Qed.

Lemma show_min : show_u MIN_FRAME_LEN = lit "2".
Proof. vm_compute. reflexivity. Qed.

Lemma lit_min_tail : lit " 小于最小值 " ++ lit "2" = lit " 小于最小值 2".
Proof. vm_compute. reflexivity. Qed.

Lemma read_frame_meets_spec max r : read_frame_spec max r (read_frame max r).
Proof.
  unfold read_frame_spec, parse_frame, read_frame, io_bind, io_lift, io_try, io_ret,
    LENGTH_PREFIX_BYTES, OPCODE_BYTES.
  destruct (read_exact_cases 4 r) as [(H4 & r4 & -> & Hp4 & He4)|(H4 & e & r' & -> & He & Hcon)].
  2: { rewrite (proj2 (Nat.ltb_lt _ _)) by lia.
       destruct (length (pending r) =? 0)%nat; exists e; (split; [done|]); by destruct (bool_decide _). }
  rewrite (proj2 (Nat.eqb_neq _ _)), (proj2 (Nat.ltb_ge _ _)) by lia. cbv zeta. unfold decode_wire_len.
  pose proof (consumed_exactly 4 r r4 Hp4 He4) as Hc4.
  rewrite Z.gtb_ltb. change (?x <? MIN_FRAME_LEN) with (x <? 2). set (d := from_be (take 4 (pending r))).
  destruct (Z.ltb_spec d 2) as [|Hd2].
  { cbn [fst snd]. by rewrite show_min, lit_min_tail. }
  destruct (Z.ltb_spec max d); [done|].
  destruct (read_exact_cases 2 r4) as [(H2 & r2 & -> & Hp2 & He2)|(H2 & e & r' & -> & He & Hcon)];
    rewrite Hp4, length_drop in H2; cbn [map_err].
  2: { rewrite (proj2 (Nat.ltb_lt _ _)) by lia. exists e. split; [unfold short_error in *; by rewrite <- He4|].
       split; [|done]. eapply consumed_within; [| |exact (consumed_after 4 _ _ _ _ _ Hp4 He4 Hcon)]; lia. }
  assert (Hp6 : pending r2 = drop 6 (pending r)) by (by rewrite Hp2, Hp4, drop_drop).
  destruct (read_exact_cases (Z.to_nat (d - Z.of_nat 2)) r2)
    as [(Hd & rd & -> & Hpd & Hed)|(Hd & e & r' & -> & He & Hcon)];
    rewrite Hp6, length_drop in Hd; cbn [map_err].
  2: { rewrite (proj2 (Nat.ltb_lt _ _)) by lia. exists e.
       split; [unfold short_error in *; by rewrite <- He4, <- He2|]. split; [|done].
       eapply consumed_within; [| |refine (consumed_after 6 _ _ _ _ _ Hp6 _ Hcon); by rewrite He2, He4]; lia. }
  rewrite (proj2 (Nat.ltb_ge _ _)) by lia. cbn [fst snd].
  rewrite Hpd, Hp6, Hp4, Hed, He2, He4, !drop_drop. cbn [Nat.add].
  split; [|split; [f_equal; lia|done]]. do 4 f_equal. lia.
Qed.

(** C12: For every byte stream a peer may send, however it ends, one call of
    [read_frame] answers by the reference reading [parse_frame] of the stream.  A stream that
    ends before its first byte or inside the four-byte length prefix gives [Ok None] (an I/O
    error is passed on), with at most these bytes consumed; the second case is what the code
    does, not what its comment says.  A length below 2 is [Malformed] and a length above the
    maximum is [FrameTooLarge], both with exactly the four prefix bytes consumed (no payload
    is read or allocated).  A stream that ends inside the frame is an I/O error, with the
    prefix consumed and nothing beyond the frame.  Otherwise the frame is returned and exactly
    its bytes are consumed.  In every case the stream ends afterwards as it did before. *)
Theorem read_frame_follows_stream (max : Z) (r : R) :
  read_frame_spec max r (read_frame max r).
Proof. apply read_frame_meets_spec. Qed.

(** Whatever the peer sends, a frame that [read_frame] accepts respects the
    configured maximum, has a 16-bit opcode and a byte payload, and the bytes
    consumed are exactly its encoding by [encode_frame]: there is one wire form
    per frame and nothing is skipped. *)
Theorem read_frame_canonical (max : Z) (r r' : R) (f : Frame)
  (Hbytes : Forall is_byte (pending r))
  (Hread : read_frame max r = (Ok (Some f), r')) :
  frame_ok f /\ wire_len f <= max /\
  exists bs, encode_frame f max = Ok bs /\ pending r = bs ++ pending r'.
Proof.
  pose proof (read_frame_meets_spec max r) as Hs. unfold read_frame_spec in Hs.
  rewrite Hread in Hs. cbn [fst snd] in Hs.
  destruct (parse_frame (pending r) max) as [| |d|d| |f' rest] eqn:Hp.
  - destruct Hs as (e & _ & _ & Hf). by destruct (bool_decide _).
  - destruct Hs as (e & _ & _ & Hf). by destruct (bool_decide _).
  - by destruct Hs.
  - by destruct Hs.
  - by destruct Hs as (e & _ & _ & Hf).
  - destruct Hs as ([= <-] & <- & _).
    destruct (parse_frame_sound _ _ _ _ Hbytes Hp) as (Hok & bs & Henc & Heq).
    split; [done|]. split; [|by eauto]. by apply encode_frame_ok in Henc as [? _].
Qed.

(** [n] successive reads of one connection. *)
Fixpoint read_frames (n : nat) (max : Z) : io R (list (result (option Frame) NetError)) :=
  match n with
  | O => io_ret []
  | S n' => let* x := read_frame max in let* xs := read_frames n' max in io_ret (x :: xs)
  end.

Lemma read_frame_encoded max r f bs rest :
  frame_ok f -> max <= u_max 32 -> encode_frame f max = Ok bs -> pending r = bs ++ rest ->
  exists r', read_frame max r = (Ok (Some f), r') /\ pending r' = rest /\ ending r' = ending r.
Proof.
  intros Hf Hmax Henc Hp. pose proof (read_frame_meets_spec max r) as Hs.
  unfold read_frame_spec in Hs. rewrite Hp, (parse_frame_encode f max bs rest) in Hs by done.
  destruct (read_frame max r) as [x r']. cbn [fst snd] in Hs. destruct Hs as (-> & ? & ?).
  by exists r'.
Qed.

Lemma read_frames_encoded max fs bss rest r :
  Forall frame_ok fs -> max <= u_max 32 ->
  Forall2 (fun f bs => encode_frame f max = Ok bs) fs bss -> pending r = concat bss ++ rest ->
  exists r', read_frames (length fs) max r = (map (fun f => Ok (Some f)) fs, r') /\
             pending r' = rest /\ ending r' = ending r.
Proof.
  intros Hfs Hmax Henc. revert r Hfs.
  induction Henc as [|f bs fs bss Hf Henc IH]; intros r Hfs Hp.
  - exists r. done.
  - inversion Hfs; subst. cbn [concat] in Hp. rewrite <- app_assoc in Hp.
    destruct (read_frame_encoded max r f bs (concat bss ++ rest)) as (r1 & Hr1 & Hp1 & He1); try done.
    destruct (IH r1) as (r2 & Hr2 & Hp2 & He2); try done.
    exists r2. cbn [length read_frames map]. unfold io_bind, io_ret. rewrite Hr1, Hr2.
    split; [done|]. split; [done|]. congruence.
Qed.

End ReadFrame.

Lemma read_frame_canonical_witness :
  exists (f : Frame) (r r' : byte_stream), read_frame 64 r = (Ok (Some f), r') /\
    frame_ok f /\ wire_len f <= 64 /\
    exists bs, encode_frame f 64 = Ok bs /\ pending r = bs ++ pending r'.
Proof.
  set (r := mkStream [0; 0; 0; 3; 0; 1; 7; 255] None).
  exists (mkFrame 1 [7]), r, (mkStream [255] None). split; [vm_compute; reflexivity|].
  apply read_frame_canonical; [|vm_compute; reflexivity].
  repeat constructor; simpl; lia.
Defined.
