(* ===== verification/Connection.v ===== *)
(** One client connection of [net-kit]: the bounded outbound queue with its
    slow-client policy ([backpressure.rs]) and the writer task fed by it
    ([connection.rs]).

    A clone of an [OutboundSender] shares the channel and the disconnect flag,
    so one record stands for all clones.  An [await] that can block is modelled
    by its poll: [None] means pending, with nothing changed. *)
From S2P Require Import Prelude Text Tokio Frame.
Open Scope Z_scope.
Open Scope list_scope.

Section Connection.
Context {Q : Type -> Type} `{HQ : Mpsc Q} {W : Type} `{HW : AsyncWrite W}.

(* ------------------------------------------------------------------ *)
(** ** [OutboundSender] *)

Record OutboundSender := mkOutbound { ob_tx : Q Frame; ob_disconnected : bool }.

(** [OutboundSender::new] *)
Definition outbound_new (tx : Q Frame) : OutboundSender := mkOutbound tx false.

Definition capacity (s : OutboundSender) : nat := max_capacity (ob_tx s).

Definition ob_is_closed (s : OutboundSender) : bool := rx_closed (ob_tx s) || ob_disconnected s.

Definition disconnect : io OutboundSender unit :=
  fun s => (tt, mkOutbound (ob_tx s) true).

Definition ob_push (f : Frame) : io OutboundSender try_sent :=
  fun s => let '(r, tx) := try_send (ob_tx s) f in (r, mkOutbound tx (ob_disconnected s)).

Definition try_send_frame (f : Frame) : io OutboundSender (result unit NetError) :=
  fun s =>
    if ob_is_closed s then (Err Closed, s)
    else
      (let* r := ob_push f in
       let res := match r with
                  | Sent => Ok tt
                  | Full => Err QueueFull
                  | ChanClosed => Err Closed
                  end in
       if is_err res then (let* _ := disconnect in io_ret res) else io_ret res) s.

(** [disconnected()] completes when the flag is set or the receiver is gone. *)
Definition disconnected_poll (s : OutboundSender) : option unit :=
  if ob_is_closed s then Some tt else None.

(** One poll of [send_frame]: the biased [select!] looks at the disconnect
    signal first; [tx.send] is pending while the queue is full. *)
Definition send_frame_poll (f : Frame) : io OutboundSender (option (result unit NetError)) :=
  fun s =>
    match disconnected_poll s with
    | Some _ => (Some (Err Closed), s)
    | None =>
        (let* r := ob_push f in
         io_ret (match r with
                 | Sent => Some (Ok tt)
                 | Full => None
                 | ChanClosed => Some (Err Closed)
                 end)) s
    end.

(* ------------------------------------------------------------------ *)
(** ** The writer task *)

Inductive writer_status := WtContinue | WtIdle | WtExit.

(** One turn of the loop of [write_task]: take a frame, encode it (a frame that
    does not encode is skipped), write and flush it (an I/O error ends the task,
    which drops the receiver).  [WtIdle]: [recv] has nothing to return. *)
Definition write_iter (max_frame_size : Z) : io (Q Frame * W) writer_status :=
  fun '(rx, sink) =>
    match pop rx with
    | None => (WtIdle, (rx, sink))
    | Some (frame, rx') =>
        match encode_frame frame max_frame_size with
        | Err _ => (WtContinue, (rx', sink))
        | Ok bytes =>
            match (await? _ := write_all bytes in flush) sink with
            | (Ok _, sink') => (WtContinue, (rx', sink'))
            | (Err _, sink') => (WtExit, (drop_rx rx', sink'))
            end
        end
    end.

(** [write_task] run until [recv] blocks or the task ends. *)
Fixpoint write_task (fuel : nat) (max_frame_size : Z) : io (Q Frame * W) writer_status :=
  match fuel with
  | O => io_ret WtContinue
  | S n =>
      let* st := write_iter max_frame_size in
      match st with
      | WtContinue => write_task n max_frame_size
      | _ => io_ret st
      end
  end.

(** The frames a writer with this limit puts on the wire, and their bytes. *)
Definition fits (max : Z) (f : Frame) : bool := wire_len f <=? max.

Definition wire_bytes (max : Z) (f : Frame) : list Z :=
  match encode_frame f max with Ok bs => bs | Err _ => [] end.

Definition wire (max : Z) (fs : list Frame) : list Z := concat (map (wire_bytes max) fs).

Lemma wire_app max fs gs : wire max (fs ++ gs) = wire max fs ++ wire max gs.
Proof. unfold wire. by rewrite map_app, concat_app. Qed.

(** What one write of encoded bytes adds to the peer's stream. *)
Lemma write_flush_written bytes (w : W) r w' :
  (await? _ := write_all bytes in flush) w = (r, w') ->
  exists k, written w' = written w ++ take k bytes /\ (r = Ok tt -> take k bytes = bytes).
Proof.
  unfold io_try. destruct (write_all bytes w) as [[[]|e] w1] eqn:E; intros Hf.
  - exists (length bytes). rewrite firstn_all.
    by rewrite (flush_written _ _ _ Hf), (write_all_ok _ _ _ E).
  - simplify_eq. destruct (write_all_err _ _ _ _ E) as [k Hk]. exists k. split; [done|].
    intros ?. done.
Qed.

(* ------------------------------------------------------------------ *)
(** ** The connection as a state machine

    The senders, the queue, the writer task and its socket, with a record of
    the frames accepted so far.  [c_taken] are the frames the writer took from
    the queue. *)

Record conn := mkConn {
  c_out : OutboundSender;
  c_sink : W;
  c_writer : bool;              (* the writer task runs *)
  c_senders : bool;             (* a sender is alive *)
  c_accepted : list Frame;
  c_taken : list Frame
}.

(** [split_connection]: an empty queue of the configured capacity and a fresh
    disconnect flag, with the writer running. *)
Definition split_connection (send_queue_capacity : nat) (sink : W) : conn :=
  mkConn (outbound_new (chan send_queue_capacity)) sink true true [] [].

Definition accept_if {E} (r : result unit E) (f : Frame) (l : list Frame) : list Frame :=
  if is_ok r then l ++ [f] else l.

Inductive conn_step (max : Z) : conn -> conn -> Prop :=
| step_try_send o w wr acc tk f r o' :
    try_send_frame f o = (r, o') ->
    conn_step max (mkConn o w wr true acc tk) (mkConn o' w wr true (accept_if r f acc) tk)
| step_send o w wr acc tk f r o' :
    send_frame_poll f o = (Some r, o') ->
    conn_step max (mkConn o w wr true acc tk) (mkConn o' w wr true (accept_if r f acc) tk)
| step_disconnect o w wr acc tk o' :
    disconnect o = (tt, o') ->
    conn_step max (mkConn o w wr true acc tk) (mkConn o' w wr true acc tk)
| step_drop_senders o w wr acc tk :
    conn_step max (mkConn o w wr true acc tk) (mkConn o w wr false acc tk)
| step_write o w sd acc tk f l st q' w' :
    items (ob_tx o) = f :: l ->
    write_iter max (ob_tx o, w) = (st, (q', w')) ->
    conn_step max (mkConn o w true sd acc tk)
      (mkConn (mkOutbound q' (ob_disconnected o)) w'
              (match st with WtExit => false | _ => true end) sd acc (tk ++ [f]))
(* the [select!] of [split_connection] drops the writer: at once on the
   disconnect flag, after the drain deadline when the senders are gone.  It may
   be in the middle of writing a frame it has taken. *)
| step_cancel o w sd acc tk :
    ob_disconnected o = true \/ sd = false ->
    conn_step max (mkConn o w true sd acc tk)
      (mkConn (mkOutbound (drop_rx (ob_tx o)) (ob_disconnected o)) w false sd acc tk)
| step_cancel_write o w sd acc tk f l k w' :
    ob_disconnected o = true \/ sd = false ->
    items (ob_tx o) = f :: l ->
    written w' = written w ++ take k (wire_bytes max f) ->
    conn_step max (mkConn o w true sd acc tk)
      (mkConn (mkOutbound (drop_rx (ob_tx o)) (ob_disconnected o)) w' false sd acc (tk ++ [f])).

(** The invariant: the queue is bounded; while the writer runs the accepted
    frames are the taken ones followed by the queued ones, and the peer's stream
    is exactly what the taken frames encode to; once it has stopped the channel
    is closed and the stream is a prefix. *)
Definition conn_inv (max : Z) (cap : nat) (c : conn) : Prop :=
  max_capacity (ob_tx (c_out c)) = cap /\
  (length (items (ob_tx (c_out c))) <= cap)%nat /\
  (if c_writer c then
     rx_closed (ob_tx (c_out c)) = false /\
     c_accepted c = c_taken c ++ items (ob_tx (c_out c)) /\
     written (c_sink c) = wire max (c_taken c)
   else
     rx_closed (ob_tx (c_out c)) = true /\ items (ob_tx (c_out c)) = [] /\
     (exists l, c_accepted c = c_taken c ++ l) /\
     exists rest, wire max (c_taken c) = written (c_sink c) ++ rest).

(** What accepting or refusing one frame does to the queue. *)
Lemma push_cases f o r o' :
  ob_push f o = (r, o') ->
  ob_disconnected o' = ob_disconnected o /\
  max_capacity (ob_tx o') = max_capacity (ob_tx o) /\
  rx_closed (ob_tx o') = rx_closed (ob_tx o) /\
  (r = Sent -> rx_closed (ob_tx o) = false /\
               (length (items (ob_tx o)) < max_capacity (ob_tx o))%nat /\
               items (ob_tx o') = items (ob_tx o) ++ [f]) /\
  (r <> Sent -> o' = o).
Proof.
  unfold ob_push. destruct (try_send (ob_tx o) f) as [r1 tx] eqn:E. intros [= <- <-].
  apply try_send_cases in E as [(-> & Hc & Hl & Hi & Hm & Hc')|[(-> & Hc & Hl & ->)|(-> & Hc & ->)]];
    simpl; split_and!; try done; try congruence; intros; by destruct o.
Qed.

(** One send, through either entry point, as one description. *)
Definition sent (f : Frame) (o o' : OutboundSender) : Prop :=
  ob_is_closed o = false /\ (length (items (ob_tx o)) < max_capacity (ob_tx o))%nat /\
  items (ob_tx o') = items (ob_tx o) ++ [f] /\
  max_capacity (ob_tx o') = max_capacity (ob_tx o) /\
  rx_closed (ob_tx o') = rx_closed (ob_tx o) /\ ob_disconnected o' = ob_disconnected o.

Lemma try_send_frame_cases f o r o' :
  try_send_frame f o = (r, o') ->
  (r = Ok tt /\ sent f o o') \/
  (r = Err QueueFull /\ ob_is_closed o = false /\
   (max_capacity (ob_tx o) <= length (items (ob_tx o)))%nat /\
   o' = mkOutbound (ob_tx o) true) \/
  (r = Err Closed /\ ob_is_closed o = true /\ o' = o).
Proof.
  unfold try_send_frame. destruct (ob_is_closed o) eqn:Ec; [intros [= <- <-]; auto|].
  unfold io_bind at 1. destruct (ob_push f o) as [s o1] eqn:Ep.
  pose proof (push_cases _ _ _ _ Ep) as (Hd & Hm & Hrx & Hs & Hns).
  assert (Hrxf : rx_closed (ob_tx o) = false) by (by apply orb_false_iff in Ec as [? _]).
  destruct s; simpl; intros [= <- <-].
  - left. destruct (Hs eq_refl) as (? & ? & ?). unfold sent. by split_and!.
  - rewrite (Hns ltac:(done)). right; left. split_and!; try done.
    unfold ob_push in Ep. destruct (try_send _ _) as [r1 tx] eqn:Et. simplify_eq.
    by apply try_send_cases in Et as [(? & _)|[(_ & _ & ? & _)|(? & _)]].
  - unfold ob_push in Ep. destruct (try_send _ _) as [r1 tx] eqn:Et. simplify_eq.
    apply try_send_cases in Et as [(? & _)|[(? & _)|(_ & ? & _)]]; congruence.
Qed.

Lemma send_frame_poll_cases f o r o' :
  send_frame_poll f o = (r, o') ->
  (r = Some (Ok tt) /\ sent f o o') \/
  (r = None /\ ob_is_closed o = false /\
   (max_capacity (ob_tx o) <= length (items (ob_tx o)))%nat /\ o' = o) \/
  (r = Some (Err Closed) /\ ob_is_closed o = true /\ o' = o).
Proof.
  unfold send_frame_poll, disconnected_poll.
  destruct (ob_is_closed o) eqn:Ec; [intros [= <- <-]; auto|].
  unfold io_bind. destruct (ob_push f o) as [s o1] eqn:Ep.
  pose proof (push_cases _ _ _ _ Ep) as (Hd & Hm & Hrx & Hs & Hns).
  assert (Hrxf : rx_closed (ob_tx o) = false) by (by apply orb_false_iff in Ec as [? _]).
  intros [= <- <-]. unfold ob_push in Ep. destruct (try_send _ _) as [r1 tx] eqn:Et. simplify_eq.
  apply try_send_cases in Et as [(-> & Hr)|[(-> & Hr)|(-> & Hr)]].
  - left. destruct (Hs eq_refl) as (? & ? & ?). unfold sent. by split_and!.
  - right; left. rewrite (Hns ltac:(done)). destruct Hr as (_ & ? & _). by split_and!.
  - destruct Hr as [? _]. congruence.
Qed.

Lemma write_iter_cases max q w f l st q' w' :
  items q = f :: l -> write_iter max (q, w) = (st, (q', w')) ->
  (st = WtContinue /\ items q' = l /\ max_capacity q' = max_capacity q /\
   rx_closed q' = rx_closed q /\ written w' = written w ++ wire_bytes max f) \/
  (st = WtExit /\ items q' = [] /\ max_capacity q' = max_capacity q /\ rx_closed q' = true /\
   exists k, written w' = written w ++ take k (wire_bytes max f)).
Proof.
  intros Hi. unfold write_iter, wire_bytes.
  destruct (pop_head _ q f l Hi) as (q1 & -> & Hi1 & Hm1 & Hc1).
  destruct (encode_frame f max) as [bs|e].
  2: { intros [= <- <- <-]. left. by rewrite app_nil_r. }
  destruct ((await? _ := write_all bs in flush) w) as [[[]|e] w1] eqn:Ew; intros [= <- <- <-];
    apply write_flush_written in Ew as (k & Hk & Hall).
  - left. rewrite Hall in Hk by done. done.
  - right. destruct (drop_rx_spec _ q1) as (? & Hm & ?). rewrite Hm1 in Hm. split_and!; try done. by exists k.
Qed.

Lemma conn_inv_init max cap (w0 : W) : written w0 = [] -> conn_inv max cap (split_connection cap w0).
Proof.
  intros Hw. unfold conn_inv, split_connection, outbound_new. simpl.
  destruct (chan_spec (Q := Q) Frame cap) as (-> & -> & ->). simpl. split_and!; try done. lia.
Qed.

(** Accepting a frame, or refusing it and possibly setting the flag, keeps the
    invariant. *)
Lemma conn_inv_send {E} max cap o o' w wr acc tk f (r : result unit E) :
  conn_inv max cap (mkConn o w wr true acc tk) ->
  (r = Ok tt /\ sent f o o') \/ (is_err r = true /\ ob_tx o' = ob_tx o) ->
  conn_inv max cap (mkConn o' w wr true (accept_if r f acc) tk).
Proof.
  unfold conn_inv. simpl. intros (Hm & Hb & Hw) [[-> Hs]|[Hr Ht]].
  - destruct Hs as (Hc & Hl & Hi & Hm' & Hrx & _). unfold accept_if. simpl.
    rewrite Hi, Hm', Hm, Hrx, length_app. simpl. split; [done|]. split; [lia|].
    apply orb_false_iff in Hc as [Hc _]. destruct wr.
    + destruct Hw as (? & -> & ?). by rewrite app_assoc.
    + destruct Hw as (? & _). congruence.
  - rewrite Ht. unfold accept_if. unfold is_err in Hr. by destruct (is_ok r).
Qed.

(** Dropping the receiver while the writer stops. *)
Lemma conn_inv_stop max cap o w w' sd acc tk tk' :
  conn_inv max cap (mkConn o w true sd acc tk) ->
  (exists l, acc = tk' ++ l) -> (exists rest, wire max tk' = written w' ++ rest) ->
  conn_inv max cap (mkConn (mkOutbound (drop_rx (ob_tx o)) (ob_disconnected o)) w' false sd acc tk').
Proof.
  unfold conn_inv. simpl. intros (Hm & Hb & _) Ha Hw.
  destruct (drop_rx_spec _ (ob_tx o)) as (-> & -> & ->). rewrite Hm. split_and!; try done. simpl. lia.
Qed.

Lemma conn_inv_step max cap c c' :
  conn_inv max cap c -> conn_step max c c' -> conn_inv max cap c'.
Proof.
  intros Hinv Hstep.
  destruct Hstep as [o w wr acc tk f r o' Hs|o w wr acc tk f r o' Hs|o w wr acc tk o' Hd
    |o w wr acc tk|o w sd acc tk f l st q' w' Hi Hw|o w sd acc tk Hg|o w sd acc tk f l k w' Hg Hi Hw].
  - apply (conn_inv_send _ _ o); [done|].
    apply try_send_frame_cases in Hs as [[-> ?]|[(-> & _ & _ & ->)|(-> & _ & ->)]]; auto.
  - apply (conn_inv_send _ _ o); [done|].
    apply send_frame_poll_cases in Hs as [[Hr ?]|[(Hr & _)|(Hr & _ & ->)]];
      simplify_eq; auto.
  - unfold disconnect in Hd. by injection Hd as <-.
  - done.
  - pose proof Hinv as (Hm & Hb & Hrx & Hacc & Hwr). cbn [c_out c_writer c_sink c_taken c_accepted] in *.
    apply (write_iter_cases max (ob_tx o) w f l) in Hw
      as [(-> & Hi' & Hm' & Hc' & Hw')|(-> & Hi' & Hm' & Hc' & k & Hw')]; [| |done];
      unfold conn_inv; cbn [c_out c_writer c_sink c_taken c_accepted ob_tx];
      rewrite Hi', Hm', Hc', Hm.
    + rewrite Hi in Hb, Hacc. simpl in Hb. split; [done|]. split; [lia|]. split; [done|].
      rewrite <- app_assoc. split; [done|].
      rewrite Hw', Hwr, wire_app. f_equal. unfold wire. simpl. by rewrite app_nil_r.
    + split; [done|]. split; [simpl; lia|]. split; [done|]. split; [done|]. split.
      { exists l. rewrite Hacc, Hi, <- app_assoc. done. }
      exists (drop k (wire_bytes max f)).
      rewrite Hw', Hwr, wire_app, <- app_assoc, take_drop. f_equal. unfold wire. simpl.
      by rewrite app_nil_r.
  - apply (conn_inv_stop _ _ _ w _ _ _ tk); [done| |]; destruct Hinv as (_ & _ & _ & Hacc & Hwr); simpl in *.
    + eauto.
    + exists []. by rewrite app_nil_r.
  - apply (conn_inv_stop _ _ _ w _ _ _ tk); [done| |];
      destruct Hinv as (_ & _ & _ & Hacc & Hwr); simpl in *.
    + exists l. by rewrite Hacc, Hi, <- app_assoc.
    + exists (drop k (wire_bytes max f)).
      rewrite Hw, Hwr, wire_app, <- app_assoc, take_drop. f_equal. unfold wire. simpl. by rewrite app_nil_r.
Qed.

Lemma conn_reachable_inv max cap (w0 : W) c :
  written w0 = [] -> star (conn_step max) (split_connection cap w0) c -> conn_inv max cap c.
Proof.
  intros Hw Hr. apply (star_invariant (conn_step max)) with (3 := Hr).
  - intros a b. apply conn_inv_step.
  - by apply conn_inv_init.
Qed.

(** The stream a list of frames produces is the concatenation of the encodings
    of those that fit. *)
Lemma wire_filter max fs :
  exists bss, wire max fs = concat bss /\
    Forall2 (fun f bs => encode_frame f max = Ok bs)
            (filter (fun f => wire_len f <= max) fs) bss.
Proof.
  induction fs as [|f fs (bss & Hw & Hf)]; [by exists []|].
  unfold wire in *. simpl. rewrite Hw. unfold wire_bytes at 1.
  destruct (encode_frame f max) as [bs|e] eqn:He.
  - exists (bs :: bss). split; [done|].
    rewrite filter_cons_True by (by apply encode_frame_ok in He as [? _]). by constructor.
  - exists bss. split; [done|]. apply encode_frame_err in He as [? _].
    rewrite filter_cons_False by lia. done.
Qed.

(** C13: In every reachable state of a connection, under any interleaving of
    senders, writer, disconnects and write failures, the outbound queue never
    exceeds its capacity and the bytes that reached the peer are a prefix of the
    encodings, in order, of the frames that were accepted. *)
Theorem connection_bounded_prefix (max : Z) (cap : nat) (w0 : W) (c : conn)
  (Hw : written w0 = [])
  (Hr : star (conn_step max) (split_connection cap w0) c) :
  (length (items (ob_tx (c_out c))) <= cap)%nat /\
  exists rest, wire max (c_accepted c) = written (c_sink c) ++ rest.
Proof.
  destruct (conn_reachable_inv _ _ _ _ Hw Hr) as (_ & Hb & Hi). split; [done|].
  destruct (c_writer c).
  - destruct Hi as (_ & -> & ->). rewrite wire_app. eauto.
  - destruct Hi as (_ & _ & [l ->] & rest & Ht). rewrite wire_app, Ht, <- app_assoc. eauto.
Qed.

(** End to end: when the writer has drained the queue, a peer that reads the
    connection with the same limit receives exactly the accepted frames that
    fit the limit, each once, in the order they were accepted, and then the end
    of the stream.  Frames over the limit are dropped one by one without
    disturbing the others. *)
Theorem connection_delivers {R} `{AsyncRead R} (max : Z) (cap : nat) (w0 : W) (c : conn) (r : R)
  (Hw : written w0 = [])
  (Hr : star (conn_step max) (split_connection cap w0) c)
  (Halive : c_writer c = true) (Hdrained : items (ob_tx (c_out c)) = [])
  (Hmax : max <= u_max 32) (Hok : Forall frame_ok (c_accepted c))
  (Hpeer : pending r = written (c_sink c)) (Hend : ending r = None) :
  let fs := filter (fun f => wire_len f <= max) (c_accepted c) in
  exists r', read_frames (length fs) max r = (map (fun f => Ok (Some f)) fs, r') /\
             fst (read_frame max r') = Ok None.
Proof.
  intros fs. destruct (conn_reachable_inv _ _ _ _ Hw Hr) as (_ & _ & Hi).
  rewrite Halive, Hdrained, app_nil_r in Hi. destruct Hi as (_ & Hacc & Hwr).
  destruct (wire_filter max (c_accepted c)) as (bss & Hbss & Hf2).
  destruct (read_frames_encoded max fs bss [] r) as (r' & Hrd & Hp' & He').
  - apply Forall_forall. intros x [_ Hx]%list_elem_of_filter. by eapply Forall_forall in Hok.
  - done.
  - done.
  - by rewrite app_nil_r, Hpeer, Hwr, <- Hacc.
  - exists r'. split; [done|]. pose proof (read_frame_meets_spec max r') as Hs.
    unfold read_frame_spec, short_error in Hs. rewrite Hp', He', Hend in Hs.
    destruct Hs as (e & He & _ & ->). by rewrite He.
Qed.

(** A closed sender accepts nothing and stays closed. *)
Lemma closed_step max c c' :
  ob_is_closed (c_out c) = true -> conn_step max c c' ->
  ob_is_closed (c_out c') = true /\ c_accepted c' = c_accepted c.
Proof.
  intros Hc Hstep. unfold ob_is_closed in *.
  destruct Hstep as [o w wr acc tk f r o' Hs|o w wr acc tk f r o' Hs|o w wr acc tk o' Hd
    |o w wr acc tk|o w sd acc tk f l st q' w' Hi Hw|o w sd acc tk Hg|o w sd acc tk f l k w' Hg Hi Hw];
    cbn [c_out c_accepted ob_tx ob_disconnected] in *.
  - apply try_send_frame_cases in Hs as [[-> (Hf & _)]|[(-> & Hf & _)|(-> & _ & ->)]];
      unfold ob_is_closed in *; [congruence|congruence|done].
  - apply send_frame_poll_cases in Hs as [[Hr (Hf & _)]|[(Hr & Hf & _)|(Hr & _ & ->)]];
      unfold ob_is_closed in *; [congruence|congruence|]. by injection Hr as ->.
  - unfold disconnect in Hd. injection Hd as <-. simpl. by rewrite orb_true_r.
  - done.
  - split; [|done].
    apply (write_iter_cases max (ob_tx o) w f l) in Hw
      as [(-> & Hi' & Hm' & Hc' & Hw')|(-> & Hi' & Hm' & Hc' & k & Hw')]; [| |done];
      rewrite Hc'; [done|]. done.
  - split; [|done]. by destruct (drop_rx_spec _ (ob_tx o)) as (_ & _ & ->).
  - split; [|done]. by destruct (drop_rx_spec _ (ob_tx o)) as (_ & _ & ->).
Qed.

Lemma closed_stays max c c' :
  ob_is_closed (c_out c) = true -> star (conn_step max) c c' ->
  ob_is_closed (c_out c') = true /\ c_accepted c' = c_accepted c.
Proof.
  intros Hc Hr. induction Hr as [|a b Hr [IHc IHa] Hs]; [done|].
  destruct (closed_step _ _ _ IHc Hs) as [? Heq]. by rewrite Heq.
Qed.

(** The slow-client policy is permanent: after a [try_send_frame] has failed
    once (the queue was full, or the peer gone), no later send on the connection
    is accepted, whatever the writer drains in between; every later
    [try_send_frame] answers [Closed]. *)
Theorem slow_client_is_cut_off (max : Z) (o o' : OutboundSender) (w : W) (wr : bool)
  (acc tk : list Frame) (f : Frame) (e : NetError) (c' : conn)
  (Hfail : try_send_frame f o = (Err e, o'))
  (Hr : star (conn_step max) (mkConn o' w wr true acc tk) c') :
  c_accepted c' = acc /\
  forall g, try_send_frame g (c_out c') = (Err Closed, c_out c').
Proof.
  assert (Hc : ob_is_closed o' = true).
  { apply try_send_frame_cases in Hfail as [[? _]|[(_ & _ & _ & ->)|(_ & ? & ->)]]; [done| |done].
    unfold ob_is_closed. simpl. by rewrite orb_true_r. }
  destruct (closed_stays max _ _ (Hc : ob_is_closed (c_out (mkConn o' w wr true acc tk)) = true) Hr)
    as [Hc' Ha]. split; [done|]. intros g. unfold try_send_frame. by rewrite Hc'.
Qed.

(** A writer whose socket accepts every write drains its queue completely. *)
Lemma write_task_drains max (q : Q Frame) (w : W) :
  (forall bs (v : W), exists v', (await? _ := write_all bs in flush) v = (Ok tt, v')) ->
  exists q' w', write_task (S (length (items q))) max (q, w) = (WtIdle, (q', w')) /\
    items q' = [] /\ written w' = written w ++ wire max (items q).
Proof.
  intros Hw. remember (items q) as l eqn:Hl. symmetry in Hl. revert q w Hl.
  induction l as [|f l IH]; intros q w Hl.
  - exists q, w. cbn [write_task length]. unfold io_bind, write_iter. rewrite pop_empty by done.
    rewrite app_nil_r. done.
  - cbn [length write_task]. unfold io_bind at 1.
    destruct (write_iter max (q, w)) as [st [q1 w1]] eqn:Ei. pose proof Ei as Ei'.
    apply (write_iter_cases max q w f l) in Ei as [(-> & Hi & _ & _ & Hwr)|(-> & _)]; [| |done].
    + destruct (IH q1 w1 Hi) as (q' & w' & Ht & Hq' & Hw').
      exists q', w'. split; [done|]. split; [done|]. rewrite Hw', Hwr. unfold wire. simpl.
      by rewrite app_assoc.
    + exfalso. unfold write_iter in Ei'. destruct (pop_head _ q f l Hl) as (q2 & Hp & _).
      rewrite Hp in Ei'. destruct (encode_frame f max); [|congruence].
      destruct (Hw v w) as [v' Hv']. rewrite Hv' in Ei'. congruence.
Qed.

End Connection.

Arguments OutboundSender : clear implicits.
Arguments conn : clear implicits.

(** A run used by the witnesses: two frames are accepted, one of them over the
    limit, and the writer drains the queue. *)
Definition demo_small : Frame := mkFrame 1 [7].
Definition demo_big : Frame := mkFrame 2 (replicate 9 0).
Definition demo_start : conn queue (list Z) := split_connection 4 [].
Definition demo_end : conn queue (list Z) :=
  mkConn (mkOutbound (mkQueue [] 4 false) false) (wire_bytes 8 demo_small) true true
         [demo_big; demo_small] [demo_big; demo_small].

Lemma demo_run : star (conn_step 8) demo_start demo_end.
Proof.
  eapply star_to; [eapply star_to; [eapply star_to; [eapply star_to; [apply star_refl| |]| |]| |]| |].
  - apply (step_try_send 8 _ _ _ _ _ demo_big (Ok tt)). vm_compute. reflexivity.
  - reflexivity.
  - apply (step_try_send 8 _ _ _ _ _ demo_small (Ok tt)). vm_compute. reflexivity.
  - reflexivity.
  - eapply (step_write 8 _ _ _ _ _ demo_big [demo_small] WtContinue); vm_compute; reflexivity.
  - reflexivity.
  - eapply (step_write 8 _ _ _ _ _ demo_small [] WtContinue); vm_compute; reflexivity.
  - vm_compute. reflexivity.
Qed.

Lemma connection_bounded_prefix_witness :
  (length (items (ob_tx (c_out demo_end))) <= 4)%nat /\
  exists rest, wire 8 (c_accepted demo_end) = written (c_sink demo_end) ++ rest.
Proof.
  apply (connection_bounded_prefix 8 4 ([] : list Z) demo_end); [reflexivity|apply demo_run].
Defined.

Lemma connection_delivers_witness :
  exists r', read_frames 1 8 (mkStream (written (c_sink demo_end)) None)
             = ([Ok (Some demo_small)], r') /\
             fst (read_frame 8 r') = Ok None.
Proof.
  apply (connection_delivers 8 4 ([] : list Z) demo_end
           (mkStream (written (c_sink demo_end)) None));
    try reflexivity; try (vm_compute; congruence); [apply demo_run|].
  repeat constructor; simpl; unfold is_u, is_byte; vm_compute; congruence.
Defined.

(** A queue of capacity one: the second frame cuts the connection off. *)
Lemma slow_client_is_cut_off_witness :
  exists (o o' : OutboundSender queue) (c' : conn queue (list Z)),
    try_send_frame demo_small o = (Err QueueFull, o') /\
    star (conn_step 8) (mkConn o' [] true true [demo_small] []) c' /\
    c_accepted c' = [demo_small] /\
    forall g, try_send_frame g (c_out c') = (Err Closed, c_out c').
Proof.
  set (o := mkOutbound (mkQueue [demo_small] 1 false) false).
  set (o' := mkOutbound (mkQueue [demo_small] 1 false) true).
  set (c' := mkConn (mkOutbound (mkQueue ([] : list Frame) 1 false) true)
               (wire_bytes 8 demo_small) true true [demo_small] [demo_small]).
  assert (Hf : try_send_frame demo_small o = (Err QueueFull, o')) by (vm_compute; reflexivity).
  assert (Hr : star (conn_step 8) (mkConn o' ([] : list Z) true true [demo_small] []) c').
  { eapply star_to; [apply star_refl| |].
    - eapply (step_write 8 _ _ _ _ _ demo_small [] WtContinue); vm_compute; reflexivity.
    - vm_compute. reflexivity. }
  exists o, o', c'. split; [exact Hf|]. split; [exact Hr|].
  exact (slow_client_is_cut_off 8 o o' [] true [demo_small] [] demo_small QueueFull c' Hf Hr).
Defined.
