(* ===== verification/Protocol.v ===== *)
(** The game protocol ([crates/protocol]): opcodes, typed messages and their
    codecs, and the opcode router.

    The protobuf types are the records of [proto/game.proto]; their wire format
    is generated code of the crate [prost], so it is a parameter: the class
    [Message] states that decoding an encoded message gives it back. *)
From S2P Require Import Prelude Text Tokio Frame.
From Stdlib Require Import Strings.String.
Open Scope Z_scope.
Open Scope list_scope.
Abbreviation length := Datatypes.length.

(* ------------------------------------------------------------------ *)
(** ** Messages of [proto/game.proto] *)

Module pb.

Record BindRequest := mkBindRequest { bind_token : rstr }.
Record HeartbeatPing := mkHeartbeatPing { client_ts_ms : Z }.
Record JoinRoomRequest := mkJoinRoomRequest { join_room_id : option rstr }.
Record LeaveRoomRequest := mkLeaveRoomRequest { leave_room_id : option rstr }.
Record RoomChatRequest := mkRoomChatRequest { chat_text : rstr }.
Record GetProfileRequest := mkGetProfileRequest {}.

Record BindResult := mkBindResult {
  br_ok : bool; br_player_id : option rstr; br_nickname : option rstr; br_error : option rstr
}.
Record HeartbeatAck := mkHeartbeatAck { server_ts_ms : Z }.
Record ProfileResponse := mkProfileResponse {
  pf_ok : bool; pf_player_id : option rstr; pf_nickname : option rstr;
  pf_level : option Z; pf_exp : option Z; pf_last_login_at_ms : option Z;
  pf_error : option rstr
}.
Record ErrorNotification := mkErrorNotification { en_code : Z; en_message : rstr }.
Record ServerShutdownNotice := mkServerShutdownNotice { sn_message : rstr }.

(** [oneof event] of [RoomEventNotification]. *)
Inductive Event :=
| MemberJoined (room_id player_id nickname : rstr)
| MemberLeft (room_id player_id : rstr)
| RoomChat (room_id sender_id sender_nickname text : rstr)
| RoomClosed (room_id reason : rstr).
Record RoomEventNotification := mkRoomEventNotification { re_event : option Event }.

(** Decidable equality of the messages. *)
#[global] Instance BindRequest_eq_dec : EqDecision BindRequest.
Proof. solve_decision. Defined.
#[global] Instance HeartbeatPing_eq_dec : EqDecision HeartbeatPing.
Proof. solve_decision. Defined.
#[global] Instance JoinRoomRequest_eq_dec : EqDecision JoinRoomRequest.
Proof. solve_decision. Defined.
#[global] Instance LeaveRoomRequest_eq_dec : EqDecision LeaveRoomRequest.
Proof. solve_decision. Defined.
#[global] Instance RoomChatRequest_eq_dec : EqDecision RoomChatRequest.
Proof. solve_decision. Defined.
#[global] Instance GetProfileRequest_eq_dec : EqDecision GetProfileRequest.
Proof. solve_decision. Defined.
#[global] Instance BindResult_eq_dec : EqDecision BindResult.
Proof. solve_decision. Defined.
#[global] Instance HeartbeatAck_eq_dec : EqDecision HeartbeatAck.
Proof. solve_decision. Defined.
#[global] Instance ProfileResponse_eq_dec : EqDecision ProfileResponse.
Proof. solve_decision. Defined.
#[global] Instance ErrorNotification_eq_dec : EqDecision ErrorNotification.
Proof. solve_decision. Defined.
#[global] Instance ServerShutdownNotice_eq_dec : EqDecision ServerShutdownNotice.
Proof. solve_decision. Defined.
#[global] Instance Event_eq_dec : EqDecision Event.
Proof. solve_decision. Defined.
#[global] Instance RoomEventNotification_eq_dec : EqDecision RoomEventNotification.
Proof. solve_decision. Defined.

End pb.

(** The values the Rust types of the fields allow. *)
Definition ok_str (s : rstr) : Prop := Forall is_char s.
Definition ok_opt {A} (P : A -> Prop) (o : option A) : Prop := default True (P <$> o).

#[global] Instance ok_str_dec s : Decision (ok_str s).
Proof. unfold ok_str. apply _. Defined.
#[global] Instance ok_opt_dec {A} (P : A -> Prop) `{forall a, Decision (P a)} o :
  Decision (ok_opt P o).
Proof. destruct o; simpl; apply _. Defined.

Definition ok_event (e : pb.Event) : Prop :=
  match e with
  | pb.MemberJoined a b c => ok_str a /\ ok_str b /\ ok_str c
  | pb.MemberLeft a b => ok_str a /\ ok_str b
  | pb.RoomChat a b c d => ok_str a /\ ok_str b /\ ok_str c /\ ok_str d
  | pb.RoomClosed a b => ok_str a /\ ok_str b
  end.
#[global] Instance ok_event_dec e : Decision (ok_event e).
Proof. destruct e; simpl; apply _. Defined.

(** [valid m]: the fields of [m] are values of their Rust types. *)
Class Valid (M : Type) := valid : M -> Prop.
#[global] Instance valid_bind : Valid pb.BindRequest := fun m => ok_str (pb.bind_token m).
#[global] Instance valid_ping : Valid pb.HeartbeatPing := fun m => is_i 64 (pb.client_ts_ms m).
#[global] Instance valid_join : Valid pb.JoinRoomRequest :=
  fun m => ok_opt ok_str (pb.join_room_id m).
#[global] Instance valid_leave : Valid pb.LeaveRoomRequest :=
  fun m => ok_opt ok_str (pb.leave_room_id m).
#[global] Instance valid_chat : Valid pb.RoomChatRequest := fun m => ok_str (pb.chat_text m).
#[global] Instance valid_get_profile : Valid pb.GetProfileRequest := fun _ => True.
#[global] Instance valid_bind_result : Valid pb.BindResult := fun m =>
  ok_opt ok_str (pb.br_player_id m) /\ ok_opt ok_str (pb.br_nickname m) /\
  ok_opt ok_str (pb.br_error m).
#[global] Instance valid_ack : Valid pb.HeartbeatAck := fun m => is_i 64 (pb.server_ts_ms m).
#[global] Instance valid_profile : Valid pb.ProfileResponse := fun m =>
  ok_opt ok_str (pb.pf_player_id m) /\ ok_opt ok_str (pb.pf_nickname m) /\
  ok_opt (is_u 32) (pb.pf_level m) /\ ok_opt (is_u 64) (pb.pf_exp m) /\
  ok_opt (is_i 64) (pb.pf_last_login_at_ms m) /\ ok_opt ok_str (pb.pf_error m).
#[global] Instance valid_error : Valid pb.ErrorNotification := fun m =>
  is_u 32 (pb.en_code m) /\ ok_str (pb.en_message m).
#[global] Instance valid_shutdown : Valid pb.ServerShutdownNotice := fun m =>
  ok_str (pb.sn_message m).
#[global] Instance valid_room_event : Valid pb.RoomEventNotification := fun m =>
  ok_opt ok_event (pb.re_event m).

(** [prost::Message]: [Err] carries the text of the [DecodeError]. *)
Class Message (M : Type) `{Valid M} := {
  encode_to_vec : M -> list Z;
  decode : list Z -> result M rstr;
  encode_to_vec_bytes m : Forall is_byte (encode_to_vec m);
  decode_encode m : valid m -> decode (encode_to_vec m) = Ok m;
  decode_valid bs m : decode bs = Ok m -> valid m
}.

(** The generated module: an implementation of every message. *)
Class Prost := {
  prost_bind :: Message pb.BindRequest;
  prost_ping :: Message pb.HeartbeatPing;
  prost_join :: Message pb.JoinRoomRequest;
  prost_leave :: Message pb.LeaveRoomRequest;
  prost_chat :: Message pb.RoomChatRequest;
  prost_get_profile :: Message pb.GetProfileRequest;
  prost_bind_result :: Message pb.BindResult;
  prost_ack :: Message pb.HeartbeatAck;
  prost_profile :: Message pb.ProfileResponse;
  prost_room_event :: Message pb.RoomEventNotification;
  prost_error :: Message pb.ErrorNotification;
  prost_shutdown :: Message pb.ServerShutdownNotice
}.

(* ------------------------------------------------------------------ *)
(** ** Opcodes ([opcodes.rs]) *)

Definition OP_C2S_BIND : Z := 0x0001.
Definition OP_C2S_HEARTBEAT : Z := 0x0002.
Definition OP_C2S_JOIN_ROOM : Z := 0x0010.
Definition OP_C2S_LEAVE_ROOM : Z := 0x0011.
Definition OP_C2S_ROOM_CHAT : Z := 0x0012.
Definition OP_C2S_GET_PROFILE : Z := 0x0013.

Definition OP_S2C_BIND_RESULT : Z := 0x8001.
Definition OP_S2C_HEARTBEAT_ACK : Z := 0x8002.
Definition OP_S2C_PROFILE : Z := 0x8003.
Definition OP_S2C_ROOM_EVENT : Z := 0x8010.
Definition OP_S2C_ERROR : Z := 0x8011.
Definition OP_S2C_SERVER_SHUTDOWN : Z := 0x8012.

Definition ERR_PROTOCOL : Z := 1000.
Definition ERR_FRAME_TOO_LARGE : Z := 1001.
Definition ERR_RATE_LIMITED : Z := 1002.
Definition ERR_TIMEOUT : Z := 1003.
Definition ERR_NOT_AUTHENTICATED : Z := 1004.
Definition ERR_AUTH_REQUIRED_FIRST : Z := 1005.
Definition ERR_ALREADY_BOUND : Z := 1006.
Definition ERR_SERVER_BUSY : Z := 2001.
Definition ERR_SERVER_SHUTDOWN : Z := 2002.
Definition ERR_INVALID_INPUT : Z := 2003.
Definition ERR_CONFLICT : Z := 2004.
Definition ERR_NOT_FOUND : Z := 2005.
Definition ERR_FORBIDDEN : Z := 2006.

(* ------------------------------------------------------------------ *)
(** ** Errors ([error.rs]) *)

Inductive ProtocolError :=
| PDecode (m : rstr)
| PEncode (m : rstr)
| UnsupportedOpcode (op : Z)
| Handler (m : rstr).
#[global] Instance ProtocolError_eq_dec : EqDecision ProtocolError.
Proof. solve_decision. Defined.

(** The format [{:#06x}] of a [u16]. *)
Definition show_06x (n : Z) : rstr := lit "0x" ++ show_02x (n / 256) ++ show_02x (n mod 256).

Definition ProtocolError_to_string (e : ProtocolError) : rstr :=
  match e with
  | PDecode m => lit "protobuf 解码失败: " ++ m
  | PEncode m => lit "protobuf 编码失败: " ++ m
  | UnsupportedOpcode op => lit "未支持的 opcode: " ++ show_06x op
  | Handler m => lit "路由处理器错误: " ++ m
  end.

Example unsupported_text :
  ProtocolError_to_string (UnsupportedOpcode 0x77f) = lit "未支持的 opcode: 0x077f".
Proof. vm_compute. reflexivity. Qed.

(* ------------------------------------------------------------------ *)
(** ** Typed messages ([messages.rs]) *)

Inductive InboundMessage :=
| Bind (m : pb.BindRequest)
| Heartbeat (m : pb.HeartbeatPing)
| JoinRoom (m : pb.JoinRoomRequest)
| LeaveRoom (m : pb.LeaveRoomRequest)
| InRoomChat (m : pb.RoomChatRequest)
| GetProfile (m : pb.GetProfileRequest)
| Unknown (op : Z).

Inductive OutboundMessage :=
| OBindResult (m : pb.BindResult)
| OHeartbeatAck (m : pb.HeartbeatAck)
| OProfile (m : pb.ProfileResponse)
| ORoomEvent (m : pb.RoomEventNotification)
| OError (m : pb.ErrorNotification)
| OShutdown (m : pb.ServerShutdownNotice).

(** [InboundMessage::opcode] *)
Definition in_opcode (m : InboundMessage) : Z :=
  match m with
  | Bind _ => OP_C2S_BIND
  | Heartbeat _ => OP_C2S_HEARTBEAT
  | JoinRoom _ => OP_C2S_JOIN_ROOM
  | LeaveRoom _ => OP_C2S_LEAVE_ROOM
  | InRoomChat _ => OP_C2S_ROOM_CHAT
  | GetProfile _ => OP_C2S_GET_PROFILE
  | Unknown op => op
  end.

Definition bind_ok (player_id nickname : rstr) : OutboundMessage :=
  OBindResult (pb.mkBindResult true (Some player_id) (Some nickname) None).

Definition bind_rejected (error : rstr) : OutboundMessage :=
  OBindResult (pb.mkBindResult false None None (Some error)).

Definition error_notification (code : Z) (message : rstr) : OutboundMessage :=
  OError (pb.mkErrorNotification code message).

Section Codecs.
Context `{Prost}.

(** [?] on a [prost::DecodeError]. *)
Definition pdecode {M} `{Message M} (bs : list Z) : result M ProtocolError :=
  map_err PDecode (decode bs).

Definition decode_inbound (op : Z) (payload : list Z) : result InboundMessage ProtocolError :=
  if op =? OP_C2S_BIND then let? m := pdecode payload in Ok (Bind m)
  else if op =? OP_C2S_HEARTBEAT then let? m := pdecode payload in Ok (Heartbeat m)
  else if op =? OP_C2S_JOIN_ROOM then let? m := pdecode payload in Ok (JoinRoom m)
  else if op =? OP_C2S_LEAVE_ROOM then let? m := pdecode payload in Ok (LeaveRoom m)
  else if op =? OP_C2S_ROOM_CHAT then let? m := pdecode payload in Ok (InRoomChat m)
  else if op =? OP_C2S_GET_PROFILE then let? m := pdecode payload in Ok (GetProfile m)
  else Ok (Unknown op).

Definition encode_outbound (message : OutboundMessage) : result (Z * list Z) ProtocolError :=
  Ok (match message with
      | OBindResult m => (OP_S2C_BIND_RESULT, encode_to_vec m)
      | OHeartbeatAck m => (OP_S2C_HEARTBEAT_ACK, encode_to_vec m)
      | OProfile m => (OP_S2C_PROFILE, encode_to_vec m)
      | ORoomEvent m => (OP_S2C_ROOM_EVENT, encode_to_vec m)
      | OError m => (OP_S2C_ERROR, encode_to_vec m)
      | OShutdown m => (OP_S2C_SERVER_SHUTDOWN, encode_to_vec m)
      end).

Definition decode_outbound (op : Z) (payload : list Z) : result OutboundMessage ProtocolError :=
  if op =? OP_S2C_BIND_RESULT then let? m := pdecode payload in Ok (OBindResult m)
  else if op =? OP_S2C_HEARTBEAT_ACK then let? m := pdecode payload in Ok (OHeartbeatAck m)
  else if op =? OP_S2C_PROFILE then let? m := pdecode payload in Ok (OProfile m)
  else if op =? OP_S2C_ROOM_EVENT then let? m := pdecode payload in Ok (ORoomEvent m)
  else if op =? OP_S2C_ERROR then let? m := pdecode payload in Ok (OError m)
  else if op =? OP_S2C_SERVER_SHUTDOWN then let? m := pdecode payload in Ok (OShutdown m)
  else Err (UnsupportedOpcode op).

End Codecs.

(** The trait [net_kit::codec::Codec]. *)
Class Codec (In Out Error : Type) := {
  codec_decode : Frame -> result In Error;
  codec_encode : Out -> result Frame Error
}.

(** [GameCodec]: the server's view. *)
#[global] Instance GameCodec `{Prost} : Codec InboundMessage OutboundMessage ProtocolError := {
  codec_decode f := decode_inbound (opcode f) (payload f);
  codec_encode m := let? (op, p) := encode_outbound m in Ok (frame_new op p)
}.

(** [ClientCodec]: the client's view. *)
#[global] Instance ClientCodec `{Prost} : Codec OutboundMessage InboundMessage ProtocolError := {
  codec_decode f := decode_outbound (opcode f) (payload f);
  codec_encode m :=
    let? (op, p) := match m with
      | Bind m => Ok (OP_C2S_BIND, encode_to_vec m)
      | Heartbeat m => Ok (OP_C2S_HEARTBEAT, encode_to_vec m)
      | JoinRoom m => Ok (OP_C2S_JOIN_ROOM, encode_to_vec m)
      | LeaveRoom m => Ok (OP_C2S_LEAVE_ROOM, encode_to_vec m)
      | InRoomChat m => Ok (OP_C2S_ROOM_CHAT, encode_to_vec m)
      | GetProfile m => Ok (OP_C2S_GET_PROFILE, encode_to_vec m)
      | Unknown op => Err (UnsupportedOpcode op)
      end in
    Ok (frame_new op p)
}.

#[global] Instance valid_inbound : Valid InboundMessage := fun m =>
  match m with
  | Bind m => valid m | Heartbeat m => valid m | JoinRoom m => valid m
  | LeaveRoom m => valid m | InRoomChat m => valid m | GetProfile m => valid m
  | Unknown op => is_u 16 op
  end.
#[global] Instance valid_outbound : Valid OutboundMessage := fun m =>
  match m with
  | OBindResult m => valid m | OHeartbeatAck m => valid m | OProfile m => valid m
  | ORoomEvent m => valid m | OError m => valid m | OShutdown m => valid m
  end.

(* ------------------------------------------------------------------ *)
(** ** The router ([router.rs])

    A handler gets the connection context and the message and acts on the
    world [W]. *)

Definition BoxedHandler (C W : Type) : Type :=
  C -> InboundMessage -> io W (result (option OutboundMessage) ProtocolError).

Record Router (C W : Type) := mkRouter { routes : gmap Z (BoxedHandler C W) }.
Arguments mkRouter {C W}.
Arguments routes {C W}.

Definition router_new {C W} : Router C W := mkRouter ∅.

Definition route {C W} (op : Z) (handler : BoxedHandler C W) (r : Router C W) : Router C W :=
  mkRouter (<[op := handler]> (routes r)).

(** [routes.get(&opcode)] *)
Definition get_route {C W} (r : Router C W) (op : Z) : option (BoxedHandler C W) := routes r !! op.

Definition has_route {C W} (r : Router C W) (op : Z) : bool :=
  bool_decide (is_Some (get_route r op)).

Definition route_count {C W} (r : Router C W) : nat := size (routes r).

Definition dispatch {C W} (r : Router C W) (ctx : C) (message : InboundMessage)
  : io W (result (option OutboundMessage) ProtocolError) :=
  await? handler := io_lift (ok_or (UnsupportedOpcode (in_opcode message))
                                   (get_route r (in_opcode message))) in
  handler ctx message.

Lemma dispatch_hit {C W} (r : Router C W) ctx m (w : W) h :
  get_route r (in_opcode m) = Some h -> dispatch r ctx m w = h ctx m w.
Proof. intros Hh. unfold dispatch, io_try, io_lift, io_ret. by rewrite Hh. Qed.

Lemma dispatch_miss {C W} (r : Router C W) ctx m (w : W) :
  has_route r (in_opcode m) = false ->
  dispatch r ctx m w = (Err (UnsupportedOpcode (in_opcode m)), w).
Proof.
  unfold has_route, dispatch, io_try, io_lift, io_ret. intros Hn%bool_decide_eq_false.
  destruct (get_route r (in_opcode m)) eqn:E; [|done]. destruct Hn. eauto.
Qed.

(* ------------------------------------------------------------------ *)
(** ** Round trips *)

Section RoundTrips.
Context `{HP : Prost}.

Lemma pdecode_encode {M} `{Message M} (m : M) : valid m -> pdecode (encode_to_vec m) = Ok m.
Proof. intros Hv. unfold pdecode. by rewrite decode_encode. Qed.

Lemma frame_new_ok {M} `{Message M} op (m : M) :
  is_u 16 op -> frame_ok (frame_new op (encode_to_vec m)).
Proof. intros Hop. split; [done|]. apply encode_to_vec_bytes. Qed.

(** A message the client can encode arrives as the same message. *)
Lemma client_codec_roundtrip (m : InboundMessage) f :
  valid m -> codec_encode (Codec := ClientCodec) m = Ok f ->
  frame_ok f /\ codec_decode (Codec := GameCodec) f = Ok m.
Proof.
  unfold valid. destruct m; simpl; intros Hv [= <-];
    (split; [apply frame_new_ok; done|unfold decode_inbound; simpl; by rewrite pdecode_encode]).
Qed.

Lemma game_codec_roundtrip (m : OutboundMessage) f :
  valid m -> codec_encode (Codec := GameCodec) m = Ok f ->
  frame_ok f /\ codec_decode (Codec := ClientCodec) f = Ok m.
Proof.
  unfold valid. destruct m; simpl; intros Hv [= <-];
    (split; [apply frame_new_ok; done|unfold decode_outbound; simpl; by rewrite pdecode_encode]).
Qed.

(** C35: A typed message survives the whole wire path in both directions: encoded
    by the client codec, framed with any admissible limit and followed by any
    further bytes, it is read by the server as one frame that decodes to the
    same message and the following bytes are left untouched; the same holds from
    the server codec to the client codec. *)
Theorem wire_messages_roundtrip {R} `{AsyncRead R} (max : Z) (r : R) (Hmax : max <= u_max 32) :
  (forall (m : InboundMessage) f bs rest,
     valid m -> codec_encode (Codec := ClientCodec) m = Ok f -> encode_frame f max = Ok bs ->
     pending r = bs ++ rest ->
     exists r', read_frame max r = (Ok (Some f), r') /\
                codec_decode (Codec := GameCodec) f = Ok m /\ pending r' = rest) /\
  (forall (m : OutboundMessage) f bs rest,
     valid m -> codec_encode (Codec := GameCodec) m = Ok f -> encode_frame f max = Ok bs ->
     pending r = bs ++ rest ->
     exists r', read_frame max r = (Ok (Some f), r') /\
                codec_decode (Codec := ClientCodec) f = Ok m /\ pending r' = rest).
Proof.
  split; intros m f bs rest Hv Hf Hbs Hp.
  - destruct (client_codec_roundtrip m f Hv Hf) as [Hok Hd].
    destruct (read_frame_encoded max r f bs rest) as (r' & ? & ? & _); eauto.
  - destruct (game_codec_roundtrip m f Hv Hf) as [Hok Hd].
    destruct (read_frame_encoded max r f bs rest) as (r' & ? & ? & _); eauto.
Qed.

(** What an inbound frame can decode to: never an error on an unknown opcode,
    and a decoded message keeps the frame's opcode and holds valid values. *)
Lemma decode_inbound_opcode op bs m :
  is_u 16 op -> decode_inbound op bs = Ok m -> in_opcode m = op /\ valid m.
Proof.
  intros Hop. unfold decode_inbound, pdecode.
  repeat match goal with
    | |- context [?x =? ?y] => destruct (Z.eqb_spec x y) as [->|]
    end;
    try (destruct (decode bs) eqn:E; simpl; [|done]; intros [= <-];
         split; [done|by apply decode_valid in E]).
  intros [= <-]. done.
Qed.

End RoundTrips.

(* ------------------------------------------------------------------ *)
(** ** An implementation of [prost]

    Any injective encoding will do to show that the laws can hold: a message is
    numbered through [Countable] and its number written in bits, one per byte. *)

Fixpoint pos_to_bytes (p : positive) : list Z :=
  match p with
  | xH => []
  | xO q => 0 :: pos_to_bytes q
  | xI q => 1 :: pos_to_bytes q
  end.
Fixpoint bytes_to_pos (bs : list Z) : positive :=
  match bs with
  | [] => xH
  | b :: bs' => if b =? 0 then xO (bytes_to_pos bs') else xI (bytes_to_pos bs')
  end.

Lemma bytes_to_pos_to_bytes p : bytes_to_pos (pos_to_bytes p) = p.
Proof. induction p as [p IH|p IH|]; simpl; congruence. Qed.

Lemma pos_to_bytes_bytes p : Forall is_byte (pos_to_bytes p).
Proof. induction p; simpl; repeat constructor; try done; lia. Qed.

Section CountableMessage.
Context {M : Type} `{Countable M} `{Valid M} `{Hd : forall m : M, Decision (valid m)}.

#[program] Definition countable_message : Message M := {|
  encode_to_vec m := pos_to_bytes (encode m);
  decode bs :=
    match countable.decode (bytes_to_pos bs) with
    | Some m => if decide (valid m) then Ok m else Err []
    | None => Err []
    end
|}.
Next Obligation. intros. apply pos_to_bytes_bytes. Qed.
Next Obligation.
  intros m Hv. simpl. by rewrite bytes_to_pos_to_bytes, countable.decode_encode, decide_True.
Qed.
Next Obligation. intros bs m. simpl. case_all; congruence. Qed.

End CountableMessage.

Local Ltac inst_countable f g :=
  unshelve refine (countable_message (H := inj_countable' f g _));
  first [by intros []|unfold valid; intros []; apply _|idtac].

Definition event_tuple (e : pb.Event) :=
  match e with
  | pb.MemberJoined a b c => (0, [a; b; c])
  | pb.MemberLeft a b => (1, [a; b])
  | pb.RoomChat a b c d => (2, [a; b; c; d])
  | pb.RoomClosed a b => (3, [a; b])
  end.
Definition tuple_event (t : Z * list rstr) : pb.Event :=
  match t with
  | (0, [a; b; c]) => pb.MemberJoined a b c
  | (1, [a; b]) => pb.MemberLeft a b
  | (2, [a; b; c; d]) => pb.RoomChat a b c d
  | (_, a :: b :: _) => pb.RoomClosed a b
  | _ => pb.RoomClosed [] []
  end.

Definition simple_prost : Prost.
Proof.
  constructor.
  - inst_countable pb.bind_token pb.mkBindRequest.
  - inst_countable pb.client_ts_ms pb.mkHeartbeatPing.
  - inst_countable pb.join_room_id pb.mkJoinRoomRequest.
  - inst_countable pb.leave_room_id pb.mkLeaveRoomRequest.
  - inst_countable pb.chat_text pb.mkRoomChatRequest.
  - inst_countable (fun _ : pb.GetProfileRequest => tt) (fun _ : unit => pb.mkGetProfileRequest).
  - inst_countable (fun m => (pb.br_ok m, pb.br_player_id m, pb.br_nickname m, pb.br_error m))
      (fun '(a, b, c, d) => pb.mkBindResult a b c d).
  - inst_countable pb.server_ts_ms pb.mkHeartbeatAck.
  - inst_countable (fun m => (pb.pf_ok m, pb.pf_player_id m, pb.pf_nickname m, pb.pf_level m,
                              pb.pf_exp m, pb.pf_last_login_at_ms m, pb.pf_error m))
      (fun '(a, b, c, d, e, f, g) => pb.mkProfileResponse a b c d e f g).
  - unshelve refine (countable_message (H := inj_countable' (fun m => event_tuple <$> pb.re_event m)
      (fun t => pb.mkRoomEventNotification (tuple_event <$> t)) _));
      first [by intros [[[]|]]|unfold valid; intros []; apply _|idtac].
  - inst_countable (fun m => (pb.en_code m, pb.en_message m))
      (fun '(a, b) => pb.mkErrorNotification a b).
  - inst_countable pb.sn_message pb.mkServerShutdownNotice.
Defined.

(** A join request across the wire with that implementation. *)
Lemma wire_messages_roundtrip_witness :
  exists (f : Frame) (r r' : byte_stream),
    read_frame 200 r = (Ok (Some f), r') /\
    codec_decode (Codec := @GameCodec simple_prost) f =
    Ok (JoinRoom (pb.mkJoinRoomRequest (Some (lit "r1")))).
Proof.
  set (m := JoinRoom (pb.mkJoinRoomRequest (Some (lit "r1")))).
  destruct (codec_encode (Codec := @ClientCodec simple_prost) m) as [f|] eqn:Hf; [|discriminate].
  destruct (encode_frame f 200) as [bs|] eqn:Hbs;
    [|exfalso; injection Hf as <-; vm_compute in Hbs; discriminate].
  destruct (@wire_messages_roundtrip simple_prost byte_stream _ 200 (mkStream bs None))
    as [Hin _]; [vm_compute; congruence|].
  assert (Hv : valid m) by (repeat constructor; vm_compute; intuition congruence).
  destruct (Hin m f bs [] Hv Hf Hbs (eq_sym (app_nil_r bs))) as (r' & Hr & Hd & _).
  exists f, (mkStream bs None), r'. split; [exact Hr|exact Hd].
Defined.
