(* ===== verification/App.v ===== *)
(** The application layer's vocabulary ([crates/application]): its error type
    ([error.rs]), its data transfer objects ([dto.rs]) and its ports
    ([ports.rs], [domain/src/*/repository.rs]).

    A port is a class: the operations of the trait on an abstract state, an
    observation of that state, and what the trait's documentation promises.  The
    use cases are proved against the classes; [MemRepos] and [TokenStore] are
    implementations that meet them. *)
From S2P Require Import Prelude Text Values Account Player Session.
From Stdlib Require Import Strings.String.
Open Scope Z_scope.
Open Scope list_scope.
Abbreviation concat := List.concat.
Abbreviation length := Datatypes.length.

(* ------------------------------------------------------------------ *)
(** ** Errors *)

Inductive AppError :=
| Validation (m : rstr)
| Unauthorized (m : rstr)
| Forbidden (m : rstr)
| NotFound (m : rstr)
| Conflict (m : rstr)
| Busy
| RateLimited
| Storage (m : rstr)
| PostCommit (m : rstr)
| Internal (m : rstr).
#[global] Instance AppError_eq_dec : EqDecision AppError.
Proof. solve_decision. Defined.

Definition AppError_to_string (e : AppError) : rstr :=
  match e with
  | Validation m => lit "输入不合法: " ++ m
  | Unauthorized m => lit "未鉴权: " ++ m
  | Forbidden m => lit "禁止操作: " ++ m
  | NotFound m => lit "资源不存在: " ++ m
  | Conflict m => lit "状态冲突: " ++ m
  | Busy => lit "服务繁忙,请稍后重试"
  | RateLimited => lit "请求过于频繁"
  | Storage m => lit "存储故障: " ++ m
  | PostCommit m => lit "数据已提交,事件发布失败,请勿重试整个操作: " ++ m
  | Internal m => lit "内部错误: " ++ m
  end.

(** [impl From<DomainError> for AppError] *)
Definition app_of_domain (e : DomainError) : AppError :=
  match e with
  | InvalidValue field reason => Validation (lit field ++ lit ": " ++ reason)
  | RoomFull _ => Conflict (lit "房间已满")
  | RoomClosed _ => Conflict (lit "房间已关闭")
  | NotMember _ _ => Validation (lit "不在该房间中")
  | IllegalTransition _ _ => Internal (lit "非法状态迁移")
  end.

(** [impl From<RepoError> for AppError] *)
Definition app_of_repo (e : RepoError) : AppError :=
  match e with
  | RConflict reason => Conflict reason
  | RStorage reason => Storage reason
  end.

(* ------------------------------------------------------------------ *)
(** ** Data transfer objects *)

Record RegisterCommand := mkRegisterCommand {
  rc_username : rstr; rc_password : rstr; rc_nickname : rstr }.
Record RegisterResult := mkRegisterResult {
  rr_account_id : AccountId; rr_player_id : PlayerId; rr_nickname : rstr }.
Record LoginCommand := mkLoginCommand { lc_username : rstr; lc_password : rstr }.
Record LoginResult := mkLoginResult {
  lr_token : rstr; lr_player_id : PlayerId; lr_nickname : rstr; lr_expires_in_secs : Z }.
Record PlayerProfile := mkPlayerProfile {
  pp_player_id : PlayerId; pp_nickname : rstr; pp_level : Z; pp_exp : Z;
  pp_last_login_at : option DateTime }.
Record RoomSummary := mkRoomSummary {
  rs_room_id : RoomId; rs_member_count : Z; rs_max_players : Z; rs_state : rstr }.

(** [impl From<&Player> for PlayerProfile] *)
Definition profile_of_player (p : Player) : PlayerProfile :=
  mkPlayerProfile (pl_id p) (Nickname.as_str (pl_nickname p)) (pl_level p) (pl_exp p)
                  (pl_last_login_at p).

(* ------------------------------------------------------------------ *)
(** ** Repositories

    [AccountRepository], [PlayerRepository] and [RegistrationStore] act on one
    store; [accounts_view] and [players_view] are its contents, and [kept_time] is a
    time as the store keeps it (a database rounds).

    A store may be out of reach: a write that answers a storage error may have taken
    place all the same, but never in part. *)

(** Aggregates as the store keeps them. *)
Definition account_kept (keep : DateTime -> DateTime) (a : Account) : Account :=
  mkAccount (acc_id a) (acc_username a) (acc_password_hash a) (acc_status a) (keep (acc_created_at a)).
Definition player_kept (keep : DateTime -> DateTime) (p : Player) : Player :=
  mkPlayer (pl_id p) (pl_account_id p) (pl_nickname p) (pl_level p) (pl_exp p)
           (keep <$> pl_last_login_at p) (keep (pl_created_at p)).

Lemma account_kept_id a : account_kept (fun t => t) a = a.
Proof. by destruct a. Qed.
Lemma player_kept_id p : player_kept (fun t => t) p = p.
Proof. destruct p as [? ? ? ? ? [] ?]; done. Qed.

(** What a registration hands over: valid, active, small enough for any column. *)
Definition registrable (a : Account) (p : Player) : Prop :=
  Username.valid (acc_username a) /\ acc_status a = Active /\
  Nickname.valid (pl_nickname p) /\ pl_account_id p = acc_id a /\
  0 <= pl_level p <= 2 ^ 31 - 1 /\ 0 <= pl_exp p <= 2 ^ 63 - 1.

Class Repositories (S : Type) := {
  accounts_view : S -> gmap Z Account;
  players_view : S -> gmap Z Player;
  kept_time : DateTime -> DateTime;
  (** rows are filed under their own identifier *)
  repo_wf : S -> Prop;
  repo_wf_account s i a : repo_wf s -> accounts_view s !! i = Some a -> acc_id a = i;
  repo_wf_player s i p : repo_wf s -> players_view s !! i = Some p -> pl_id p = i;

  find_account_by_id : AccountId -> io S (result (option Account) RepoError);
  find_by_username : rstr -> io S (result (option Account) RepoError);
  save_account : Account -> io S (result unit RepoError);
  find_player_by_id : PlayerId -> io S (result (option Player) RepoError);
  find_by_account : AccountId -> io S (result (option Player) RepoError);
  save_player : Player -> io S (result unit RepoError);
  repo_gain_exp : PlayerId -> Z -> io S (result (option (Player * option Z)) RepoError);
  repo_record_login : PlayerId -> DateTime -> io S (result (option Player) RepoError);
  store_register : Account -> Player -> io S (result unit AppError);

  find_account_by_id_spec i s r s' :
    repo_wf s -> find_account_by_id i s = (r, s') ->
    repo_wf s' /\ accounts_view s' = accounts_view s /\ players_view s' = players_view s /\
    (forall o, r = Ok o -> o = accounts_view s !! i);
  find_by_username_spec u s r s' :
    repo_wf s -> Username.valid u -> find_by_username (Username.as_str u) s = (r, s') ->
    repo_wf s' /\ accounts_view s' = accounts_view s /\ players_view s' = players_view s /\
    match r with
    | Ok (Some a) => acc_username a = u /\ accounts_view s !! acc_id a = Some a
    | Ok None => forall i a, accounts_view s !! i = Some a -> acc_username a <> u
    | Err _ => True
    end;
  find_player_by_id_spec i s r s' :
    repo_wf s -> find_player_by_id i s = (r, s') ->
    repo_wf s' /\ accounts_view s' = accounts_view s /\ players_view s' = players_view s /\
    (forall o, r = Ok o -> o = players_view s !! i);
  find_by_account_spec i s r s' :
    repo_wf s -> find_by_account i s = (r, s') ->
    repo_wf s' /\ accounts_view s' = accounts_view s /\ players_view s' = players_view s /\
    match r with
    | Ok (Some p) => pl_account_id p = i /\ players_view s !! pl_id p = Some p
    | Ok None => forall j p, players_view s !! j = Some p -> pl_account_id p <> i
    | Err _ => True
    end;
  (** the row changes exactly as the aggregate says, or not at all *)
  repo_gain_exp_spec i amount s r s' :
    repo_wf s -> is_u 64 amount -> repo_gain_exp i amount s = (r, s') ->
    repo_wf s' /\ accounts_view s' = accounts_view s /\
    let done p l :=
      exists p0, players_view s !! i = Some p0 /\ (p, l) = Player.gain_exp p0 amount /\
                 players_view s' = <[i := p]> (players_view s) in
    match r with
    | Ok (Some (p, l)) => done p l
    | Ok None => players_view s !! i = None /\ players_view s' = players_view s
    | Err e => players_view s' = players_view s \/
               (exists text, e = RStorage text) /\ exists p l, done p l
    end;
  repo_record_login_spec i at_ s r s' :
    repo_wf s -> repo_record_login i at_ s = (r, s') ->
    repo_wf s' /\ accounts_view s' = accounts_view s /\
    let done p :=
      exists p0, players_view s !! i = Some p0 /\ p = Player.record_login p0 (kept_time at_) /\
                 players_view s' = <[i := p]> (players_view s) in
    match r with
    | Ok (Some p) => done p
    | Ok None => players_view s !! i = None /\ players_view s' = players_view s
    | Err e => players_view s' = players_view s \/ (exists text, e = RStorage text) /\ exists p, done p
    end;
  (** both rows or none; no username and no account is used twice *)
  store_register_spec a p s r s' :
    repo_wf s -> registrable a p -> store_register a p s = (r, s') ->
    repo_wf s' /\
    let done :=
      accounts_view s !! acc_id a = None /\ players_view s !! pl_id p = None /\
      (forall i b, accounts_view s !! i = Some b -> acc_username b <> acc_username a) /\
      (forall i q, players_view s !! i = Some q -> pl_account_id q <> pl_account_id p) /\
      accounts_view s' = <[acc_id a := account_kept kept_time a]> (accounts_view s) /\
      players_view s' = <[pl_id p := player_kept kept_time p]> (players_view s) in
    match r with
    | Ok _ => done
    | Err e => accounts_view s' = accounts_view s /\ players_view s' = players_view s \/
               (exists text, e = Storage text) /\ done
    end
}.

(* ------------------------------------------------------------------ *)
(** ** Session tokens

    Instants are readings of the store's clock; [rnd] are the 32 bytes the entropy
    source returns.  [live s now t] is the player a token stands for at an instant;
    [unused now s t]: the token was never issued before.  A store that drops what has
    expired says nothing about the past, so its state is well-formed from an instant on,
    and what an operation does is stated for the instants that follow it.

    A store may be out of reach: an operation that answers an error may still have taken
    place.  It then touches nothing but the tokens of its player. *)

Definition random_token (rnd : list Z) : rstr := concat (map show_02x rnd).

(** What a failed operation may do to the token [t] of the player [p]: nothing, revoke it,
    or, where [t] is the token being created, create it. *)
Definition maybe_done (p : PlayerId) (created : bool) (before after : option PlayerId) : Prop :=
  after = before \/ (before = Some p /\ after = None) \/ (created = true /\ after = Some p).

Class SessionTokenStore (T : Type) := {
  tok_wf : Z -> T -> Prop;
  live : T -> Z -> rstr -> option PlayerId;
  unused : Z -> T -> rstr -> Prop;
  expiry : Z -> Z -> Z;

  tok_create : Z -> list Z -> PlayerId -> Z -> io T (result rstr AppError);
  tok_resolve : Z -> rstr -> io T (result (option PlayerId) AppError);
  tok_revoke_player : Z -> PlayerId -> io T (result unit AppError);

  tok_wf_later now now' s : now <= now' -> tok_wf now s -> tok_wf now' s;
  (** all older tokens of the player are replaced by the new one *)
  tok_create_spec now rnd p ttl s r s' :
    tok_wf now s -> unused now s (random_token rnd) -> is_uuid p ->
    tok_create now rnd p ttl s = (r, s') ->
    tok_wf now s' /\
    match r with
    | Ok t =>
        t = random_token rnd /\
        forall now' t', now <= now' -> live s' now' t' =
          if decide (t' = t) then (if now' <? expiry now ttl then Some p else None)
          else if decide (live s now' t' = Some p) then None else live s now' t'
    | Err _ => forall now' t', now <= now' ->
        maybe_done p (bool_decide (t' = random_token rnd)) (live s now' t') (live s' now' t')
    end;
  tok_resolve_spec now t s r s' :
    tok_wf now s -> tok_resolve now t s = (r, s') ->
    s' = s /\ forall o, r = Ok o -> o = live s now t;
  tok_revoke_spec now p s r s' :
    tok_wf now s -> is_uuid p -> tok_revoke_player now p s = (r, s') ->
    tok_wf now s' /\
    match r with
    | Ok _ => forall now' t', now <= now' ->
        live s' now' t' = if decide (live s now' t' = Some p) then None else live s now' t'
    | Err _ => forall now' t', now <= now' -> maybe_done p false (live s now' t') (live s' now' t')
    end
}.

(* ------------------------------------------------------------------ *)
(** ** Passwords, audit, events *)

(** [PasswordHasher]: [matches pw h] says that [h] is a hash of [pw]. *)
Class PasswordHasher (H : Type) := {
  matches : rstr -> rstr -> Prop;
  hash : rstr -> io H (result rstr AppError);
  verify : rstr -> rstr -> io H (result bool AppError);
  hash_spec pw s h s' : hash pw s = (Ok h, s') -> matches pw h;
  verify_spec pw h s b s' : verify pw h s = (Ok b, s') -> b = true <-> matches pw h
}.

Class AuditLogger (A : Type) := {
  record : option PlayerId -> rstr -> rstr -> io A (result unit AppError)
}.

(** [EventPublisher]: [published] are the events handed over so far. *)
Class EventPublisher (E : Type) := {
  published : E -> list DomainEvent;
  publish : DomainEvent -> io E (result unit AppError);
  publish_spec e s r s' :
    publish e s = (r, s') ->
    match r with Ok _ => published s' = published s ++ [e] | Err _ => published s' = published s end
}.

(* ------------------------------------------------------------------ *)
(** ** Simple instances, to run the use cases *)

#[program] Definition plain_hasher : PasswordHasher unit := {|
  matches pw h := pw = h;
  hash pw := io_ret (Ok pw);
  verify pw h := io_ret (Ok (bool_decide (pw = h)))
|}.
Next Obligation. intros pw s h s' [[= ->] _]%io_ret_inv. done. Qed.
Next Obligation. intros pw h s b s' [[= <-] _]%io_ret_inv. apply bool_decide_eq_true. Qed.

(** A log of (player, action, detail). *)
Definition log_audit : AuditLogger (list (option Z * rstr * rstr)) := {|
  record p action detail := fun s => (Ok tt, s ++ [(p, action, detail)])
|}.

#[program] Definition log_events : EventPublisher (list DomainEvent) := {|
  published s := s;
  publish e := fun s => (Ok tt, s ++ [e])
|}.
Next Obligation. by intros e s r s' [= <- <-]. Qed.
