(* ===== verification/MemRepos.v ===== *)
(** The in-memory store of accounts and players
    ([infrastructure/src/persistence/repositories/memory_repos.rs]) and the room
    snapshots ([room_repo.rs]).

    A [HashMap] is a finite map; [values().find] returns some matching entry, here
    the first in the map's own order.  Every operation locks what it touches for
    its whole body, so each is one atomic step. *)
From S2P Require Import Prelude Text Values Account Player Room Session App.
From Stdlib Require Import Strings.String.
Open Scope Z_scope.
Open Scope list_scope.
Abbreviation length := Datatypes.length.

Module Memory.

(** [InMemoryAccountRepository] and [InMemoryPlayerRepository]: their maps,
    shared with [InMemoryRegistrationStore]. *)
Record Store := mkStore { accounts : gmap Z Account; players : gmap Z Player }.

Definition empty_store : Store := mkStore ∅ ∅.

(** [map.values().find(p)] and [map.values().any(p)] *)
Definition find_value {A} (p : A -> bool) (m : gmap Z A) : option A :=
  snd <$> (snd <$> list_find (fun kv : Z * A => p (snd kv) = true) (map_to_list m)).
Definition any_value {A} (p : A -> bool) (m : gmap Z A) : bool :=
  existsb (fun kv => p (snd kv)) (map_to_list m).

Definition find_account_by_id (i : AccountId) : io Store (result (option Account) RepoError) :=
  fun s => (Ok (accounts s !! i), s).

Definition find_by_username (u : rstr) : io Store (result (option Account) RepoError) :=
  fun s => (Ok (find_value (fun a => bool_decide (Username.as_str (acc_username a) = u))
                           (accounts s)), s).

Definition save_account (a : Account) : io Store (result unit RepoError) :=
  fun s => (Ok tt, mkStore (<[acc_id a := a]> (accounts s)) (players s)).

Definition find_player_by_id (i : PlayerId) : io Store (result (option Player) RepoError) :=
  fun s => (Ok (players s !! i), s).

Definition find_by_account (i : AccountId) : io Store (result (option Player) RepoError) :=
  fun s => (Ok (find_value (fun p => pl_account_id p =? i) (players s)), s).

Definition save_player (p : Player) : io Store (result unit RepoError) :=
  fun s => (Ok tt, mkStore (accounts s) (<[pl_id p := p]> (players s))).

Definition gain_exp (i : PlayerId) (amount : Z)
  : io Store (result (option (Player * option Z)) RepoError) :=
  fun s =>
    match players s !! i with
    | None => (Ok None, s)
    | Some player =>
        let '(player', level) := Player.gain_exp player amount in
        (Ok (Some (player', level)), mkStore (accounts s) (<[i := player']> (players s)))
    end.

Definition record_login (i : PlayerId) (at_ : DateTime)
  : io Store (result (option Player) RepoError) :=
  fun s =>
    match players s !! i with
    | None => (Ok None, s)
    | Some player =>
        let player' := Player.record_login player at_ in
        (Ok (Some player'), mkStore (accounts s) (<[i := player']> (players s)))
    end.

(** [InMemoryRegistrationStore::register] *)
Definition register (a : Account) (p : Player) : io Store (result unit AppError) :=
  fun s =>
    if bool_decide (is_Some (accounts s !! acc_id a))
       || any_value (fun stored => bool_decide (acc_username stored = acc_username a)) (accounts s)
       || bool_decide (is_Some (players s !! pl_id p))
       || any_value (fun stored => pl_account_id stored =? pl_account_id p) (players s)
    then (Err (Conflict (lit "注册数据已存在")), s)
    else (Ok tt, mkStore (<[acc_id a := a]> (accounts s)) (<[pl_id p := p]> (players s))).

(** [InMemoryPlayerRepository::seed]; [None] is the panic on an invalid name. *)
Definition seed (new_account new_id : Z) (now : DateTime) (nickname : rstr)
  : io Store (option Player) :=
  fun s =>
    match Nickname.try_new nickname with
    | Err _ => (None, s)
    | Ok n =>
        let player := Player.create new_id new_account n now in
        (Some player, mkStore (accounts s) (<[pl_id player := player]> (players s)))
    end.

(** Every row is filed under its identifier. *)
Definition wf (s : Store) : Prop :=
  map_Forall (fun i a => acc_id a = i) (accounts s) /\
  map_Forall (fun i p => pl_id p = i) (players s).

Lemma find_value_some {A} (p : A -> bool) (m : gmap Z A) a :
  find_value p m = Some a -> p a = true /\ exists i, m !! i = Some a.
Proof.
  unfold find_value. rewrite <- option_fmap_compose, fmap_Some.
  intros ([n [i b]] & (Hl & Hp & _)%list_find_Some & ->). simpl in *.
  apply list_elem_of_lookup_2, elem_of_map_to_list in Hl. eauto.
Qed.

Lemma find_value_none {A} (p : A -> bool) (m : gmap Z A) i a :
  find_value p m = None -> m !! i = Some a -> p a = false.
Proof.
  unfold find_value. rewrite !fmap_None, list_find_None, Forall_forall. intros Hf Hi.
  apply not_true_is_false. apply (Hf (i, a)). by apply elem_of_map_to_list.
Qed.

Lemma any_value_false {A} (p : A -> bool) (m : gmap Z A) i a :
  any_value p m = false -> m !! i = Some a -> p a = false.
Proof.
  unfold any_value. rewrite existsb_Forall, Forall_forall. intros Hf Hi.
  apply (Hf (i, a)). by apply elem_of_map_to_list.
Qed.

Lemma wf_insert_player s i p :
  wf s -> pl_id p = i -> wf (mkStore (accounts s) (<[i := p]> (players s))).
Proof. intros [? ?] Hi. split; [done|]. by apply map_Forall_insert_2. Qed.

Lemma gain_exp_id p amount : pl_id (fst (Player.gain_exp p amount)) = pl_id p.
Proof. unfold Player.gain_exp. by destruct (level_loop _ _ _) as [[? ?] ?]. Qed.

(** The in-memory store keeps the contract of the repositories. *)
#[global, program] Instance memory_repositories : Repositories Store := {
  accounts_view := accounts;
  players_view := players;
  kept_time t := t;
  repo_wf := wf;
  App.find_account_by_id := find_account_by_id;
  App.find_by_username := find_by_username;
  App.save_account := save_account;
  App.find_player_by_id := find_player_by_id;
  App.find_by_account := find_by_account;
  App.save_player := save_player;
  repo_gain_exp := gain_exp;
  repo_record_login := record_login;
  store_register := register
}.
Next Obligation. intros s i a [Ha _] Hi. by apply Ha in Hi. Qed.
Next Obligation. intros s i p [_ Hp] Hi. by apply Hp in Hi. Qed.
Next Obligation. intros i s r s' Hwf [= <- <-]. split_and!; try done. congruence. Qed.
Next Obligation.
  intros u s r s' Hwf _ [= <- <-]. split_and!; try done.
  destruct (find_value _ _) as [a|] eqn:E.
  - apply find_value_some in E as [Hu [i Hi]]. b2p. split; [by apply Username.as_str_inj|].
    destruct Hwf as [Ha _]. by rewrite (Ha _ _ Hi).
  - intros i a Hi Hu. eapply find_value_none in E; [|done]. b2p. by rewrite Hu in E.
Qed.
Next Obligation. intros i s r s' Hwf [= <- <-]. split_and!; try done. congruence. Qed.
Next Obligation.
  intros i s r s' Hwf [= <- <-]. split_and!; try done.
  destruct (find_value _ _) as [p|] eqn:E.
  - apply find_value_some in E as [Hu [j Hj]]. b2p. split; [done|].
    destruct Hwf as [_ Hp]. by rewrite (Hp _ _ Hj).
  - intros j p Hj. eapply find_value_none in E; [|done]. by b2p.
Qed.
Next Obligation.
  intros i amount s r s' Hwf _. unfold gain_exp.
  destruct (players s !! i) as [p0|] eqn:Ei.
  2: { intros [= <- <-]. by split_and!. }
  destruct (Player.gain_exp p0 amount) as [p l] eqn:Eg. intros [= <- <-]. split_and!; try done.
  - apply wf_insert_player; [done|]. pose proof (gain_exp_id p0 amount) as Hid.
    rewrite Eg in Hid. simpl in Hid. rewrite Hid. by destruct Hwf as [_ Hp]; apply Hp in Ei.
  - exists p0. by rewrite Eg.
Qed.
Next Obligation.
  intros i at_ s r s' Hwf. unfold record_login.
  destruct (players s !! i) as [p0|] eqn:Ei; intros [= <- <-]; split_and!; try done.
  - apply wf_insert_player; [done|]. destruct Hwf as [_ Hp]. by apply Hp in Ei.
  - by exists p0.
Qed.
Next Obligation.
  intros a p s r s' Hwf (_ & Hst & _). unfold register.
  destruct (_ || _) eqn:E; intros [= <- <-]; [by auto|].
  repeat match goal with H : _ || _ = false |- _ => apply orb_false_iff in H as [? ?] end.
  destruct Hwf as [Ha Hp]. split.
  { split; by apply map_Forall_insert_2. }
  rewrite account_kept_id, player_kept_id. b2p. split_and!; try done.
  - by apply eq_None_not_Some.
  - by apply eq_None_not_Some.
  - intros i b Hi Hu. eapply any_value_false in Hi; [|done]; simpl in Hi; b2p; congruence.
  - intros i q Hi Hu. eapply any_value_false in Hi; [|done]; simpl in Hi; b2p; congruence.
Qed.

Lemma empty_wf : wf empty_store.
Proof. split; apply map_Forall_empty. Qed.

End Memory.

(** [InMemoryRoomRepository] *)
Module RoomRepo.

Abbreviation RoomRepo := (gmap Z Room).

Definition new : RoomRepo := ∅.
Definition len (s : RoomRepo) : nat := size s.
Definition is_empty (s : RoomRepo) : bool := bool_decide (s = ∅).

Definition find_by_id (i : RoomId) : io RoomRepo (result (option Room) RepoError) :=
  fun s => (Ok (s !! i), s).
Definition save (r : Room) : io RoomRepo (result unit RepoError) :=
  fun s => (Ok tt, <[rm_id r := r]> s).
Definition delete (i : RoomId) : io RoomRepo (result unit RepoError) :=
  fun s => (Ok tt, base.delete i s).

(** A sequence of saves and deletes, oldest first. *)
Inductive op := OpSave (r : Room) | OpDelete (i : RoomId).
Definition run_op (s : RoomRepo) (o : op) : RoomRepo :=
  match o with OpSave r => snd (save r s) | OpDelete i => snd (delete i s) end.

(** What the last operation on an identifier left there. *)
Fixpoint last_write (i : RoomId) (l : list op) : option Room :=
  match l with
  | [] => None
  | OpSave r :: l' => if decide (rm_id r = i) then Some r else last_write i l'
  | OpDelete j :: l' => if decide (j = i) then None else last_write i l'
  end.

(** The room snapshot store returns, after any sequence of saves and
    deletes, exactly the snapshot the latest save of that room left, and nothing
    when the latest operation on it was a delete or there was none. *)
Theorem room_repo_last_write (l : list op) (i : RoomId) :
  fst (find_by_id i (foldl run_op new l)) = Ok (last_write i (rev l)).
Proof.
  unfold find_by_id. simpl. f_equal. induction l as [|o l IH] using rev_ind; [done|].
  rewrite foldl_app, rev_app_distr. cbn [foldl rev app].
  destruct o as [r|j]; cbn [run_op last_write save delete snd]; case_decide; subst.
  - apply lookup_insert_eq.
  - rewrite lookup_insert_ne by done. apply IH.
  - apply lookup_delete_eq.
  - rewrite lookup_delete_ne by done. apply IH.
Qed.

End RoomRepo.
