(* ===== verification/TokenStore.v ===== *)
(** The in-memory session token store
    ([infrastructure/src/cache/memory_token_store.rs]): tokens by value, with a
    reverse index by player.  It implements the port [SessionTokenStore] and
    refines a specification that holds at most one token per player.

    [now] is the reading of [Instant::now()] an operation makes, [rnd] the bytes
    of [getrandom]; both in the order of the source. *)
From S2P Require Import Prelude Text Values App.
From Stdlib Require Import Strings.String.
Open Scope Z_scope.
Open Scope list_scope.
Abbreviation length := Datatypes.length.

Module MemTokens.

Record Entry := mkEntry { player_id : PlayerId; expires_at : Z }.
Record State := mkState { by_token : gmap rstr Entry; by_player : gmap Z (list rstr) }.

Definition new : State := mkState ∅ ∅.

(** [Instant::checked_add]: seconds are kept in an [i64]. *)
Definition checked_add (now ttl : Z) : option Z :=
  if (now + ttl) / 1000000000 <=? 2 ^ 63 - 1 then Some (now + ttl) else None.

Definition is_live (now : Z) (e : Entry) : bool := expires_at e >? now.

Definition live_tokens (now : Z) : io State nat :=
  fun s =>
    let kept := filter (fun kv : rstr * Entry => is_live now (snd kv) = true) (by_token s) in
    (size kept, mkState kept (by_player s)).

(** [for old in tokens { by_token.remove(&old) }] *)
Definition remove_all (ts : list rstr) (m : gmap rstr Entry) : gmap rstr Entry :=
  foldr delete m ts.

(** [if let Some(tokens) = by_player.remove(&p) { ... }] *)
Definition drop_player (p : PlayerId) (s : State) : State :=
  match by_player s !! p with
  | None => s
  | Some ts => mkState (remove_all ts (by_token s)) (delete p (by_player s))
  end.

Definition create (now : Z) (rnd : list Z) (p : PlayerId) (ttl : Z)
  : io State (result rstr AppError) :=
  fun s =>
    let token := random_token rnd in
    match checked_add now ttl with
    | None => (Err (Validation (lit "token TTL 过大")), s)
    | Some exp =>
        let s1 := drop_player p s in
        let ts := default [] (by_player s1 !! p) ++ [token] in
        (Ok token, mkState (<[token := mkEntry p exp]> (by_token s1)) (<[p := ts]> (by_player s1)))
    end.

Definition resolve (now : Z) (t : rstr) : io State (result (option PlayerId) AppError) :=
  fun s =>
    (Ok (match by_token s !! t with
         | Some e => if is_live now e then Some (player_id e) else None
         | None => None
         end), s).

Definition revoke_player (p : PlayerId) : io State (result unit AppError) :=
  fun s => (Ok tt, drop_player p s).

(** The invariant: a token is listed under its player and under no other. *)
Definition indexed (s : State) : Prop :=
  forall t e, by_token s !! t = Some e ->
    exists ts, by_player s !! player_id e = Some ts /\ t ∈ ts.
Definition owned (s : State) : Prop :=
  forall p ts t e, by_player s !! p = Some ts -> t ∈ ts -> by_token s !! t = Some e ->
    player_id e = p.
Definition wf (s : State) : Prop := indexed s /\ owned s.

(** The token was never issued (or all trace of it is gone). *)
Definition unissued (s : State) (t : rstr) : Prop :=
  by_token s !! t = None /\ forall p ts, by_player s !! p = Some ts -> t ∉ ts.

Lemma lookup_remove_all ts m t :
  remove_all ts m !! t = if decide (t ∈ ts) then None else m !! t.
Proof.
  unfold remove_all. case_decide; [by apply lookup_foldr_delete|].
  by apply lookup_foldr_delete_not_elem_of.
Qed.

(** Dropping a player removes exactly its tokens. *)
Lemma drop_player_lookup p s t :
  wf s ->
  by_token (drop_player p s) !! t =
  match by_token s !! t with
  | Some e => if decide (player_id e = p) then None else Some e
  | None => None
  end.
Proof.
  intros [Hi Ho]. unfold drop_player. destruct (by_player s !! p) as [ts|] eqn:Ep; simpl.
  - rewrite lookup_remove_all. case_decide as Hin.
    + destruct (by_token s !! t) as [e|] eqn:Et; [|done].
      by rewrite decide_True by (by eapply Ho).
    + destruct (by_token s !! t) as [e|] eqn:Et; [|done].
      case_decide as Hp; [|done]. subst. apply Hi in Et as (ts' & Hp' & Hin'). congruence.
  - destruct (by_token s !! t) as [e|] eqn:Et; [|done].
    case_decide as Hp; [|done]. subst. apply Hi in Et as (ts' & Hp' & _). congruence.
Qed.

Lemma drop_player_index p s : by_player (drop_player p s) = delete p (by_player s).
Proof.
  unfold drop_player. destruct (by_player s !! p) eqn:E; [done|].
  by rewrite delete_id.
Qed.

Lemma drop_player_wf p s : wf s -> wf (drop_player p s).
Proof.
  intros Hwf. split.
  - intros t e Ht. rewrite drop_player_lookup in Ht by done.
    destruct (by_token s !! t) as [e'|] eqn:Et; [|done]. case_decide; [done|]. simplify_eq.
    destruct Hwf as [Hi _]. apply Hi in Et as (ts & Hp & Hin). exists ts.
    by rewrite drop_player_index, lookup_delete_ne.
  - intros q ts t e Hq Hin Ht. rewrite drop_player_index in Hq.
    apply lookup_delete_Some in Hq as [Hne Hq]. rewrite drop_player_lookup in Ht by done.
    destruct (by_token s !! t) as [e'|] eqn:Et; [|done]. case_decide; [done|]. simplify_eq.
    destruct Hwf as [_ Ho]. by eapply Ho.
Qed.

Lemma drop_player_unissued p s t : wf s -> unissued s t -> unissued (drop_player p s) t.
Proof.
  intros Hwf [Ht Hp]. split.
  - by rewrite drop_player_lookup, Ht.
  - intros q ts Hq. rewrite drop_player_index in Hq. apply lookup_delete_Some in Hq as [_ Hq].
    by eapply Hp.
Qed.

(** What a successful [create] leaves in the token map and the index. *)
Lemma create_ok now rnd p ttl s t s' :
  create now rnd p ttl s = (Ok t, s') ->
  t = random_token rnd /\ checked_add now ttl = Some (now + ttl) /\
  by_token s' = <[t := mkEntry p (now + ttl)]> (by_token (drop_player p s)) /\
  by_player s' = <[p := [t]]> (by_player (drop_player p s)).
Proof.
  unfold create, checked_add. destruct (_ <=? _); [|done]. intros [= <- <-]. simpl.
  split_and!; try done. by rewrite drop_player_index, lookup_delete_eq.
Qed.

Lemma create_err now rnd p ttl s e s' : create now rnd p ttl s = (Err e, s') -> s' = s.
Proof. unfold create. destruct (checked_add _ _); congruence. Qed.

Lemma create_wf now rnd p ttl s r s' :
  wf s -> unissued s (random_token rnd) -> create now rnd p ttl s = (r, s') -> wf s'.
Proof.
  intros Hwf Hun Hc. destruct r as [t|e]; [|by apply create_err in Hc as ->].
  apply create_ok in Hc as (-> & _ & Ht' & Hp'). set (t := random_token rnd) in *.
  pose proof (drop_player_wf p s Hwf) as [Hi Ho].
  destruct (drop_player_unissued p s t Hwf Hun) as [_ Hun'].
  split.
  - intros u e. rewrite Ht', Hp'. intros [[<- <-]|[Hne Hu]]%lookup_insert_Some.
    + exists [t]. simpl. rewrite lookup_insert_eq. split; [done|]. by apply list_elem_of_singleton.
    + pose proof Hu as Hu'. apply Hi in Hu as (ts & Hts & Hin). exists ts. split; [|done].
      rewrite lookup_insert_ne; [done|]. intros ->.
      rewrite drop_player_index, lookup_delete_eq in Hts. done.
  - intros q ts u e. rewrite Ht', Hp'.
    intros [[<- <-]|[Hne Hq]]%lookup_insert_Some Hin [[? <-]|[Hnt Hu]]%lookup_insert_Some;
      simpl; try done.
    + apply list_elem_of_singleton in Hin. congruence.
    + subst u. by apply Hun' in Hq.
    + by eapply Ho.
Qed.

Lemma live_tokens_wf now s : wf s -> wf (snd (live_tokens now s)).
Proof.
  intros [Hi Ho]. split; simpl.
  - intros t e [Ht _]%map_lookup_filter_Some. by apply Hi.
  - intros p ts t e Hp Hin [Ht _]%map_lookup_filter_Some. by eapply Ho.
Qed.

(** The player a token stands for at an instant. *)
Definition live (s : State) (now : Z) (t : rstr) : option PlayerId :=
  match by_token s !! t with
  | Some e => if is_live now e then Some (player_id e) else None
  | None => None
  end.

Lemma drop_player_live p s now t :
  wf s ->
  live (drop_player p s) now t =
  if decide (live s now t = Some p) then None else live s now t.
Proof.
  intros Hwf. unfold live. rewrite drop_player_lookup by done.
  destruct (by_token s !! t) as [e|]; [|done]. repeat case_decide; subst; try done.
  - by destruct (is_live now e).
  - destruct (is_live now e); congruence.
Qed.

(** The in-memory store keeps the contract of the port. *)
#[global, program] Instance mem_token_store : SessionTokenStore State := {
  tok_wf _ := wf;
  App.live := live;
  unused _ := unissued;
  expiry := Z.add;
  tok_create := create;
  tok_resolve := resolve;
  tok_revoke_player _ := revoke_player
}.
Next Obligation. done. Qed.
Next Obligation.
  intros now rnd p ttl s r s' Hwf Hun _ Hc. split; [by eapply create_wf|].
  destruct r as [t|e]; [|apply create_err in Hc as ->; by left].
  apply create_ok in Hc as (-> & _ & Ht' & _). split; [done|]. intros now' t' _.
  unfold live at 1. rewrite Ht'. case_decide as He.
  - subst t'. rewrite lookup_insert_eq. unfold is_live. simpl. by rewrite Z.gtb_ltb.
  - rewrite lookup_insert_ne by congruence. by rewrite <- drop_player_live.
Qed.
Next Obligation. intros now t s r s' Hwf [= <- <-]. split; [done|]. by intros o [= <-]. Qed.
Next Obligation.
  intros now p s r s' Hwf _ [= <- <-]. split; [by apply drop_player_wf|].
  intros now' t' _. by apply drop_player_live.
Qed.

(* ------------------------------------------------------------------ *)
(** ** The specification: one token per player *)

(** Player to (token, expiry). *)
Inductive op :=
| OCreate (now : Z) (rnd : list Z) (p : PlayerId) (ttl : Z)
| ORevoke (p : PlayerId)
| OPrune (now : Z).

Definition run_op (s : State) (o : op) : State :=
  match o with
  | OCreate now rnd p ttl => snd (create now rnd p ttl s)
  | ORevoke p => snd (revoke_player p s)
  | OPrune now => snd (live_tokens now s)
  end.

Definition spec_op (a : gmap Z (rstr * Z)) (o : op) : gmap Z (rstr * Z) :=
  match o with
  | OCreate now rnd p ttl =>
      match checked_add now ttl with
      | Some exp => <[p := (random_token rnd, exp)]> a
      | None => a
      end
  | ORevoke p => delete p a
  | OPrune _ => a
  end.

Definition op_time (t0 : Z) (o : op) : Z :=
  match o with OCreate now _ _ _ => now | ORevoke _ => t0 | OPrune now => now end.
(** The clock never goes back along the sequence. *)
Fixpoint clock_ok (t0 : Z) (l : list op) : Prop :=
  match l with [] => True | o :: l' => t0 <= op_time t0 o /\ clock_ok (op_time t0 o) l' end.
Fixpoint last_clock (t0 : Z) (l : list op) : Z :=
  match l with [] => t0 | o :: l' => last_clock (op_time t0 o) l' end.
Definition issued (l : list op) : list rstr :=
  omap (fun o => match o with OCreate _ rnd _ _ => Some (random_token rnd) | _ => None end) l.

(** The simulation relation at clock [t0]: the store holds only current tokens,
    and every current token that has not expired. *)
Definition sim (t0 : Z) (s : State) (a : gmap Z (rstr * Z)) : Prop :=
  wf s /\
  (forall t e, by_token s !! t = Some e -> a !! player_id e = Some (t, expires_at e)) /\
  (forall p t x, a !! p = Some (t, x) -> t0 < x -> by_token s !! t = Some (mkEntry p x)).

Lemma sim_drop t0 s a p : sim t0 s a -> sim t0 (drop_player p s) (delete p a).
Proof.
  intros (Hwf & Hs & Ha). split; [by apply drop_player_wf|]. split.
  - intros t e. rewrite drop_player_lookup by done.
    destruct (by_token s !! t) as [e'|] eqn:Et; [|done]. case_decide; [done|].
    intros [= ->]. rewrite lookup_delete_ne by congruence. by apply Hs.
  - intros q t x [Hne Hq]%lookup_delete_Some Hx. rewrite drop_player_lookup by done.
    rewrite (Ha _ _ _ Hq Hx). by rewrite decide_False.
Qed.

Lemma sim_later t0 t1 s a : t0 <= t1 -> sim t0 s a -> sim t1 s a.
Proof. intros Hle (Hwf & Hs & Ha). split_and!; try done. intros. eapply Ha; [done|lia]. Qed.

Lemma sim_step t0 s a o :
  sim t0 s a -> t0 <= op_time t0 o ->
  (forall now rnd p ttl, o = OCreate now rnd p ttl -> unissued s (random_token rnd)) ->
  sim (op_time t0 o) (run_op s o) (spec_op a o).
Proof.
  intros Hsim Ht Hun. destruct o as [now rnd p ttl|p|now]; simpl in *.
  - destruct (create now rnd p ttl s) as [[t|e] s'] eqn:Hc; cbn [snd].
    + pose proof Hsim as (Hwf & _). pose proof (create_wf _ _ _ _ _ _ _ Hwf (Hun _ _ _ _ eq_refl) Hc).
      destruct (drop_player_unissued p s _ Hwf (Hun _ _ _ _ eq_refl)) as [Hfree _].
      apply create_ok in Hc as (-> & -> & Ht' & _).
      destruct (sim_drop _ _ _ p Hsim) as (_ & Hs & Ha). split; [done|]. rewrite Ht'. split.
      * intros u e [[<- <-]|[Hne Hu]]%lookup_insert_Some; [by rewrite lookup_insert_eq|].
        apply Hs in Hu. apply lookup_delete_Some in Hu as [? Hu]. by rewrite lookup_insert_ne.
      * intros q u x [[<- [= <- <-]]|[Hne Hq]]%lookup_insert_Some Hx; [by rewrite lookup_insert_eq|].
        assert (Hd : delete p a !! q = Some (u, x)) by (by rewrite lookup_delete_ne).
        apply Ha in Hd; [|lia]. rewrite lookup_insert_ne; [done|]. intros <-. congruence.
    + unfold create in Hc. destruct (checked_add now ttl); [done|]. simplify_eq.
      by eapply sim_later.
  - by apply sim_drop.
  - destruct Hsim as (Hwf & Hs & Ha). split; [by apply (live_tokens_wf now)|]. simpl. split.
    + intros t e [Hl _]%map_lookup_filter_Some. by apply Hs.
    + intros p t x Hp Hx. apply map_lookup_filter_Some. split; [eapply Ha; [done|lia]|].
      unfold is_live. simpl. by apply Z.gtb_lt.
Qed.

(** Tokens that appear anywhere in the store were issued. *)
Definition known (l : list rstr) (s : State) : Prop :=
  forall t, t ∉ l -> unissued s t.

Lemma known_step l s o : wf s -> known l s ->
  known (l ++ issued [o]) (run_op s o).
Proof.
  intros Hwf Hk t Hnin. apply not_elem_of_app in Hnin as [Hl Ho]. specialize (Hk t Hl).
  destruct o as [now rnd p ttl|p|now]; simpl in *.
  - destruct (create now rnd p ttl s) as [[u|e] s'] eqn:Hc; [|by apply create_err in Hc as ->].
    apply create_ok in Hc as (-> & _ & Ht' & Hp'). cbn [snd].
    apply not_elem_of_cons in Ho as [Hne _].
    destruct (drop_player_unissued p s t Hwf Hk) as [Hd1 Hd2]. split.
    + rewrite Ht', lookup_insert_ne by congruence. done.
    + intros q ts. rewrite Hp'. intros [[-> <-]|[_ Hq]]%lookup_insert_Some; [|by eapply Hd2].
      rewrite list_elem_of_singleton. congruence.
  - by apply drop_player_unissued.
  - destruct Hk as [Hk1 Hk2]. split; [|done]. simpl.
    apply map_lookup_filter_None. by left.
Qed.

Lemma sim_run l : forall t0 s a old,
  sim t0 s a -> known old s -> clock_ok t0 l -> NoDup (old ++ issued l) ->
  sim (last_clock t0 l) (foldl run_op s l) (foldl spec_op a l).
Proof.
  induction l as [|o l IH]; intros t0 s a old Hsim Hk Hc Hnd; [done|].
  destruct Hc as [Ht Hc]. cbn [foldl last_clock]. pose proof Hsim as (Hwf & _).
  assert (Hsplit : issued (o :: l) = issued [o] ++ issued l)
    by (unfold issued; simpl; by destruct o).
  apply (IH _ _ _ (old ++ issued [o])).
  - apply sim_step; [done|done|]. intros now rnd p ttl ->. apply Hk.
    apply NoDup_app in Hnd as (_ & Hd & _). intros Hin. apply (Hd _ Hin). simpl. apply list_elem_of_here.
  - by apply known_step.
  - done.
  - rewrite <- app_assoc, <- Hsplit. done.
Qed.

Lemma sim_new t0 : sim t0 new ∅.
Proof.
  unfold sim, wf, indexed, owned, new. simpl. split_and!; intros; simplify_map_eq.
Qed.

Lemma known_new : known [] new.
Proof. intros t _. split; [done|]. intros p ts Hp. simpl in Hp. simplify_map_eq. Qed.

(** C27: The token store behaves as a table with at most one token per player:
    after any sequence of logins, revocations and prunings with a clock that
    does not go back and tokens that do not repeat, a token resolves to a player
    exactly when it is the latest token created for that player, the player was
    not revoked since, and it has not expired.  In particular a new login
    invalidates every older token at once, and no token ever stands for another
    player. *)
Theorem mem_tokens_refine_one_per_player (t0 : Z) (l : list op) (now : Z) (t : rstr) (p : PlayerId)
  (Hclock : clock_ok t0 l) (Hfresh : NoDup (issued l)) (Hnow : last_clock t0 l <= now) :
  fst (resolve now t (foldl run_op new l)) = Ok (Some p) <->
  exists exp, foldl spec_op ∅ l !! p = Some (t, exp) /\ now < exp.
Proof.
  destruct (sim_run l t0 new ∅ [] (sim_new t0) known_new Hclock Hfresh) as (Hwf & Hs & Ha).
  unfold resolve, is_live. simpl. split.
  - destruct (by_token _ !! t) as [e|] eqn:Et; [|done].
    destruct (Z.gtb_spec (expires_at e) now); [|done]. intros [= <-]. exists (expires_at e).
    split; [by apply Hs|lia].
  - intros (x & Hx & Hlt). rewrite (Ha _ _ _ Hx) by lia. simpl.
    by rewrite (proj2 (Z.gtb_lt _ _) Hlt).
Qed.

(** Two logins of one player: the first token is dead, the second is live. *)
Lemma mem_tokens_refine_one_per_player_witness :
  let l := [OCreate 0 [1] 7 100; OPrune 5; OCreate 10 [2] 7 100] in
  (fst (resolve 50 (random_token [2]) (foldl run_op new l)) = Ok (Some 7) <->
   exists exp, foldl spec_op ∅ l !! 7 = Some (random_token [2], exp) /\ 50 < exp) /\
  fst (resolve 50 (random_token [1]) (foldl run_op new l)) = Ok None.
Proof.
  intros l. split; [|vm_compute; reflexivity].
  apply (mem_tokens_refine_one_per_player 0 l 50 (random_token [2]) 7).
  - vm_compute. repeat split; discriminate.
  - repeat constructor; vm_compute; set_solver.
  - vm_compute. discriminate.
Defined.

End MemTokens.
