(* ===== verification/RedisTokens.v ===== *)
(** The Redis session token store ([infrastructure/src/cache/redis_token_store.rs]),
    the one the server runs with: [token:<t>] holds the player of a token and
    [ptokens:<p>] the set of a player's tokens, both with the same time to live, kept in
    step by two Lua scripts.

    Redis is the parameter [Redis], whose laws say what its documentation says of each
    command, at the server's time [now] in milliseconds.  The scripts are the sequences of
    commands of the Lua text; a script that fails at a command keeps the effects of the
    commands before it, and a reply may be lost after the script ran. *)
From S2P Require Import Prelude Text Values App.
From Stdlib Require Import Strings.String.
Open Scope Z_scope.
Open Scope list_scope.
Open Scope rust_scope.
Abbreviation length := Datatypes.length.
Abbreviation concat := List.concat.

Module RedisTokens.

Inductive rvalue := RStr (s : rstr) | RSet (m : gset rstr).

Section Views.
Context {K : Type} (visible : K -> Z -> rstr -> option rvalue).
(** From [now] on every key, or every key but one, is as before. *)
Definition same_from (now : Z) (k k' : K) : Prop :=
  forall t key, now <= t -> visible k' t key = visible k t key.
Definition same_but (now : Z) (key : rstr) (k k' : K) : Prop :=
  forall t key', now <= t -> key' <> key -> visible k' t key' = visible k t key'.
End Views.

Class Redis (K : Type) := {
  (** the value of a key at a time from the last command on, if it has not expired *)
  visible : K -> Z -> rstr -> option rvalue;
  get : Z -> rstr -> io K (result (option rstr) rstr);
  smembers : Z -> rstr -> io K (result (list rstr) rstr);
  del : Z -> rstr -> io K (result unit rstr);
  sadd : Z -> rstr -> rstr -> io K (result unit rstr);
  pexpire : Z -> rstr -> Z -> io K (result unit rstr);
  set_px : Z -> rstr -> rstr -> Z -> io K (result unit rstr);
  (** running a script from the client *)
  invoke : io K (result unit rstr) -> io K (result unit rstr);

  get_spec now key k r k' :
    get now key k = (r, k') ->
    k' = k /\
    forall o, r = Ok o -> match visible k now key with
                          | Some (RStr s) => o = Some s
                          | Some (RSet _) => False
                          | None => o = None
                          end;
  smembers_spec now key k r k' :
    smembers now key k = (r, k') ->
    same_from visible now k k' /\
    forall l, r = Ok l -> match visible k now key with
                          | Some (RSet m) => list_to_set l = m
                          | Some (RStr _) => False
                          | None => l = []
                          end;
  del_spec now key k r k' :
    del now key k = (r, k') ->
    match r with
    | Ok _ => same_but visible now key k k' /\ forall t, now <= t -> visible k' t key = None
    | Err _ => same_from visible now k k'
    end;
  sadd_spec now key m k r k' :
    sadd now key m k = (r, k') ->
    match r with
    | Ok _ => same_but visible now key k k' /\
              forall t, now <= t ->
                visible k' t key = match visible k now key, visible k t key with
                                   | None, _ => Some (RSet {[m]})
                                   | Some (RSet s), Some _ => Some (RSet ({[m]} ∪ s))
                                   | _, v => v
                                   end
    | Err _ => same_from visible now k k'
    end;
  pexpire_spec now key ttl k r k' :
    pexpire now key ttl k = (r, k') ->
    match r with
    | Ok _ => same_but visible now key k k' /\
              forall t, now <= t ->
                visible k' t key = if t <? now + ttl then visible k now key else None
    | Err _ => same_from visible now k k'
    end;
  set_px_spec now key v ttl k r k' :
    set_px now key v ttl k = (r, k') ->
    match r with
    | Ok _ => same_but visible now key k k' /\
              forall t, now <= t ->
                visible k' t key = if t <? now + ttl then Some (RStr v) else None
    | Err _ => same_from visible now k k'
    end;
  invoke_spec m k r k' :
    invoke m k = (r, k') ->
    match r with
    | Ok _ => m k = (Ok tt, k')
    | Err _ => k' = k \/ exists r0, m k = (r0, k')
    end
}.

Section Store.
Context {K : Type} `{HK : Redis K} `{HU : UuidFmt}.
(** The text of the error of [Uuid::parse_str]. *)
Variable parse_error_text : rstr -> rstr.

(* ------------------------------------------------------------------ *)
(** ** The operations *)

Definition token_key (token : rstr) : rstr := lit "token:" ++ token.
Definition player_index_key (p : PlayerId) : rstr := lit "ptokens:" ++ uuid_to_string p.

Definition map_redis (err : rstr) : AppError := Storage (lit "Redis 命令失败: " ++ err).

(** [for _, token in ipairs(old) do redis.call('DEL', 'token:' .. token) end] *)
Fixpoint del_each (now : Z) (tokens : list rstr) : io K (result unit rstr) :=
  match tokens with
  | [] => io_ret (Ok tt)
  | token :: tokens => await? _ := del now (lit "token:" ++ token) in del_each now tokens
  end.

(** The script of [revoke_player], which is also the beginning of that of [create]. *)
Definition revoke_script (now : Z) (index : rstr) : io K (result unit rstr) :=
  await? tokens := smembers now index in
  await? _ := del_each now tokens in
  del now index.

Definition create_script (now : Z) (index key player token : rstr) (ttl_ms : Z)
  : io K (result unit rstr) :=
  await? _ := revoke_script now index in
  await? _ := sadd now index token in
  await? _ := pexpire now index ttl_ms in
  set_px now key player ttl_ms.

(** [u64::try_from(ttl.as_millis()).ok().filter(..)], of a [Duration] in nanoseconds *)
Definition ttl_millis (ttl : Z) : option Z :=
  let ms := ttl / 1000000 in
  if (ms <=? u_max 64) && (ms <=? (2 ^ 63 - 1) / 2) then Some (Z.max ms 1) else None.

Definition create (now : Z) (rnd : list Z) (p : PlayerId) (ttl : Z) : io K (result rstr AppError) :=
  let token := random_token rnd in
  await? ttl_ms := io_lift (ok_or (Validation (lit "token TTL 过大")) (ttl_millis ttl)) in
  let* r := invoke (create_script now (player_index_key p) (token_key token) (uuid_to_string p)
                                  token ttl_ms) in
  io_ret (let? _ := map_err map_redis r in Ok token).

Definition resolve (now : Z) (token : rstr) : io K (result (option PlayerId) AppError) :=
  let* raw := get now (token_key token) in
  io_ret (let? raw := map_err map_redis raw in
          match raw with
          | None => Ok None
          | Some raw =>
              match uuid_parse_str raw with
              | None => Err (Internal (lit "token 存储数据损坏: " ++ parse_error_text raw))
              | Some uuid => Ok (Some uuid)
              end
          end).

Definition revoke_player (now : Z) (p : PlayerId) : io K (result unit AppError) :=
  let* r := invoke (revoke_script now (player_index_key p)) in
  io_ret (let? _ := map_err map_redis r in Ok tt).

(* ------------------------------------------------------------------ *)
(** ** The store and the table of current tokens *)

Lemma token_key_inj t t' : token_key t = token_key t' -> t = t'.
Proof. unfold token_key. apply app_inv_head. Qed.
Lemma index_key_inj p q :
  is_uuid p -> is_uuid q -> player_index_key p = player_index_key q -> p = q.
Proof.
  intros Hp Hq H%app_inv_head. apply (f_equal uuid_parse_str) in H.
  rewrite !uuid_parse_to_string in H by done. congruence.
Qed.
Lemma token_index_ne t p : token_key t <> player_index_key p.
Proof. done. Qed.

(** [a] gives the current token of a player and the time it expires; [l] holds every
    token ever issued.  From the time [c] on the keys of Redis say the same. *)
Record sim (c : Z) (l : list rstr) (k : K) (a : gmap Z (rstr * Z)) : Prop := mkSim {
  s_tok : forall t tok v, c <= t -> visible k t (token_key tok) = Some v ->
    exists p e, a !! p = Some (tok, e) /\ t < e /\ v = RStr (uuid_to_string p);
  s_cur : forall p tok e t, a !! p = Some (tok, e) -> c <= t -> t < e ->
    visible k t (token_key tok) = Some (RStr (uuid_to_string p)) /\
    visible k t (player_index_key p) = Some (RSet {[tok]});
  s_idx : forall p t m tok, is_uuid p -> c <= t -> visible k t (player_index_key p) = Some (RSet m) ->
    tok ∈ m -> tok ∈ l /\ forall q e, a !! q = Some (tok, e) -> q = p;
  s_dom : forall p tok e, a !! p = Some (tok, e) -> is_uuid p /\ tok ∈ l
}.

Lemma redis_sim_later c c' l k a : c <= c' -> sim c l k a -> sim c' l k a.
Proof.
  intros Hle [H1 H2 H3 H4]. split; [| | |done].
  - intros t tok v Ht. apply H1. lia.
  - intros p tok e t Ha Ht. apply (H2 _ _ _ _ Ha). lia.
  - intros p t m tok Hp Ht. apply (H3 p t m tok Hp). lia.
Qed.

Lemma sim_issue c l k a tok : sim c l k a -> sim c (tok :: l) k a.
Proof.
  intros [H1 H2 H3 H4]. split; [done|done| |].
  - intros p t m tok' Hp Ht Hv Hin. destruct (H3 _ _ _ _ Hp Ht Hv Hin). split; [by right|done].
  - intros p tok' e Ha. destruct (H4 _ _ _ Ha). split; [done|by right].
Qed.

Lemma sim_same c l k k' a : same_from visible c k k' -> sim c l k a -> sim c l k' a.
Proof.
  intros Hs [H1 H2 H3 H4]. split; [| | |done].
  - intros t tok v Ht Hv. rewrite Hs in Hv by done. by apply H1.
  - intros p tok e t Ha Hc Ht. rewrite !Hs by done. by eapply H2.
  - intros p t m tok Hp Ht Hv. rewrite Hs in Hv by done. by eapply H3.
Qed.

(** The entry of a player may go once its token has expired. *)
Lemma sim_drop_entry c l k a p :
  sim c l k a ->
  (forall tok e, a !! p = Some (tok, e) -> e <= c) ->
  sim c l k (delete p a).
Proof.
  intros [H1 H2 H3 H4] Hn. split.
  - intros t tok v Ht Hv. destruct (H1 t tok v Ht Hv) as (q & e & Ha & He & ->).
    exists q, e. split; [|done]. apply lookup_delete_Some. split; [|done]. intros <-.
    apply Hn in Ha. lia.
  - intros q tok e t [_ Ha]%lookup_delete_Some. by eapply H2.
  - intros q t m tok Hq Ht Hv Hin. destruct (H3 _ _ _ _ Hq Ht Hv Hin) as [? Ho].
    split; [done|]. intros q' e [_ Ha]%lookup_delete_Some. by eapply Ho.
  - intros q tok e [_ Ha]%lookup_delete_Some. by eapply H4.
Qed.

(** Changing the index of a player that has no current token. *)
Lemma sim_index c l k k' a p :
  sim c l k a -> a !! p = None -> is_uuid p -> same_but visible c (player_index_key p) k k' ->
  (forall t m tok, c <= t -> visible k' t (player_index_key p) = Some (RSet m) -> tok ∈ m ->
     tok ∈ l /\ forall q e, a !! q <> Some (tok, e)) ->
  sim c l k' a.
Proof.
  intros [H1 H2 H3 H4] Hno Hp Hs Hv. split; [| | |done].
  - intros t tok' v Ht Hvis. rewrite Hs in Hvis by done. by apply H1.
  - intros q tok' e t Ha Hc Ht. rewrite (Hs _ (token_key _)) by done. rewrite Hs; [by eapply H2|done|].
    intros ->%index_key_inj; [congruence|by eapply H4|done].
  - intros q t m tok' Hq Ht Hvis Hin. destruct (decide (q = p)) as [->|Hne].
    + destruct (Hv _ _ _ Ht Hvis Hin) as [? Hn]. split; [done|]. intros q e Ha. by apply Hn in Ha.
    + rewrite Hs in Hvis; [by eapply H3|done|]. by intros ->%index_key_inj.
Qed.

Lemma sim_clear_index c l k k' a p :
  sim c l k a -> a !! p = None -> is_uuid p -> same_but visible c (player_index_key p) k k' ->
  (forall t, c <= t -> visible k' t (player_index_key p) = None) -> sim c l k' a.
Proof.
  intros Hsim Ha Hp Hb Hn. apply (sim_index c l k k' a p); try done.
  intros t m tok Ht. by rewrite Hn.
Qed.

(** The loop over the old tokens deletes a part of them, all when it succeeds. *)
Lemma del_each_effect now ts : forall k r k',
  del_each now ts k = (r, k') ->
  exists ds, ds ⊆ ts /\ (r = Ok tt -> ds = ts) /\
    forall t key, now <= t ->
      visible k' t key = if decide (key ∈ map token_key ds) then None else visible k t key.
Proof.
  induction ts as [|tok ts IH]; intros k r k' Hx; cbn [del_each] in Hx.
  { apply io_ret_inv in Hx as [<- <-]. exists []. by split_and!. }
  apply io_try_inv in Hx as [([] & k1 & Hd & Hx)|(e & Hd & ->)]; apply del_spec in Hd.
  - destruct Hd as [Hs Hn]. apply IH in Hx as (ds & Hsub & Hok & Hv). exists (tok :: ds).
    split; [set_solver|]. split; [intros Hr; f_equal; by apply Hok|]. intros t key Ht.
    rewrite (Hv t key Ht). cbn [map]. change (lit "token:" ++ tok) with (token_key tok) in *.
    destruct (decide (key = token_key tok)) as [->|Hne].
    + rewrite Hn by done. repeat case_decide; try done; set_solver.
    + rewrite (Hs t key Ht Hne). repeat case_decide; try done; set_solver.
  - exists []. split; [set_solver|]. split; [done|]. intros t key Ht. by rewrite (Hd t key Ht).
Qed.

(** Deleting tokens listed under a player removes its entry or nothing. *)
Lemma sim_delete now l k k' a p m ds :
  sim now l k a -> is_uuid p -> visible k now (player_index_key p) = Some (RSet m) ->
  (forall tok, tok ∈ ds -> tok ∈ m) ->
  (forall t key, now <= t ->
     visible k' t key = if decide (key ∈ map token_key ds) then None else visible k t key) ->
  (sim now l k' a \/ sim now l k' (delete p a)) /\
  ((forall tok, tok ∈ m -> tok ∈ ds) -> sim now l k' (delete p a)).
Proof.
  intros Hsim Hp Hm Hds Hv.
  assert (Hkeep : forall t q, now <= t -> visible k' t (player_index_key q) = visible k t (player_index_key q)).
  { intros t q Ht. rewrite (Hv t _ Ht), decide_False; [done|]. intros (tok & He & _)%list_elem_of_fmap.
    by apply eq_sym, token_index_ne in He. }
  assert (Htok : forall t tok, now <= t ->
    visible k' t (token_key tok) = if decide (tok ∈ ds) then None else visible k t (token_key tok)).
  { intros t tok Ht. rewrite (Hv t _ Ht).
    rewrite (decide_ext (token_key tok ∈ map token_key ds) (tok ∈ ds)); [done|].
    rewrite list_elem_of_fmap. split; [intros (tok' & ->%token_key_inj & ?); done|eauto]. }
  destruct Hsim as [H1 H2 H3 H4].
  assert (Hsim' : forall a', a' ⊆ a ->
    (forall q tok e, a !! q = Some (tok, e) -> now < e -> tok ∉ ds -> a' !! q = Some (tok, e)) ->
    (forall q tok e, a' !! q = Some (tok, e) -> now < e -> tok ∉ ds) -> sim now l k' a').
  { intros a' Hsub Ha Ha'. split.
    - intros t tok v Ht. rewrite Htok by done. case_decide as Hd; [done|]. intros Hvis.
      destruct (H1 t tok v Ht Hvis) as (q & e & Hq & He & ->). exists q, e. split; [|done].
      apply Ha; [done|lia|done].
    - intros q tok e t Hq Ht He. rewrite Hkeep, Htok by done.
      rewrite decide_False by (apply (Ha' q tok e Hq); lia).
      apply (H2 _ _ e); [by eapply lookup_weaken|done|done].
    - intros q t m' tok Hq Ht. rewrite Hkeep by done. intros Hvis Hin.
      destruct (H3 _ _ _ _ Hq Ht Hvis Hin) as [? Ho]. split; [done|]. intros q' e Hq'.
      eapply Ho, lookup_weaken; done.
    - intros q tok e Hq. eapply H4, lookup_weaken; done. }
  assert (Hown : forall q tok e, a !! q = Some (tok, e) -> tok ∈ ds -> q = p).
  { intros q tok e Hq Hin. apply Hds in Hin. by apply (H3 p now m tok Hp ltac:(lia) Hm Hin) in Hq. }
  assert (Hgone : (forall tok e, a !! p = Some (tok, e) -> now < e -> tok ∈ ds) -> sim now l k' (delete p a)).
  { intros Hall. apply Hsim'; [apply delete_subseteq| |].
    - intros q tok e Hq He Hn. apply lookup_delete_Some. split; [|done]. intros <-. by apply Hn, (Hall _ e).
    - intros q tok e [Hne Hq]%lookup_delete_Some He Hin. by apply Hne, eq_sym, (Hown _ _ _ Hq). }
  assert (Hcur : forall tok e, a !! p = Some (tok, e) -> now < e -> tok ∈ m).
  { intros tok e Ha He. destruct (H2 _ _ _ now Ha ltac:(lia) He) as [_ Hi]. rewrite Hm in Hi.
    injection Hi as ->. by apply elem_of_singleton. }
  split; [|intros Hall; apply Hgone; eauto].
  destruct (a !! p) as [[tok e]|] eqn:Ea.
  - destruct (decide (tok ∈ ds)) as [Hin|Hn].
    + right. apply Hgone. intros tok' e' [= <- <-] _. done.
    + left. apply Hsim'; [done|done|]. intros q tok' e' Hq _ Hin.
      pose proof (Hown _ _ _ Hq Hin) as ->. congruence.
  - left. apply Hsim'; [done|done|]. intros q tok' e' Hq _ Hin.
    pose proof (Hown _ _ _ Hq Hin) as ->. congruence.
Qed.

(** The script that revokes a player: all of it, or a part that is none or the tokens. *)
Lemma revoke_script_sim now l k a p r k' :
  sim now l k a -> is_uuid p -> revoke_script now (player_index_key p) k = (r, k') ->
  match r with
  | Ok _ => sim now l k' (delete p a) /\
            forall t, now <= t -> visible k' t (player_index_key p) = None
  | Err _ => sim now l k' a \/ sim now l k' (delete p a)
  end.
Proof.
  intros Hsim Hp Hx. unfold revoke_script in Hx.
  apply io_try_inv in Hx as [(ts & k1 & Hsm & Hx)|(e & Hsm & ->)];
    apply smembers_spec in Hsm as [Hs Hsm]; [|left; by apply (sim_same now l k)].
  specialize (Hsm ts eq_refl). apply (sim_same now l k k1) in Hsim; [|done].
  assert (Hdel : forall r2 k2, del_each now ts k1 = (r2, k2) ->
    (sim now l k2 a \/ sim now l k2 (delete p a)) /\ (r2 = Ok tt -> sim now l k2 (delete p a))).
  { intros r2 k2 Hd. apply del_each_effect in Hd as (ds & Hsub & Hok & Hv).
    rewrite <- (Hs now) in Hsm by lia.
    destruct (visible k1 now (player_index_key p)) as [[|m]|] eqn:Em; [done| |].
    - destruct (sim_delete now l k1 k2 a p m ds) as [H1 H2]; try done.
      { intros tok Hin. rewrite <- Hsm. apply elem_of_list_to_set. by apply Hsub. }
      split; [done|]. intros ->%Hok. apply H2. intros tok. rewrite <- Hsm. by rewrite elem_of_list_to_set.
    - subst ts. assert (ds = []) as -> by (destruct ds as [|d ds]; [done|]; destruct (not_elem_of_nil d); apply Hsub; by left).
      assert (Hk : sim now l k2 a) by (apply (sim_same now l k1); [|done]; intros t key Ht; by rewrite Hv).
      split; [by left|]. intros _. apply sim_drop_entry; [done|]. intros tok e Ha.
      destruct (Z.le_gt_cases e now); [done|]. exfalso.
      destruct (s_cur _ _ _ _ Hsim p tok e now Ha) as [_ Hc]; [lia|lia|congruence]. }
  apply io_try_inv in Hx as [([] & k2 & Hd & Hx)|(e & Hd & ->)]; apply Hdel in Hd as [Hpart Hall]; [|done].
  specialize (Hall eq_refl). apply del_spec in Hx. destruct r as [[]|e]; [|right; by apply (sim_same now l k2)].
  destruct Hx as [Hb Hn]. split; [|done]. apply (sim_clear_index now l k2 k' _ p); try done.
  by rewrite lookup_delete_eq.
Qed.

(** Setting the key of a new token whose index entry is in place. *)
Lemma sim_set now l k k' a p tok ttl :
  sim now (tok :: l) k a -> is_uuid p -> a !! p = None -> (forall q e, a !! q <> Some (tok, e)) ->
  same_but visible now (token_key tok) k k' ->
  (forall t, now <= t ->
     visible k' t (token_key tok) = if t <? now + ttl then Some (RStr (uuid_to_string p)) else None) ->
  (forall t, now <= t ->
     visible k t (player_index_key p) = if t <? now + ttl then Some (RSet {[tok]}) else None) ->
  (forall q t m, is_uuid q -> now <= t -> visible k t (player_index_key q) = Some (RSet m) ->
     tok ∈ m -> q = p) ->
  sim now (tok :: l) k' (<[p := (tok, now + ttl)]> a).
Proof.
  intros [H1 H2 H3 H4] Hp Ha Hfree Hb Hv Hi Hsolo.
  assert (Hkeep : forall t q, now <= t ->
    visible k' t (player_index_key q) = visible k t (player_index_key q)) by (intros; by apply Hb).
  split.
  - intros t tok' v Ht. destruct (decide (tok' = tok)) as [->|Hne].
    + rewrite Hv by done. destruct (t <? now + ttl) eqn:Et; [|done]. intros [= <-]. b2p.
      exists p, (now + ttl). by rewrite lookup_insert_eq.
    + rewrite Hb by (try done; by intros ?%token_key_inj). intros (q & e & Hq & ?)%H1; [|done].
      exists q, e. rewrite lookup_insert_ne; [done|]. intros <-. congruence.
  - intros q tok' e t [[<- [= <- <-]]|[Hne Hq]]%lookup_insert_Some Ht He.
    + rewrite Hkeep, Hv, Hi by done. by rewrite (proj2 (Z.ltb_lt _ _) He).
    + rewrite Hkeep by done. rewrite Hb; [by eapply H2|done|]. intros ->%token_key_inj. by apply Hfree in Hq.
  - intros q t m tok' Hq Ht Hm Hin. rewrite Hkeep in Hm by done.
    destruct (H3 _ _ _ _ Hq Ht Hm Hin) as [? Ho]. split; [done|].
    intros q' e [[<- [= <- <-]]|[Hne Hq']]%lookup_insert_Some; [|by eapply Ho].
    symmetry. by eapply Hsolo.
  - intros q tok' e [[<- [= <- <-]]|[Hne Hq]]%lookup_insert_Some; [split; [done|by left]|by eapply H4].
Qed.

Lemma create_script_sim now l k a p tok ttl r k' :
  sim now l k a -> is_uuid p -> tok ∉ l ->
  create_script now (player_index_key p) (token_key tok) (uuid_to_string p) tok ttl k = (r, k') ->
  let a' := <[p := (tok, now + ttl)]> a in
  match r with
  | Ok _ => sim now (tok :: l) k' a'
  | Err _ => sim now (tok :: l) k' a \/ sim now (tok :: l) k' (delete p a)
  end.
Proof.
  intros Hsim Hp Hnew Hx a'. unfold create_script in Hx.
  apply io_try_inv in Hx as [([] & k1 & Hr & Hx)|(e & Hr & ->)];
    apply (revoke_script_sim now l k a p) in Hr; try done.
  2: { destruct Hr; [left|right]; by apply sim_issue. }
  destruct Hr as [Hs1 Hn1].
  assert (Hfree : forall q e, delete p a !! q <> Some (tok, e)).
  { intros q e [_ Hq]%(s_dom _ _ _ _ Hs1). done. }
  assert (Hno : delete p a !! p = None) by (by rewrite lookup_delete_eq).
  assert (Hsolo : forall q t m, is_uuid q -> now <= t -> visible k1 t (player_index_key q) = Some (RSet m) ->
    tok ∈ m -> q = p).
  { intros q t m Hq Ht Hm Hin. by destruct (s_idx _ _ _ _ Hs1 _ _ _ _ Hq Ht Hm Hin). }
  apply (sim_issue _ _ _ _ tok) in Hs1.
  assert (Hidx : forall k1 k2, sim now (tok :: l) k1 (delete p a) ->
    same_but visible now (player_index_key p) k1 k2 ->
    (forall t v, now <= t -> visible k2 t (player_index_key p) = Some v -> v = RSet {[tok]}) ->
    sim now (tok :: l) k2 (delete p a)).
  { intros k3 k4 H3 Hb Hv. apply (sim_index now _ k3 k4 _ p); try done. intros t m tok' Ht Hm Hin.
    apply (Hv _ _ Ht) in Hm as [= ->]. apply elem_of_singleton in Hin as ->. split; [by left|done]. }
  apply io_try_inv in Hx as [([] & k2 & Hr & Hx)|(e & Hr & ->)]; apply sadd_spec in Hr;
    [|right; by apply (sim_same now _ k1)].
  destruct Hr as [Hb2 Hv2].
  assert (Hi2 : forall t, now <= t -> visible k2 t (player_index_key p) = Some (RSet {[tok]})).
  { intros t Ht. by rewrite Hv2, Hn1 by lia. }
  apply (Hidx k1 k2) in Hs1 as Hs2; [|done|intros t v Ht; rewrite Hi2 by done; by intros [= <-]].
  apply io_try_inv in Hx as [([] & k3 & Hr & Hx)|(e & Hr & ->)]; apply pexpire_spec in Hr;
    [|right; by apply (sim_same now _ k2)].
  destruct Hr as [Hb3 Hv3].
  assert (Hi3 : forall t, now <= t ->
    visible k3 t (player_index_key p) = if t <? now + ttl then Some (RSet {[tok]}) else None).
  { intros t Ht. by rewrite Hv3, Hi2 by lia. }
  apply (Hidx k2 k3) in Hs2 as Hs3; [|done|intros t v Ht; rewrite Hi3 by done; destruct (_ <? _); by intros [= <-]].
  apply set_px_spec in Hx. destruct r as [[]|e]; [|right; by apply (sim_same now _ k3)].
  destruct Hx as [Hb4 Hv4]. unfold a'. rewrite <- insert_delete_eq.
  apply (sim_set now l k3 k' (delete p a) p tok ttl); try done.
  intros q t m Hq Ht. destruct (decide (q = p)) as [|Hne]; [done|].
  rewrite Hb3, Hb2 by (try done; by intros ?%index_key_inj). by apply Hsolo.
Qed.

(* ------------------------------------------------------------------ *)
(** ** Sequences of operations *)

Inductive op :=
| OCreate (now : Z) (rnd : list Z) (p : PlayerId) (ttl : Z)
| ORevoke (now : Z) (p : PlayerId)
| OResolve (now : Z) (token : rstr).

Definition op_time (o : op) : Z :=
  match o with OCreate now _ _ _ | ORevoke now _ | OResolve now _ => now end.
Definition op_valid (o : op) : Prop :=
  match o with OCreate _ _ p _ | ORevoke _ p => is_uuid p | OResolve _ _ => True end.
Definition op_issues (o : op) : list rstr :=
  match o with OCreate _ rnd _ _ => [random_token rnd] | _ => [] end.

Definition err_of {T} (r : result T AppError) : option AppError :=
  match r with Ok _ => None | Err e => Some e end.

(** An operation, with the error it answered. *)
Definition run_op (o : op) : io K (option AppError) :=
  match o with
  | OCreate now rnd p ttl => let* r := create now rnd p ttl in io_ret (err_of r)
  | ORevoke now p => let* r := revoke_player now p in io_ret (err_of r)
  | OResolve now token => let* r := resolve now token in io_ret (err_of r)
  end.

Fixpoint run_ops (l : list op) : io K (list (option AppError)) :=
  match l with
  | [] => io_ret []
  | o :: l => let* e := run_op o in let* es := run_ops l in io_ret (e :: es)
  end.

(** What an operation may do to the table of current tokens.  Success has one outcome;
    after an error of Redis the operation may have happened, or only its revocation, or
    nothing; a time to live that is too large changes nothing. *)
Inductive spec_op : op -> option AppError -> gmap Z (rstr * Z) -> gmap Z (rstr * Z) -> Prop :=
| so_created now rnd p ttl ms a :
    ttl_millis ttl = Some ms ->
    spec_op (OCreate now rnd p ttl) None a (<[p := (random_token rnd, now + ms)]> a)
| so_ttl now rnd p ttl a :
    ttl_millis ttl = None ->
    spec_op (OCreate now rnd p ttl) (Some (Validation (lit "token TTL 过大"))) a a
| so_create_failed now rnd p ttl ms text a a' :
    ttl_millis ttl = Some ms ->
    a' = a \/ a' = delete p a \/ a' = <[p := (random_token rnd, now + ms)]> a ->
    spec_op (OCreate now rnd p ttl) (Some (map_redis text)) a a'
| so_revoked now p a : spec_op (ORevoke now p) None a (delete p a)
| so_revoke_failed now p text a a' :
    a' = a \/ a' = delete p a -> spec_op (ORevoke now p) (Some (map_redis text)) a a'
| so_resolve now t e a :
    (forall err, e = Some err -> exists text, err = map_redis text) ->
    spec_op (OResolve now t) e a a.

Inductive spec_run : gmap Z (rstr * Z) -> list op -> list (option AppError) -> gmap Z (rstr * Z) -> Prop :=
| sr_nil a : spec_run a [] [] a
| sr_cons o e a a1 l es a2 :
    spec_op o e a a1 -> spec_run a1 l es a2 -> spec_run a (o :: l) (e :: es) a2.

(** The table after operations that all succeeded. *)
Definition table_op (a : gmap Z (rstr * Z)) (o : op) : gmap Z (rstr * Z) :=
  match o with
  | OCreate now rnd p ttl =>
      match ttl_millis ttl with Some ms => <[p := (random_token rnd, now + ms)]> a | None => a end
  | ORevoke _ p => delete p a
  | OResolve _ _ => a
  end.

Lemma spec_run_ok a l es a' :
  spec_run a l es a' -> Forall (fun e => e = None) es -> a' = foldl table_op a l.
Proof.
  induction 1 as [|o e a a1 l es a2 Ho Hr IH]; [done|]. intros [He Hes]%Forall_cons.
  rewrite (IH Hes). cbn [foldl]. f_equal. subst e. inversion Ho; subst; cbn [table_op]; try done.
  by match goal with H : ttl_millis _ = _ |- _ => rewrite H end.
Qed.

(** The server's clock does not go back. *)
Fixpoint clock_ok (c : Z) (l : list op) : Prop :=
  match l with [] => True | o :: l => c <= op_time o /\ clock_ok (op_time o) l end.
Fixpoint last_clock (c : Z) (l : list op) : Z :=
  match l with [] => c | o :: l => last_clock (op_time o) l end.

(** What [resolve] answers, by the table. *)
Lemma resolve_sim now c l k a t r k' :
  sim c l k a -> c <= now -> resolve now t k = (r, k') ->
  sim now l k' a /\
  match r with
  | Ok o => forall p, o = Some p <-> exists e, a !! p = Some (t, e) /\ now < e
  | Err err => exists text, err = map_redis text
  end.
Proof.
  intros Hsim Hc Hx. apply (redis_sim_later _ now) in Hsim; [|done]. unfold resolve in Hx.
  apply io_bind_inv in Hx as (raw & k1 & Hg & Hx). apply io_ret_inv in Hx as [<- <-].
  apply get_spec in Hg as [-> Hg]. split; [done|].
  destruct raw as [raw|e]; cbn [map_err res_bind]; [|by eauto]. specialize (Hg raw eq_refl).
  destruct (visible k now (token_key t)) as [v|] eqn:Ev.
  - destruct (s_tok _ _ _ _ Hsim _ _ _ (Z.le_refl now) Ev) as (q & e & Hq & He & ->). subst raw.
    destruct (s_dom _ _ _ _ Hsim _ _ _ Hq) as [Hu _]. rewrite uuid_parse_to_string by done.
    intros p. split; [intros [= <-]; eauto|]. intros (e' & Hp & He').
    destruct (s_cur _ _ _ _ Hsim _ _ _ now Hp (Z.le_refl now) He') as [Hv' _]. rewrite Ev in Hv'.
    injection Hv' as Hv'. apply (f_equal uuid_parse_str) in Hv'.
    rewrite !uuid_parse_to_string in Hv'; [congruence| |done]. by eapply s_dom.
  - subst raw. intros p. split; [done|]. intros (e & Hp & He).
    destruct (s_cur _ _ _ _ Hsim _ _ _ now Hp (Z.le_refl now) He) as [Hv' _]. congruence.
Qed.

Lemma run_op_sim c l k a o e k' :
  sim c l k a -> c <= op_time o -> op_valid o -> (forall t, t ∈ op_issues o -> t ∉ l) ->
  run_op o k = (e, k') ->
  exists a', spec_op o e a a' /\ sim (op_time o) (op_issues o ++ l) k' a'.
Proof.
  intros Hsim Hc Hv Hnew Hx. apply (redis_sim_later _ (op_time o)) in Hsim; [|done].
  destruct o as [now rnd p ttl|now p|now t]; cbn [run_op op_time op_valid op_issues] in *;
    apply io_bind_inv in Hx as (r & k1 & Hr & Hx); apply io_ret_inv in Hx as [<- <-].
  - assert (Hn : random_token rnd ∉ l) by (apply Hnew; by left). unfold create in Hr.
    apply io_try_inv in Hr as [(ms & k2 & Ht & Hr)|(e & Ht & ->)];
      unfold io_lift in Ht; apply io_ret_inv in Ht as [Ht <-];
      destruct (ttl_millis ttl) as [ms'|] eqn:Em; try done; cbn [ok_or] in Ht.
    2: { injection Ht as <-. exists a. split; [by apply so_ttl|by apply sim_issue]. }
    injection Ht as ->. apply io_bind_inv in Hr as (r1 & k2 & Hi & Hr). apply io_ret_inv in Hr as [<- <-].
    apply invoke_spec in Hi. destruct r1 as [[]|text].
    + apply (create_script_sim now l k a p) in Hi; try done. eexists. split; [by constructor|done].
    + cbn [map_err res_bind err_of]. destruct Hi as [->|[r0 Hi]].
      { exists a. split; [by eapply so_create_failed; [|left]|by apply sim_issue]. }
      apply (create_script_sim now l k a p) in Hi; try done. cbn in Hi. destruct r0 as [[]|].
      * eexists. split; [eapply so_create_failed; [done|by right; right]|done].
      * destruct Hi as [Hi|Hi]; eexists; (split; [eapply so_create_failed; [done|]|done]); auto.
  - unfold revoke_player in Hr. apply io_bind_inv in Hr as (r1 & k2 & Hi & Hr).
    apply io_ret_inv in Hr as [<- <-]. apply invoke_spec in Hi. destruct r1 as [[]|text]; cbn [map_err res_bind err_of].
    + apply (revoke_script_sim now l k a p) in Hi as [Hi _]; try done. eexists. split; [by constructor|done].
    + destruct Hi as [->|[r0 Hi]]; [exists a; split; [constructor; by left|done]|].
      apply (revoke_script_sim now l k a p) in Hi; try done. destruct r0 as [[]|].
      * destruct Hi as [Hi _]. eexists. split; [constructor; by right|done].
      * destruct Hi as [Hi|Hi]; eexists; (split; [constructor|done]); auto.
  - apply (resolve_sim now now l k a) in Hr as [Hs Hr]; [|done|lia]. exists a. split; [|done].
    constructor. intros err He. destruct r; [done|]. cbn in He. by injection He as <-.
Qed.

Lemma run_ops_sim ops : forall c l k a es k',
  sim c l k a -> clock_ok c ops -> Forall op_valid ops -> NoDup (concat (map op_issues ops)) ->
  (forall t, t ∈ concat (map op_issues ops) -> t ∉ l) -> run_ops ops k = (es, k') ->
  exists a' l', spec_run a ops es a' /\ sim (last_clock c ops) l' k' a'.
Proof.
  induction ops as [|o ops IH]; intros c l k a es k' Hsim Hc Hv Hnd Hnew Hx; cbn [run_ops] in Hx.
  { apply io_ret_inv in Hx as [<- <-]. exists a, l. split; [constructor|done]. }
  apply io_bind_inv in Hx as (e & k1 & Ho & Hx). apply io_bind_inv in Hx as (es' & k2 & Hx & Hr).
  apply io_ret_inv in Hr as [<- <-]. apply Forall_cons in Hv as [Hvo Hv]. destruct Hc as [Hco Hc].
  simpl in Hnd, Hnew. apply NoDup_app in Hnd as (_ & Hdis & Hnd).
  destruct (run_op_sim c l k a o e k1) as (a1 & Hs1 & Hsim1); try done; [set_solver|].
  assert (Hn : forall t, t ∈ concat (map op_issues ops) -> t ∉ op_issues o ++ l) by set_solver.
  destruct (IH _ _ _ _ _ _ Hsim1 Hc Hv Hnd Hn Hx) as (a2 & l2 & Hs2 & Hsim2).
  exists a2, l2. split; [by econstructor|done].
Qed.

(** Redis holds none of the keys of the store. *)
Definition pristine (c : Z) (k : K) : Prop :=
  forall t key, c <= t -> (exists tok, key = token_key tok) \/ (exists p, key = player_index_key p) ->
    visible k t key = None.

Lemma sim_pristine c k : pristine c k -> sim c [] k ∅.
Proof.
  intros Hk. split; [| |intros p t m tok _ Ht Hv|]; try (intros; simplify_map_eq; done).
  - intros t tok v Ht. rewrite Hk; eauto. done.
  - rewrite Hk in Hv; eauto. done.
Qed.

(** C28: The Redis store keeps at most one token per player, failures included: after any
    sequence of logins, revocations and look-ups, each answered or failed, with the
    server's clock never going back and tokens that do not repeat, the keys agree with a
    table of one current token per player that changed as the operations answered (an
    error of Redis leaves the operation undone, done, or done in its revocation only);
    and a look-up that Redis answers gives a player exactly when the token is that
    player's current one and has not expired.  The stored data is never reported as
    corrupt: the only error left is that of Redis itself. *)
Theorem redis_tokens_refine_one_per_player (c : Z) (ops : list op) (k k' : K) (es : list (option AppError))
  (Hk : pristine c k) (Hclock : clock_ok c ops) (Hvalid : Forall op_valid ops)
  (Hfresh : NoDup (concat (map op_issues ops))) (Hrun : run_ops ops k = (es, k')) :
  exists a, spec_run ∅ ops es a /\
    forall now t, last_clock c ops <= now ->
      match fst (resolve now t k') with
      | Ok o => forall p, o = Some p <-> exists e, a !! p = Some (t, e) /\ now < e
      | Err err => exists text, err = map_redis text
      end.
Proof.
  pose proof (sim_pristine c k Hk) as Hs0.
  destruct (run_ops_sim ops c [] k ∅ es k') as (a & l & Hs & Hsim); try done.
  { intros t _. apply not_elem_of_nil. }
  exists a. split; [done|]. intros now t Hn. destruct (resolve now t k') as [r k2] eqn:Er.
  cbn [fst]. by destruct (resolve_sim now _ l k' a t r k2 Hsim Hn Er).
Qed.

(* ------------------------------------------------------------------ *)
(** ** The port *)

Definition wf (now : Z) (k : K) : Prop := exists l a, sim now l k a.
Definition never_issued (now : Z) (k : K) (tok : rstr) : Prop := exists l a, sim now l k a /\ tok ∉ l.

(** The player a token stands for at a time. *)
Definition live (k : K) (t : Z) (tok : rstr) : option PlayerId :=
  match visible k t (token_key tok) with Some (RStr s) => uuid_parse_str s | _ => None end.

Definition redis_expiry (now ttl : Z) : Z := now + default 1 (ttl_millis ttl).

Lemma live_sim c l k a t tok p :
  sim c l k a -> c <= t -> live k t tok = Some p <-> exists e, a !! p = Some (tok, e) /\ t < e.
Proof.
  intros Hsim Ht. unfold live. split.
  - destruct (visible k t (token_key tok)) as [v|] eqn:Ev; [|done].
    destruct (s_tok _ _ _ _ Hsim _ _ _ Ht Ev) as (q & e & Hq & He & ->).
    rewrite uuid_parse_to_string by (by eapply s_dom). intros [= <-]. eauto.
  - intros (e & Hp & He). destruct (s_cur _ _ _ _ Hsim _ _ _ t Hp Ht He) as [-> _].
    apply uuid_parse_to_string. by eapply s_dom.
Qed.

(** What a changed table means for the tokens. *)
Lemma live_delete c l k a l' k' t tok p :
  sim c l k a -> sim c l' k' (delete p a) -> c <= t ->
  live k' t tok = if decide (live k t tok = Some p) then None else live k t tok.
Proof.
  intros Hs Hs' Ht. apply option_eq. intros q. rewrite (live_sim _ _ _ _ _ _ _ Hs' Ht). split.
  - intros (e & [Hne Hq]%lookup_delete_Some & He). rewrite decide_False.
    + apply (live_sim _ _ _ _ _ _ _ Hs Ht). eauto.
    + intros (e' & Hp & He')%(live_sim _ _ _ _ _ _ _ Hs Ht).
      assert (Hq' : live k t tok = Some q) by (apply (live_sim _ _ _ _ _ _ _ Hs Ht); eauto).
      assert (Hp' : live k t tok = Some p) by (apply (live_sim _ _ _ _ _ _ _ Hs Ht); eauto). congruence.
  - case_decide as Hd; [done|]. intros Hq. pose proof Hq as (e & Ha & He)%(live_sim _ _ _ _ _ _ _ Hs Ht).
    exists e. split; [|done]. apply lookup_delete_Some. split; [congruence|done].
Qed.

Lemma live_same c l k a l' k' t tok : sim c l k a -> sim c l' k' a -> c <= t -> live k' t tok = live k t tok.
Proof.
  intros Hs Hs' Ht. apply option_eq. intros q.
  by rewrite (live_sim _ _ _ _ _ _ _ Hs' Ht), (live_sim _ _ _ _ _ _ _ Hs Ht).
Qed.

Lemma live_insert c l k a k' t tok new p x :
  sim c l k a -> new ∉ l -> sim c (new :: l) k' (<[p := (new, x)]> a) -> c <= t ->
  live k' t tok = if decide (tok = new) then (if t <? x then Some p else None)
                  else if decide (live k t tok = Some p) then None else live k t tok.
Proof.
  intros Hs Hnew Hs' Ht. apply option_eq. intros q. rewrite (live_sim _ _ _ _ _ _ _ Hs' Ht).
  assert (Hold : forall q e, a !! q = Some (new, e) -> False) by (intros ? ? [_ ?]%(s_dom _ _ _ _ Hs); done).
  case_decide as He; [subst tok|].
  - split.
    + intros (e & [[<- [= <-]]|[_ Hq]]%lookup_insert_Some & Hlt); [|by apply Hold in Hq].
      by rewrite (proj2 (Z.ltb_lt _ _) Hlt).
    + destruct (Z.ltb_spec t x); intros [= <-]. exists x. by rewrite lookup_insert_eq.
  - split.
    + intros (e & [[_ [= <- _]]|[Hne Hq]]%lookup_insert_Some & Hlt); [done|].
      assert (Hl : live k t tok = Some q) by (apply (live_sim _ _ _ _ _ _ _ Hs Ht); eauto).
      rewrite decide_False by congruence. done.
    + case_decide as Hd; [done|]. intros Hq. pose proof Hq as (e & Ha & Hlt)%(live_sim _ _ _ _ _ _ _ Hs Ht).
      exists e. rewrite lookup_insert_ne by congruence. done.
Qed.

(** The Redis store keeps the contract of the port. *)
#[program] Definition redis_token_store : SessionTokenStore K := {|
  tok_wf := wf; App.live := live; unused := never_issued; expiry := redis_expiry;
  tok_create := create; tok_resolve := resolve; tok_revoke_player := revoke_player
|}.
Next Obligation. intros now now' k Hle (l & a & Hs). exists l, a. by apply (redis_sim_later now). Qed.
Next Obligation.
  intros now rnd p ttl k r k' _ (l & a & Hs & Hnew) Hp Hx.
  assert (Hrun : run_op (OCreate now rnd p ttl) k = (err_of r, k')).
  { unfold run_op, io_bind. by rewrite Hx. }
  apply (run_op_sim now l k a) in Hrun as (a' & Hspec & Hs'); cbn; [|done|lia|done|set_solver].
  cbn in Hs'. split; [by exists (random_token rnd :: l), a'|]. unfold create in Hx.
  apply io_try_inv in Hx as [(ms & k1 & Hms & Hx)|(e & Hms & ->)].
  - unfold io_lift in Hms. apply io_ret_inv in Hms as [Hms <-].
    destruct (ttl_millis ttl) as [ms'|] eqn:Em; [|done]. injection Hms as ->.
    apply io_bind_inv in Hx as (r1 & k2 & _ & Hx). apply io_ret_inv in Hx as [Hr <-].
    destruct r1 as [[]|text]; cbn in Hr; subst r; inversion Hspec; subst; simplify_eq.
    + split; [done|]. intros now' t' Ht. unfold redis_expiry. rewrite Em. by eapply live_insert.
    + intros now' t' Ht. unfold maybe_done. match goal with H : _ \/ _ |- _ => destruct H as [->|[->| ->]] end.
      * left. by eapply live_same.
      * rewrite (live_delete now l k a _ _ _ _ p Hs Hs' Ht). case_decide; auto.
      * rewrite (live_insert now l k a _ _ _ _ p _ Hs Hnew Hs' Ht). rewrite bool_decide_decide.
        case_decide as Hd; [subst t'|case_decide; auto]. destruct (_ <? _); [auto|].
        left. symmetry. destruct (live k now' (random_token rnd)) eqn:El; [|done].
        apply (live_sim _ _ _ _ _ _ _ Hs Ht) in El as (e & Ha & _). by apply (s_dom _ _ _ _ Hs) in Ha as [_ ?].
  - unfold io_lift in Hms. apply io_ret_inv in Hms as [Hms <-]. intros now' t' Ht. left.
    inversion Hspec; subst; [by eapply live_same|]. by destruct (ttl_millis ttl).
Qed.
Next Obligation.
  intros now t k r k' (l & a & Hs) Hx. pose proof Hx as Hx'.
  apply (resolve_sim now now l k a) in Hx as [_ Hr]; [|done|lia].
  unfold resolve in Hx'. apply io_bind_inv in Hx' as (raw & k1 & Hg & Hx'). apply io_ret_inv in Hx' as [_ <-].
  apply get_spec in Hg as [-> _]. split; [done|]. intros o ->. apply option_eq. intros p.
  rewrite Hr. symmetry. apply (live_sim now l k a); [done|lia].
Qed.
Next Obligation.
  intros now p k r k' (l & a & Hs) Hp Hx.
  assert (Hrun : run_op (ORevoke now p) k = (err_of r, k')).
  { unfold run_op, io_bind. by rewrite Hx. }
  apply (run_op_sim now l k a) in Hrun as (a' & Hspec & Hs'); cbn; [|done|lia|done|set_solver].
  cbn in Hs'. split; [by exists l, a'|]. destruct r as [[]|e]; inversion Hspec; subst; intros now' t' Ht.
  - by eapply live_delete.
  - unfold maybe_done. match goal with H : _ \/ _ |- _ => destruct H as [->| ->] end; [left; by eapply live_same|].
    rewrite (live_delete now l k a _ _ _ _ p Hs Hs' Ht). case_decide; auto.
Qed.

End Store.
(* ------------------------------------------------------------------ *)
(** ** A key space to run the store on *)

Module RedisDemo.

Abbreviation Keys := (gmap rstr (rvalue * option Z)).
Definition look (k : Keys) (t : Z) (key : rstr) : option rvalue :=
  match k !! key with
  | Some (v, None) => Some v
  | Some (v, Some e) => if t <? e then Some v else None
  | None => None
  end.
Definition wrong_type : rstr := lit "WRONGTYPE".

Definition k_get (now : Z) (key : rstr) : io Keys (result (option rstr) rstr) := fun k =>
  (match look k now key with
   | Some (RStr s) => Ok (Some s) | Some _ => Err wrong_type | None => Ok None
   end, k).
Definition k_smembers (now : Z) (key : rstr) : io Keys (result (list rstr) rstr) := fun k =>
  (match look k now key with
   | Some (RSet m) => Ok (elements m) | Some _ => Err wrong_type | None => Ok []
   end, k).
Definition k_del (now : Z) (key : rstr) : io Keys (result unit rstr) := fun k => (Ok tt, delete key k).
Definition k_sadd (now : Z) (key m : rstr) : io Keys (result unit rstr) := fun k =>
  match look k now key with
  | None => (Ok tt, <[key := (RSet {[m]}, None)]> k)
  | Some (RSet s) => (Ok tt, <[key := (RSet ({[m]} ∪ s), k !! key ≫= snd)]> k)
  | Some _ => (Err wrong_type, k)
  end.
Definition k_pexpire (now : Z) (key : rstr) (ttl : Z) : io Keys (result unit rstr) := fun k =>
  (Ok tt, match look k now key with Some v => <[key := (v, Some (now + ttl))]> k | None => k end).
Definition k_set_px (now : Z) (key v : rstr) (ttl : Z) : io Keys (result unit rstr) := fun k =>
  (Ok tt, <[key := (RStr v, Some (now + ttl))]> k).

#[program] Definition keys_redis : Redis Keys := {|
  visible := look; get := k_get; smembers := k_smembers; del := k_del; sadd := k_sadd;
  pexpire := k_pexpire; set_px := k_set_px; invoke m := m
|}.
Next Obligation.
  intros now key k r k' [= <- <-]. split; [done|]. intros o. by destruct (look k now key) as [[]|]; intros [= <-].
Qed.
Next Obligation.
  intros now key k r k' [= <- <-]. split; [done|]. intros l.
  destruct (look k now key) as [[|m]|]; intros [= <-]; [|done]. apply list_to_set_elements_L.
Qed.
Next Obligation.
  intros now key k r k' [= <- <-]. unfold same_but, look.
  split; intros; [by rewrite lookup_delete_ne|by rewrite lookup_delete_eq].
Qed.
Next Obligation.
  intros now key m k r k'. unfold k_sadd. destruct (look k now key) as [[s|s]|] eqn:E; intros [= <- <-];
    [done| |]; unfold same_but, look in *;
    (split; intros; [by rewrite lookup_insert_ne|rewrite lookup_insert_eq]); [|done].
  destruct (k !! key) as [[v [e|]]|]; [|by simplify_eq|done]. cbn.
  destruct (now <? e); simplify_eq. by destruct (t <? e).
Qed.
Next Obligation.
  intros now key ttl k r k' [= <- <-]. unfold same_but.
  destruct (look k now key) as [v|] eqn:E; (split; [intros t key' Ht Hne|intros t Ht]); try done.
  - unfold look. by rewrite lookup_insert_ne.
  - unfold look. by rewrite lookup_insert_eq.
  - revert E. unfold look. destruct (k !! key) as [[v [e|]]|]; [|done|by destruct (_ <? _)].
    destruct (Z.ltb_spec now e); [done|]. destruct (Z.ltb_spec t e); [lia|]. by destruct (_ <? _).
Qed.
Next Obligation.
  intros now key v ttl k r k' [= <- <-]. unfold same_but, look.
  split; intros; [by rewrite lookup_insert_ne|by rewrite lookup_insert_eq].
Qed.
Next Obligation. intros m k [[]|] k' H; eauto. Qed.

#[local] Existing Instance keys_redis.
#[local] Existing Instance hex_uuid.

Definition no_text (s : rstr) : rstr := [].
(** Two logins of one player, one of another, a revocation. *)
Definition ops : list op :=
  [OCreate 0 [1] 7 100000000; OCreate 10 [2] 7 100000000; OCreate 10 [3] 8 100000000;
   OResolve 11 (random_token [3]); ORevoke 12 8].
Definition after : Keys := snd (run_ops no_text ops ∅).

Lemma redis_tokens_refine_one_per_player_witness :
  fst (resolve no_text 50 (random_token [2]) after) = Ok (Some 7) /\
  fst (resolve no_text 110 (random_token [2]) after) = Ok None /\
  exists a : gmap Z (rstr * Z), a !! 7 = Some (random_token [2], 110) /\ a !! 8 = None /\
    forall p, None = Some p <-> exists e, a !! p = Some (random_token [1], e) /\ 50 < e.
Proof.
  split; [vm_compute; reflexivity|]. split; [vm_compute; reflexivity|].
  destruct (redis_tokens_refine_one_per_player no_text 0 ops ∅ after (fst (run_ops no_text ops ∅)))
    as (a & Hs & Ha).
  - intros t key _ _. reflexivity.
  - vm_compute. repeat split; discriminate.
  - repeat constructor; vm_compute; discriminate.
  - repeat constructor; vm_compute; set_solver.
  - apply surjective_pairing.
  - exists a. apply spec_run_ok in Hs; [|vm_compute; repeat constructor]. subst a.
    split; [vm_compute; reflexivity|]. split; [vm_compute; reflexivity|].
    assert (Hr : fst (resolve no_text 50 (random_token [1]) after) = Ok None) by (vm_compute; reflexivity).
    specialize (Ha 50 (random_token [1])). rewrite Hr in Ha. apply Ha. vm_compute. discriminate.
Defined.

End RedisDemo.

End RedisTokens.
