(* ===== verification/UseCases.v ===== *)
(** The use cases of [crates/application]: registration ([auth/register.rs]),
    login ([auth/login.rs]), the profile query ([player/profile.rs]) and
    experience ([player/progression.rs]).

    The world of a use case is one state per port it holds.  The fresh
    identifiers, the readings of the clock and the random bytes an execution
    consumes are arguments, in the order the code asks for them.  An audit
    failure is logged and otherwise ignored, as in the source. *)
From S2P Require Import Prelude Text Values Account Player Session App MemRepos TokenStore.
From Stdlib Require Import Strings.String.
Open Scope Z_scope.
Open Scope list_scope.
Abbreviation length := Datatypes.length.

Section UseCases.
Context {S T H A E : Type} `{HS : Repositories S} `{HT : SessionTokenStore T}
        `{HH : PasswordHasher H} `{HA : AuditLogger A} `{HE : EventPublisher E}.

Record World := mkWorld {
  w_store : S; w_tokens : T; w_hasher : H; w_audit : A; w_events : E
}.

(** Running one port's operation inside the world. *)
Definition on_store {X} (m : io S X) : io World X := fun w =>
  let '(x, s) := m (w_store w) in
  (x, mkWorld s (w_tokens w) (w_hasher w) (w_audit w) (w_events w)).
Definition on_tokens {X} (m : io T X) : io World X := fun w =>
  let '(x, s) := m (w_tokens w) in
  (x, mkWorld (w_store w) s (w_hasher w) (w_audit w) (w_events w)).
Definition on_hasher {X} (m : io H X) : io World X := fun w =>
  let '(x, s) := m (w_hasher w) in
  (x, mkWorld (w_store w) (w_tokens w) s (w_audit w) (w_events w)).
Definition on_audit {X} (m : io A X) : io World X := fun w =>
  let '(x, s) := m (w_audit w) in
  (x, mkWorld (w_store w) (w_tokens w) (w_hasher w) s (w_events w)).
Definition on_events {X} (m : io E X) : io World X := fun w =>
  let '(x, s) := m (w_events w) in
  (x, mkWorld (w_store w) (w_tokens w) (w_hasher w) (w_audit w) s).

(** [?] on a repository result. *)
Definition repo {X} (m : io S (result X RepoError)) : io World (result X AppError) :=
  let* r := on_store m in io_ret (map_err app_of_repo r).

(* ------------------------------------------------------------------ *)
(** ** Registration *)

(** The detail [{"username":"..."}] of the audit record. *)
Definition username_json (u : rstr) : rstr :=
  [123; 34] ++ lit "username" ++ [34; 58; 34] ++ u ++ [34; 125].

Definition audit_success (p : Player) (u : Username) : io World unit :=
  let* _ := on_audit (record (Some (pl_id p)) (lit "register") (username_json (Username.as_str u))) in
  io_ret tt.

Definition register_execute (account_id player_id : Z) (now1 now2 : DateTime)
    (cmd : RegisterCommand) : io World (result RegisterResult AppError) :=
  await? username := io_lift (map_err app_of_domain (Username.try_new (rc_username cmd))) in
  await? nickname := io_lift (map_err app_of_domain (Nickname.try_new (rc_nickname cmd))) in
  await? password := io_lift (map_err app_of_domain (PlainPassword.try_new (rc_password cmd))) in
  await? existing := repo (find_by_username (Username.as_str username)) in
  match existing with
  | Some _ => io_ret (Err (Conflict (lit "用户名已被占用")))
  | None =>
      await? h := on_hasher (hash (PlainPassword.expose password)) in
      let account := Account.register account_id username (PasswordHash.new h) now1 in
      let player := Player.create player_id (acc_id account) nickname now2 in
      await? _ := on_store (store_register account player) in
      let* _ := audit_success player (acc_username account) in
      io_ret (Ok (mkRegisterResult (acc_id account) (pl_id player)
                                   (Nickname.as_str (pl_nickname player))))
  end.

(* ------------------------------------------------------------------ *)
(** ** Login *)

Definition wrong_credentials : AppError := Unauthorized (lit "用户名或密码错误").
Definition missing_profile : AppError := Internal (lit "账号缺少对应的玩家档案").

Definition load_account (username : rstr) : io World (result Account AppError) :=
  await? o := repo (find_by_username username) in io_ret (ok_or wrong_credentials o).

Definition ensure_login_allowed (now : DateTime) (a : Account) : result unit AppError :=
  if allows_login (acc_status a) now then Ok tt
  else Err (Forbidden (lit "账号当前不可登录")).

Definition load_player (a : AccountId) : io World (result Player AppError) :=
  await? o := repo (find_by_account a) in io_ret (ok_or missing_profile o).

Definition audit_login (p : Player) : io World unit :=
  let* _ := on_audit (record (Some (pl_id p)) (lit "login") (lit "{}")) in io_ret tt.

(** [Duration::as_secs] of a duration in nanoseconds. *)
Definition as_secs (d : Z) : Z := d / 1000000000.

Definition login_execute (token_ttl : Z) (now1 now2 : DateTime) (instant : Z) (rnd : list Z)
    (cmd : LoginCommand) : io World (result LoginResult AppError) :=
  await? username := io_lift (map_err app_of_domain (Username.try_new (lc_username cmd))) in
  await? account := load_account (Username.as_str username) in
  await? _ := io_lift (ensure_login_allowed now1 account) in
  await? ok := on_hasher (verify (lc_password cmd) (PasswordHash.expose (acc_password_hash account))) in
  if negb ok then io_ret (Err wrong_credentials) else
  await? player := load_player (acc_id account) in
  await? updated := repo (repo_record_login (pl_id player) now2) in
  await? player := io_lift (ok_or missing_profile updated) in
  await? token := on_tokens (tok_create instant rnd (pl_id player) token_ttl) in
  let* _ := audit_login player in
  io_ret (Ok (mkLoginResult token (pl_id player) (Nickname.as_str (pl_nickname player))
                            (as_secs token_ttl))).

(* ------------------------------------------------------------------ *)
(** ** Profile and experience *)

Definition no_player : AppError := NotFound (lit "玩家不存在").

(** [GetPlayerProfile] holds the player repository alone. *)
Definition profile_query (p : PlayerId) : io S (result PlayerProfile AppError) :=
  let* r := find_player_by_id p in
  io_ret (let? o := map_err app_of_repo r in
          let? player := ok_or no_player o in
          Ok (profile_of_player player)).

Definition profile_execute (p : PlayerId) : io World (result PlayerProfile AppError) :=
  on_store (profile_query p).

Definition gain_exp_execute (now : DateTime) (p : PlayerId) (amount : Z)
  : io World (result PlayerProfile AppError) :=
  if amount =? 0 then io_ret (Err (Validation (lit "经验值必须大于 0"))) else
  await? o := repo (repo_gain_exp p amount) in
  await? (player, new_level) := io_lift (ok_or no_player o) in
  await? _ := match new_level with
              | Some new_level =>
                  let* r := on_events (publish (PlayerLeveledUp p new_level now)) in
                  io_ret (map_err (fun e => PostCommit (AppError_to_string e)) r)
              | None => io_ret (Ok tt)
              end in
  io_ret (Ok (profile_of_player player)).

(* ------------------------------------------------------------------ *)
(** ** Stepping through an execution *)

Implicit Types w : World.

Definition views w := (accounts_view (w_store w), players_view (w_store w)).

Lemma repo_inv {X} (m : io S (result X RepoError)) w r w' :
  repo m w = (r, w') ->
  exists r0 s, m (w_store w) = (r0, s) /\ r = map_err app_of_repo r0 /\
    w' = mkWorld s (w_tokens w) (w_hasher w) (w_audit w) (w_events w).
Proof.
  unfold repo, io_bind, on_store, io_ret. destruct (m (w_store w)) as [r0 s]. intros. simplify_eq.
  by exists r0, s.
Qed.

Lemma on_store_inv {X} (m : io S X) w r w' :
  on_store m w = (r, w') ->
  exists s, m (w_store w) = (r, s) /\
    w' = mkWorld s (w_tokens w) (w_hasher w) (w_audit w) (w_events w).
Proof. unfold on_store. destruct (m (w_store w)) as [x s]. intros. simplify_eq. eauto. Qed.

Lemma on_tokens_inv {X} (m : io T X) w r w' :
  on_tokens m w = (r, w') ->
  exists s, m (w_tokens w) = (r, s) /\
    w' = mkWorld (w_store w) s (w_hasher w) (w_audit w) (w_events w).
Proof. unfold on_tokens. destruct (m (w_tokens w)) as [x s]. intros. simplify_eq. eauto. Qed.

Lemma on_hasher_inv {X} (m : io H X) w r w' :
  on_hasher m w = (r, w') ->
  exists s, m (w_hasher w) = (r, s) /\
    w' = mkWorld (w_store w) (w_tokens w) s (w_audit w) (w_events w).
Proof. unfold on_hasher. destruct (m (w_hasher w)) as [x s]. intros. simplify_eq. eauto. Qed.

Lemma on_events_inv {X} (m : io E X) w r w' :
  on_events m w = (r, w') ->
  exists s, m (w_events w) = (r, s) /\
    w' = mkWorld (w_store w) (w_tokens w) (w_hasher w) (w_audit w) s.
Proof. unfold on_events. destruct (m (w_events w)) as [x s]. intros. simplify_eq. eauto. Qed.

Lemma audit_inv {X} (m : io A X) w r w' :
  on_audit m w = (r, w') ->
  w_store w' = w_store w /\ w_tokens w' = w_tokens w /\ w_events w' = w_events w.
Proof. unfold on_audit. destruct (m (w_audit w)). intros. by simplify_eq. Qed.

(** One step of the execution in [Hx]; [Hs] is what the step did. *)
Local Ltac await Hx a w1 Hs :=
  apply io_try_inv in Hx as [(a & w1 & Hs & Hx)|(? & Hs & ?)]; simplify_eq.
(** A pure fallible step; [Hs] is its outcome. *)
Local Ltac awaitp Hx a Hs :=
  let w1 := fresh "w" in
  apply io_try_inv in Hx as [(a & w1 & Hs & Hx)|(? & Hs & ->)];
  unfold io_lift in Hs; apply io_ret_inv in Hs as [Hs <-].

(** What a registration that took place says of its input and does to the store. *)
Definition registered (aid pid : Z) (now1 now2 : DateTime) (cmd : RegisterCommand) w
    (u : Username) (n : Nickname) w' : Prop :=
  exists h,
    Username.try_new (rc_username cmd) = Ok u /\ Nickname.try_new (rc_nickname cmd) = Ok n /\
    is_ok (PlainPassword.try_new (rc_password cmd)) = true /\
    matches (rc_password cmd) h /\
    (forall i a, accounts_view (w_store w) !! i = Some a -> acc_username a <> u) /\
    accounts_view (w_store w) !! aid = None /\ players_view (w_store w) !! pid = None /\
    (forall i p, players_view (w_store w) !! i = Some p -> pl_account_id p <> aid) /\
    accounts_view (w_store w') =
      <[aid := Account.register aid u (PasswordHash.new h) (kept_time now1)]> (accounts_view (w_store w)) /\
    players_view (w_store w') =
      <[pid := Player.create pid aid n (kept_time now2)]> (players_view (w_store w)).

(** What a successful or failed registration does to the store. *)
Definition register_post (aid pid : Z) (now1 now2 : DateTime) (cmd : RegisterCommand)
    w (r : result RegisterResult AppError) w' : Prop :=
  match r with
  | Ok rr => exists u n, registered aid pid now1 now2 cmd w u n w' /\
                         rr = mkRegisterResult aid pid (Nickname.as_str n)
  | Err e => views w' = views w \/
             (exists text, e = Storage text) /\ exists u n, registered aid pid now1 now2 cmd w u n w'
  end.

Lemma register_spec aid pid now1 now2 cmd w r w' :
  repo_wf (w_store w) -> register_execute aid pid now1 now2 cmd w = (r, w') ->
  repo_wf (w_store w') /\ w_tokens w' = w_tokens w /\ w_events w' = w_events w /\
  register_post aid pid now1 now2 cmd w r w'.
Proof.
  intros Hwf Hx. unfold register_execute in Hx.
  awaitp Hx u Hu; [apply map_err_ok in Hu|by unfold register_post; auto].
  awaitp Hx n Hn; [apply map_err_ok in Hn|by unfold register_post; auto].
  awaitp Hx pw Hpw; [apply map_err_ok in Hpw|by unfold register_post; auto].
  pose proof (Username.try_new_valid _ _ Hu) as Hvu. pose proof (Nickname.nick_new_valid _ _ Hn) as Hvn.
  await Hx found w4 Hs; apply repo_inv in Hs as (r0 & s1 & Hf & Hr & ->);
    apply find_by_username_spec in Hf as (Hwf1 & Ha1 & Hp1 & Hres); try done;
    unfold register_post, views; cbn [w_store w_tokens w_events].
  2: { rewrite Ha1, Hp1. auto. }
  destruct found as [a|].
  { apply io_ret_inv in Hx as [<- <-]. cbn [w_store w_tokens w_events]. rewrite Ha1, Hp1. auto. }
  await Hx h w5 Hs; apply on_hasher_inv in Hs as (hs & Hh & ->); cbn [w_store w_tokens w_events].
  2: { rewrite Ha1, Hp1. auto. }
  apply PlainPassword.password_new_ok in Hpw as Hpw'. destruct Hpw' as (_ & _ & ->).
  apply hash_spec in Hh. cbn in Hh.
  assert (Hfree : forall i a, accounts_view (w_store w) !! i = Some a -> acc_username a <> u).
  { destruct r0 as [[?|]|]; [done| |done]. exact Hres. }
  await Hx x w6 Hs; apply on_store_inv in Hs as (s2 & Hreg & ->);
    apply store_register_spec in Hreg as (Hwf2 & Hreg); try done;
    cbn [w_store w_tokens w_events acc_id pl_id pl_account_id Account.register Player.create acc_username] in *;
    try (unfold registrable, Player.create, Account.register; cbn; split_and!; done || lia).
  - apply io_bind_inv in Hx as (y & w7 & Hau & Hx). unfold audit_success in Hau.
    apply io_bind_inv in Hau as (z & w8 & Hau & Hz). apply audit_inv in Hau as (Hst & Htk & Hev).
    apply io_ret_inv in Hz as [_ ->]. apply io_ret_inv in Hx as [<- ->]. rewrite Hst, Htk, Hev.
    cbn [w_store w_tokens w_events]. split_and!; try done. exists u, n. split; [|done].
    destruct Hreg as (Hfa & Hfp & _ & Hacc & Hav & Hpv). exists h. rewrite Hst. cbn [w_store].
    rewrite Ha1, Hp1 in *. split_and!; first [done|exact Hav|exact Hpv|by rewrite Hpw].
  - split_and!; try done. destruct Hreg as [[-> ->]|[Ht (Hfa & Hfp & _ & Hacc & Hav & Hpv)]].
    + left. by rewrite Ha1, Hp1.
    + right. split; [done|]. exists u, n, h. rewrite Ha1, Hp1 in *.
      split_and!; first [done|exact Hav|exact Hpv|by rewrite Hpw].
Qed.

(** What login does: nothing at all, or (once the credentials are accepted) the
    login time of the account's player, and with it a new token. *)
Definition login_accepts (now1 : DateTime) (cmd : LoginCommand) w (a : Account) (p : Player) : Prop :=
  Username.try_new (lc_username cmd) = Ok (acc_username a) /\
  accounts_view (w_store w) !! acc_id a = Some a /\
  allows_login (acc_status a) now1 = true /\
  matches (lc_password cmd) (PasswordHash.expose (acc_password_hash a)) /\
  players_view (w_store w) !! pl_id p = Some p /\ pl_account_id p = acc_id a.

Definition login_post (ttl : Z) (now1 now2 : DateTime) (instant : Z) (rnd : list Z)
    (cmd : LoginCommand) w (r : result LoginResult AppError) w' : Prop :=
  match r with
  | Ok lr =>
      exists a p, login_accepts now1 cmd w a p /\
        players_view (w_store w') =
          <[pl_id p := Player.record_login p (kept_time now2)]> (players_view (w_store w)) /\
        lr = mkLoginResult (random_token rnd) (pl_id p) (Nickname.as_str (pl_nickname p))
                           (as_secs ttl) /\
        forall t t', instant <= t -> live (w_tokens w') t t' =
          if decide (t' = lr_token lr)
          then (if t <? expiry instant ttl then Some (pl_id p) else None)
          else if decide (live (w_tokens w) t t' = Some (pl_id p)) then None
          else live (w_tokens w) t t'
  | Err e =>
      (w_tokens w' = w_tokens w /\ players_view (w_store w') = players_view (w_store w)) \/
      exists a p, login_accepts now1 cmd w a p /\
        players_view (w_store w') =
          <[pl_id p := Player.record_login p (kept_time now2)]> (players_view (w_store w)) /\
        forall t t', instant <= t ->
          maybe_done (pl_id p) (bool_decide (t' = random_token rnd))
                     (live (w_tokens w) t t') (live (w_tokens w') t t')
  end.

(** A step that only reads the store. *)
Definition quiet w w' : Prop :=
  repo_wf (w_store w') /\ views w' = views w /\ w_tokens w' = w_tokens w /\ w_events w' = w_events w.

Lemma quiet_refl w : repo_wf (w_store w) -> quiet w w.
Proof. by unfold quiet. Qed.

Lemma quiet_trans w1 w2 w3 : quiet w1 w2 -> quiet w2 w3 -> quiet w1 w3.
Proof. unfold quiet. intros (? & ? & ? & ?) (? & ? & ? & ?). split_and!; congruence. Qed.

Lemma quiet_login_err ttl now1 now2 instant rnd cmd w e w' :
  tok_wf instant (w_tokens w) -> quiet w w' ->
  repo_wf (w_store w') /\ tok_wf instant (w_tokens w') /\
  accounts_view (w_store w') = accounts_view (w_store w) /\ w_events w' = w_events w /\
  login_post ttl now1 now2 instant rnd cmd w (Err e) w'.
Proof.
  intros Ht (Hwf & Hv & Htk & Hev). unfold views in Hv. injection Hv as Ha Hp.
  unfold login_post. rewrite Htk. split_and!; auto.
Qed.

Lemma load_account_spec u w r w' :
  repo_wf (w_store w) -> Username.valid u -> load_account (Username.as_str u) w = (r, w') ->
  quiet w w' /\
  forall a, r = Ok a -> acc_username a = u /\
                        accounts_view (w_store w) !! acc_id a = Some a.
Proof.
  intros Hwf Hvu Hx. unfold load_account in Hx.
  await Hx o w1 Hs; [apply io_ret_inv in Hx as [<- <-]|];
    apply repo_inv in Hs as (r0 & s1 & Hf & Hr & ->);
    apply find_by_username_spec in Hf as (? & ? & ? & Hfound); auto;
    (split; [unfold quiet, views; simpl; split_and!; congruence|]); [|done].
  intros a Ha. destruct o as [a'|]; [|done]. simpl in Ha. simplify_eq.
  destruct r0 as [[?|]|]; simpl in Hr; by simplify_eq.
Qed.

Lemma load_player_spec i w r w' :
  repo_wf (w_store w) -> load_player i w = (r, w') ->
  quiet w w' /\
  (forall p, r = Ok p -> pl_account_id p = i /\ players_view (w_store w) !! pl_id p = Some p) /\
  (r = Err missing_profile ->
   forall j p, players_view (w_store w) !! j = Some p -> pl_account_id p <> i).
Proof.
  intros Hwf Hx. unfold load_player in Hx.
  await Hx o w1 Hs; [apply io_ret_inv in Hx as [<- <-]|];
    apply repo_inv in Hs as (r0 & s1 & Hf & Hr & ->);
    apply find_by_account_spec in Hf as (? & ? & ? & Hfound); auto;
    (split; [unfold quiet, views; simpl; split_and!; congruence|]); split; try done.
  - intros p Hp. destruct o as [p'|]; [|done]. simpl in Hp. simplify_eq.
    destruct r0 as [[?|]|]; simpl in Hr; by simplify_eq.
  - destruct o as [p'|]; [done|]. intros _. destruct r0 as [[?|]|]; simpl in Hr; by simplify_eq.
  - intros [= ->]. destruct r0 as [?|[?|?]]; simpl in Hr; done.
Qed.

(** The part of login up to the accepted credentials. *)
Lemma login_check_spec now1 cmd w (k : Account -> io World (result LoginResult AppError)) r w' :
  repo_wf (w_store w) ->
  (await? username := io_lift (map_err app_of_domain (Username.try_new (lc_username cmd))) in
   await? account := load_account (Username.as_str username) in
   await? _ := io_lift (ensure_login_allowed now1 account) in
   await? ok := on_hasher (verify (lc_password cmd) (PasswordHash.expose (acc_password_hash account))) in
   if negb ok then io_ret (Err wrong_credentials) else k account) w = (r, w') ->
  (exists e, r = Err e /\ quiet w w') \/
  exists a w1, quiet w w1 /\ k a w1 = (r, w') /\
    Username.try_new (lc_username cmd) = Ok (acc_username a) /\
    accounts_view (w_store w) !! acc_id a = Some a /\
    allows_login (acc_status a) now1 = true /\
    matches (lc_password cmd) (PasswordHash.expose (acc_password_hash a)).
Proof.
  intros Hwf Hx. pose proof (quiet_refl w Hwf).
  awaitp Hx u Hu; [apply map_err_ok in Hu|eauto].
  await Hx a w1 Hs; apply load_account_spec in Hs as [Hq Ha]; eauto using Username.try_new_valid.
  destruct (Ha _ eq_refl) as [<- Hacc].
  awaitp Hx x Hok; [|eauto].
  unfold ensure_login_allowed in Hok. destruct (allows_login _ _) eqn:Hallow; [|done].
  await Hx b w2 Hs; apply on_hasher_inv in Hs as (hs & Hv & ->);
    (assert (Hq2 : quiet w (mkWorld (w_store w1) (w_tokens w1) hs (w_audit w1) (w_events w1)))
       by (by apply (quiet_trans _ _ _ Hq); destruct Hq)); [|eauto].
  apply verify_spec in Hv. destruct b; cbn [negb] in Hx.
  - right. exists a, (mkWorld (w_store w1) (w_tokens w1) hs (w_audit w1) (w_events w1)).
    split_and!; try done. by apply Hv.
  - apply io_ret_inv in Hx as [<- <-]. eauto.
Qed.

(** Identifiers of players are UUIDs. *)
Definition ids_ok w : Prop := forall j p, players_view (w_store w) !! j = Some p -> is_uuid j.

Lemma login_spec ttl now1 now2 instant rnd cmd w r w' :
  repo_wf (w_store w) -> tok_wf instant (w_tokens w) ->
  unused instant (w_tokens w) (random_token rnd) -> ids_ok w ->
  login_execute ttl now1 now2 instant rnd cmd w = (r, w') ->
  repo_wf (w_store w') /\ tok_wf instant (w_tokens w') /\
  accounts_view (w_store w') = accounts_view (w_store w) /\ w_events w' = w_events w /\
  login_post ttl now1 now2 instant rnd cmd w r w'.
Proof.
  intros Hwf Htwf Hun Hids Hx. unfold login_execute in Hx.
  apply login_check_spec in Hx
    as [(e & -> & Hq)|(a & w1 & Hq & Hx & Hu & Hacc & Hallow & Hm)]; [by apply quiet_login_err| |done].
  await Hx p w2 Hs; apply load_player_spec in Hs as (Hq2 & Hp & _);
    [|by destruct Hq| |by destruct Hq]; pose proof (quiet_trans _ _ _ Hq Hq2) as Hq3;
    [|by apply quiet_login_err].
  destruct (Hp _ eq_refl) as [Hpa Hpl]. clear Hp Hq2.
  destruct Hq as (_ & Hv1 & _). unfold views in Hv1. injection Hv1 as _ Hp1. rewrite Hp1 in Hpl.
  assert (Hla : login_accepts now1 cmd w a p) by done.
  pose proof Hq3 as (Hwf2 & Hv2 & Ht2 & He2). unfold views in Hv2. injection Hv2 as Ha2 Hp2.
  await Hx upd w3 Hs; apply repo_inv in Hs as (r0 & s3 & Hrec & Hr & ->);
    apply repo_record_login_spec in Hrec as (Hwf3 & Ha3 & Hrec); [|done| |done].
  2: { destruct r0 as [|e']; [done|]. simpl in Hr. simplify_eq. unfold login_post. simpl.
       split_and!; try done; try congruence.
       destruct Hrec as [Hrec|[_ (p1 & p0 & Hp0 & -> & Hpv)]]; [left; split; congruence|right].
       rewrite Hp2, Hpl in Hp0. simplify_eq. exists a, p0. split; [done|]. split; [by rewrite Hpv, Hp2|].
       intros t t' _. left. by rewrite Ht2. }
  destruct r0 as [o|]; simpl in Hr; simplify_eq.
  destruct o as [p1|]; [|rewrite Hp2, Hpl in Hrec; by destruct Hrec].
  destruct Hrec as (p0 & Hp0 & -> & Hpv). rewrite Hp2, Hpl in Hp0. simplify_eq.
  awaitp Hx p1 Hq; simpl in Hq; simplify_eq. rename p0 into p.
  await Hx tok w4 Hs; apply on_tokens_inv in Hs as (tk & Htc & ->);
    cbn [w_tokens w_store w_events w_audit w_hasher] in *; rewrite Ht2 in Htc;
    apply tok_create_spec in Htc as [Htwf' Hlive]; try done; try (by eapply Hids).
  2: { unfold login_post. cbn [w_store w_tokens]. split_and!; try done; try congruence.
       right. exists a, p. split; [done|]. split; [by rewrite Hpv, Hp2|done]. }
  destruct Hlive as [-> Hlive].
  apply io_bind_inv in Hx as (y & w7 & Hau & Hx). unfold audit_login in Hau.
  apply io_bind_inv in Hau as (z & w8 & Hau & Hz). apply audit_inv in Hau as (Hst & Htk & Hev).
  apply io_ret_inv in Hz as [_ ->]. apply io_ret_inv in Hx as [<- ->].
  unfold login_post. rewrite Hst, Htk, Hev. cbn [w_store w_tokens w_events]. split_and!; try congruence.
  exists a, p. split_and!; try done. by rewrite Hpv, Hp2.
Qed.

(** What granting experience does, by its result. *)
Definition gain_committed (now : DateTime) (i : PlayerId) (amount : Z) w
    (player : Player) (new_level : option Z) w' : Prop :=
  exists p0, players_view (w_store w) !! i = Some p0 /\
    Player.gain_exp p0 amount = (player, new_level) /\
    players_view (w_store w') = <[i := player]> (players_view (w_store w)).

Definition gain_post (now : DateTime) (i : PlayerId) (amount : Z) w
    (r : result PlayerProfile AppError) w' : Prop :=
  match r with
  | Ok prof =>
      amount <> 0 /\ exists p l, gain_committed now i amount w p l w' /\
        prof = profile_of_player p /\
        published (w_events w') = published (w_events w) ++
          match l with Some n => [PlayerLeveledUp i n now] | None => [] end
  | Err (PostCommit _) =>
      exists p n, gain_committed now i amount w p (Some n) w' /\
        published (w_events w') = published (w_events w)
  | Err (Storage _) =>
      (views w' = views w \/ exists p l, gain_committed now i amount w p l w') /\
      published (w_events w') = published (w_events w)
  | Err _ => views w' = views w /\ published (w_events w') = published (w_events w)
  end.

Lemma gain_spec now i amount w r w' :
  repo_wf (w_store w) -> is_u 64 amount -> gain_exp_execute now i amount w = (r, w') ->
  repo_wf (w_store w') /\ w_tokens w' = w_tokens w /\
  accounts_view (w_store w') = accounts_view (w_store w) /\ gain_post now i amount w r w'.
Proof.
  intros Hwf Ham Hx. unfold gain_exp_execute in Hx. destruct (Z.eqb_spec amount 0) as [Hz|Hnz].
  { apply io_ret_inv in Hx as [<- <-]. by repeat split. }
  await Hx o w1 Hs; apply repo_inv in Hs as (r0 & s1 & Hg & Hr & ->);
    apply repo_gain_exp_spec in Hg as (Hwf1 & Ha1 & Hg); try done.
  2: { destruct r0 as [|[text|text]]; simpl in Hr; simplify_eq; unfold gain_post, views; cbn [w_store w_tokens w_events] in *.
       - split_and!; try done. destruct Hg as [Hg|[_ (p & l & p0 & Hp0 & Hge & Hpv)]]; [left; by rewrite Ha1, Hg|].
         right. exists p, l, p0. done.
       - destruct Hg as [Hg|[[? ?] _]]; [by rewrite Ha1, Hg|done]. }
  destruct r0 as [o'|]; simpl in Hr; simplify_eq. destruct o' as [[p l]|].
  2: { awaitp Hx pl Hq; simpl in Hq; simplify_eq. destruct Hg as [_ Hg].
       unfold gain_post, views, no_player; simpl. by rewrite Ha1, Hg. }
  awaitp Hx pl Hq; simpl in Hq; simplify_eq. cbn beta iota in Hx.
  destruct Hg as (p0 & Hp0 & Hge & Hpv). symmetry in Hge.
  await Hx x w2 Hs; [apply io_ret_inv in Hx as [<- <-]|]; destruct l as [n|];
    [|apply io_ret_inv in Hs as [_ <-]| |by apply io_ret_inv in Hs as [? _]].
  - apply io_bind_inv in Hs as (r1 & w3 & Hs & Hq). apply io_ret_inv in Hq as [Hq <-].
    apply on_events_inv in Hs as (ev & Hp & ->). apply publish_spec in Hp.
    destruct r1; [|done]. simpl. split_and!; try done. exists p, (Some n). split; [by exists p0|done].
  - simpl. split_and!; try done. exists p, None. rewrite app_nil_r. split; [by exists p0|done].
  - apply io_bind_inv in Hs as (r1 & w3 & Hs & Hq). apply io_ret_inv in Hq as [Hq <-].
    apply on_events_inv in Hs as (ev & Hp & ->). apply publish_spec in Hp.
    destruct r1; [done|]. simpl in Hq. simplify_eq. simpl. split_and!; try done.
    exists p, n. split; [by exists p0|done].
Qed.

Lemma profile_query_spec i s r s' :
  repo_wf s -> profile_query i s = (r, s') ->
  repo_wf s' /\ accounts_view s' = accounts_view s /\ players_view s' = players_view s /\
  forall prof, r = Ok prof ->
    exists p, players_view s !! i = Some p /\ prof = profile_of_player p.
Proof.
  intros Hwf Hx. unfold profile_query in Hx. apply io_bind_inv in Hx as (r0 & s1 & Hf & Hx).
  apply io_ret_inv in Hx as [<- <-].
  apply find_player_by_id_spec in Hf as (? & ? & ? & Hfound); [|done]. split_and!; try done.
  intros prof Hp. destruct r0 as [o|]; [|done]. specialize (Hfound o eq_refl) as <-.
  destruct o as [p|]; simpl in Hp; [|done]. injection Hp as <-. eauto.
Qed.

Lemma profile_spec i w r w' :
  repo_wf (w_store w) -> profile_execute i w = (r, w') ->
  quiet w w' /\
  forall prof, r = Ok prof ->
    exists p, players_view (w_store w) !! i = Some p /\ prof = profile_of_player p.
Proof.
  intros Hwf Hx. apply on_store_inv in Hx as (s1 & Hq & ->).
  apply profile_query_spec in Hq as (? & ? & ? & Hres); [|done]. split; [|done].
  unfold quiet, views; simpl; split_and!; congruence.
Qed.

(* ------------------------------------------------------------------ *)
(** ** The application as a whole

    Any sequence of use case executions, with any inputs, wall clock readings and
    identifiers; the clock of the token store, kept beside the world, does not go back,
    and tokens do not repeat. *)

Inductive app_step : Z * World -> Z * World -> Prop :=
| app_register c aid pid now1 now2 cmd w r w' :
    is_uuid pid -> register_execute aid pid now1 now2 cmd w = (r, w') -> app_step (c, w) (c, w')
| app_login c ttl now1 now2 instant rnd cmd w r w' :
    c <= instant -> unused instant (w_tokens w) (random_token rnd) ->
    login_execute ttl now1 now2 instant rnd cmd w = (r, w') -> app_step (c, w) (instant, w')
| app_gain c now i amount w r w' :
    is_u 64 amount -> gain_exp_execute now i amount w = (r, w') -> app_step (c, w) (c, w')
| app_profile c i w r w' :
    profile_execute i w = (r, w') -> app_step (c, w) (c, w').

(** Accounts and players match one to one, usernames are unique and normal,
    every player's growth is settled and within bounds, and every live token
    stands for a player that exists. *)
Definition growth_ok (p : Player) : Prop :=
  in_range p /\ 1 <= pl_level p <= MAX_LEVEL /\ settled (pl_level p) (pl_exp p) /\
  Nickname.valid (pl_nickname p).

Record consistent (c : Z) w : Prop := mkConsistent {
  c_wf : repo_wf (w_store w);
  c_tok : tok_wf c (w_tokens w);
  c_ids : ids_ok w;
  c_names : forall i j a b, accounts_view (w_store w) !! i = Some a ->
    accounts_view (w_store w) !! j = Some b -> acc_username a = acc_username b -> i = j;
  c_normal : forall i a, accounts_view (w_store w) !! i = Some a -> Username.valid (acc_username a);
  c_player : forall i a, accounts_view (w_store w) !! i = Some a ->
    exists j p, players_view (w_store w) !! j = Some p /\ pl_account_id p = i;
  c_single : forall j k p q, players_view (w_store w) !! j = Some p ->
    players_view (w_store w) !! k = Some q -> pl_account_id p = pl_account_id q -> j = k;
  c_account : forall j p, players_view (w_store w) !! j = Some p ->
    is_Some (accounts_view (w_store w) !! pl_account_id p);
  c_growth : forall j p, players_view (w_store w) !! j = Some p -> growth_ok p;
  c_live : forall t tok p, c <= t -> live (w_tokens w) t tok = Some p ->
    is_Some (players_view (w_store w) !! p)
}.

(** Rewriting one player's row, keeping its account, keeps consistency. *)
Lemma consistent_update c c' w w' i p0 p :
  consistent c w -> c <= c' -> repo_wf (w_store w') -> tok_wf c' (w_tokens w') ->
  accounts_view (w_store w') = accounts_view (w_store w) ->
  players_view (w_store w) !! i = Some p0 ->
  players_view (w_store w') = <[i := p]> (players_view (w_store w)) ->
  pl_account_id p = pl_account_id p0 -> growth_ok p ->
  (forall t tok q, c' <= t -> live (w_tokens w') t tok = Some q ->
     live (w_tokens w) t tok = Some q \/ q = i) ->
  consistent c' w'.
Proof.
  intros [] Hcc Hwf Htk Ha Hi Hp Hacc Hg Hl.
  assert (Hback : forall j q, <[i := p]> (players_view (w_store w)) !! j = Some q ->
    exists q0, players_view (w_store w) !! j = Some q0 /\ pl_account_id q = pl_account_id q0 /\
               (q = q0 \/ q = p)).
  { intros j q [[<- <-]|[Hne Hq]]%lookup_insert_Some; eauto 6. }
  constructor; unfold ids_ok; rewrite ?Ha, ?Hp; auto.
  - intros j q (q0 & Hq0 & _)%Hback. by eapply c_ids0.
  - intros k a Hk. destruct (c_player0 _ _ Hk) as (j & q & Hj & Hq).
    destruct (decide (i = j)) as [<-|Hne].
    + exists i, p. rewrite lookup_insert_eq. split; congruence.
    + exists j, q. by rewrite lookup_insert_ne.
  - intros j k q1 q2 (p1 & Hp1 & E1 & _)%Hback (p2 & Hp2 & E2 & _)%Hback Heq.
    eapply c_single0; eauto. congruence.
  - intros j q (q0 & Hq0 & -> & _)%Hback. eauto.
  - intros j q (q0 & Hq0 & _ & [->| ->])%Hback; eauto.
  - intros t tok q Ht [Hq| ->]%Hl; [|rewrite lookup_insert_eq; eauto|done].
    rewrite lookup_insert_is_Some'. right. apply (c_live0 t tok q); [lia|done].
Qed.

Lemma consistent_same c c' w w' :
  consistent c w -> c <= c' -> repo_wf (w_store w') -> w_tokens w' = w_tokens w ->
  views w' = views w -> consistent c' w'.
Proof.
  intros [] Hcc Hwf Htk Hv. unfold views in Hv. injection Hv as Ha Hp.
  constructor; unfold ids_ok; rewrite ?Ha, ?Hp, ?Htk; eauto using tok_wf_later.
  intros t tok p Ht. apply c_live0. lia.
Qed.

(** A registration that took place keeps consistency. *)
Lemma consistent_registered c aid pid now1 now2 cmd w u n w' :
  consistent c w -> is_uuid pid -> repo_wf (w_store w') -> w_tokens w' = w_tokens w ->
  registered aid pid now1 now2 cmd w u n w' -> consistent c w'.
Proof.
  intros Hc Hpid Hwf Htk (h & Hu & Hn & _ & _ & Hfree & Ha & Hp & Hfp & Hav & Hpv).
  destruct Hc. constructor; unfold ids_ok; rewrite ?Hav, ?Hpv, ?Htk; auto.
  - intros j p [[<- <-]|[? Hj]]%lookup_insert_Some; eauto.
  - intros i j a b [[<- <-]|[? Hi]]%lookup_insert_Some [[<- <-]|[? Hj]]%lookup_insert_Some;
      simpl; eauto; intros Heq; exfalso; [eapply Hfree|eapply Hfree]; eauto.
  - intros i a [[<- <-]|[? Hi]]%lookup_insert_Some; eauto. by eapply Username.try_new_valid.
  - intros i a [[<- <-]|[? Hi]]%lookup_insert_Some.
    + exists pid, (Player.create pid aid n (kept_time now2)). by rewrite lookup_insert_eq.
    + destruct (c_player0 _ _ Hi) as (j & q & Hj & Hq). exists j, q.
      rewrite lookup_insert_ne; [done|]. intros <-. congruence.
  - intros j k p q [[<- <-]|[? Hj]]%lookup_insert_Some [[<- <-]|[? Hk]]%lookup_insert_Some;
      simpl; eauto; intros Heq; exfalso; [eapply Hfp|eapply Hfp]; eauto.
  - intros j p [[<- <-]|[? Hj]]%lookup_insert_Some; simpl; [rewrite lookup_insert_eq; eauto|].
    rewrite lookup_insert_is_Some'. right. eauto.
  - intros j p [[<- <-]|[? Hj]]%lookup_insert_Some; eauto.
    split; [split; split; vm_compute; discriminate|].
    split; [split; vm_compute; discriminate|].
    split; [right; vm_compute; done|]. by eapply Nickname.nick_new_valid.
  - intros t tok p Ht Hl. rewrite lookup_insert_is_Some'. right. eauto.
Qed.

Lemma consistent_register c aid pid now1 now2 cmd w r w' :
  consistent c w -> is_uuid pid -> register_execute aid pid now1 now2 cmd w = (r, w') ->
  consistent c w'.
Proof.
  intros Hc Hpid Hx. apply register_spec in Hx as (Hwf & Htk & _ & Hpost); [|apply Hc].
  destruct r as [rr|e].
  - destruct Hpost as (u & n & Hr & _). by eapply consistent_registered.
  - destruct Hpost as [Hv|[_ (u & n & Hr)]]; [by apply (consistent_same c c w)|].
    by eapply consistent_registered.
Qed.

Lemma growth_record_login p t : growth_ok p -> growth_ok (Player.record_login p t).
Proof. done. Qed.

Lemma growth_gain p amount p' l :
  growth_ok p -> is_u 64 amount -> Player.gain_exp p amount = (p', l) ->
  growth_ok p' /\ pl_account_id p' = pl_account_id p.
Proof.
  intros (Hr & Hl & Hs & Hn) Ha Hg. apply gain_exp_spec in Hg as (-> & Hr' & Hl' & _ & Hs' & _); try done.
  split; [|done]. unfold growth_ok, MAX_LEVEL in *. simpl in *. split_and!; try done; lia.
Qed.

Lemma consistent_login c ttl now1 now2 instant rnd cmd w r w' :
  consistent c w -> c <= instant -> unused instant (w_tokens w) (random_token rnd) ->
  login_execute ttl now1 now2 instant rnd cmd w = (r, w') -> consistent instant w'.
Proof.
  intros Hc Hcc Hun Hx.
  apply login_spec in Hx as (Hwf & Htk & Ha & _ & Hpost);
    [|apply Hc|apply (tok_wf_later c); [done|apply Hc]|done|apply Hc].
  destruct r as [lr|e].
  - destruct Hpost as (a & p & (_ & _ & _ & _ & Hp & _) & Hpv & -> & Hlive).
    eapply (consistent_update c instant w w' _ p _ Hc Hcc); eauto using growth_record_login, c_growth.
    intros t tok q Ht Hq. rewrite Hlive in Hq by done. simpl in Hq. case_all; simplify_eq; auto.
  - destruct Hpost as [[Heq Hpv]|(a & p & (_ & _ & _ & _ & Hp & _) & Hpv & Hlive)].
    + apply (consistent_same c instant w); try done. unfold views. congruence.
    + eapply (consistent_update c instant w w' _ p _ Hc Hcc); eauto using growth_record_login, c_growth.
      intros t tok q Ht Hq. destruct (Hlive t tok Ht) as [<-|[[_ Hn]|[_ Hn]]]; [by left|congruence|].
      right. congruence.
Qed.

Lemma consistent_gain c now i amount w r w' :
  consistent c w -> is_u 64 amount -> gain_exp_execute now i amount w = (r, w') -> consistent c w'.
Proof.
  intros Hc Ham Hx. apply gain_spec in Hx as (Hwf & Htk & Ha & Hpost); [|apply Hc|done].
  assert (Hcommit : forall p l, gain_committed now i amount w p l w' -> consistent c w').
  { intros p l (p0 & Hp0 & Hg & Hpv).
    destruct (growth_gain p0 amount p l (c_growth _ _ Hc _ _ Hp0) Ham Hg).
    eapply (consistent_update c c w w' _ p0 _ Hc); eauto; [lia|rewrite Htk; apply Hc|rewrite Htk; auto]. }
  assert (Hsame : views w' = views w -> consistent c w').
  { intros Hv. by apply (consistent_same c c w). }
  destruct r as [prof|e].
  - destruct Hpost as (_ & p & l & Hcm & _). eauto.
  - destruct e; try (destruct Hpost as [Hv _]; by apply Hsame).
    + destruct Hpost as [[Hv|(p & l & Hcm)] _]; eauto.
    + destruct Hpost as (p & n & Hcm & _). eauto.
Qed.

Lemma consistent_step cw cw' :
  consistent (fst cw) (snd cw) -> app_step cw cw' -> consistent (fst cw') (snd cw').
Proof.
  intros Hc Hs. destruct Hs; cbn [fst snd] in *.
  - by eapply consistent_register.
  - by eapply consistent_login.
  - by eapply consistent_gain.
  - match goal with H : profile_execute _ _ = _ |- _ =>
      eapply profile_spec in H as [(Hwf & Hv & Htk & _) _]; [|apply Hc] end.
    by apply (consistent_same c c w).
Qed.

Lemma consistent_run c0 w0 c w :
  consistent c0 w0 -> star app_step (c0, w0) (c, w) -> consistent c w.
Proof.
  intros H0 Hrun.
  apply (star_invariant app_step (fun cw => consistent (fst cw) (snd cw))) with (3 := Hrun); [|done].
  intros ? ?. apply consistent_step.
Qed.

(** No account of a consistent world is found without its player. *)
Lemma consistent_player_found c w i a :
  consistent c w -> accounts_view (w_store w) !! i = Some a ->
  fst (load_player (acc_id a) w) <> Err missing_profile.
Proof.
  intros Hc Hi Hl. destruct (load_player (acc_id a) w) as [r w'] eqn:El.
  apply load_player_spec in El as (_ & _ & Hno); [|apply Hc]. simpl in Hl.
  rewrite (repo_wf_account _ _ _ (c_wf _ _ Hc) Hi) in Hno.
  destruct (c_player _ _ Hc _ _ Hi) as (j & p & Hj & Hp). by eapply Hno.
Qed.

(** C20: Registration is all or nothing.  On success the inputs were valid, the
    normalised username was free, and exactly one account (active, with a hash of
    the password) and one level-1 player of that account were added; on a failure the
    store is as before, unless it is a storage error, after which either nothing or
    exactly that account and player were added.  Tokens and events are never touched. *)
Theorem register_all_or_nothing (aid pid : Z) (now1 now2 : DateTime) (cmd : RegisterCommand)
  w (r : result RegisterResult AppError) w'
  (Hwf : repo_wf (w_store w))
  (Hx : register_execute aid pid now1 now2 cmd w = (r, w')) :
  repo_wf (w_store w') /\ w_tokens w' = w_tokens w /\ w_events w' = w_events w /\
  register_post aid pid now1 now2 cmd w r w'.
Proof. by apply register_spec. Qed.

(** C19: Login grants a session only to the right person: success means that the
    account with the normalised name exists, may log in now, and its hash matches
    the password; then the new token is the only live token of that account's
    player, every other player's tokens are untouched, and of the player only the
    login time changes.  A failure before the credentials were accepted changes nothing.
    A storage failure after that, while the login time is recorded or the token created,
    is an error too, but it may leave the login time recorded, the tokens of that player
    revoked and the fresh one live, though it was not answered.  No login ever
    changes accounts, levels or experience. *)
Theorem login_correct (ttl : Z) (now1 now2 : DateTime) (instant : Z) (rnd : list Z)
  (cmd : LoginCommand) w (r : result LoginResult AppError) w'
  (Hwf : repo_wf (w_store w)) (Htok : tok_wf instant (w_tokens w))
  (Hfresh : unused instant (w_tokens w) (random_token rnd)) (Hids : ids_ok w)
  (Hx : login_execute ttl now1 now2 instant rnd cmd w = (r, w')) :
  repo_wf (w_store w') /\ tok_wf instant (w_tokens w') /\
  accounts_view (w_store w') = accounts_view (w_store w) /\ w_events w' = w_events w /\
  login_post ttl now1 now2 instant rnd cmd w r w'.
Proof. by apply login_spec. Qed.

(** C37: Granting experience commits and announces together: on success the
    player's row is the aggregate's [gain_exp] of the old row and a level-up event
    is published exactly when the level rose; the error [PostCommit] is returned
    exactly in the case where the row was committed and the publication failed; a
    storage error means that the grant was stored as a whole or not at all, and is not
    announced; every other error leaves store and events as they were. *)
Theorem gain_exp_commits_and_announces (now : DateTime) (i : PlayerId) (amount : Z)
  w (r : result PlayerProfile AppError) w'
  (Hwf : repo_wf (w_store w)) (Ham : is_u 64 amount)
  (Hx : gain_exp_execute now i amount w = (r, w')) :
  repo_wf (w_store w') /\ w_tokens w' = w_tokens w /\
  accounts_view (w_store w') = accounts_view (w_store w) /\ gain_post now i amount w r w'.
Proof. by apply gain_spec. Qed.

(** C21: Along every sequence of registrations, logins, grants and queries,
    starting from a consistent store, accounts and players stay in one-to-one
    correspondence, usernames stay unique and normal, every player's level and
    experience stay settled and in range, and live tokens stand for existing
    players.  Hence a login never finds an account without its player. *)
Theorem application_stays_consistent c0 w0 c w
  (H0 : consistent c0 w0) (Hrun : star app_step (c0, w0) (c, w)) :
  consistent c w /\
  forall i a, accounts_view (w_store w) !! i = Some a ->
    fst (load_player (acc_id a) w) <> Err missing_profile.
Proof.
  pose proof (consistent_run _ _ _ _ H0 Hrun) as Hc. split; [done|].
  intros i a. by apply (consistent_player_found c).
Qed.
End UseCases.
Arguments World : clear implicits.

(* ------------------------------------------------------------------ *)
(** ** A running application: the in-memory store and tokens *)

Module Demo.

#[local] Existing Instance plain_hasher.
#[local] Existing Instance log_audit.
#[local] Existing Instance log_events.

Definition DemoWorld : Type :=
  World Memory.Store MemTokens.State unit (list (option Z * rstr * rstr)) (list DomainEvent).
Definition start : DemoWorld := mkWorld Memory.empty_store MemTokens.new tt [] [].

Definition reg_cmd : RegisterCommand :=
  mkRegisterCommand (lit " Alice_01 ") (lit "super-secret") (lit "爱丽丝").
Definition log_cmd : LoginCommand := mkLoginCommand (lit "ALICE_01") (lit "super-secret").

Definition w1 : DemoWorld := snd (register_execute 10 20 1 2 reg_cmd start).
Definition w2 : DemoWorld := snd (login_execute 60000000000 3 4 5 [7; 8] log_cmd w1).

Lemma start_consistent : consistent 0 start.
Proof.
  constructor; unfold ids_ok; simpl; try (intros; simplify_map_eq; done).
Qed.

Lemma w1_consistent : consistent 0 w1.
Proof.
  apply (consistent_register 0 10 20 1 2 reg_cmd start (fst (register_execute 10 20 1 2 reg_cmd start)));
    [apply start_consistent|vm_compute; split; discriminate|vm_compute; reflexivity].
Qed.

Lemma register_all_or_nothing_witness :
  let r := Ok (mkRegisterResult 10 20 (lit "爱丽丝")) in
  register_execute 10 20 1 2 reg_cmd start = (r, w1) /\
  register_post 10 20 1 2 reg_cmd start r w1.
Proof.
  intros r. assert (Hx : register_execute 10 20 1 2 reg_cmd start = (r, w1))
    by (vm_compute; reflexivity).
  split; [exact Hx|].
  exact (proj2 (proj2 (proj2 (register_all_or_nothing 10 20 1 2 reg_cmd start r w1
    (c_wf _ _ start_consistent) Hx)))).
Defined.

Lemma login_correct_witness :
  let r := Ok (mkLoginResult (random_token [7; 8]) 20 (lit "爱丽丝") 60) in
  login_execute 60000000000 3 4 5 [7; 8] log_cmd w1 = (r, w2) /\
  login_post 60000000000 3 4 5 [7; 8] log_cmd w1 r w2.
Proof.
  intros r. assert (Hx : login_execute 60000000000 3 4 5 [7; 8] log_cmd w1 = (r, w2))
    by (vm_compute; reflexivity).
  split; [exact Hx|].
  assert (Hf : unused 5 (w_tokens w1) (random_token [7; 8])).
  { split; [vm_compute; reflexivity|]. intros p ts. vm_compute. discriminate. }
  exact (proj2 (proj2 (proj2 (proj2 (login_correct 60000000000 3 4 5 [7; 8] log_cmd w1 r w2
    (c_wf _ _ w1_consistent) (c_tok _ _ w1_consistent) Hf (c_ids _ _ w1_consistent) Hx))))).
Defined.

Lemma gain_exp_commits_and_announces_witness :
  let r := Ok (mkPlayerProfile 20 (lit "爱丽丝") 3 50 None) in
  let w := snd (gain_exp_execute 6 20 350 w1) in
  gain_exp_execute 6 20 350 w1 = (r, w) /\ gain_post 6 20 350 w1 r w /\
  w_events w = [PlayerLeveledUp 20 3 6].
Proof.
  intros r w. assert (Hx : gain_exp_execute 6 20 350 w1 = (r, w)) by (vm_compute; reflexivity).
  split; [exact Hx|]. split; [|vm_compute; reflexivity].
  assert (Ham : is_u 64 350) by (split; vm_compute; discriminate).
  exact (proj2 (proj2 (proj2 (gain_exp_commits_and_announces 6 20 350 w1 r w
    (c_wf _ _ w1_consistent) Ham Hx)))).
Defined.

Lemma application_stays_consistent_witness :
  consistent 0 w1 /\
  forall i a, accounts_view (w_store w1) !! i = Some a ->
    fst (load_player (acc_id a) w1) <> Err missing_profile.
Proof.
  apply (application_stays_consistent 0 start 0 w1 start_consistent).
  eapply star_snoc; [apply star_refl|].
  apply (app_register 0 10 20 1 2 reg_cmd start (fst (register_execute 10 20 1 2 reg_cmd start))).
  - vm_compute. split; discriminate.
  - vm_compute. reflexivity.
Defined.

(** A suspended account answers differently from an unknown one before any
    password is checked. *)
Definition suspended_store : DemoWorld :=
  mkWorld (snd (Memory.save_account
    (suspend (Account.register 10 (Username.mk (lit "alice_01")) (PasswordHash.new (lit "h")) 1))
    Memory.empty_store)) MemTokens.new tt [] [].

Example suspended_account_is_visible :
  fst (login_execute 1 3 4 5 [7] (mkLoginCommand (lit "alice_01") (lit "wrong")) suspended_store)
    = Err (Forbidden (lit "账号当前不可登录")) /\
  fst (login_execute 1 3 4 5 [7] (mkLoginCommand (lit "nobody") (lit "wrong")) suspended_store)
    = Err wrong_credentials.
Proof. split; vm_compute; reflexivity. Qed.

End Demo.
