(* ===== verification/RoomActor.v ===== *)
(** The room actor ([application/src/room/actor.rs]) and its event sinks
    ([sink.rs]).

    A sink is shared between the actor and a connection, so sinks live in a
    store and a member holds the identifier of its sink.  The actor handles one
    command at a time; the reply channel of a command becomes the reply
    [handle] returns; between its turns the connections take events out of their sinks
    ([RoomMove]).  Members are broadcast to in the map's order; the lemma
    [broadcast_lookup] shows that the order does not matter. *)
From S2P Require Import Prelude Text Tokio Values Room App.
From Stdlib Require Import Strings.String.
Open Scope Z_scope.
Open Scope list_scope.
Abbreviation length := Datatypes.length.

Definition ROOM_EVENT_CAPACITY : nat := 64.
Definition MAX_CHAT_CHARS : nat := 512.

Inductive RoomEvent :=
| MemberJoined (room_id : RoomId) (player_id : PlayerId) (nickname : rstr)
| MemberLeft (room_id : RoomId) (player_id : PlayerId)
| EvChat (room_id : RoomId) (sender : PlayerId) (nickname text : rstr)
| EvClosed (room_id : RoomId) (reason : rstr).
#[global] Instance RoomEvent_eq_dec : EqDecision RoomEvent.
Proof. solve_decision. Defined.

(** [RoomEvent::room_id] *)
Definition ev_room_id (e : RoomEvent) : RoomId :=
  match e with
  | MemberJoined r _ _ | MemberLeft r _ | EvChat r _ _ _ | EvClosed r _ => r
  end.

(** [RoomCommand]; [sink] identifies the sink in the store. *)
Inductive RoomCommand :=
| Join (player_id : PlayerId) (nickname : rstr) (sink : Z)
| Chat (player_id : PlayerId) (text : rstr)
| Leave (player_id : PlayerId) (reason : rstr)
| Close (reason : rstr).

Inductive Reply :=
| JoinReply (r : result unit AppError)
| LeaveReply (r : result bool AppError).

Section Actor.
Context {Q : Type -> Type} `{HQ : Mpsc Q}.

(* ------------------------------------------------------------------ *)
(** ** Sinks *)

Record Sink := mkSink { sk_tx : Q RoomEvent; sk_failed : bool }.

(** [RoomEventSink::from] *)
Definition sink_new (tx : Q RoomEvent) : Sink := mkSink tx false.

Definition sink_try_send (ev : RoomEvent) (s : Sink) : Sink :=
  let '(r, tx) := try_send (sk_tx s) ev in
  mkSink tx (match r with Sent => sk_failed s | _ => true end).

(** [failed()] completes when the flag is set. *)
Definition sink_failed_poll (s : Sink) : option unit := if sk_failed s then Some tt else None.

(* ------------------------------------------------------------------ *)
(** ** The actor *)

Record Member := mkMember { mb_nickname : rstr; mb_sink : Z }.

Record Actor := mkActor {
  ac_room : Room;
  ac_members : gmap Z Member;
  ac_closed : bool;             (* the value of the watch channel [closed_tx] *)
  ac_had_members : bool
}.

(** The state [RoomActor::spawn] starts from. *)
Definition actor_new (room : Room) : Actor := mkActor room ∅ false false.

(** [broadcast], on the actor's [members]. *)
Definition broadcast (members : gmap Z Member) (ev : RoomEvent) (ss : gmap Z Sink) : gmap Z Sink :=
  foldr (fun kv ss => alter (sink_try_send ev) (mb_sink (snd kv)) ss) ss
        (map_to_list members).

Definition finish (reason : rstr) : io (Actor * gmap Z Sink) unit :=
  fun '(a, ss) =>
    let '(was_open, room) := Room.close (ac_room a) in
    let a1 := mkActor room (ac_members a) (ac_closed a) (ac_had_members a) in
    let ss1 := if was_open then broadcast (ac_members a1) (EvClosed (rm_id room) reason) ss else ss in
    (tt, (mkActor room (ac_members a) true (ac_had_members a), ss1)).

Definition handle_join (player_id : PlayerId) (nickname : rstr) (sink : Z)
  : io (Actor * gmap Z Sink) (result unit AppError) :=
  fun '(a, ss) =>
    match Room.try_join (ac_room a) player_id with
    | (Ok true, room) =>
        let a1 := mkActor room (<[player_id := mkMember nickname sink]> (ac_members a))
                          (ac_closed a) true in
        (Ok tt, (a1, broadcast (ac_members a1) (MemberJoined (rm_id room) player_id nickname) ss))
    | (Ok false, room) =>
        (Ok tt, (mkActor room (ac_members a) (ac_closed a) (ac_had_members a), ss))
    | (Err err, room) =>
        (Err (app_of_domain err),
         (mkActor room (ac_members a) (ac_closed a) (ac_had_members a), ss))
    end.

Definition handle_chat (player_id : PlayerId) (text : rstr) : io (Actor * gmap Z Sink) unit :=
  fun '(a, ss) =>
    match ac_members a !! player_id with
    | None => (tt, (a, ss))
    | Some member =>
        let trimmed := trim text in
        if is_empty trimmed || (MAX_CHAT_CHARS <? length trimmed)%nat then (tt, (a, ss))
        else (tt, (a, broadcast (ac_members a) (EvChat (rm_id (ac_room a)) player_id (mb_nickname member) trimmed)
                                ss))
    end.

Definition handle_leave (player_id : PlayerId) (reason : rstr)
  : io (Actor * gmap Z Sink) (result bool AppError) :=
  fun '(a, ss) =>
    match Room.try_leave (ac_room a) player_id with
    | (Ok true, room) =>
        let a1 := mkActor room (ac_members a) (ac_closed a) (ac_had_members a) in
        let ss1 := broadcast (ac_members a1) (MemberLeft (rm_id room) player_id) ss in
        let '(_, (a2, ss2)) :=
          if ac_had_members a1 && (member_count room =? 0)%nat
          then finish (lit "最后一名成员已离开") (a1, ss1) else (tt, (a1, ss1)) in
        (Ok true, (mkActor (ac_room a2) (delete player_id (ac_members a2)) (ac_closed a2)
                           (ac_had_members a2), ss2))
    | (Ok false, room) =>
        (Ok false, (mkActor room (ac_members a) (ac_closed a) (ac_had_members a), ss))
    | (Err err, room) =>
        (Err (app_of_domain err),
         (mkActor room (ac_members a) (ac_closed a) (ac_had_members a), ss))
    end.

(** [handle]: whether the actor should stop, and the reply it sent. *)
Definition handle (command : RoomCommand) : io (Actor * gmap Z Sink) (bool * option Reply) :=
  match command with
  | Close reason => let* _ := finish reason in io_ret (true, None)
  | _ =>
      let* reply :=
        match command with
        | Join p n s => let* r := handle_join p n s in io_ret (Some (JoinReply r))
        | Chat p t => let* _ := handle_chat p t in io_ret None
        | Leave p reason => let* r := handle_leave p reason in io_ret (Some (LeaveReply r))
        | Close _ => io_ret None
        end in
      fun '(a, ss) =>
        ((ac_had_members a && (member_count (ac_room a) =? 0)%nat, reply), (a, ss))
  end.

(** One turn of [run]: [recv] gave a command, or [None] because no sender is left.  The
    answer is whether the actor goes on; when it does not, it has finished. *)
Definition run_turn (received : option RoomCommand) : io (Actor * gmap Z Sink) bool :=
  let* stop :=
    match received with
    | Some command => let* (stop, _) := handle command in io_ret stop
    | None => io_ret true
    end in
  if stop then let* _ := finish (lit "房间通道已关闭") in io_ret false else io_ret true.

(** The life of a room: the actor, the sinks it shares with the connections, what the
    connection behind each sink has received from it, and whether the actor still runs. *)
Record RoomLife := mkLife {
  rl_actor : Actor; rl_sinks : gmap Z Sink; rl_read : gmap Z (list RoomEvent); rl_running : bool
}.

(** What happens in it: the actor takes its turn; a connection's relay receives an event,
    or drops its receiver.  A turn broadcasts at most one event to a member that stays
    ([emits_one]), so for such a member every take comes before or after a turn. *)
Inductive RoomMove :=
| Receives (received : option RoomCommand)
| Takes (sink : Z)
| HangsUp (sink : Z).

Definition room_move (d : RoomMove) : io RoomLife unit := fun l =>
  (tt, match d with
       | Receives received =>
           if rl_running l then
             let '(on, (a, ss)) := run_turn received (rl_actor l, rl_sinks l) in mkLife a ss (rl_read l) on
           else l
       | Takes k =>
           match rl_sinks l !! k ≫= (fun s => pop (sk_tx s)) with
           | Some (e, tx) =>
               mkLife (rl_actor l) (alter (fun s => mkSink tx (sk_failed s)) k (rl_sinks l))
                      (<[k := default [] (rl_read l !! k) ++ [e]]> (rl_read l)) (rl_running l)
           | None => l
           end
       | HangsUp k =>
           mkLife (rl_actor l) (alter (fun s => mkSink (drop_rx (sk_tx s)) (sk_failed s)) k (rl_sinks l))
                  (rl_read l) (rl_running l)
       end).

(** [run], with the connections' relays at work between its turns. *)
Fixpoint run (ds : list RoomMove) : io RoomLife unit :=
  match ds with
  | [] => io_ret tt
  | d :: ds => let* _ := room_move d in run ds
  end.

(* ------------------------------------------------------------------ *)
(** ** Broadcasting *)

(** No two members share a sink. *)
Definition sinks_distinct (ms : gmap Z Member) : Prop :=
  forall p q m n, ms !! p = Some m -> ms !! q = Some n -> mb_sink m = mb_sink n -> p = q.

Definition has_sink (ms : gmap Z Member) (k : Z) : Prop :=
  exists p m, ms !! p = Some m /\ mb_sink m = k.

Definition sink_ids (ms : gmap Z Member) : list Z :=
  map (fun kv => mb_sink (snd kv)) (map_to_list ms).

Lemma elem_of_sink_ids ms k : k ∈ sink_ids ms <-> has_sink ms k.
Proof.
  unfold sink_ids, has_sink. rewrite list_elem_of_fmap. split.
  - intros ([p m] & -> & Hin%elem_of_map_to_list). eauto.
  - intros (p & m & Hp%elem_of_map_to_list & <-). by exists (p, m).
Qed.

Lemma sink_ids_NoDup ms : sinks_distinct ms -> NoDup (sink_ids ms).
Proof.
  intros Hd. unfold sink_ids. apply NoDup_fmap_2_strong; [|apply NoDup_map_to_list].
  intros [p m] [q n] Hp%elem_of_map_to_list Hq%elem_of_map_to_list Heq. simpl in Heq.
  assert (p = q) as -> by (by eapply Hd). congruence.
Qed.

Lemma foldr_alter_lookup {V} (f : V -> V) (ks : list Z) (m : gmap Z V) k :
  NoDup ks ->
  foldr (fun i m => alter f i m) m ks !! k =
  if decide (k ∈ ks) then f <$> m !! k else m !! k.
Proof.
  induction 1 as [|i ks Hi Hnd IH]; simpl; [done|].
  destruct (decide (k = i)) as [->|Hne].
  - rewrite lookup_alter_eq, IH, decide_False by done. rewrite decide_True by set_solver. done.
  - rewrite lookup_alter_ne, IH by congruence. repeat case_decide; set_solver.
Qed.

(** Every member's sink gets the event once, every other sink nothing. *)
Lemma broadcast_lookup ms ev ss k :
  sinks_distinct ms ->
  (has_sink ms k -> broadcast ms ev ss !! k = sink_try_send ev <$> ss !! k) /\
  (~ has_sink ms k -> broadcast ms ev ss !! k = ss !! k).
Proof.
  intros Hd. unfold broadcast.
  assert (Heq : forall l, foldr (fun kv ss => alter (sink_try_send ev) (mb_sink (snd kv)) ss) ss l =
    foldr (fun i m => alter (sink_try_send ev) i m) ss (map (fun kv : Z * Member => mb_sink (snd kv)) l)).
  { induction l as [|x l IH]; simpl; [done|]. by rewrite IH. }
  rewrite Heq. fold (sink_ids ms).
  rewrite foldr_alter_lookup by (by apply sink_ids_NoDup). rewrite <- elem_of_sink_ids.
  split; intros; [by rewrite decide_True|by rewrite decide_False].
Qed.

(** What a sink does with a sequence of events: it queues them in order while
    there is room; the flag is raised exactly when one did not fit. *)
Lemma sink_try_send_cases ev s :
  rx_closed (sk_tx s) = false ->
  let s' := sink_try_send ev s in
  max_capacity (sk_tx s') = max_capacity (sk_tx s) /\ rx_closed (sk_tx s') = false /\
  if decide (length (items (sk_tx s)) < max_capacity (sk_tx s))%nat
  then items (sk_tx s') = items (sk_tx s) ++ [ev] /\ sk_failed s' = sk_failed s
  else items (sk_tx s') = items (sk_tx s) /\ sk_failed s' = true.
Proof.
  intros Hc. unfold sink_try_send. destruct (try_send (sk_tx s) ev) as [r tx] eqn:E. simpl.
  apply try_send_cases in E as [(-> & _ & Hl & Hi & Hm & Hr)|[(-> & _ & Hl & ->)|(_ & Hr & _)]].
  - rewrite decide_True by done. done.
  - rewrite decide_False by lia. done.
  - congruence.
Qed.

Definition sink_send_all (evs : list RoomEvent) (s : Sink) : Sink :=
  foldl (fun s ev => sink_try_send ev s) s evs.

Lemma sink_send_all_spec evs s :
  rx_closed (sk_tx s) = false -> (length (items (sk_tx s)) <= max_capacity (sk_tx s))%nat ->
  let free := (max_capacity (sk_tx s) - length (items (sk_tx s)))%nat in
  items (sk_tx (sink_send_all evs s)) = items (sk_tx s) ++ take free evs /\
  sk_failed (sink_send_all evs s) = sk_failed s || (free <? length evs)%nat.
Proof.
  unfold sink_send_all. revert s. induction evs as [|ev evs IH]; intros s Hc Hb; simpl.
  - rewrite take_nil, app_nil_r, orb_false_r. done.
  - destruct (sink_try_send_cases ev s Hc) as (Hm & Hr & Hcase). case_decide as Hlt.
    + destruct Hcase as [Hi Hf]. destruct (IH (sink_try_send ev s)) as [IH1 IH2]; [done| |].
      { rewrite Hi, Hm, length_app. simpl. lia. }
      rewrite IH1, IH2, Hm, Hi, Hf, length_app. simpl.
      destruct (max_capacity (sk_tx s) - length (items (sk_tx s)))%nat as [|n] eqn:En; [lia|].
      replace (max_capacity (sk_tx s) - (length (items (sk_tx s)) + 1))%nat with n by lia.
      simpl. rewrite <- app_assoc. done.
    + destruct Hcase as [Hi Hf]. destruct (IH (sink_try_send ev s)) as [IH1 IH2]; [done| |].
      { rewrite Hi, Hm. done. }
      rewrite IH1, IH2, Hm, Hi, Hf.
      replace (max_capacity (sk_tx s) - length (items (sk_tx s)))%nat with 0%nat by lia.
      simpl. by rewrite orb_true_r.
Qed.


(* ------------------------------------------------------------------ *)
(** ** What one command emits, and to whom *)

Definition closing (a : Actor) (reason : rstr) : list RoomEvent :=
  if is_closed (ac_room a) then [] else [EvClosed (rm_id (ac_room a)) reason].

Definition chat_ok (text : rstr) : bool :=
  negb (is_empty (trim text) || (MAX_CHAT_CHARS <? length (trim text))%nat).

Definition emits (a : Actor) (c : RoomCommand) : list RoomEvent :=
  let room := ac_room a in
  match c with
  | Join p n _ =>
      match fst (Room.try_join room p) with Ok true => [MemberJoined (rm_id room) p n] | _ => [] end
  | Chat p t =>
      match ac_members a !! p with
      | Some m => if chat_ok t then [EvChat (rm_id room) p (mb_nickname m) (trim t)] else []
      | None => []
      end
  | Leave p _ =>
      match Room.try_leave room p with
      | (Ok true, room') =>
          MemberLeft (rm_id room) p ::
          (if ac_had_members a && (member_count room' =? 0)%nat
           then closing a (lit "最后一名成员已离开") else [])
      | _ => []
      end
  | Close reason => closing a reason
  end.

(** The members a command's events go to: a member that joins hears of its own
    joining, one that leaves of its own leaving. *)
Definition receivers (a : Actor) (c : RoomCommand) : gmap Z Member :=
  match c with
  | Join p n s =>
      match fst (Room.try_join (ac_room a) p) with
      | Ok true => <[p := mkMember n s]> (ac_members a)
      | _ => ac_members a
      end
  | _ => ac_members a
  end.

(** The member map and the room after the command. *)
Definition members_after (a : Actor) (c : RoomCommand) : gmap Z Member :=
  match c with
  | Leave p _ =>
      match fst (Room.try_leave (ac_room a) p) with
      | Ok true => delete p (ac_members a)
      | _ => ac_members a
      end
  | _ => receivers a c
  end.

Definition deliver (ms : gmap Z Member) (evs : list RoomEvent) (ss : gmap Z Sink) : gmap Z Sink :=
  foldl (fun ss ev => broadcast ms ev ss) ss evs.

Lemma deliver_lookup ms evs ss k :
  sinks_distinct ms ->
  (has_sink ms k -> deliver ms evs ss !! k = sink_send_all evs <$> ss !! k) /\
  (~ has_sink ms k -> deliver ms evs ss !! k = ss !! k).
Proof.
  intros Hd. unfold deliver, sink_send_all. revert ss.
  induction evs as [|ev evs IH]; intros ss; simpl.
  - split; [|done]. intros _. by destruct (ss !! k).
  - destruct (IH (broadcast ms ev ss)) as [IH1 IH2].
    destruct (broadcast_lookup ms ev ss k Hd) as [H1 H2].
    split; intros Hk; [rewrite IH1, H1 by done|rewrite IH2, H2 by done; done].
    by destruct (ss !! k).
Qed.

Lemma finish_eq reason a ss :
  finish reason (a, ss) =
  (tt, (mkActor (snd (Room.close (ac_room a))) (ac_members a) true (ac_had_members a),
        deliver (ac_members a) (closing a reason) ss)).
Proof.
  unfold finish, closing, Room.close, deliver. destruct (is_closed (ac_room a)); reflexivity.
Qed.

Lemma try_join_id r p : rm_id (snd (Room.try_join r p)) = rm_id r.
Proof. unfold Room.try_join. by repeat case_match. Qed.
Lemma try_leave_id r p : rm_id (snd (Room.try_leave r p)) = rm_id r.
Proof. unfold Room.try_leave. by repeat case_match. Qed.
Lemma try_leave_closed r p : is_closed (snd (Room.try_leave r p)) = is_closed r.
Proof. unfold Room.try_leave. destruct (is_closed r) eqn:E; exact E. Qed.

(** The effect of every command in one statement. *)
Lemma handle_effect c a ss o a' ss' :
  handle c (a, ss) = (o, (a', ss')) ->
  ss' = deliver (receivers a c) (emits a c) ss /\ ac_members a' = members_after a c.
Proof.
  destruct c as [p n s|p t|p r|r]; unfold handle, io_bind, io_ret.
  - unfold handle_join, emits, receivers, members_after, receivers.
    pose proof (try_join_id (ac_room a) p) as Hid.
    destruct (Room.try_join (ac_room a) p) as [[[|]|e] room] eqn:Ej; simpl in *;
      intros [= <- <- <-]; simpl; by rewrite ?Hid.
  - unfold handle_chat, emits, receivers, members_after, receivers, chat_ok.
    destruct (ac_members a !! p) as [m|]; [|by intros [= <- <- <-]].
    destruct (is_empty _ || _); by intros [= <- <- <-].
  - unfold handle_leave, emits, receivers, members_after, receivers.
    pose proof (try_leave_id (ac_room a) p) as Hid.
    pose proof (try_leave_closed (ac_room a) p) as Hcl.
    destruct (Room.try_leave (ac_room a) p) as [[[|]|e] room];
      cbn [fst snd ac_room ac_members ac_had_members ac_closed] in *;
      try (by intros [= <- <- <-]).
    destruct (ac_had_members a && _).
    + rewrite finish_eq. intros [= <- <- <-]. simpl. unfold closing. simpl.
      rewrite Hcl, Hid. done.
    + intros [= <- <- <-]. simpl. by rewrite Hid.
  - rewrite finish_eq. intros [= <- <- <-]. done.
Qed.

(* ------------------------------------------------------------------ *)
(** ** The actor's invariant

    A sink belongs to one player ([owner]): a connection is bound to one player
    and joins with its own sink, also when it leaves and joins again. *)

Section Owner.
Variable owner : Z -> PlayerId.

Definition cmd_ok (c : RoomCommand) : Prop :=
  match c with Join p _ s => owner s = p | _ => True end.

Record actor_inv (a : Actor) : Prop := mkActorInv {
  ai_room : Room.wf (ac_room a);
  ai_members : forall p, is_Some (ac_members a !! p) <-> p ∈ rm_members (ac_room a);
  ai_owner : forall p m, ac_members a !! p = Some m -> owner (mb_sink m) = p;
  ai_closed : ac_closed a = is_closed (ac_room a);
  ai_had : ac_had_members a = false -> rm_members (ac_room a) = [];
  ai_live : is_closed (ac_room a) = false -> ac_had_members a = true ->
            rm_members (ac_room a) <> []
}.

Lemma actor_new_inv i max now : actor_inv (actor_new (Room.open i max now)).
Proof.
  constructor; simpl; try done.
  - split; [apply NoDup_nil_2|]. unfold member_count. simpl. lia.
  - intros p. rewrite lookup_empty. split; [by intros []|]. by intros ?%not_elem_of_nil.
Qed.

Lemma owner_distinct (ms : gmap Z Member) :
  (forall p m, ms !! p = Some m -> owner (mb_sink m) = p) -> sinks_distinct ms.
Proof. intros Ho p q m n Hp Hq Heq. rewrite <- (Ho _ _ Hp), <- (Ho _ _ Hq). by rewrite Heq. Qed.

(** The three outcomes of joining an open room. *)
Lemma try_join_open r p :
  is_closed r = false ->
  ((p ∈ rm_members r) /\ Room.try_join r p = (Ok false, r)) \/
  ((p ∉ rm_members r) /\ is_full r = true /\ Room.try_join r p = (Err (RoomFull (rm_id r)), r)) \/
  ((p ∉ rm_members r) /\ Room.try_join r p = (Ok true, set_members r (rm_members r ++ [p]))).
Proof.
  intros Hc. unfold Room.try_join. rewrite Hc. case_bool_decide; [auto|].
  destruct (is_full r); auto.
Qed.

Lemma try_leave_open r p :
  NoDup (rm_members r) -> is_closed r = false ->
  ((p ∈ rm_members r) /\
   Room.try_leave r p = (Ok true, set_members r (filter (.≠ p) (rm_members r)))) \/
  ((p ∉ rm_members r) /\ Room.try_leave r p = (Ok false, r)).
Proof.
  intros Hnd Hc. unfold Room.try_leave. rewrite Hc. simpl.
  destruct (decide (p ∈ rm_members r)) as [Hin|Hin].
  - left. split; [done|]. pose proof (length_filter_ne p _ Hnd Hin).
    by rewrite (proj2 (Nat.eqb_neq _ _)) by lia.
  - right. split; [done|]. rewrite filter_ne_id, Nat.eqb_refl by done. by destruct r.
Qed.

(** What the actor answers. *)
Definition reply_spec (a : Actor) (c : RoomCommand) (a' : Actor) (reply : option Reply) : Prop :=
  match c, reply with
  | Join p _ _, Some (JoinReply r) =>
      (is_ok r = true <-> p ∈ rm_members (ac_room a')) /\
      (forall e, r = Err e -> e = Conflict (lit "房间已满") /\ is_full (ac_room a) = true /\ a' = a)
  | Leave p _, Some (LeaveReply r) =>
      r = Ok (bool_decide (p ∈ rm_members (ac_room a))) /\ p ∉ rm_members (ac_room a')
  | Chat _ _, None => a' = a
  | Close _, None => ac_closed a' = true
  | _, _ => False
  end.

Definition handle_post (a : Actor) (c : RoomCommand) (stop : bool) (reply : option Reply)
    (a' : Actor) : Prop :=
  actor_inv a' /\ stop = ac_closed a' /\ rm_id (ac_room a') = rm_id (ac_room a) /\
  rm_max_players (ac_room a') = rm_max_players (ac_room a) /\ reply_spec a c a' reply.

Lemma stop_open a :
  actor_inv a -> ac_closed a = false ->
  ac_had_members a && (member_count (ac_room a) =? 0)%nat = false.
Proof.
  intros [] Hc. destruct (ac_had_members a); [|done]. simpl. apply Nat.eqb_neq.
  rewrite ai_closed0 in Hc. intros Hz. apply (ai_live0 Hc eq_refl). by apply nil_length_inv.
Qed.

Lemma member_count_pos r p : p ∈ rm_members r -> (member_count r =? 0)%nat = false.
Proof.
  intros Hin. apply Nat.eqb_neq. unfold member_count. intros Hz%nil_length_inv.
  rewrite Hz in Hin. by apply not_elem_of_nil in Hin.
Qed.

Lemma handle_join_post a ss p n s stop reply a' ss' :
  actor_inv a -> ac_closed a = false -> owner s = p ->
  handle (Join p n s) (a, ss) = ((stop, reply), (a', ss')) -> handle_post a (Join p n s) stop reply a'.
Proof.
  intros Hinv Hc Ho. pose proof Hinv as []. rewrite ai_closed0 in Hc.
  unfold handle, io_bind, io_ret, handle_join.
  assert (Ha : forall b, mkActor (ac_room b) (ac_members b) (ac_closed b) (ac_had_members b) = b)
    by (by intros []).
  destruct (try_join_open (ac_room a) p Hc) as [[Hin Hj]|[(Hin & Hf & Hj)|(Hin & Hj)]];
    rewrite Hj; cbn [ac_room ac_members ac_closed ac_had_members].
  - rewrite Ha. rewrite stop_open by (done || by rewrite ai_closed0). intros [= <- <- <- <-].
    unfold handle_post. rewrite ai_closed0, Hc. by split_and!.
  - rewrite Ha. rewrite stop_open by (done || by rewrite ai_closed0). intros [= <- <- <- <-].
    unfold handle_post, reply_spec. rewrite ai_closed0, Hc. do 4 (split; [done|]).
    split; [by split|]. by intros e [= <-].
  - pose proof (try_join_wf (ac_room a) p ai_room0) as Hwf'. rewrite Hj in Hwf'. simpl in Hwf'.
    assert (Hin' : p ∈ rm_members (set_members (ac_room a) (rm_members (ac_room a) ++ [p])))
      by (simpl; set_solver).
    rewrite (member_count_pos _ _ Hin'). intros [= <- <- <- <-].
    unfold handle_post. cbn [ac_closed]. split_and!; try done.
    + constructor; simpl; try done.
      * intros q. rewrite lookup_insert_is_Some', elem_of_app, list_elem_of_singleton, ai_members0.
        naive_solver.
      * intros q m [[<- <-]|[_ Hq]]%lookup_insert_Some; [done|]. by apply ai_owner0.
      * intros _ _ Hnil. by apply app_nil in Hnil as [_ ?].
    + by rewrite ai_closed0, Hc.
Qed.

Lemma handle_chat_post a ss p t stop reply a' ss' :
  actor_inv a -> ac_closed a = false ->
  handle (Chat p t) (a, ss) = ((stop, reply), (a', ss')) -> handle_post a (Chat p t) stop reply a'.
Proof.
  intros Hinv Hc. unfold handle, io_bind, io_ret, handle_chat.
  assert (Hp : handle_post a (Chat p t) false None a) by (unfold handle_post; by rewrite Hc).
  destruct (ac_members a !! p) as [m|]; [destruct (is_empty _ || _)|];
    rewrite (stop_open a Hinv Hc); by intros [= <- <- <- <-].
Qed.

Lemma handle_close_post a ss r stop reply a' ss' :
  actor_inv a -> ac_closed a = false ->
  handle (Close r) (a, ss) = ((stop, reply), (a', ss')) -> handle_post a (Close r) stop reply a'.
Proof.
  intros [] Hc. unfold handle, io_bind, io_ret. rewrite finish_eq. intros [= <- <- <- <-].
  unfold handle_post, Room.close. rewrite <- ai_closed0, Hc. simpl. split_and!; try done.
Qed.

Lemma handle_leave_post a ss p r stop reply a' ss' :
  actor_inv a -> ac_closed a = false ->
  handle (Leave p r) (a, ss) = ((stop, reply), (a', ss')) -> handle_post a (Leave p r) stop reply a'.
Proof.
  intros Hinv Hc. pose proof Hinv as []. rewrite ai_closed0 in Hc.
  unfold handle, io_bind, io_ret, handle_leave.
  destruct (try_leave_open (ac_room a) p (proj1 ai_room0) Hc) as [[Hin Hl]|[Hin Hl]]; rewrite Hl;
    cbn [ac_room ac_members ac_closed ac_had_members].
  2: { assert (Ha : mkActor (ac_room a) (ac_members a) (ac_closed a) (ac_had_members a) = a)
         by (by destruct a).
       rewrite Ha. rewrite stop_open by (done || by rewrite ai_closed0). intros [= <- <- <- <-].
       unfold handle_post, reply_spec. rewrite ai_closed0, Hc. do 4 (split; [done|]).
       split; [by rewrite bool_decide_false|done]. }
  pose proof (try_leave_wf (ac_room a) p ai_room0) as Hwf'. rewrite Hl in Hwf'.
  assert (Hhad : ac_had_members a = true).
  { destruct (ac_had_members a) eqn:E; [done|]. rewrite (ai_had0 eq_refl) in Hin.
    by apply not_elem_of_nil in Hin. }
  rewrite Hhad. cbn [andb snd] in *. set (room := set_members (ac_room a) _) in *.
  assert (Hinv' : forall closed st, closed = bool_decide (st = Closed) ->
    (closed = false -> member_count room <> 0%nat) ->
    actor_inv (mkActor (set_state room st) (delete p (ac_members a)) closed true)).
  { intros closed st Hcl Hne. constructor; cbn; try done.
    - intros q. rewrite lookup_delete_is_Some, list_elem_of_filter, ai_members0. naive_solver.
    - intros q m [_ Hq]%lookup_delete_Some. by apply ai_owner0.
    - unfold is_closed. cbn. intros Hst _ Hnil. rewrite <- Hcl in Hst.
      apply (Hne Hst). unfold member_count. cbn. by rewrite Hnil. }
  destruct (member_count room =? 0)%nat eqn:Hz.
  - rewrite finish_eq. cbn [ac_room ac_members ac_closed ac_had_members]. unfold Room.close.
    change (is_closed room) with (is_closed (ac_room a)). rewrite Hc. cbn [snd].
    change (member_count (set_state room Closed)) with (member_count room). rewrite Hz.
    intros [= <- <- <- <-]. unfold handle_post, reply_spec. cbn [ac_closed ac_room].
    split; [by apply Hinv'|]. do 3 (split; [done|]). split; [by rewrite bool_decide_true|].
    cbn. rewrite list_elem_of_filter. by intros [? _].
  - cbn [ac_room ac_members ac_closed ac_had_members]. rewrite Hz.
    intros [= <- <- <- <-]. unfold handle_post, reply_spec. cbn [ac_closed ac_room].
    rewrite ai_closed0, Hc. split.
    { apply (Hinv' false (rm_state room)); [|intros _; by apply Nat.eqb_neq].
      symmetry. exact Hc. }
    do 3 (split; [done|]). split; [by rewrite bool_decide_true|].
    cbn. rewrite list_elem_of_filter. by intros [? _].
Qed.

Lemma handle_spec a ss c stop reply a' ss' :
  actor_inv a -> ac_closed a = false -> cmd_ok c ->
  handle c (a, ss) = ((stop, reply), (a', ss')) -> handle_post a c stop reply a'.
Proof.
  intros Hinv Hc Hok. destruct c.
  - by apply handle_join_post.
  - by apply handle_chat_post.
  - by apply handle_leave_post.
  - by apply handle_close_post.
Qed.


(* ------------------------------------------------------------------ *)
(** ** Whole runs *)

Inductive actor_step : Actor * gmap Z Sink -> Actor * gmap Z Sink -> Prop :=
| actor_handles a ss c o x :
    ac_closed a = false -> cmd_ok c -> handle c (a, ss) = (o, x) -> actor_step (a, ss) x.

(** C14: From the moment it is spawned, after any sequence of commands, a room
    actor keeps its membership map and the room's member list equal as sets, never
    exceeds the capacity, and answers every next command correctly: a join
    succeeds exactly when the player is a member afterwards and fails only because
    the room is full, leaving it unchanged; a leave reports whether the player was
    a member and leaves it outside; and the actor asks to stop exactly when the
    room has become closed, on [Close] or when the last member leaves. *)
Theorem actor_serves_correctly (i max now : Z) (ss0 ss ss' : gmap Z Sink) (a a' : Actor)
  (c : RoomCommand) (stop : bool) (reply : option Reply)
  (Hrun : star actor_step (actor_new (Room.open i max now), ss0) (a, ss))
  (Hopen : ac_closed a = false) (Hok : cmd_ok c)
  (Hh : handle c (a, ss) = ((stop, reply), (a', ss'))) :
  actor_inv a /\ rm_id (ac_room a) = i /\
  Z.of_nat (member_count (ac_room a)) <= Z.max max 1 /\ handle_post a c stop reply a'.
Proof.
  assert (Hinv : actor_inv (fst (a, ss)) /\ rm_id (ac_room (fst (a, ss))) = i /\
                 rm_max_players (ac_room (fst (a, ss))) = Z.max max 1).
  { pattern (a, ss). apply (star_invariant actor_step) with (3 := Hrun).
    - intros x y Hxs Hstep. destruct Hstep as [b sb d [st rp] [b' sb'] Hb Hd Hhd].
      destruct Hxs as (Hx & Hi & Hm). simpl in *.
      apply handle_spec in Hhd as (? & _ & ? & ? & _); try done. split; [done|]. split; congruence.
    - split; [apply actor_new_inv|]. done. }
  destruct Hinv as (Hinv & Hi & Hm). simpl in *. split; [done|]. split; [done|]. split.
  - destruct Hinv as [[_ Hcap] _]. by rewrite Hm in Hcap.
  - by eapply handle_spec.
Qed.

(** The events a move broadcasts, and those of a run, in order. *)
Definition turn_emits (received : option RoomCommand) (a : Actor) (ss : gmap Z Sink) : list RoomEvent :=
  match received with
  | Some c =>
      emits a c ++ (let '((stop, _), (a', _)) := handle c (a, ss) in
                    if stop then closing a' (lit "房间通道已关闭") else [])
  | None => closing a (lit "房间通道已关闭")
  end.
Definition move_emits (d : RoomMove) (l : RoomLife) : list RoomEvent :=
  match d with
  | Receives received => if rl_running l then turn_emits received (rl_actor l) (rl_sinks l) else []
  | _ => []
  end.
Fixpoint room_log (ds : list RoomMove) (l : RoomLife) : list RoomEvent :=
  match ds with
  | [] => []
  | d :: ds => move_emits d l ++ room_log ds (snd (room_move d l))
  end.

Definition is_close_event (e : RoomEvent) : bool :=
  match e with EvClosed _ _ => true | _ => false end.

Definition stays (p : PlayerId) (c : RoomCommand) : Prop :=
  match c with Leave q _ => q <> p | _ => True end.

(** A move in which player [p] stays with its sink [k], whose receiver lives. *)
Definition keeps (p : PlayerId) (k : Z) (d : RoomMove) : Prop :=
  match d with
  | Receives (Some c) => cmd_ok c /\ stays p c
  | HangsUp j => j <> k
  | _ => True
  end.

Lemma receivers_owner a c :
  actor_inv a -> cmd_ok c ->
  forall p m, receivers a c !! p = Some m -> owner (mb_sink m) = p.
Proof.
  intros [] Hok p m. destruct c as [q n s|q t|q r|r]; simpl; eauto.
  destruct (fst (Room.try_join (ac_room a) q)) as [[|]|]; eauto.
  intros [[<- <-]|[_ Hp]]%lookup_insert_Some; eauto.
Qed.

(** A member that does not leave stays with its sink, and hears the events. *)
Lemma member_stays a c p m :
  actor_inv a -> ac_members a !! p = Some m -> stays p c ->
  receivers a c !! p = Some m /\ members_after a c !! p = Some m.
Proof.
  intros [] Hp Hs. destruct c as [q n s|q t|q r|r]; simpl; try done.
  - destruct (fst (Room.try_join (ac_room a) q)) as [[|]|] eqn:Ej; try done.
    rewrite lookup_insert_ne; [done|]. intros ->.
    assert (p ∈ rm_members (ac_room a)) as Hin by (apply ai_members0; eauto).
    unfold Room.try_join in Ej. rewrite (bool_decide_true (p ∈ _)) in Ej by done.
    by destruct (is_closed _).
  - destruct (fst (Room.try_leave (ac_room a) q)) as [[|]|]; try done.
    by rewrite lookup_delete_ne.
Qed.

(** When a command closes the room its last event says so, and only then. *)
Lemma emits_close a c ss stop reply a' ss' :
  actor_inv a -> ac_closed a = false -> cmd_ok c ->
  handle c (a, ss) = ((stop, reply), (a', ss')) ->
  if stop then exists pre reason, emits a c = pre ++ [EvClosed (rm_id (ac_room a)) reason] /\
                                  existsb is_close_event pre = false
  else existsb is_close_event (emits a c) = false.
Proof.
  intros Hinv Hc Hok Hh. pose proof (handle_spec _ _ _ _ _ _ _ Hinv Hc Hok Hh) as Hpost.
  pose proof Hinv as []. rewrite ai_closed0 in Hc.
  destruct c as [p n s|p t|p r|r]; simpl emits.
  - destruct Hpost as (_ & -> & _). assert (Hc' : ac_closed a' = false).
    { revert Hh. unfold handle, io_bind, io_ret, handle_join.
      destruct (try_join_open (ac_room a) p Hc) as [[_ ->]|[(_ & _ & ->)|[_ ->]]];
        intros [= _ _ <- _]; cbn; congruence. }
    rewrite Hc'. by destruct (fst (Room.try_join _ _)) as [[|]|].
  - destruct Hpost as (_ & -> & _ & _ & Hr). destruct reply; [done|]. simpl in Hr. subst a'.
    rewrite ai_closed0, Hc.
    destruct (ac_members a !! p); [|done]. by destruct (chat_ok t).
  - revert Hh. unfold handle, io_bind, io_ret, handle_leave, closing.
    destruct (try_leave_open (ac_room a) p (proj1 ai_room0) Hc) as [[Hin ->]|[Hin ->]].
    + cbn [ac_room ac_had_members ac_members ac_closed]. destruct (ac_had_members a && _) eqn:Hlast.
      * rewrite finish_eq. intros [= <- _ _ _]. rewrite Hc.
        cbn [ac_room ac_had_members ac_members ac_closed]. unfold Room.close.
        change (is_closed (set_members _ _)) with (is_closed (ac_room a)). rewrite Hc. cbn [snd].
        change (member_count (set_state ?r _)) with (member_count r). rewrite Hlast.
        by exists [MemberLeft (rm_id (ac_room a)) p], (lit "最后一名成员已离开").
      * cbn [ac_room ac_had_members ac_members ac_closed]. rewrite Hlast. by intros [= <- _ _ _].
    + cbn [ac_room ac_had_members]. rewrite (stop_open a Hinv) by congruence.
      by intros [= <- _ _ _].
  - revert Hh. unfold handle, io_bind, io_ret. rewrite finish_eq. intros [= <- _ _ _].
    unfold closing. rewrite Hc. by exists [], r.
Qed.

Lemma handle_id a c ss o a' ss' :
  handle c (a, ss) = (o, (a', ss')) -> rm_id (ac_room a') = rm_id (ac_room a).
Proof.
  destruct c as [p n s|p t|p r|r]; unfold handle, io_bind, io_ret.
  - unfold handle_join. pose proof (try_join_id (ac_room a) p) as Hid.
    destruct (Room.try_join (ac_room a) p) as [[[|]|] room]; by intros [= _ <- _].
  - unfold handle_chat. destruct (ac_members a !! p); [destruct (is_empty _ || _)|];
      by intros [= _ <- _].
  - unfold handle_leave. pose proof (try_leave_id (ac_room a) p) as Hid.
    destruct (Room.try_leave (ac_room a) p) as [[[|]|] room];
      try (by intros [= _ <- _]). cbn [ac_room ac_had_members ac_members ac_closed] in *.
    destruct (ac_had_members a && _); [rewrite finish_eq|]; intros [= _ <- _]; [|done].
    cbn [ac_room] in *. unfold Room.close. by destruct (is_closed room).
  - rewrite finish_eq. intros [= _ <- _]. cbn. unfold Room.close. by destruct (is_closed _).
Qed.

(** The turn of a command that a member outlives broadcasts one event at most. *)
Lemma emits_one a c p :
  actor_inv a -> stays p c -> is_Some (ac_members a !! p) -> (length (emits a c) <= 1)%nat.
Proof.
  intros Hinv Hs Hp%(ai_members _ Hinv). destruct c as [q n s|q t|q r|r]; cbn [emits].
  - by destruct (fst _) as [[|]|]; cbn; lia.
  - destruct (ac_members a !! q); [destruct (chat_ok t)|]; cbn; lia.
  - destruct (Room.try_leave (ac_room a) q) as [o room] eqn:El.
    destruct o as [[|]|]; [|cbn; lia..]. replace (member_count room =? 0)%nat with false; [by rewrite andb_false_r|].
    symmetry. apply (member_count_pos room p). revert El. unfold Room.try_leave.
    destruct (is_closed (ac_room a)); [done|]. intros [= _ <-]. cbn.
    apply list_elem_of_filter. split; [|done]. cbn in Hs. congruence.
  - unfold closing. destruct (is_closed _); cbn; lia.
Qed.

(** The state of a room in which [p] is a member with the sink of [m]. *)
Record life_ok (p : PlayerId) (m : Member) (l : RoomLife) : Prop := mkLifeOk {
  lo_actor : actor_inv (rl_actor l);
  lo_running : rl_running l = negb (ac_closed (rl_actor l));
  lo_member : ac_members (rl_actor l) !! p = Some m
}.

(** A turn of the actor, as a member sees it that stays. *)
Lemma turn_seen received a ss p m on a' ss' :
  actor_inv a -> ac_closed a = false -> ac_members a !! p = Some m -> keeps p (mb_sink m) (Receives received) ->
  run_turn received (a, ss) = (on, (a', ss')) ->
  actor_inv a' /\ on = negb (ac_closed a') /\ ac_members a' !! p = Some m /\
  rm_id (ac_room a') = rm_id (ac_room a) /\
  ss' !! mb_sink m = sink_send_all (turn_emits received a ss) <$> ss !! mb_sink m /\
  (length (turn_emits received a ss) <= 1)%nat /\
  if on then existsb is_close_event (turn_emits received a ss) = false
  else exists reason, turn_emits received a ss = [EvClosed (rm_id (ac_room a)) reason].
Proof.
  intros Hinv Hc Hp Hk Hx. unfold run_turn in Hx. destruct received as [c|]; cbn [turn_emits keeps] in *.
  - destruct Hk as [Hok Hs]. unfold io_bind, io_ret in Hx.
    destruct (handle c (a, ss)) as [[stop reply] [a1 ss1]] eqn:Eh.
    pose proof (handle_spec _ _ _ _ _ _ _ Hinv Hc Hok Eh) as (Hinv1 & Hstop & Hid & _).
    destruct (handle_effect _ _ _ _ _ _ Eh) as [-> Hms].
    destruct (member_stays a c p m Hinv Hp Hs) as [Hrec Hafter]. rewrite <- Hms in Hafter.
    destruct (deliver_lookup (receivers a c) (emits a c) ss (mb_sink m)
                (owner_distinct _ (receivers_owner a c Hinv Hok))) as [Hdel _].
    specialize (Hdel ltac:(by exists p, m)).
    pose proof (emits_one a c p Hinv Hs ltac:(eauto)) as Hone.
    pose proof (emits_close _ _ _ _ _ _ _ Hinv Hc Hok Eh) as Hem. destruct stop.
    + rewrite finish_eq in Hx. injection Hx as <- <- <-.
      assert (Hcl : is_closed (ac_room a1) = true) by (destruct Hinv1; congruence).
      unfold closing. rewrite Hcl, app_nil_r. unfold Room.close. rewrite Hcl. cbn [snd deliver foldl ac_members ac_closed ac_room].
      destruct Hem as (pre & reason & Hem & _). rewrite Hem, length_app in Hone. cbn in Hone.
      destruct pre as [|? pre]; [|cbn in Hone; lia].
      split_and!; try done; [|by rewrite Hem|by exists reason].
      destruct Hinv1. by constructor.
    + injection Hx as <- <- <-. rewrite app_nil_r. split_and!; try done. by rewrite <- Hstop.
  - unfold io_bind, io_ret in Hx. rewrite finish_eq in Hx. injection Hx as <- <- <-.
    destruct (deliver_lookup (ac_members a) (closing a (lit "房间通道已关闭")) ss (mb_sink m)
                (owner_distinct _ (ai_owner _ Hinv))) as [Hdel _].
    assert (Hop : is_closed (ac_room a) = false) by (destruct Hinv; congruence).
    unfold closing, Room.close in *. rewrite Hop in *. cbn [snd] in *.
    split_and!; try done; [|apply Hdel; by exists p, m|by eexists].
    destruct Hinv. by constructor.
Qed.

(** A move, as the member's sink sees it: an event is offered, one is taken, or nothing. *)
Lemma move_seen d l p m s :
  life_ok p m l -> keeps p (mb_sink m) d -> rl_sinks l !! mb_sink m = Some s ->
  let l' := snd (room_move d l) in
  life_ok p m l' /\ rm_id (ac_room (rl_actor l')) = rm_id (ac_room (rl_actor l)) /\
  (if rl_running l then
     if rl_running l' then existsb is_close_event (move_emits d l) = false
     else exists reason, move_emits d l = [EvClosed (rm_id (ac_room (rl_actor l))) reason]
   else rl_running l' = false /\ move_emits d l = []) /\
  ((exists e, (exists o, d = Receives o) /\ move_emits d l = [e] /\
      rl_read l' !! mb_sink m = rl_read l !! mb_sink m /\
      rl_sinks l' !! mb_sink m = Some (sink_try_send e s)) \/
   (move_emits d l = [] /\
    ((rl_read l' !! mb_sink m = rl_read l !! mb_sink m /\ rl_sinks l' !! mb_sink m = Some s) \/
     exists e tx, pop (sk_tx s) = Some (e, tx) /\
       rl_read l' !! mb_sink m = Some (default [] (rl_read l !! mb_sink m) ++ [e]) /\
       rl_sinks l' !! mb_sink m = Some (mkSink tx (sk_failed s))))).
Proof.
  intros Hl Hk Hs. pose proof Hl as [Hinv Hrun Hp].
  destruct d as [received|j|j]; cbn [room_move snd move_emits].
  - destruct (rl_running l) eqn:Er; [|rewrite Er; split_and!; try done; right; split; [done|by left]].
    symmetry in Hrun. apply negb_true_iff in Hrun.
    destruct (run_turn received _) as [on [a ss]] eqn:Et.
    apply (turn_seen received _ _ p m) in Et as (Hinv' & Hon & Hp' & Hid & Hss & Hone & Hcl); try done.
    cbn [rl_actor rl_running rl_sinks rl_read]. rewrite Hs in Hss. cbn in Hss.
    split; [by constructor|]. split; [done|]. split; [done|].
    destruct (turn_emits received _ _) as [|e [|? ?]]; [right; split; [done|by left]| |cbn in Hone; lia].
    left. exists e. split; [by eexists|]. done.
  - destruct (rl_sinks l !! j ≫= _) as [[e tx]|] eqn:Ej.
    + cbn [rl_actor rl_running rl_sinks rl_read].
      split; [by constructor|]. split; [done|]. split; [by destruct (rl_running l)|]. right. split; [done|].
      destruct (decide (j = mb_sink m)) as [->|Hne].
      * right. rewrite Hs in Ej. cbn in Ej. exists e, tx. rewrite lookup_insert_eq, lookup_alter_eq, Hs. done.
      * left. by rewrite lookup_insert_ne, lookup_alter_ne.
    + split; [by constructor|]. split; [done|]. split; [by destruct (rl_running l)|]. right. split; [done|by left].
  - cbn [rl_actor rl_running rl_sinks rl_read]. cbn in Hk.
    split; [by constructor|]. split; [done|]. split; [by destruct (rl_running l)|]. right. split; [done|].
    left. by rewrite lookup_alter_ne.
Qed.

Lemma run_cons d ds l : snd (run (d :: ds) l) = snd (run ds (snd (room_move d l))).
Proof. done. Qed.
Lemma run_snoc ds d l : snd (run (ds ++ [d]) l) = snd (room_move d (snd (run ds l))).
Proof. revert l. induction ds as [|d0 ds IH]; intros l; [done|]. cbn [app]. by rewrite !run_cons. Qed.
Lemma room_log_snoc ds d l : room_log (ds ++ [d]) l = room_log ds l ++ move_emits d (snd (run ds l)).
Proof.
  revert l. induction ds as [|d0 ds IH]; intros l; cbn [app room_log]; [by rewrite app_nil_r|].
  by rewrite run_cons, IH, app_assoc.
Qed.

(** What a sink has given its connection or still holds. *)
Definition heard (k : Z) (l : RoomLife) (s : Sink) : list RoomEvent :=
  default [] (rl_read l !! k) ++ items (sk_tx s).

(** The moment at which the sink [k] failed: its queue was full of events not yet taken, and
    up to there nothing had been missed. *)
Definition overflowed (k : Z) (l : RoomLife) (first : list RoomEvent) (ds : list RoomMove) : Prop :=
  exists ds1 received ds2 s1 e,
    ds = ds1 ++ Receives received :: ds2 /\ rl_sinks (snd (run ds1 l)) !! k = Some s1 /\
    sk_failed s1 = false /\ length (items (sk_tx s1)) = max_capacity (sk_tx s1) /\
    move_emits (Receives received) (snd (run ds1 l)) = [e] /\
    heard k (snd (run ds1 l)) s1 = first ++ room_log ds1 l.

Lemma overflowed_snoc k l first ds d : overflowed k l first ds -> overflowed k l first (ds ++ [d]).
Proof.
  intros (ds1 & o & ds2 & s1 & e & -> & H). exists ds1, o, (ds2 ++ [d]), s1, e. split; [|exact H].
  by rewrite <- app_assoc.
Qed.

(** The same by induction on the moves, with what is kept along the way. *)
Lemma life_run (l : RoomLife) (ds : list RoomMove) (p : PlayerId) (m : Member) (s : Sink)
  (Hlife : life_ok p m l) (Hopen : rl_running l = true) (Hkeeps : Forall (keeps p (mb_sink m)) ds)
  (Hs : rl_sinks l !! mb_sink m = Some s) (Hrx : rx_closed (sk_tx s) = false) (Hfine : sk_failed s = false)
  (Hcap : (length (items (sk_tx s)) <= max_capacity (sk_tx s))%nat) :
  life_ok p m (snd (run ds l)) /\
  rm_id (ac_room (rl_actor (snd (run ds l)))) = rm_id (ac_room (rl_actor l)) /\
  (if rl_running (snd (run ds l)) then existsb is_close_event (room_log ds l) = false
   else exists pre reason, room_log ds l = pre ++ [EvClosed (rm_id (ac_room (rl_actor l))) reason] /\
     existsb is_close_event pre = false) /\
  exists s', rl_sinks (snd (run ds l)) !! (mb_sink m) = Some s' /\ rx_closed (sk_tx s') = false /\
    max_capacity (sk_tx s') = max_capacity (sk_tx s) /\
    (length (items (sk_tx s')) <= max_capacity (sk_tx s'))%nat /\
    sublist (heard (mb_sink m) (snd (run ds l)) s') ((heard (mb_sink m) l s) ++ room_log ds l) /\
    if sk_failed s' then (length (heard (mb_sink m) (snd (run ds l)) s') < length ((heard (mb_sink m) l s) ++ room_log ds l))%nat /\
                         overflowed (mb_sink m) l (heard (mb_sink m) l s) ds
    else heard (mb_sink m) (snd (run ds l)) s' = (heard (mb_sink m) l s) ++ room_log ds l.
Proof.
  set (k := mb_sink m) in *. set (first := heard k l s).
  induction ds as [|d ds IH] using rev_ind.
  { cbn [run room_log snd io_ret]. rewrite Hopen, app_nil_r. split; [done|]. split; [done|]. split; [done|].
    exists s. by rewrite Hfine. }
  apply Forall_app in Hkeeps as [Hks [Hk _]%Forall_cons].
  destruct (IH Hks) as (Hl & Hid & Hcl & s1 & Hs1 & Hrx1 & Hm1 & Hle & Hsub & Hf).
  destruct (move_seen d _ p m s1 Hl Hk Hs1) as (Hl' & Hid' & Hcl' & Hseen).
  fold k in Hseen. rewrite run_snoc, room_log_snoc. set (l1 := snd (run ds l)) in *. set (l2 := snd (room_move d l1)) in *.
  split; [done|]. split; [congruence|]. split.
  { destruct (rl_running l1); [destruct (rl_running l2)|].
    - by rewrite existsb_app, Hcl, Hcl'.
    - destruct Hcl' as (reason & ->). exists (room_log ds l), reason. by rewrite <- Hid.
    - destruct Hcl' as (-> & ->). by rewrite app_nil_r. }
  destruct Hseen as [(e & [o ->] & He & Hrd & Hs2)|(He & [(Hrd & Hs2)|(e & tx & Hpop & Hrd & Hs2)])]; rewrite He.
  - exists (sink_try_send e s1). split; [done|].
    destruct (sink_try_send_cases e s1 Hrx1) as (Hm2 & Hrx2 & Hcase). split; [done|]. split; [congruence|].
    unfold heard in *. rewrite Hrd. rewrite !length_app in *. cbn [length] in *. case_decide as Hroom.
    + destruct Hcase as [-> ->]. rewrite Hm2, !length_app. cbn [length]. split; [lia|].
      rewrite !app_assoc in *. split; [by apply sublist_app|]. destruct (sk_failed s1).
      * split; [lia|]. destruct Hf as [_ Ho]. by apply overflowed_snoc.
      * by rewrite Hf.
    + destruct Hcase as [-> ->]. rewrite Hm2. split; [done|]. split; [rewrite app_assoc; by apply sublist_inserts_r|].
      split.
      * destruct (sk_failed s1); [lia|]. apply (f_equal length) in Hf. rewrite !length_app in Hf. lia.
      * destruct (sk_failed s1) eqn:Ef; [destruct Hf as [_ Ho]; by apply overflowed_snoc|].
        exists ds, o, [], s1, e. split_and!; [done|done|done|lia|done|exact Hf].
  - exists s1. rewrite app_nil_r. unfold heard in *. rewrite Hrd. split_and!; try done.
    destruct (sk_failed s1); [|done]. split; [apply Hf|]. by apply overflowed_snoc, Hf.
  - destruct (pop_cases _ _ Hpop) as [[? _]|(e' & r & tx' & [= <- <-] & Hi & Hi' & Hc & Hr)]; [done|].
    exists (mkSink tx (sk_failed s1)). cbn [sk_tx sk_failed]. rewrite app_nil_r.
    assert (Hh : heard k l2 (mkSink tx (sk_failed s1)) = heard k l1 s1).
    { unfold heard. cbn [sk_tx]. rewrite Hrd, Hi, Hi'. cbn. by rewrite <- app_assoc. }
    rewrite Hh, Hi', Hc. rewrite Hi in Hle. cbn in Hle. split_and!; try done; [congruence|lia|].
    destruct (sk_failed s1); [|done]. split; [apply Hf|]. by apply overflowed_snoc, Hf.
Qed.

(** C15: Every member sees the same history.  In the life of a room, in which the actor's
    turns and the relays of the connections interleave in any way, a member that does not
    leave and keeps its receiver gets events of the room's log only, each at most once and
    in the order of the log.  As long as its sink is not marked failed it has missed none:
    what its relay took and what its queue holds are together the log so far.  The sink is
    marked failed exactly if an event is missing, and it failed at a turn that found the
    queue full, before which nothing was missing.  The log holds the room's closing exactly
    once, at its end, when the actor has ended, and then the room is closed. *)
Theorem members_see_one_history (l : RoomLife) (ds : list RoomMove) (p : PlayerId) (m : Member) (s : Sink)
  (Hlife : life_ok p m l) (Hopen : rl_running l = true) (Hkeeps : Forall (keeps p (mb_sink m)) ds)
  (Hs : rl_sinks l !! mb_sink m = Some s) (Hrx : rx_closed (sk_tx s) = false) (Hfine : sk_failed s = false)
  (Hcap : (length (items (sk_tx s)) <= max_capacity (sk_tx s))%nat) :
  let l' := snd (run ds l) in
  let log := heard (mb_sink m) l s ++ room_log ds l in
  (exists s', rl_sinks l' !! mb_sink m = Some s' /\
     sublist (heard (mb_sink m) l' s') log /\
     (sk_failed s' = true <-> heard (mb_sink m) l' s' <> log) /\
     (sk_failed s' = true -> overflowed (mb_sink m) l (heard (mb_sink m) l s) ds)) /\
  if rl_running l' then existsb is_close_event (room_log ds l) = false
  else is_closed (ac_room (rl_actor l')) = true /\
    exists pre reason, room_log ds l = pre ++ [EvClosed (rm_id (ac_room (rl_actor l))) reason] /\
      existsb is_close_event pre = false.
Proof.
  cbv zeta. pose proof (life_run l ds p m s Hlife Hopen Hkeeps Hs Hrx Hfine Hcap) as H.
  set (k := mb_sink m) in *. set (first := heard k l s) in *.
  destruct H as (Hl & _ & Hcl & s' & Hs' & _ & _ & _ & Hsub & Hf). split.
  - exists s'. split; [done|]. split; [done|]. destruct (sk_failed s').
    + split; [|intros _; apply Hf]. split; [|done]. intros _ Heq. destruct Hf as [Hlt _]. rewrite Heq in Hlt. lia.
    + split; [|done]. split; [done|]. by intros [].
  - destruct (rl_running (snd (run ds l))) eqn:Er; [done|]. split; [|done]. destruct Hl as [[] Hrun _]. 
    rewrite <- ai_closed0. rewrite Er in Hrun. by destruct (ac_closed _).
Qed.
End Owner.
End Actor.
Arguments Sink : clear implicits.

(* ------------------------------------------------------------------ *)
(** ** Witnesses: a room of capacity two; sink [n] belongs to player [n] *)

Definition demo_sinks : gmap Z (Sink queue) :=
  <[1 := sink_new (chan 8)]> (<[2 := sink_new (chan 2)]> ∅).
Definition demo_room : Actor := actor_new (Room.open 9 2 0).
Definition demo_joined : (bool * option Reply) * (Actor * gmap Z (Sink queue)) :=
  handle (Join 1 (lit "a") 1) (demo_room, demo_sinks).
Definition demo_actor : Actor := fst (snd demo_joined).
Definition demo_sinks1 : gmap Z (Sink queue) := snd (snd demo_joined).

Lemma demo_reach : star (actor_step id) (demo_room, demo_sinks) (demo_actor, demo_sinks1).
Proof.
  eapply star_to; [apply star_refl| |].
  - apply (actor_handles id demo_room demo_sinks (Join 1 (lit "a") 1) (fst demo_joined)
             (snd demo_joined)); reflexivity.
  - reflexivity.
Qed.

Lemma actor_serves_correctly_witness :
  let out := handle (Join 2 (lit "b") 2) (demo_actor, demo_sinks1) in
  fst (fst out) = false /\ snd (fst out) = Some (JoinReply (Ok tt)) /\
  handle_post id demo_actor (Join 2 (lit "b") 2) false (Some (JoinReply (Ok tt))) (fst (snd out)).
Proof.
  intros out. split; [vm_compute; reflexivity|]. split; [vm_compute; reflexivity|].
  refine (proj2 (proj2 (proj2 (actor_serves_correctly id 9 2 0 demo_sinks demo_sinks1 (snd (snd out))
    demo_actor (fst (snd out)) (Join 2 (lit "b") 2) false (Some (JoinReply (Ok tt)))
    demo_reach eq_refl eq_refl _)))).
  vm_compute. reflexivity.
Defined.

Lemma demo_actor_inv : actor_inv id demo_actor.
Proof.
  assert (Hp : handle_post id demo_room (Join 1 (lit "a") 1) false (Some (JoinReply (Ok tt))) demo_actor).
  { apply (handle_spec id demo_room demo_sinks (Join 1 (lit "a") 1) _ _ demo_actor demo_sinks1
             (actor_new_inv id 9 2 0)); reflexivity. }
  apply Hp.
Qed.

(** Player 1 takes its own joining from its queue of one place in time to hear player 2 join,
    is too slow for the chat line, and hears the closing: the line is missing and its sink
    has failed.  Player 2, with room for three events, misses nothing. *)
Definition demo_life : RoomLife :=
  mkLife demo_actor (<[2 := sink_new (chan 3)]> (<[1 := mkSink (mkQueue [MemberJoined 9 1 (lit "a")] 1 false) false]> ∅)) ∅ true.
Definition demo_moves : list RoomMove :=
  [Takes 1; Receives (Some (Join 2 (lit "b") 2)); Receives (Some (Chat 2 (lit " hi "))); Takes 1;
   Receives (Some (Close (lit "bye")))].

Lemma members_see_one_history_witness :
  let l' := snd (run demo_moves demo_life) in
  room_log demo_moves demo_life = [MemberJoined 9 2 (lit "b"); EvChat 9 2 (lit "b") (lit "hi"); EvClosed 9 (lit "bye")] /\
  exists s', rl_sinks l' !! 1 = Some s' /\
    heard 1 l' s' = [MemberJoined 9 1 (lit "a"); MemberJoined 9 2 (lit "b"); EvClosed 9 (lit "bye")] /\
    sk_failed s' = true /\ is_closed (ac_room (rl_actor l')) = true.
Proof.
  intros l'. split; [vm_compute; reflexivity|].
  assert (Hrun : rl_running l' = false) by (vm_compute; reflexivity).
  destruct (members_see_one_history id demo_life demo_moves 1 (mkMember (lit "a") 1)
    (mkSink (mkQueue [MemberJoined 9 1 (lit "a")] 1 false) false)) as [(s' & Hs & _ & Hf & _) Hend].
  - constructor; [exact demo_actor_inv|reflexivity|vm_compute; reflexivity].
  - reflexivity.
  - repeat constructor; cbn; lia.
  - vm_compute. reflexivity.
  - reflexivity.
  - reflexivity.
  - simpl. lia.
  - fold l' in Hs, Hf, Hend. rewrite Hrun in Hend. exists s'. split; [exact Hs|].
    assert (He : exists s0, rl_sinks l' !! 1 = Some s0 /\ heard 1 l' s0 =
      [MemberJoined 9 1 (lit "a"); MemberJoined 9 2 (lit "b"); EvClosed 9 (lit "bye")])
      by (vm_compute; eexists; split; reflexivity).
    destruct He as (s0 & Hs0 & Hh). change (rl_sinks l' !! 1 = Some s') in Hs. rewrite Hs in Hs0.
    injection Hs0 as <-. split; [exact Hh|]. split; [|apply Hend]. apply Hf. cbn [mb_sink]. rewrite Hh. vm_compute. discriminate.
Defined.
