(* ===== verification/RoomService.v ===== *)
(** The room service ([application/src/room/service.rs]): the registry of room
    actors, creation, joining, chat, leaving, disconnect clean-up and shutdown.

    The state holds the registry, every actor with its command queue, the store of
    event sinks and the event publisher.  A chat is only queued; an actor takes its
    commands in order when a caller awaits a reply from it, or in an [actor_turn]
    at any other time.  A blocking send lets the actor make room.  Fresh
    identifiers and clock readings are arguments. *)
From S2P Require Import Prelude Text Tokio Values Room Session App RoomActor.
From Stdlib Require Import Strings.String.
Open Scope Z_scope.
Open Scope list_scope.
Abbreviation length := Datatypes.length.

Section Service.
Context {Q : Type -> Type} `{HQ : Mpsc Q} {E : Type} `{HE : EventPublisher E}.

(** A spawned actor: its state, its command channel, whether the task ended. *)
Record ActorTask := mkTask { at_actor : Actor; at_queue : Q RoomCommand; at_stopped : bool }.

Record Rooms := mkRooms {
  registry : gset Z;
  tasks : gmap Z ActorTask;
  sinks : gmap Z (Sink Q);
  publisher : E
}.

Record RoomServiceConfig := mkServiceConfig { command_capacity : nat; max_players : Z }.

(** [RoomService::new] *)
Definition service_new (e : E) (ss : gmap Z (Sink Q)) : Rooms := mkRooms ∅ ∅ ss e.

Definition set_task (r : RoomId) (t : ActorTask) (w : Rooms) : Rooms :=
  mkRooms (registry w) (<[r := t]> (tasks w)) (sinks w) (publisher w).

(* ------------------------------------------------------------------ *)
(** ** The actor task *)

(** The loop of [RoomActor::run] on queued commands: the answer to the last
    one, and whether the loop ended. *)
Fixpoint serve (cs : list RoomCommand) : io (Actor * gmap Z (Sink Q)) (bool * option Reply) :=
  match cs with
  | [] => io_ret (false, None)
  | [c] => handle c
  | c :: cs' =>
      let* (stop, _) := handle c in
      if stop then io_ret (true, None) else serve cs'
  end.

(** The queue without its messages. *)
Fixpoint pop_all (n : nat) (q : Q RoomCommand) : Q RoomCommand :=
  match n with
  | O => q
  | S n' => match pop q with Some (_, q') => pop_all n' q' | None => q end
  end.

(** The task runs until its queue is empty or it ends; at its end it closes the
    room once more ([finish] in [run]) and drops the receiver. *)
Definition actor_turn (r : RoomId) : io Rooms (option Reply) :=
  fun w =>
    match tasks w !! r with
    | None => (None, w)
    | Some t =>
        if at_stopped t then (None, w) else
        let cs := items (at_queue t) in
        let '((stop, reply), (a, ss)) := serve cs (at_actor t, sinks w) in
        let '(a, ss) := if stop then snd (finish (lit "房间通道已关闭") (a, ss)) else (a, ss) in
        let q := if stop then drop_rx (at_queue t) else pop_all (length cs) (at_queue t) in
        (reply, mkRooms (registry w) (<[r := mkTask a q stop]> (tasks w)) ss (publisher w))
    end.

(** [RoomActor::spawn] *)
Definition spawn (room : Room) (cap : nat) : io Rooms RoomId :=
  fun w => (rm_id room, set_task (rm_id room) (mkTask (actor_new room) (chan cap) false) w).

(** [RoomHandle::is_closed] *)
Definition handle_is_closed (w : Rooms) (r : RoomId) : bool :=
  match tasks w !! r with Some t => ac_closed (at_actor t) | None => true end.

(** [RoomHandle::try_send] *)
Definition handle_try_send (r : RoomId) (c : RoomCommand) : io Rooms (result unit AppError) :=
  fun w =>
    match tasks w !! r with
    | None => (Err (NotFound (lit "房间不存在")), w)
    | Some t =>
        match try_send (at_queue t) c with
        | (Sent, q) => (Ok tt, set_task r (mkTask (at_actor t) q (at_stopped t)) w)
        | (Full, _) => (Err Busy, w)
        | (ChanClosed, _) => (Err (NotFound (lit "房间不存在")), w)
        end
    end.

(** [RoomHandle::send]: a full queue is waited for. *)
Definition handle_send (r : RoomId) (c : RoomCommand) : io Rooms (result unit AppError) :=
  let* first := handle_try_send r c in
  match first with
  | Err Busy => let* _ := actor_turn r in handle_try_send r c
  | _ => io_ret first
  end.

(* ------------------------------------------------------------------ *)
(** ** The service *)

Definition registry_remove (r : RoomId) : io Rooms unit :=
  fun w => (tt, mkRooms (registry w ∖ {[r]}) (tasks w) (sinks w) (publisher w)).
Definition registry_insert (r : RoomId) : io Rooms unit :=
  fun w => (tt, mkRooms ({[r]} ∪ registry w) (tasks w) (sinks w) (publisher w)).

Definition handle_for (r : RoomId) : io Rooms (option RoomId) :=
  fun w =>
    if decide (r ∈ registry w) then
      if handle_is_closed w r then (None, snd (registry_remove r w)) else (Some r, w)
    else (None, w).

Definition live_handles : io Rooms (list RoomId) :=
  fun w =>
    let kept := filter (fun r => handle_is_closed w r = false) (registry w) in
    (elements kept, mkRooms kept (tasks w) (sinks w) (publisher w)).

(** [publish]: a failure is only logged. *)
Definition publish_event (e : DomainEvent) : io Rooms unit :=
  fun w => let '(_, p) := publish e (publisher w) in
           (tt, mkRooms (registry w) (tasks w) (sinks w) p).

Definition no_room : AppError := NotFound (lit "房间不存在").

Definition join (room_id : RoomId) (player_id : PlayerId) (nickname : rstr) (sink : Z) (now : DateTime)
  : io Rooms (result unit AppError) :=
  let* o := handle_for room_id in
  await? h := io_lift (ok_or no_room o) in
  await? _ := handle_send h (Join player_id nickname sink) in
  let* reply := actor_turn h in
  await? _ := io_lift (match reply with
                       | Some (JoinReply r) => r
                       | _ => Err (Internal (lit "房间已关闭,加入结果未知"))
                       end) in
  let* _ := publish_event (PlayerJoinedRoom room_id player_id now) in
  io_ret (Ok tt).

Definition create_and_join (config : RoomServiceConfig) (new_id : RoomId) (player_id : PlayerId)
    (nickname : rstr) (sink : Z) (now1 now2 : DateTime) : io Rooms (result RoomId AppError) :=
  let* room_id := spawn (Room.open new_id (max_players config) now1) (command_capacity config) in
  let* _ := registry_insert room_id in
  let* r := join room_id player_id nickname sink now2 in
  match r with
  | Err err => let* _ := registry_remove room_id in io_ret (Err err)
  | Ok _ => io_ret (Ok room_id)
  end.

Definition join_or_create (config : RoomServiceConfig) (room_id : option RoomId) (new_id : RoomId)
    (player_id : PlayerId) (nickname : rstr) (sink : Z) (now1 now2 : DateTime)
  : io Rooms (result RoomId AppError) :=
  match room_id with
  | Some id => await? _ := join id player_id nickname sink now2 in io_ret (Ok id)
  | None => create_and_join config new_id player_id nickname sink now1 now2
  end.

Definition chat (room_id : RoomId) (player_id : PlayerId) (text : rstr)
  : io Rooms (result unit AppError) :=
  let trimmed := trim text in
  if is_empty trimmed then io_ret (Err (Validation (lit "聊天内容不能为空")))
  else if (MAX_CHAT_CHARS <? length trimmed)%nat then
    io_ret (Err (Validation (lit "聊天内容不能超过 " ++ show_u (Z.of_nat MAX_CHAT_CHARS) ++ lit " 字")))
  else
    let* o := handle_for room_id in
    await? h := io_lift (ok_or no_room o) in
    handle_try_send h (Chat player_id trimmed).

Definition leave (room_id : RoomId) (player_id : PlayerId) (reason : rstr) (now : DateTime)
  : io Rooms (result unit AppError) :=
  let* o := handle_for room_id in
  match o with
  | None => io_ret (Ok tt)
  | Some h =>
      let* sent := handle_send h (Leave player_id reason) in
      match sent with
      | Err err => fun w =>
          if handle_is_closed w h then (let* _ := registry_remove room_id in io_ret (Ok tt)) w
          else (Err err, w)
      | Ok _ =>
          let* reply := actor_turn h in
          fun w =>
            let closed := handle_is_closed w h in
            (await? did_leave := io_lift (match reply with
                                     | Some (LeaveReply r) => r
                                     | _ => if closed then Ok false
                                            else Err (Internal (lit "离房操作未完成"))
                                     end) in
             let* _ := (if closed then registry_remove room_id else io_ret tt) in
             if negb did_leave then io_ret (Ok tt)
             else let* _ := publish_event (PlayerLeftRoom room_id player_id reason now) in
                  io_ret (Ok tt)) w
      end
  end.

(** The loop of [leave_all]. *)
Fixpoint leave_each (hs : list RoomId) (player_id : PlayerId) (reason : rstr) (now : DateTime)
  : io Rooms (result unit AppError) :=
  match hs with
  | [] => io_ret (Ok tt)
  | h :: hs' =>
      await? _ := leave h player_id reason now in leave_each hs' player_id reason now
  end.

Definition leave_all (player_id : PlayerId) (reason : rstr) (now : DateTime)
  : io Rooms (result unit AppError) :=
  let* hs := live_handles in leave_each hs player_id reason now.

(** The loop of [close_all]; a failed send is only logged. *)
Fixpoint close_each (hs : list RoomId) (reason : rstr) : io Rooms unit :=
  match hs with
  | [] => io_ret tt
  | h :: hs' => let* _ := handle_send h (Close reason) in close_each hs' reason
  end.

Definition close_all (reason : rstr) : io Rooms (result unit AppError) :=
  fun w =>
    let hs := elements (registry w) in
    (let* _ := close_each hs reason in io_ret (Ok tt))
      (mkRooms ∅ (tasks w) (sinks w) (publisher w)).

Definition active_rooms (w : Rooms) : nat := size (registry w).


(* ------------------------------------------------------------------ *)
(** ** Invariant *)

Section Owner.
Variable owner : Z -> PlayerId.

Record task_ok (r : RoomId) (t : ActorTask) : Prop := mkTaskOk {
  tk_actor : actor_inv owner (at_actor t);
  tk_id : rm_id (ac_room (at_actor t)) = r;
  tk_stopped : at_stopped t = ac_closed (at_actor t);
  tk_rx : rx_closed (at_queue t) = at_stopped t;
  tk_cmds : Forall (cmd_ok owner) (items (at_queue t));
  tk_cap : (1 <= max_capacity (at_queue t))%nat
}.

Record rooms_inv (w : Rooms) : Prop := mkRoomsInv {
  ri_tasks : forall r t, tasks w !! r = Some t -> task_ok r t;
  ri_registry : forall r, r ∈ registry w -> is_Some (tasks w !! r)
}.

(** A step that concerns only room [r]. *)
Definition touches (r : RoomId) (w w' : Rooms) : Prop :=
  registry w' = registry w /\ publisher w' = publisher w /\
  forall r', r' <> r -> tasks w' !! r' = tasks w !! r'.

Lemma touches_refl r w : touches r w w.
Proof. by unfold touches. Qed.
Lemma touches_trans r w1 w2 w3 : touches r w1 w2 -> touches r w2 w3 -> touches r w1 w3.
Proof.
  intros (? & ? & H1) (? & ? & H2). unfold touches. split_and!; try congruence.
  intros r' Hr. by rewrite H2, H1.
Qed.

Lemma rooms_inv_update r t w w' :
  rooms_inv w -> registry w' = registry w -> tasks w' = <[r := t]> (tasks w) -> task_ok r t ->
  rooms_inv w'.
Proof.
  intros [] Hr Ht Hok. constructor; rewrite ?Hr, ?Ht.
  - intros q u [[<- <-]|[_ Hq]]%lookup_insert_Some; auto.
  - intros q Hq%ri_registry0. rewrite lookup_insert_is_Some'. auto.
Qed.

Lemma finish_again reason (a : Actor) ss :
  actor_inv owner a -> ac_closed a = true ->
  finish reason (a, ss) = (tt, (a, (ss : gmap Z (Sink Q)))).
Proof.
  intros Hi Hc. rewrite finish_eq. unfold closing, Room.close.
  rewrite <- (ai_closed owner a Hi), Hc. destruct a. simpl in *. by subst.
Qed.

Lemma pop_all_spec n : forall q : Q RoomCommand,
  length (items q) = n ->
  items (pop_all n q) = [] /\ max_capacity (pop_all n q) = max_capacity q /\
  rx_closed (pop_all n q) = rx_closed q.
Proof.
  induction n as [|n IH]; intros q Hn; simpl; [by apply nil_length_inv in Hn|].
  destruct (pop_cases q _ eq_refl) as [[_ Hi]|(c & l & q' & Hp & Hi & Hi' & Hm & Hx)].
  { rewrite Hi in Hn. done. }
  rewrite Hp. rewrite Hi in Hn. simpl in Hn.
  destruct (IH q') as (? & ? & ?); [rewrite Hi'; lia|]. split_and!; congruence.
Qed.

(** How the actor leaves a queue of commands: its state is sound, it asked to
    stop exactly when the room closed, and the last command was answered from a
    sound state unless the actor stopped before it. *)
Lemma serve_spec cs : forall a ss stop reply a' ss',
  actor_inv owner a -> ac_closed a = false -> Forall (cmd_ok owner) cs ->
  serve cs (a, ss) = ((stop, reply), (a', ss')) ->
  actor_inv owner a' /\ stop = ac_closed a' /\ rm_id (ac_room a') = rm_id (ac_room a) /\
  forall pre c, cs = pre ++ [c] ->
    (stop = true /\ reply = None) \/ exists a1, handle_post owner a1 c stop reply a'.
Proof.
  induction cs as [|c cs IH]; intros a ss stop reply a' ss' Hinv Hc Hok Hs.
  { injection Hs as <- <- <- <-. split_and!; try done. intros pre c Hpre. by destruct pre. }
  inversion Hok as [|? ? Hc1 Hok']; subst. destruct cs as [|c2 cs].
  - cbn [serve] in Hs. pose proof (handle_spec owner _ _ _ _ _ _ _ Hinv Hc Hc1 Hs) as Hpost.
    pose proof Hpost as (? & ? & ? & _). do 3 (split; [done|]). intros pre d Hpre.
    destruct pre as [|? [|]]; simplify_eq/=. right. by exists a.
  - cbn [serve] in Hs. unfold io_bind in Hs.
    destruct (handle c (a, ss)) as [[st rp] [a1 ss1]] eqn:Eh.
    pose proof (handle_spec owner _ _ _ _ _ _ _ Hinv Hc Hc1 Eh) as (Hinv1 & Hst & Hid & _).
    destruct st.
    + injection Hs as <- <- <- <-. split_and!; try done. auto.
    + destruct (IH _ _ _ _ _ _ Hinv1 (eq_sym Hst) Hok' Hs) as (? & ? & ? & Hlast).
      split_and!; try congruence; try done. intros pre d Hpre.
      destruct pre as [|? pre]; simplify_eq/=. by apply (Hlast pre d).
Qed.

Lemma actor_turn_spec r w t reply w' :
  rooms_inv w -> tasks w !! r = Some t -> at_stopped t = false ->
  actor_turn r w = (reply, w') ->
  rooms_inv w' /\ touches r w w' /\
  exists t', tasks w' !! r = Some t' /\ items (at_queue t') = [] /\
    forall pre c, items (at_queue t) = pre ++ [c] ->
      (at_stopped t' = true /\ reply = None) \/
      exists a1, handle_post owner a1 c (at_stopped t') reply (at_actor t').
Proof.
  intros Hinv Ht Hst Hx. unfold actor_turn in Hx. rewrite Ht, Hst in Hx.
  destruct (ri_tasks w Hinv r t Ht) as [Ha Hid Hs Hrx Hcm Hcap]. rewrite Hst in Hs.
  destruct (serve _ _) as [[stop rp] [a ss]] eqn:Es.
  apply serve_spec in Es as (Ha' & Hstop & Hid' & Hlast); [|done|done|done].
  assert (Hfin : (if stop then snd (finish (lit "房间通道已关闭") (a, ss)) else (a, ss)) = (a, ss)).
  { destruct stop; [|done]. by rewrite finish_again. }
  rewrite Hfin in Hx. injection Hx as <- <-.
  set (q := if stop then _ else _).
  assert (Hq : items q = [] /\ max_capacity q = max_capacity (at_queue t) /\ rx_closed q = stop).
  { unfold q. destruct stop; [by apply drop_rx_spec|].
    destruct (pop_all_spec _ (at_queue t) eq_refl) as (? & ? & ?). split_and!; congruence. }
  destruct Hq as (Hqi & Hqm & Hqr).
  assert (Hok : task_ok r (mkTask a q stop)).
  { constructor; simpl; try done; [congruence|by rewrite Hqi; constructor|by rewrite Hqm]. }
  split_and!.
  - by eapply rooms_inv_update.
  - unfold touches. simpl. split_and!; try done. intros r' Hr. by rewrite lookup_insert_ne.
  - exists (mkTask a q stop). simpl. rewrite lookup_insert_eq. split_and!; try done.
Qed.

(** Queueing a command. *)
Lemma handle_try_send_spec r c w t res w' :
  rooms_inv w -> cmd_ok owner c -> tasks w !! r = Some t ->
  handle_try_send r c w = (res, w') ->
  rooms_inv w' /\ touches r w w' /\
  ((at_stopped t = true /\ res = Err no_room /\ w' = w) \/
   (at_stopped t = false /\ res = Err Busy /\ w' = w /\ items (at_queue t) <> []) \/
   (at_stopped t = false /\ res = Ok tt /\
    exists t', tasks w' !! r = Some t' /\ at_stopped t' = false /\ at_actor t' = at_actor t /\
               items (at_queue t') = items (at_queue t) ++ [c])).
Proof.
  intros Hinv Hok Ht Hx. unfold handle_try_send in Hx. rewrite Ht in Hx.
  destruct (ri_tasks w Hinv r t Ht) as [Ha Hid Hs Hrx Hcm Hcap].
  destruct (try_send (at_queue t) c) as [o q] eqn:Es.
  apply try_send_cases in Es as [(-> & Hr & Hl & Hi & Hm & Hr')|[(-> & Hr & Hl & ->)|(-> & Hr & ->)]];
    injection Hx as <- <-.
  - split; [eapply rooms_inv_update; [done|done|reflexivity|]|].
    { constructor; simpl; try done; [congruence| |by rewrite Hm].
      rewrite Hi. apply Forall_app. by repeat constructor. }
    split.
    { unfold touches. simpl. split_and!; try done. intros r' Hne. by rewrite lookup_insert_ne. }
    right; right. split; [congruence|]. split; [done|]. eexists. simpl.
    rewrite lookup_insert_eq. split_and!; try done. simpl. congruence.
  - split; [done|]. split; [apply touches_refl|]. right; left. split_and!; try done; [congruence|].
    intros Hnil. rewrite Hnil in Hl. simpl in Hl. lia.
  - split; [done|]. split; [apply touches_refl|]. left. split_and!; try done. congruence.
Qed.

Lemma handle_send_spec r c w t res w' :
  rooms_inv w -> cmd_ok owner c -> tasks w !! r = Some t -> at_stopped t = false ->
  handle_send r c w = (res, w') ->
  rooms_inv w' /\ touches r w w' /\
  exists t', tasks w' !! r = Some t' /\
    ((at_stopped t' = true /\ res = Err no_room) \/
     (at_stopped t' = false /\ res = Ok tt /\ exists pre, items (at_queue t') = pre ++ [c])).
Proof.
  intros Hinv Hok Ht Hst Hx. unfold handle_send in Hx.
  apply io_bind_inv in Hx as (r1 & w1 & H1 & Hx).
  apply (handle_try_send_spec r c w t) in H1 as
    (Hinv1 & Ht1 & [(? & _)|[(_ & -> & -> & Hne)|(_ & -> & t1 & Ht1' & Hst1 & _ & Hi1)]]); try done.
  - congruence.
  - apply io_bind_inv in Hx as (rp & w2 & H2 & Hx).
    apply (actor_turn_spec r w t) in H2 as (Hinv2 & Hto2 & t2 & Ht2 & Hi2 & _); try done.
    apply (handle_try_send_spec r c w2 t2) in Hx as
      (Hinv3 & Hto3 & [(Hs3 & -> & ->)|[(_ & _ & _ & Hne2)|(_ & -> & t3 & Ht3 & Hs3 & _ & Hi3)]]); try done.
    + split; [done|]. split; [done|]. exists t2. auto.
    + split; [done|]. split; [by eapply touches_trans|]. exists t3. eauto 10.
  - apply io_ret_inv in Hx as [<- <-]. split; [done|]. split; [done|]. exists t1. eauto 10.
Qed.

Lemma handle_for_spec r w o w' :
  rooms_inv w -> handle_for r w = (o, w') ->
  rooms_inv w' /\ tasks w' = tasks w /\ sinks w' = sinks w /\ publisher w' = publisher w /\
  match o with
  | Some h => h = r /\ w' = w /\ r ∈ registry w /\
              exists t, tasks w !! r = Some t /\ at_stopped t = false
  | None => registry w' = registry w ∖ {[r]}
  end.
Proof.
  intros Hinv. unfold handle_for. case_decide as Hin.
  - unfold handle_is_closed. destruct (ri_registry w Hinv r Hin) as [t Ht]. rewrite Ht.
    destruct (ri_tasks w Hinv r t Ht) as [_ _ Hs _ _ _]. rewrite <- Hs.
    destruct (at_stopped t) eqn:Est; intros [= <- <-]; simpl.
    + split_and!; try done. destruct Hinv. constructor; simpl; [done|].
      intros q Hq. apply ri_registry0. set_solver.
    + split_and!; eauto.
  - intros [= <- <-]. split_and!; try done. set_solver.
Qed.

(** The members of a registered room; an ended room has none that count. *)
Definition in_room (w : Rooms) (r : RoomId) (p : PlayerId) : Prop :=
  r ∈ registry w /\ exists t, tasks w !! r = Some t /\ p ∈ rm_members (ac_room (at_actor t)).

Lemma rooms_inv_frame w w' :
  rooms_inv w -> tasks w' = tasks w -> registry w' ⊆ registry w -> rooms_inv w'.
Proof.
  intros [] Ht Hr. constructor; rewrite Ht; [done|]. intros r Hin. apply ri_registry0. set_solver.
Qed.

Lemma publish_event_inv e w x w' :
  publish_event e w = (x, w') -> registry w' = registry w /\ tasks w' = tasks w /\ sinks w' = sinks w.
Proof. unfold publish_event. destruct (publish e (publisher w)). by intros [= <- <-]. Qed.

(** Only room [r] is concerned, possibly losing its registration. *)
Definition confined (r : RoomId) (w w' : Rooms) : Prop :=
  registry w' ⊆ registry w /\
  forall r', r' <> r -> tasks w' !! r' = tasks w !! r' /\ (r' ∈ registry w <-> r' ∈ registry w').

Lemma touches_confined r w w' : touches r w w' -> confined r w w'.
Proof. intros (Hr & _ & Ht). split; rewrite Hr; [done|]. auto. Qed.

Lemma confined_remove r w w' w2 :
  confined r w w' -> tasks w2 = tasks w' -> registry w2 = registry w' ∖ {[r]} -> confined r w w2.
Proof.
  intros [Hs Hc] Ht Hr. split; rewrite Hr; [set_solver|]. intros r' Hne. rewrite Ht.
  destruct (Hc r' Hne). set_solver.
Qed.

Lemma confined_same r w w' w2 :
  confined r w w' -> tasks w2 = tasks w' -> registry w2 = registry w' -> confined r w w2.
Proof. unfold confined. by intros ? -> ->. Qed.

(** The end of [leave], once the actor has answered [b]. *)
Lemma leave_end r p reason now (closed b : bool) w res w' :
  (await? did_leave := io_lift (Ok b) in
   let* _ := (if closed then registry_remove r else io_ret tt) in
   if negb did_leave then io_ret (Ok tt)
   else let* _ := publish_event (PlayerLeftRoom r p reason now) in io_ret (Ok tt)) w
  = ((res : result unit AppError), w') ->
  res = Ok tt /\ tasks w' = tasks w /\
  registry w' = if closed then registry w ∖ {[r]} else registry w.
Proof.
  unfold io_try, io_lift, io_ret, io_bind, registry_remove, publish_event.
  destruct closed, b; simpl; try (by intros [= <- <-]);
    destruct (publish _ _); by intros [= <- <-].
Qed.

Lemma leave_spec r p reason now w res w' :
  rooms_inv w -> leave r p reason now w = (res, w') ->
  rooms_inv w' /\ res = Ok tt /\ confined r w w' /\ ~ in_room w' r p.
Proof.
  intros Hinv Hx. unfold leave in Hx. apply io_bind_inv in Hx as (o & w1 & Hf & Hx).
  apply handle_for_spec in Hf as (Hinv1 & Ht1 & _ & _ & Ho); [|done].
  destruct o as [h|].
  2: { apply io_ret_inv in Hx as [<- <-]. split_and!; try done.
       - eapply (confined_remove r w w w1); [apply touches_confined, touches_refl|done|done].
       - intros [Hin _]. set_solver. }
  destruct Ho as (-> & -> & Hin & t & Ht & Hst).
  apply io_bind_inv in Hx as (sent & w2 & Hs & Hx).
  apply (handle_send_spec r (Leave p reason) w t) in Hs
    as (Hinv2 & Hto & t2 & Ht2 & [(Hst2 & ->)|(Hst2 & -> & pre & Hi)]); try done.
  { unfold handle_is_closed in Hx. rewrite Ht2 in Hx.
    rewrite <- (tk_stopped _ _ (ri_tasks _ Hinv2 _ _ Ht2)), Hst2 in Hx. injection Hx as <- <-.
    split; [by eapply rooms_inv_frame; [done|..|simpl; set_solver]|]. split; [done|].
    split; [by eapply confined_remove; [apply touches_confined; done|..]|].
    intros [Hr _]. simpl in Hr. set_solver. }
  apply io_bind_inv in Hx as (reply & w3 & Ha & Hx).
  apply (actor_turn_spec r w2 t2) in Ha as (Hinv3 & Hto3 & t3 & Ht3 & _ & Hlast); try done.
  pose proof (touches_confined _ _ _ (touches_trans _ _ _ _ Hto Hto3)) as Hconf.
  unfold handle_is_closed in Hx. rewrite Ht3 in Hx.
  rewrite <- (tk_stopped _ _ (ri_tasks _ Hinv3 _ _ Ht3)) in Hx.
  assert (Hend : res = Ok tt /\ tasks w' = tasks w3 /\
    registry w' = (if at_stopped t3 then registry w3 ∖ {[r]} else registry w3) /\
    (at_stopped t3 = false -> p ∉ rm_members (ac_room (at_actor t3)))).
  { destruct (Hlast _ _ Hi) as [[Hst3 ->]|(a1 & _ & _ & _ & _ & Hrep)].
    - rewrite Hst3 in Hx. apply (leave_end r p reason now true false) in Hx as (? & ? & ?). rewrite Hst3. by split_and!.
    - unfold reply_spec in Hrep. destruct reply as [[|rr]|]; try done. destruct Hrep as [-> Hout].
      apply leave_end in Hx as (? & ? & ?). by split_and!. }
  destruct Hend as (-> & Ht' & Hr' & Hout).
  split; [eapply rooms_inv_frame; [done..|]; rewrite Hr'; destruct (at_stopped t3); set_solver|].
  split; [done|]. destruct (at_stopped t3) eqn:Est3.
  - split; [by eapply confined_remove|]. intros [Hr _]. set_solver.
  - split; [by eapply confined_same|]. intros [_ (t4 & Ht4 & Hp)].
    rewrite Ht', Ht3 in Ht4. simplify_eq. by apply Hout.
Qed.

Lemma confined_in_room r w w' r' p :
  confined r w w' -> r' <> r -> in_room w' r' p -> in_room w r' p.
Proof.
  intros [Hs Hc] Hne [Hr (t & Ht & Hp)]. destruct (Hc r' Hne) as [Heq Hreg].
  rewrite Heq in Ht. split; [set_solver|eauto].
Qed.

Lemma leave_each_spec hs p reason now : forall w res w',
  rooms_inv w -> leave_each hs p reason now w = (res, w') ->
  rooms_inv w' /\ res = Ok tt /\ registry w' ⊆ registry w /\
  (forall r, r ∈ hs -> ~ in_room w' r p) /\ (forall r, in_room w' r p -> in_room w r p).
Proof.
  induction hs as [|h hs IH]; intros w res w' Hinv Hx; cbn [leave_each] in Hx.
  - apply io_ret_inv in Hx as [<- <-]. split_and!; try done. intros r Hr. by apply not_elem_of_nil in Hr.
  - apply io_try_inv in Hx as [(x & w1 & Hl & Hx)|(e & Hl & ->)];
      apply leave_spec in Hl as (Hinv1 & Hres & Hconf & Hout); try done.
    apply IH in Hx as (Hinv2 & -> & Hsub & Hdone & Hback); [|done].
    assert (Hnot : ~ in_room w' h p) by (intros ?%Hback; done).
    split_and!; try done.
    + etrans; [done|apply Hconf].
    + intros r [->|Hr]%elem_of_cons; auto.
    + intros r Hr. destruct (decide (r = h)) as [->|Hne]; [done|].
      eapply confined_in_room; eauto.
Qed.

(** [leave] takes a room out of the registry exactly when the room has closed. *)
Lemma leave_registry r p reason now w res w' :
  rooms_inv w -> leave r p reason now w = (res, w') ->
  registry w' = if handle_is_closed w' r then registry w ∖ {[r]} else registry w.
Proof.
  intros Hinv Hx. unfold leave in Hx. apply io_bind_inv in Hx as (o & w1 & Hf & Hx).
  pose proof Hf as Hf'. apply handle_for_spec in Hf as (Hinv1 & Ht1 & _ & _ & Ho); [|done].
  destruct o as [h|].
  2: { apply io_ret_inv in Hx as [<- <-]. unfold handle_for in Hf'.
       assert (handle_is_closed w1 r = handle_is_closed w r) as -> by (unfold handle_is_closed; by rewrite Ht1).
       rewrite Ho. destruct (handle_is_closed w r) eqn:Ec; [done|]. case_decide; [done|]. set_solver. }
  destruct Ho as (-> & -> & Hin & t & Ht & Hst).
  apply io_bind_inv in Hx as (sent & w2 & Hs & Hx).
  apply (handle_send_spec r (Leave p reason) w t) in Hs
    as (Hinv2 & Hto & t2 & Ht2 & [(Hst2 & ->)|(Hst2 & -> & pre & Hi)]); try done.
  - unfold handle_is_closed in *. rewrite Ht2 in Hx.
    rewrite <- (tk_stopped _ _ (ri_tasks _ Hinv2 _ _ Ht2)), Hst2 in Hx. injection Hx as <- <-. cbn.
    rewrite Ht2, <- (tk_stopped _ _ (ri_tasks _ Hinv2 _ _ Ht2)), Hst2. by rewrite (proj1 Hto).
  - apply io_bind_inv in Hx as (reply & w3 & Ha & Hx).
    apply (actor_turn_spec r w2 t2) in Ha as (Hinv3 & Hto3 & t3 & Ht3 & _ & Hlast); try done.
    assert (Hc3 : handle_is_closed w3 r = at_stopped t3).
    { unfold handle_is_closed. rewrite Ht3. by rewrite (tk_stopped _ _ (ri_tasks _ Hinv3 _ _ Ht3)). }
    rewrite Hc3 in Hx. rewrite <- (proj1 Hto), <- (proj1 Hto3).
    assert (Hend : tasks w' = tasks w3 /\
      registry w' = if at_stopped t3 then registry w3 ∖ {[r]} else registry w3).
    { destruct (Hlast _ _ Hi) as [[Hst3 ->]|(a1 & _ & _ & _ & _ & Hrep)].
      - rewrite Hst3 in Hx. apply (leave_end r p reason now true false) in Hx as (_ & ? & ?). by rewrite Hst3.
      - unfold reply_spec in Hrep. destruct reply as [[|rr]|]; try done. destruct Hrep as [-> _].
        by apply leave_end in Hx as (_ & ? & ?). }
    destruct Hend as (Ht' & ->).
    assert (handle_is_closed w' r = at_stopped t3) as ->; [|done].
    rewrite <- Hc3. unfold handle_is_closed. by rewrite Ht'.
Qed.

(** The loop concerns the rooms of its list alone, and of these those that closed are gone. *)
Lemma leave_each_registry hs p reason now : forall w res w',
  NoDup hs -> rooms_inv w -> leave_each hs p reason now w = (res, w') ->
  (forall r, r ∉ hs -> tasks w' !! r = tasks w !! r) /\
  forall r, r ∈ registry w' <-> r ∈ registry w /\ (r ∈ hs -> handle_is_closed w' r = false).
Proof.
  induction hs as [|h hs IH]; intros w res w' Hnd Hinv Hx; cbn [leave_each] in Hx.
  { apply io_ret_inv in Hx as [<- <-]. split; [done|]. set_solver. }
  apply NoDup_cons in Hnd as [Hh Hnd].
  apply io_try_inv in Hx as [(x & w1 & Hl & Hx)|(e & Hl & ->)]; pose proof (leave_registry _ _ _ _ _ _ _ Hinv Hl) as Hreg;
    apply leave_spec in Hl as (Hinv1 & Hres & [_ Hconf] & _); try done.
  apply IH in Hx as [Ht Hr]; [|done..]. split.
  - intros r [Hne Hout]%not_elem_of_cons. rewrite (Ht r Hout). by apply Hconf.
  - assert (Hc : handle_is_closed w' h = handle_is_closed w1 h) by (unfold handle_is_closed; by rewrite (Ht h Hh)).
    intros r. rewrite Hr, Hreg, elem_of_cons. destruct (decide (r = h)) as [->|Hne].
    + rewrite Hc. destruct (handle_is_closed w1 h); set_solver.
    + destruct (handle_is_closed w1 h); set_solver.
Qed.

Lemma leave_all_spec p reason now w res w' :
  rooms_inv w -> leave_all p reason now w = (res, w') ->
  rooms_inv w' /\ res = Ok tt /\ registry w' ⊆ registry w /\ forall r, ~ in_room w' r p.
Proof.
  intros Hinv Hx. unfold leave_all in Hx. apply io_bind_inv in Hx as (hs & w1 & Hl & Hx).
  unfold live_handles in Hl. injection Hl as <- <-.
  apply leave_each_spec in Hx as (? & ? & Hsub & Hdone & Hback).
  2: { eapply rooms_inv_frame; [done|done|]. simpl. set_solver. }
  simpl in Hsub. split_and!; try done; [set_solver|]. intros r Hr. pose proof Hr as [Hreg _].
  apply (Hdone r); [|done]. apply elem_of_elements. set_solver.
Qed.

Lemma leave_all_registry p reason now w res w' :
  rooms_inv w -> leave_all p reason now w = (res, w') ->
  registry w' = filter (fun r => handle_is_closed w' r = false) (registry w).
Proof.
  intros Hinv Hx. unfold leave_all in Hx. apply io_bind_inv in Hx as (hs & w1 & Hl & Hx).
  unfold live_handles in Hl. injection Hl as <- <-.
  apply leave_each_registry in Hx as [Ht Hr]; [|apply NoDup_elements|].
  2: { eapply rooms_inv_frame; [done|done|]. simpl. set_solver. }
  apply set_eq. intros r. rewrite Hr. cbn [registry]. rewrite elem_of_elements, !elem_of_filter.
  destruct (handle_is_closed w r) eqn:Ec; [|naive_solver].
  assert (handle_is_closed w' r = true) as ->; [|naive_solver].
  rewrite <- Ec. unfold handle_is_closed. rewrite Ht; [done|]. rewrite elem_of_elements, elem_of_filter. intros [? _]. congruence.
Qed.

(** C18: Disconnect clean-up is complete and never fails: after [leave_all] the
    player is a member of no registered room, whatever was queued for the rooms
    and however many of them close on the way; and it takes no room out of the registry
    but those that have closed, before or on the way, and all of these. *)
Theorem leave_all_cleans_up (p : PlayerId) (reason : rstr) (now : DateTime) (w w' : Rooms)
  (res : result unit AppError)
  (Hinv : rooms_inv w) (Hx : leave_all p reason now w = (res, w')) :
  rooms_inv w' /\ res = Ok tt /\ (forall r, ~ in_room w' r p) /\
  registry w' = filter (fun r => handle_is_closed w' r = false) (registry w).
Proof.
  pose proof (leave_all_registry _ _ _ _ _ _ Hinv Hx).
  by apply leave_all_spec in Hx as (? & ? & _ & ?).
Qed.

(** What joining an existing room does. *)
Lemma join_spec r p n sink now w res w' :
  rooms_inv w -> owner sink = p -> join r p n sink now w = (res, w') ->
  rooms_inv w' /\ confined r w w' /\
  match res with
  | Ok _ => in_room w' r p /\
            exists o, publish (PlayerJoinedRoom r p now) (publisher w) = (o, publisher w')
  | Err e => publisher w' = publisher w /\
             (e = no_room \/ e = Conflict (lit "房间已满") \/
              (e = Internal (lit "房间已关闭,加入结果未知") /\ handle_is_closed w' r = true))
  end.
Proof.
  intros Hinv Ho Hx. unfold join in Hx. apply io_bind_inv in Hx as (o & w1 & Hf & Hx).
  apply handle_for_spec in Hf as (Hinv1 & Ht1 & _ & Hp1 & Hfound); [|done].
  destruct o as [h|].
  2: { injection Hx as <- <-. split; [done|]. split; [|by auto].
       eapply (confined_remove r w w w1); [apply touches_confined, touches_refl|done|done]. }
  destruct Hfound as (-> & -> & Hin & t & Ht & Hst).
  apply io_try_inv in Hx as [(h & w2 & Hh & Hx)|(? & Hh & _)]; [|done].
  injection Hh as <- <-.
  apply io_try_inv in Hx as [(x & w2 & Hs & Hx)|(e & Hs & ->)];
    apply (handle_send_spec r (Join p n sink) w t) in Hs
      as (Hinv2 & Hto & t2 & Ht2 & Hcase); try done.
  2: { destruct Hcase as [(_ & [= ->])|(_ & ? & _)]; [|done].
       split; [done|]. split; [by apply touches_confined|]. destruct Hto as (_ & -> & _). auto. }
  destruct Hcase as [(_ & ?)|(Hst2 & _ & pre & Hi)]; [done|].
  apply io_bind_inv in Hx as (reply & w3 & Ha & Hx).
  apply (actor_turn_spec r w2 t2) in Ha as (Hinv3 & Hto3 & t3 & Ht3 & _ & Hlast); try done.
  pose proof (touches_trans _ _ _ _ Hto Hto3) as Hto'.
  pose proof (touches_confined _ _ _ Hto') as Hconf. destruct Hto' as (Hreg & Hpub & _).
  destruct (Hlast _ _ Hi) as [[Hst3 ->]|(a1 & _ & _ & _ & _ & Hrep)].
  - injection Hx as <- <-. split; [done|]. split; [done|]. split; [done|]. right; right.
    split; [done|]. unfold handle_is_closed. rewrite Ht3.
    by rewrite <- (tk_stopped _ _ (ri_tasks _ Hinv3 _ _ Ht3)).
  - unfold reply_spec in Hrep. destruct reply as [[rr|]|]; try done. destruct Hrep as [Hiff Herr].
    apply io_try_inv in Hx as [(y & w4 & Hy & Hx)|(e & Hy & ->)]; injection Hy as -> <-.
    + apply io_bind_inv in Hx as (z & w5 & Hz & Hx). apply io_ret_inv in Hx as [<- <-].
      pose proof (publish_event_inv _ _ _ _ Hz) as (Hr5 & Ht5 & _).
      split; [eapply rooms_inv_frame; [done|done|by rewrite Hr5]|].
      split; [by eapply confined_same|]. split.
      * split; [by rewrite Hr5, Hreg|]. exists t3. rewrite Ht5. split; [done|]. by apply Hiff.
      * unfold publish_event in Hz. rewrite Hpub in Hz.
        destruct (publish _ _) as [o pb]. injection Hz as _ <-. by exists o.
    + destruct (Herr _ eq_refl) as [-> _]. split; [done|]. split; [done|]. auto.
Qed.

(** Joining is sound: when [join] reports success the player is a member of
    that registered room and the joining was announced once; when it reports an
    error nothing was announced and the error is that the room does not exist, is
    full, or closed before answering.  No other room is touched. *)
Theorem join_is_sound (r : RoomId) (p : PlayerId) (n : rstr) (sink : Z) (now : DateTime)
  (w w' : Rooms) (res : result unit AppError)
  (Hinv : rooms_inv w) (Howner : owner sink = p)
  (Hx : join r p n sink now w = (res, w')) :
  rooms_inv w' /\ confined r w w' /\
  match res with
  | Ok _ => in_room w' r p /\
            exists o, publish (PlayerJoinedRoom r p now) (publisher w) = (o, publisher w')
  | Err e => publisher w' = publisher w /\
             (e = no_room \/ e = Conflict (lit "房间已满") \/
              (e = Internal (lit "房间已关闭,加入结果未知") /\ handle_is_closed w' r = true))
  end.
Proof. by eapply join_spec. Qed.

(* ------------------------------------------------------------------ *)
(** ** Creation *)

Lemma open_task_ok cap i max now :
  (1 <= cap)%nat -> task_ok i (mkTask (actor_new (Room.open i max now)) (chan cap) false).
Proof.
  intros Hcap. destruct (chan_spec (Q := Q) RoomCommand cap) as (Hi & Hm & Hr).
  constructor; cbn [at_actor at_queue at_stopped]; try done.
  - apply actor_new_inv.
  - rewrite Hi. constructor.
  - by rewrite Hm.
Qed.

(** The first command of a fresh room is answered at once. *)
Lemma first_join i max now p n sink (ss : gmap Z (Sink Q)) :
  exists ss', serve [Join p n sink] (actor_new (Room.open i max now), ss) =
    ((false, Some (JoinReply (Ok tt))),
     (mkActor (set_members (Room.open i max now) [p]) {[p := mkMember n sink]} false true, ss')).
Proof.
  cbn [serve]. unfold handle, io_bind, io_ret, handle_join, actor_new.
  assert (Hj : Room.try_join (Room.open i max now) p =
               (Ok true, set_members (Room.open i max now) [p])).
  { unfold Room.try_join, is_full, member_count. simpl.
    destruct (Z.leb_spec (Z.max max 1) (Z.of_nat 0)); [lia|done]. }
  cbn [ac_room]. rewrite Hj. eexists. reflexivity.
Qed.

Lemma create_and_join_spec config i p n sink now1 now2 w res w' :
  rooms_inv w -> owner sink = p -> tasks w !! i = None -> (1 <= command_capacity config)%nat ->
  create_and_join config i p n sink now1 now2 w = (res, w') ->
  rooms_inv w' /\ res = Ok i /\ registry w' = {[i]} ∪ registry w /\
  (forall r, r <> i -> tasks w' !! r = tasks w !! r) /\
  exists t, tasks w' !! i = Some t /\ at_stopped t = false /\
    ac_room (at_actor t) = set_members (Room.open i (max_players config) now1) [p].
Proof.
  intros Hinv Ho Hfree Hcap Hx. unfold create_and_join in Hx.
  apply io_bind_inv in Hx as (r0 & w1 & Hs & Hx). unfold spawn in Hs. injection Hs as <- <-.
  apply io_bind_inv in Hx as ([] & w2 & Hi & Hx). unfold registry_insert in Hi. injection Hi as <-.
  cbn [rm_id Room.open] in *. set (t0 := mkTask _ _ _) in Hx.
  assert (Hok0 : task_ok i t0) by (by apply open_task_ok).
  set (w2 := mkRooms _ _ _ _) in Hx.
  assert (Ht2 : tasks w2 !! i = Some t0) by apply lookup_insert_eq.
  assert (Hinv2 : rooms_inv w2).
  { destruct Hinv. constructor; simpl.
    - intros q u [[<- <-]|[_ Hq]]%lookup_insert_Some; auto.
    - intros q Hq. rewrite lookup_insert_is_Some'. set_solver. }
  apply io_bind_inv in Hx as (rj & w3 & Hj & Hx). unfold join in Hj.
  apply io_bind_inv in Hj as (o & w4 & Hf & Hj). unfold handle_for in Hf.
  rewrite decide_True in Hf by (simpl; set_solver).
  unfold handle_is_closed in Hf. rewrite Ht2 in Hf. injection Hf as <- <-.
  apply io_try_inv in Hj as [(h & w5 & Hh & Hj)|(? & Hh & _)]; [|done]. injection Hh as <- <-.
  assert (Hsend : exists w6 t6, handle_send i (Join p n sink) w2 = (Ok tt, w6) /\
    w6 = set_task i t6 w2 /\ at_actor t6 = at_actor t0 /\ at_stopped t6 = false /\
    items (at_queue t6) = [Join p n sink]).
  { unfold handle_send, io_bind, handle_try_send. rewrite Ht2. subst t0. cbn [at_queue at_actor at_stopped].
    destruct (chan_spec (Q := Q) RoomCommand (command_capacity config)) as (Hci & Hcm & Hcr).
    destruct (try_send_room _ (chan (command_capacity config)) (Join p n sink) Hcr)
      as (q & -> & Hqi & _); [rewrite Hci, Hcm; simpl; lia|].
    do 2 eexists. split; [reflexivity|]. split; [reflexivity|]. simpl. by rewrite Hqi, Hci. }
  destruct Hsend as (w6 & t6 & Hs6 & Hw6 & Ha6 & Hst6 & Hi6).
  pose proof (handle_send_spec i (Join p n sink) w2 t0 _ _ Hinv2 Ho Ht2 eq_refl Hs6) as (Hinv6 & _).
  apply io_try_inv in Hj as [(x & w7 & Hs & Hj)|(e & Hs & _)]; rewrite Hs6 in Hs; [|done].
  injection Hs as <- <-. apply io_bind_inv in Hj as (reply & w8 & Hat & Hj).
  assert (Ht6 : tasks w6 !! i = Some t6) by (rewrite Hw6; apply lookup_insert_eq).
  pose proof (actor_turn_spec i w6 t6 _ _ Hinv6 Ht6 Hst6 Hat) as (Hinv8 & (Hr8 & _ & Hto8) & _).
  unfold actor_turn in Hat. rewrite Ht6, Hst6, Hi6, Ha6 in Hat. subst t0. cbn [at_actor] in Hat.
  destruct (first_join i (max_players config) now1 p n sink (sinks w6)) as [ss' Hfj].
  rewrite Hfj in Hat. injection Hat as <- <-.
  apply io_try_inv in Hj as [(y & w9 & Hy & Hj)|(? & Hy & _)]; [|done]. injection Hy as <- <-.
  apply io_bind_inv in Hj as (z & w10 & Hz & Hj). apply io_ret_inv in Hj as [<- <-].
  apply io_ret_inv in Hx as [<- <-]. apply publish_event_inv in Hz as (Hr & Ht & _).
  split; [eapply rooms_inv_frame; [done|done|by rewrite Hr]|]. split; [done|].
  split; [rewrite Hr, Hr8, Hw6; done|]. split.
  - intros r Hne. rewrite Ht, (Hto8 r Hne), Hw6. simpl. by rewrite !lookup_insert_ne.
  - rewrite Ht. simpl. rewrite lookup_insert_eq. eexists. by split_and!.
Qed.

(** Creating a room always succeeds: with a fresh identifier the new room is
    registered, open, of the configured capacity, with the creator as its only
    member; every other room is as before. *)
Theorem create_and_join_succeeds (config : RoomServiceConfig) (i : RoomId) (p : PlayerId) (n : rstr)
  (sink : Z) (now1 now2 : DateTime) (w w' : Rooms) (res : result RoomId AppError)
  (Hinv : rooms_inv w) (Howner : owner sink = p) (Hfresh : tasks w !! i = None)
  (Hcap : (1 <= command_capacity config)%nat)
  (Hx : create_and_join config i p n sink now1 now2 w = (res, w')) :
  rooms_inv w' /\ res = Ok i /\ registry w' = {[i]} ∪ registry w /\
  (forall r, r <> i -> tasks w' !! r = tasks w !! r) /\
  exists t, tasks w' !! i = Some t /\ at_stopped t = false /\
    ac_room (at_actor t) = set_members (Room.open i (max_players config) now1) [p].
Proof. by eapply create_and_join_spec. Qed.

(* ------------------------------------------------------------------ *)
(** ** Shutdown *)

(** A room that has ended, or will at its next turn. *)
Definition ending (w : Rooms) (r : RoomId) : Prop :=
  exists t, tasks w !! r = Some t /\
    (at_stopped t = true \/ exists pre reason, items (at_queue t) = pre ++ [Close reason]).

Lemma close_send_spec r reason w x w' :
  rooms_inv w -> is_Some (tasks w !! r) -> handle_send r (Close reason) w = (x, w') ->
  rooms_inv w' /\ touches r w w' /\ ending w' r.
Proof.
  intros Hinv [t Ht] Hs. destruct (at_stopped t) eqn:Hst.
  - unfold handle_send in Hs. apply io_bind_inv in Hs as (r1 & w1 & H1 & Hs).
    apply (handle_try_send_spec r (Close reason) w t) in H1
      as (? & ? & [(_ & -> & ->)|[(? & _)|(? & _)]]); try done; try congruence.
    apply io_ret_inv in Hs as [<- <-]. split_and!; try done. exists t. auto.
  - apply (handle_send_spec r (Close reason) w t) in Hs
      as (? & ? & t' & Ht' & [(? & _)|(_ & _ & pre & Hi)]); try done.
    + split_and!; try done. exists t'. auto.
    + split_and!; try done. exists t'. eauto.
Qed.

Lemma close_each_spec hs reason : forall w x w',
  rooms_inv w -> NoDup hs -> (forall r, r ∈ hs -> is_Some (tasks w !! r)) ->
  close_each hs reason w = (x, w') ->
  rooms_inv w' /\ registry w' = registry w /\ (forall r, r ∈ hs -> ending w' r) /\
  (forall r, r ∉ hs -> tasks w' !! r = tasks w !! r).
Proof.
  induction hs as [|h hs IH]; intros w x w' Hinv Hnd Hex Hx; cbn [close_each] in Hx.
  - apply io_ret_inv in Hx as [_ <-]. split_and!; try done. intros r Hr. by apply not_elem_of_nil in Hr.
  - apply NoDup_cons in Hnd as [Hh Hnd]. apply io_bind_inv in Hx as (y & w1 & Hs & Hx).
    apply close_send_spec in Hs as (Hinv1 & (Hr1 & _ & Hto) & Hend); [|done|apply Hex; set_solver].
    apply IH in Hx as (? & Hr2 & Hd & Hf); try done.
    + split_and!; try done; [congruence| |].
      * intros r [->|Hr]%elem_of_cons; [|auto]. unfold ending in *. by rewrite Hf.
      * intros r Hr. rewrite Hf, Hto by set_solver. done.
    + intros r Hr. rewrite Hto by (intros ->; done). apply Hex. set_solver.
Qed.

(** Graceful shutdown closes everything: [close_all] empties the registry, and
    every room that was registered is closed once its actor has taken its next
    turn, whatever commands were still queued before the close. *)
Theorem close_all_closes (reason : rstr) (w w' : Rooms) (res : result unit AppError)
  (Hinv : rooms_inv w) (Hx : close_all reason w = (res, w')) :
  rooms_inv w' /\ res = Ok tt /\ registry w' = ∅ /\
  forall r, r ∈ registry w ->
    exists t, tasks (snd (actor_turn r w')) !! r = Some t /\ at_stopped t = true /\
              is_closed (ac_room (at_actor t)) = true.
Proof.
  unfold close_all in Hx. apply io_bind_inv in Hx as (x & w1 & Hc & Hx).
  apply io_ret_inv in Hx as [<- <-]. apply close_each_spec in Hc as (Hinv' & Hr & Hend & _).
  - split_and!; try done. intros r Hin. destruct (Hend r) as (t & Ht & Hcase); [by apply elem_of_elements|].
    pose proof (ri_tasks _ Hinv' _ _ Ht) as Hok. destruct (at_stopped t) eqn:Hst.
    + exists t. unfold actor_turn. rewrite Ht, Hst. split_and!; try done.
      rewrite <- (ai_closed _ _ (tk_actor _ _ Hok)), <- (tk_stopped _ _ Hok). done.
    + destruct Hcase as [?|(pre & rs & Hi)]; [done|].
      destruct (actor_turn r w1) as [reply w2] eqn:Ea.
      apply (actor_turn_spec r w1 t) in Ea as (Hinv2 & _ & t2 & Ht2 & _ & Hlast); try done.
      exists t2. split; [done|]. pose proof (ri_tasks _ Hinv2 _ _ Ht2) as Hok2.
      assert (Hs2 : at_stopped t2 = true).
      { destruct (Hlast _ _ Hi) as [[? _]|(a1 & _ & _ & _ & _ & Hrep)]; [done|].
        destruct reply; [done|]. by rewrite (tk_stopped _ _ Hok2). }
      split; [done|].
      by rewrite <- (ai_closed _ _ (tk_actor _ _ Hok2)), <- (tk_stopped _ _ Hok2).
  - constructor; simpl; [apply Hinv|set_solver].
  - apply NoDup_elements.
  - intros r Hr%elem_of_elements. by apply Hinv.
Qed.
End Owner.
End Service.
Arguments ActorTask : clear implicits.
Arguments Rooms : clear implicits.

(* ------------------------------------------------------------------ *)
(** ** Witnesses: two players in one room; sink [n] belongs to player [n] *)

Module Demo.

#[local] Existing Instance log_events.

Definition w0 : Rooms queue (list DomainEvent) := service_new [] demo_sinks.
Definition cfg : RoomServiceConfig := mkServiceConfig 2 2.
Definition out1 : result Z AppError * Rooms queue (list DomainEvent) :=
  create_and_join cfg 50 1 (lit "a") 1 100 101 w0.
Definition w1 : Rooms queue (list DomainEvent) := snd out1.

Lemma w0_inv : rooms_inv id w0.
Proof. constructor; intros; simpl in *; [simplify_map_eq|set_solver]. Qed.

Lemma w1_inv : rooms_inv id w1.
Proof.
  apply (create_and_join_spec id cfg 50 1 (lit "a") 1 100 101 w0 (fst out1) w1 w0_inv);
    [reflexivity|reflexivity|simpl; lia|reflexivity].
Qed.

Lemma create_and_join_succeeds_witness :
  out1 = (Ok 50, w1) /\ registry w1 = {[50]} ∪ registry w0.
Proof.
  split; [vm_compute; reflexivity|].
  refine (proj1 (proj2 (proj2 (create_and_join_succeeds id cfg 50 1 (lit "a") 1 100 101 w0 w1 (Ok 50)
    w0_inv eq_refl eq_refl _ _)))); [simpl; lia|vm_compute; reflexivity].
Defined.

Lemma join_is_sound_witness :
  let out := join 50 2 (lit "b") 2 102 w1 in
  fst out = Ok tt /\ in_room (snd out) 50 2.
Proof.
  intros out. split; [vm_compute; reflexivity|].
  refine (proj1 (proj2 (proj2 (join_is_sound id 50 2 (lit "b") 2 102 w1 (snd out) (Ok tt)
    w1_inv eq_refl _)))).
  vm_compute. reflexivity.
Defined.

Lemma leave_all_cleans_up_witness :
  let out := leave_all 1 (lit "gone") 103 w1 in
  registry w1 = {[50]} /\ registry (snd out) = ∅ /\ forall r, ~ in_room (snd out) r 1.
Proof.
  intros out. split; [vm_compute; reflexivity|]. split; [vm_compute; reflexivity|].
  refine (proj1 (proj2 (proj2 (leave_all_cleans_up id 1 (lit "gone") 103 w1 (snd out) (fst out)
    w1_inv _)))).
  apply surjective_pairing.
Defined.

Lemma close_all_closes_witness :
  let out := close_all (lit "bye") w1 in
  exists t, tasks (snd (actor_turn 50 (snd out))) !! 50 = Some t /\ at_stopped t = true /\
            is_closed (ac_room (at_actor t)) = true.
Proof.
  intros out.
  refine (proj2 (proj2 (proj2 (close_all_closes id (lit "bye") w1 (snd out) (fst out) w1_inv _))) 50 _).
  - apply surjective_pairing.
  - vm_compute. reflexivity.
Defined.

End Demo.
