(* ===== verification/RoomCalls.v ===== *)
(** The room service under concurrent calls ([application/src/room/service.rs] and
    [RoomActor::run] of [actor.rs]).

    [RoomService] takes every method as one step.  Here a method is a program over the
    points at which its task can be suspended or observed by others: taking the registry's
    lock, sending to a room, waiting for its reply, reading its [closed] flag, publishing.
    Any number of calls, on any number of threads, interleave with each other and with the
    actors, one such point at a time.  A call may be dropped at any of them, as the task of
    a connection is when it is aborted.

    The state is that of [RoomService] with what the atomic reading could leave out: the
    reply senders that travel with the queued commands, the reply channels, and the actors
    that have left their loop but not yet dropped their receiver. *)
From S2P Require Import Prelude Text Tokio Values Room Session App RoomActor RoomService.
From Stdlib Require Import Strings.String Logic.FunctionalExtensionality.
Open Scope Z_scope.
Open Scope list_scope.
Abbreviation length := Datatypes.length.

(* ------------------------------------------------------------------ *)
(** ** Programs *)

(** The points of a method at which others can run, with what they yield.  [Tell] and
    [Request] are [RoomHandle::send]; a request carries the sender of a fresh reply channel,
    which it yields the receiver of. *)
Inductive await : Type -> Type :=
| HandleFor (r : RoomId) : await (option RoomId)
| LiveHandles : await (list RoomId)
| DrainRegistry : await (list RoomId)
| InsertHandle (r : RoomId) : await unit
| RemoveHandle (r : RoomId) : await unit
| IsClosed (r : RoomId) : await bool
| Publish (e : DomainEvent) : await unit
| SpawnActor (max_players : Z) (now : DateTime) (cap : nat) : await RoomId
| TrySend (r : RoomId) (c : RoomCommand) : await (result unit AppError)
| Tell (r : RoomId) (c : RoomCommand) : await (result unit AppError)
| Request (r : RoomId) (c : RoomCommand) : await (result nat AppError)
| Receive (n : nat) : await (option Reply).

Inductive prog (A : Type) : Type :=
| Ret (a : A)
| Do {X : Type} (e : await X) (k : X -> prog A).
Arguments Ret {A}. Arguments Do {A X}.

Fixpoint pbind {A B} (p : prog A) (f : A -> prog B) : prog B :=
  match p with
  | Ret a => f a
  | Do e k => Do e (fun x => pbind (k x) f)
  end.

Lemma pbind_assoc {A B C} (p : prog A) (f : A -> prog B) (g : B -> prog C) :
  pbind (pbind p f) g = pbind p (fun a => pbind (f a) g).
Proof.
  induction p as [a|X e k IH]; cbn [pbind]; [done|]. f_equal. by apply functional_extensionality.
Qed.

Notation "'let!' x ':=' p 'in' q" := (pbind p (fun x => q))
  (at level 10, x pattern, p at level 100, q at level 200) : rust_scope.
Notation "'do!' x ':=' e 'in' q" := (Do e (fun x => q))
  (at level 10, x pattern, e at level 100, q at level 200) : rust_scope.

(** The service's methods, line by line. *)
Module Calls.

Definition join (room_id : RoomId) (player_id : PlayerId) (nickname : rstr) (sink : Z) (now : DateTime)
  : prog (result unit AppError) :=
  do! o := HandleFor room_id in
  match o with
  | None => Ret (Err no_room)
  | Some handle =>
      do! sent := Request handle (Join player_id nickname sink) in
      match sent with
      | Err e => Ret (Err e)
      | Ok reply_rx =>
          do! reply := Receive reply_rx in
          match reply with
          | Some (JoinReply (Ok _)) =>
              do! _ := Publish (PlayerJoinedRoom room_id player_id now) in Ret (Ok tt)
          | Some (JoinReply (Err e)) => Ret (Err e)
          | _ => Ret (Err (Internal (lit "房间已关闭,加入结果未知")))
          end
      end
  end.

Definition create_and_join (config : RoomServiceConfig) (player_id : PlayerId) (nickname : rstr) (sink : Z)
    (now1 now2 : DateTime) : prog (result RoomId AppError) :=
  do! room_id := SpawnActor (max_players config) now1 (command_capacity config) in
  do! _ := InsertHandle room_id in
  let! r := join room_id player_id nickname sink now2 in
  match r with
  | Err err => do! _ := RemoveHandle room_id in Ret (Err err)
  | Ok _ => Ret (Ok room_id)
  end.

Definition join_or_create (config : RoomServiceConfig) (room_id : option RoomId) (player_id : PlayerId)
    (nickname : rstr) (sink : Z) (now1 now2 : DateTime) : prog (result RoomId AppError) :=
  match room_id with
  | Some id =>
      let! r := join id player_id nickname sink now2 in
      match r with Ok _ => Ret (Ok id) | Err e => Ret (Err e) end
  | None => create_and_join config player_id nickname sink now1 now2
  end.

Definition chat (room_id : RoomId) (player_id : PlayerId) (text : rstr) : prog (result unit AppError) :=
  let trimmed := trim text in
  if is_empty trimmed then Ret (Err (Validation (lit "聊天内容不能为空")))
  else if (MAX_CHAT_CHARS <? length trimmed)%nat then
    Ret (Err (Validation (lit "聊天内容不能超过 " ++ show_u (Z.of_nat MAX_CHAT_CHARS) ++ lit " 字")))
  else
    do! o := HandleFor room_id in
    match o with
    | None => Ret (Err no_room)
    | Some handle => do! r := TrySend handle (Chat player_id trimmed) in Ret r
    end.

(** The end of [leave], from the actor's answer on. *)
Definition left (room_id : RoomId) (player_id : PlayerId) (reason : rstr) (now : DateTime)
    (handle : RoomId) (did_leave : bool) : prog (result unit AppError) :=
  do! closed := IsClosed handle in
  let! _ := (if closed then do! _ := RemoveHandle room_id in Ret tt else Ret tt) in
  if negb did_leave then Ret (Ok tt)
  else do! _ := Publish (PlayerLeftRoom room_id player_id reason now) in Ret (Ok tt).

Definition leave (room_id : RoomId) (player_id : PlayerId) (reason : rstr) (now : DateTime)
  : prog (result unit AppError) :=
  do! o := HandleFor room_id in
  match o with
  | None => Ret (Ok tt)
  | Some handle =>
      do! sent := Request handle (Leave player_id reason) in
      match sent with
      | Err err =>
          do! closed := IsClosed handle in
          if closed : bool then do! _ := RemoveHandle room_id in Ret (Ok tt) else Ret (Err err)
      | Ok completed =>
          do! reply := Receive completed in
          match reply with
          | Some (LeaveReply (Ok did_leave)) => left room_id player_id reason now handle did_leave
          | Some (LeaveReply (Err e)) => Ret (Err e)
          | _ =>
              do! closed := IsClosed handle in
              if closed : bool then left room_id player_id reason now handle false
              else Ret (Err (Internal (lit "离房操作未完成")))
          end
      end
  end.

Fixpoint leave_each (hs : list RoomId) (player_id : PlayerId) (reason : rstr) (now : DateTime)
  : prog (result unit AppError) :=
  match hs with
  | [] => Ret (Ok tt)
  | h :: hs' =>
      let! r := leave h player_id reason now in
      match r with Ok _ => leave_each hs' player_id reason now | Err e => Ret (Err e) end
  end.

Definition leave_all (player_id : PlayerId) (reason : rstr) (now : DateTime) : prog (result unit AppError) :=
  do! hs := LiveHandles in leave_each hs player_id reason now.

Fixpoint close_each (hs : list RoomId) (reason : rstr) : prog unit :=
  match hs with
  | [] => Ret tt
  | h :: hs' => do! _ := Tell h (Close reason) in close_each hs' reason
  end.

Definition close_all (reason : rstr) : prog (result unit AppError) :=
  do! hs := DrainRegistry in let! _ := close_each hs reason in Ret (Ok tt).

End Calls.

(* ------------------------------------------------------------------ *)
(** ** The shared state *)

Section Shared.
Context {Q : Type -> Type} `{HQ : Mpsc Q} {E : Type} `{HE : EventPublisher E}.
Abbreviation Rooms := (Rooms Q E).

(** A oneshot reply channel: the command it was made for, and what became of it. *)
Inductive slot_state := Waiting | Answered (r : Reply) | Dropped.
Record Slot := mkSlot { sl_room : RoomId; sl_command : RoomCommand; sl_state : slot_state }.

(** [sh_senders]: for each room, the reply sender of every queued command, in the order of
    the queue.  [sh_over]: the actors that left their loop and still have their receiver. *)
Record Shared := mkShared {
  sh_rooms : Rooms;
  sh_senders : gmap Z (list (option nat));
  sh_over : gset Z;
  sh_slots : list Slot
}.

Definition with_service (w : Rooms) (s : Shared) : Shared :=
  mkShared w (sh_senders s) (sh_over s) (sh_slots s).

Definition senders_of (s : Shared) (r : RoomId) : list (option nat) := default [] (sh_senders s !! r).
Definition queue_of (s : Shared) (r : RoomId) : list RoomCommand :=
  match tasks (sh_rooms s) !! r with Some t => items (at_queue t) | None => [] end.

(** The command [c] was queued, in [w]; a request comes with a new reply channel. *)
Definition queued (r : RoomId) (w : Rooms) (s : Shared) : Shared :=
  mkShared w (<[r := senders_of s r ++ [None]]> (sh_senders s)) (sh_over s) (sh_slots s).
Definition requested (r : RoomId) (c : RoomCommand) (w : Rooms) (s : Shared) : Shared :=
  mkShared w (<[r := senders_of s r ++ [Some (length (sh_slots s))]]> (sh_senders s)) (sh_over s)
           (sh_slots s ++ [mkSlot r c Waiting]).

Definition on_service {X} (m : io Rooms X) (s : Shared) : option (X * Shared) :=
  let '(x, w) := m (sh_rooms s) in Some (x, with_service w s).

(** One point of a method; [None] means that the task waits.  [fresh] is the identifier a
    new room is given. *)
Definition perform {X} (fresh : RoomId) (e : await X) (s : Shared) : option (X * Shared) :=
  match e in await Y return option (Y * Shared) with
  | HandleFor r => on_service (handle_for r) s
  | LiveHandles => on_service live_handles s
  | DrainRegistry =>
      on_service (fun w => (elements (registry w), mkRooms ∅ (tasks w) (sinks w) (publisher w))) s
  | InsertHandle r => on_service (registry_insert r) s
  | RemoveHandle r => on_service (registry_remove r) s
  | IsClosed r => on_service (fun w => (handle_is_closed w r, w)) s
  | Publish e => on_service (publish_event e) s
  | SpawnActor max now cap =>
      match tasks (sh_rooms s) !! fresh with
      | Some _ => None
      | None => on_service (spawn (Room.open fresh max now) cap) s
      end
  | TrySend r c =>
      match handle_try_send r c (sh_rooms s) with
      | (Ok _, w) => Some (Ok tt, queued r w s)
      | (Err e, w) => Some (Err e, with_service w s)
      end
  | Tell r c =>
      match handle_try_send r c (sh_rooms s) with
      | (Ok _, w) => Some (Ok tt, queued r w s)
      | (Err Busy, _) => None
      | (Err e, w) => Some (Err e, with_service w s)
      end
  | Request r c =>
      match handle_try_send r c (sh_rooms s) with
      | (Ok _, w) => Some (Ok (length (sh_slots s)), requested r c w s)
      | (Err Busy, _) => None
      | (Err e, w) => Some (Err e, with_service w s)
      end
  | Receive n =>
      match sl_state <$> sh_slots s !! n with
      | Some (Answered rep) => Some (Some rep, s)
      | Some Dropped => Some (None, s)
      | _ => None
      end
  end.

(* ------------------------------------------------------------------ *)
(** ** The actors *)

Definition set_slot (st : slot_state) (o : option nat) (slots : list Slot) : list Slot :=
  match o with
  | Some n => alter (fun sl => mkSlot (sl_room sl) (sl_command sl) st) n slots
  | None => slots
  end.

(** One turn of the loop of [RoomActor::run]: a command is received and handled. *)
Definition actor_handles (r : RoomId) (s : Shared) : option Shared :=
  let w := sh_rooms s in
  match tasks w !! r with
  | None => None
  | Some t =>
      if at_stopped t || bool_decide (r ∈ sh_over s) then None else
      match pop (at_queue t) with
      | None => None
      | Some (c, q) =>
          let '((stop, reply), (a, ss)) := handle c (at_actor t, sinks w) in
          Some (mkShared (mkRooms (registry w) (<[r := mkTask a q false]> (tasks w)) ss (publisher w))
                         (<[r := tail (senders_of s r)]> (sh_senders s))
                         (if stop then {[r]} ∪ sh_over s else sh_over s)
                         (set_slot (match reply with Some rep => Answered rep | None => Dropped end)
                                   (default None (head (senders_of s r))) (sh_slots s)))
      end
  end.

(** The end of [run]: the room is closed once more, and the receiver is dropped with
    every command that is still queued, and so are their reply senders. *)
Definition actor_ends (r : RoomId) (t : ActorTask Q) (s : Shared) : Shared :=
  let w := sh_rooms s in
  let '(_, (a, ss)) := finish (lit "房间通道已关闭") (at_actor t, sinks w) in
  mkShared (mkRooms (registry w) (<[r := mkTask a (drop_rx (at_queue t)) true]> (tasks w)) ss (publisher w))
           (<[r := []]> (sh_senders s)) (sh_over s ∖ {[r]})
           (foldr (set_slot Dropped) (sh_slots s) (senders_of s r)).

(** The actor left its loop after a command ([stop]), ... *)
Definition actor_stops (r : RoomId) (s : Shared) : option Shared :=
  match tasks (sh_rooms s) !! r with
  | Some t => if bool_decide (r ∈ sh_over s) then Some (actor_ends r t s) else None
  | None => None
  end.

(** ... or because nobody has a handle of the room any more: the registry has none, and no
    command is queued.  (Calls that still hold one are not looked for, so this happens in
    the model whenever it happens in the program.) *)
Definition actor_orphaned (r : RoomId) (s : Shared) : option Shared :=
  match tasks (sh_rooms s) !! r with
  | Some t =>
      if at_stopped t || bool_decide (r ∈ sh_over s) || bool_decide (r ∈ registry (sh_rooms s))
      then None
      else match items (at_queue t) with [] => Some (actor_ends r t s) | _ => None end
  | None => None
  end.

(* ------------------------------------------------------------------ *)
(** ** Calls in flight *)

(** The calls of the service's public methods. *)
Inductive Op :=
| OpJoinOrCreate (config : RoomServiceConfig) (room : option RoomId) (p : PlayerId) (nick : rstr) (sink : Z)
    (now1 now2 : DateTime)
| OpChat (r : RoomId) (p : PlayerId) (text : rstr)
| OpLeave (r : RoomId) (p : PlayerId) (reason : rstr) (now : DateTime)
| OpLeaveAll (p : PlayerId) (reason : rstr) (now : DateTime)
| OpCloseAll (reason : rstr).

(** What a call returns; only [join_or_create] returns a room. *)
Definition Outcome : Type := result (option RoomId) AppError.
Definition no_value (r : result unit AppError) : Outcome :=
  match r with Ok _ => Ok None | Err e => Err e end.
Definition room_value (r : result RoomId AppError) : Outcome :=
  match r with Ok i => Ok (Some i) | Err e => Err e end.

Definition program (op : Op) : prog Outcome :=
  match op with
  | OpJoinOrCreate c o p n k now1 now2 =>
      let! r := Calls.join_or_create c o p n k now1 now2 in Ret (room_value r)
  | OpChat r p t => let! x := Calls.chat r p t in Ret (no_value x)
  | OpLeave r p why now => let! x := Calls.leave r p why now in Ret (no_value x)
  | OpLeaveAll p why now => let! x := Calls.leave_all p why now in Ret (no_value x)
  | OpCloseAll why => let! x := Calls.close_all why in Ret (no_value x)
  end.

Record Conc := mkConc { cc_shared : Shared; cc_calls : gmap Z (prog Outcome) }.

Inductive Step :=
| Call (k : Z) (op : Op)
| Advance (k : Z) (fresh : RoomId)
| Cancel (k : Z)
| ActorHandles (r : RoomId)
| ActorStops (r : RoomId)
| ActorOrphaned (r : RoomId)
| Elsewhere (f : gmap Z (Sink Q) -> gmap Z (Sink Q)).

Definition on_shared (o : option Shared) (s : Conc) : option Conc :=
  match o with Some x => Some (mkConc x (cc_calls s)) | None => None end.

Definition advance (k : Z) (fresh : RoomId) (s : Conc) : option Conc :=
  match cc_calls s !! k with
  | Some (Do e f) =>
      match perform fresh e (cc_shared s) with
      | Some (x, s') => Some (mkConc s' (<[k := f x]> (cc_calls s)))
      | None => None
      end
  | _ => None
  end.

(** [None]: the step is not possible. *)
Definition step (a : Step) (s : Conc) : option Conc :=
  match a with
  | Call k op =>
      match cc_calls s !! k with
      | None => Some (mkConc (cc_shared s) (<[k := program op]> (cc_calls s)))
      | Some _ => None
      end
  | Advance k fresh => advance k fresh s
  | Cancel k => Some (mkConc (cc_shared s) (delete k (cc_calls s)))
  | ActorHandles r => on_shared (actor_handles r (cc_shared s)) s
  | ActorStops r => on_shared (actor_stops r (cc_shared s)) s
  | ActorOrphaned r => on_shared (actor_orphaned r (cc_shared s)) s
  | Elsewhere f =>
      let w := sh_rooms (cc_shared s) in
      Some (mkConc (with_service (mkRooms (registry w) (tasks w) (f (sinks w)) (publisher w)) (cc_shared s))
                   (cc_calls s))
  end.

(** The service as it starts. *)
Definition conc_start (e : E) (ss : gmap Z (Sink Q)) : Conc :=
  mkConc (mkShared (service_new e ss) ∅ ∅ []) ∅.

End Shared.
