(* ===== verification/RoomCallsInv.v ===== *)
(** What every interleaving of calls and actors keeps ([RoomCalls]): the actors are sound,
    every queued request has its reply channel and every open reply channel its request, and
    a reply is true when it is given. *)
From S2P Require Import Prelude Text Tokio Values Room Session App RoomActor RoomService RoomCalls.
From Stdlib Require Import Strings.String.
Open Scope Z_scope.
Open Scope list_scope.
Abbreviation length := Datatypes.length.

Section Inv.
Context {Q : Type -> Type} `{HQ : Mpsc Q} {E : Type} `{HE : EventPublisher E}.
Abbreviation Rooms := (Rooms Q E).
Abbreviation Shared := (@Shared Q E).
Variable owner : Z -> PlayerId.

(* ------------------------------------------------------------------ *)
(** ** The invariant *)

Definition wants_reply (c : RoomCommand) : bool :=
  match c with Join _ _ _ | Leave _ _ => true | _ => false end.

(** A queued command and the reply sender that travels with it. *)
Definition sender_ok (s : Shared) (r : RoomId) (c : RoomCommand) (o : option nat) : Prop :=
  match o with
  | Some n => wants_reply c = true /\ sh_slots s !! n = Some (mkSlot r c Waiting)
  | None => wants_reply c = false
  end.

Record task_sound (s : Shared) (r : RoomId) (t : ActorTask Q) : Prop := mkTaskSound {
  ts_actor : actor_inv owner (at_actor t);
  ts_closed : ac_closed (at_actor t) = at_stopped t || bool_decide (r ∈ sh_over s);
  ts_over : at_stopped t = true -> r ∉ sh_over s;
  ts_rx : rx_closed (at_queue t) = at_stopped t;
  ts_end : at_stopped t = true -> items (at_queue t) = [];
  ts_cmds : Forall (cmd_ok owner) (items (at_queue t));
  ts_cap : (1 <= max_capacity (at_queue t))%nat;
  ts_senders : Forall2 (sender_ok s r) (items (at_queue t)) (senders_of s r);
  ts_once : forall i j n, senders_of s r !! i = Some (Some n) -> senders_of s r !! j = Some (Some n) -> i = j
}.

Record shared_ok (s : Shared) : Prop := mkSharedOk {
  so_tasks : forall r t, tasks (sh_rooms s) !! r = Some t -> task_sound s r t;
  so_none : forall r, tasks (sh_rooms s) !! r = None -> senders_of s r = [] /\ r ∉ sh_over s;
  so_waiting : forall n r c, sh_slots s !! n = Some (mkSlot r c Waiting) -> Some n ∈ senders_of s r
}.

(* ------------------------------------------------------------------ *)
(** ** What a reply says *)

Definition actor_of (s : Shared) (r : RoomId) : option Actor := at_actor <$> tasks (sh_rooms s) !! r.
Definition is_member (s : Shared) (r : RoomId) (p : PlayerId) : Prop :=
  exists a, actor_of s r = Some a /\ p ∈ rm_members (ac_room a).
Definition no_member (s : Shared) (r : RoomId) (p : PlayerId) : Prop :=
  forall a, actor_of s r = Some a -> p ∉ rm_members (ac_room a).
Definition room_closed (s : Shared) (r : RoomId) : Prop := handle_is_closed (sh_rooms s) r = true.
(** The actor of [r] has closed its room. *)
Definition ended (s : Shared) (r : RoomId) : Prop :=
  exists a, actor_of s r = Some a /\ ac_closed a = true.
Definition room_full (s : Shared) (r : RoomId) : Prop :=
  exists a, actor_of s r = Some a /\ is_full (ac_room a) = true.

Definition reply_true (s : Shared) (r : RoomId) (c : RoomCommand) (rep : Reply) : Prop :=
  match c, rep with
  | Join p _ _, JoinReply (Ok _) => is_member s r p
  | Join p _ _, JoinReply (Err e) =>
      e = Conflict (lit "房间已满") /\ room_full s r /\ no_member s r p
  | Leave p _, LeaveReply (Ok _) => no_member s r p
  | _, _ => False
  end.

(** What a reply channel says is true in [s]. *)
Definition slot_true (s : Shared) (sl : Slot) : Prop :=
  match sl_state sl with
  | Waiting => True
  | Answered rep => reply_true s (sl_room sl) (sl_command sl) rep
  | Dropped => ended s (sl_room sl)
  end.

(** One step of the shared state: the invariant is kept, actors stay, closed ones closed,
    reply channels stay what they were made for, and what a channel newly says is true now. *)
Record moves (s s' : Shared) : Prop := mkMoves {
  mv_ok : shared_ok s';
  mv_actors : forall r a, actor_of s r = Some a ->
    exists a', actor_of s' r = Some a' /\ (ac_closed a = true -> ac_closed a' = true);
  mv_kept : forall n sl, sh_slots s !! n = Some sl ->
    exists st, sh_slots s' !! n = Some (mkSlot (sl_room sl) (sl_command sl) st);
  mv_true : forall n sl, sh_slots s' !! n = Some sl -> sh_slots s !! n = Some sl \/ slot_true s' sl
}.

Lemma slot_eta (sl : Slot) : mkSlot (sl_room sl) (sl_command sl) (sl_state sl) = sl.
Proof. by destruct sl. Qed.

(* ------------------------------------------------------------------ *)
(** ** Steps that concern neither queues nor reply channels *)

(** The registry, the sinks and the publisher are free. *)
Lemma moves_service w s :
  shared_ok s -> tasks w = tasks (sh_rooms s) -> moves s (with_service w s).
Proof.
  intros [Ht Hn Hw] Htasks. constructor.
  - constructor; cbn [sh_rooms with_service]; rewrite ?Htasks; try done.
    intros r t Hr. destruct (Ht r t Hr). by constructor.
  - unfold actor_of. cbn [sh_rooms with_service]. rewrite Htasks. eauto.
  - intros n sl Hs. exists (sl_state sl). by rewrite slot_eta.
  - intros n sl Hs. by left.
Qed.

Lemma moves_refl s : shared_ok s -> moves s s.
Proof.
  intros H. constructor; [done|eauto| |by left]. intros n sl Hs. exists (sl_state sl). by rewrite slot_eta.
Qed.

(** Other rooms do not see what happens to the queue and the reply channels of [r]. *)
Lemma other_sound s s' r r' t :
  task_sound s r' t -> senders_of s' r' = senders_of s r' ->
  (r' ∈ sh_over s' <-> r' ∈ sh_over s) -> r' <> r ->
  (forall n r0 c, sh_slots s !! n = Some (mkSlot r0 c Waiting) -> r0 <> r ->
     sh_slots s' !! n = Some (mkSlot r0 c Waiting)) ->
  task_sound s' r' t.
Proof.
  intros [] Hse Hov Hne Hsl. constructor; rewrite ?Hse; try done.
  - by rewrite (bool_decide_ext _ _ Hov).
  - by rewrite Hov.
  - eapply Forall2_impl; [done|]. intros c [n|]; [|done]. intros [? ?]. split; [done|]. by apply Hsl.
Qed.

(** A new room. *)
Lemma moves_spawn s fresh max now cap w :
  shared_ok s -> (1 <= cap)%nat -> tasks (sh_rooms s) !! fresh = None ->
  tasks w = <[fresh := mkTask (actor_new (Room.open fresh max now)) (chan cap) false]> (tasks (sh_rooms s)) ->
  moves s (with_service w s).
Proof.
  intros [Ht Hn Hw] Hcap Hfresh Htasks. constructor.
  - constructor; cbn [sh_rooms with_service]; rewrite ?Htasks.
    + intros r t [[<- <-]|[_ Hr]]%lookup_insert_Some.
      * destruct (Hn fresh Hfresh) as [Hs Ho]. destruct (chan_spec (Q := Q) RoomCommand cap) as (Hi & Hm & Hx).
        constructor; cbn [at_actor at_queue at_stopped]; try done.
        -- apply actor_new_inv.
        -- cbn. symmetry. by apply bool_decide_eq_false.
        -- rewrite Hi. constructor.
        -- by rewrite Hm.
        -- change (senders_of (with_service w s) fresh) with (senders_of s fresh). rewrite Hi, Hs. constructor.
        -- change (senders_of (with_service w s) fresh) with (senders_of s fresh). rewrite Hs. intros i j n Hi0. done.
      * destruct (Ht r t Hr). by constructor.
    + intros r [Hr _]%lookup_insert_None. by apply Hn.
    + done.
  - intros r a. unfold actor_of. cbn [sh_rooms with_service]. rewrite Htasks. intros Ha.
    destruct (decide (r = fresh)) as [->|]; [by rewrite Hfresh in Ha|].
    rewrite lookup_insert_ne by done. eauto.
  - intros n sl Hs. exists (sl_state sl). by rewrite slot_eta.
  - intros n sl Hs. by left.
Qed.

(* ------------------------------------------------------------------ *)
(** ** Queueing *)

(** [handle_try_send], by its outcome. *)
Lemma try_send_sound s r c res w :
  shared_ok s -> handle_try_send r c (sh_rooms s) = (res, w) ->
  (res = Err no_room /\ w = sh_rooms s /\ room_closed s r) \/
  (res = Err Busy /\ w = sh_rooms s /\ exists t, tasks (sh_rooms s) !! r = Some t /\ at_stopped t = false /\
     (max_capacity (at_queue t) <= length (items (at_queue t)))%nat) \/
  (res = Ok tt /\ exists t q, tasks (sh_rooms s) !! r = Some t /\ at_stopped t = false /\
     w = set_task r (mkTask (at_actor t) q false) (sh_rooms s) /\
     items q = items (at_queue t) ++ [c] /\ max_capacity q = max_capacity (at_queue t) /\ rx_closed q = false).
Proof.
  intros Hok. unfold handle_try_send, room_closed, handle_is_closed.
  destruct (tasks (sh_rooms s) !! r) as [t|] eqn:Ht; [|intros [= <- <-]; by left].
  destruct (so_tasks s Hok r t Ht) as [_ Hc _ Hrx _ _ _ _ _].
  destruct (try_send (at_queue t) c) as [o q] eqn:Es.
  apply try_send_cases in Es as [(-> & Hr & Hl & Hi & Hm & Hr')|[(-> & Hr & Hl & ->)|(-> & Hr & ->)]];
    intros [= <- <-]; rewrite Hrx in Hr.
  - right; right. split; [done|]. exists t, q. rewrite Hr. by split_and!.
  - right; left. split_and!; try done. by exists t.
  - left. rewrite Hc, Hr. by split_and!.
Qed.

Lemma senders_insert (s : Shared) r l r' (w : Rooms) o sl :
  senders_of (mkShared w (<[r := l]> (sh_senders s)) o sl) r' = if decide (r' = r) then l else senders_of s r'.
Proof.
  unfold senders_of. cbn [sh_senders]. case_decide as Hd; [subst; by rewrite lookup_insert_eq|].
  by rewrite lookup_insert_ne.
Qed.

Lemma senders_lt (s : Shared) r t n :
  task_sound s r t -> Some n ∈ senders_of s r -> (n < length (sh_slots s))%nat.
Proof.
  intros [] [i Hi]%list_elem_of_lookup. destruct (Forall2_lookup_r _ _ _ _ _ ts_senders0 Hi) as (c & _ & _ & Hn).
  by apply lookup_lt_Some in Hn.
Qed.

(** The command [c] is at the end of the queue of [r], with the sender [o]. *)
Lemma moves_queued s r c o t q sl :
  shared_ok s -> cmd_ok owner c -> tasks (sh_rooms s) !! r = Some t -> at_stopped t = false ->
  items q = items (at_queue t) ++ [c] -> max_capacity q = max_capacity (at_queue t) -> rx_closed q = false ->
  (o = None /\ wants_reply c = false /\ sl = sh_slots s \/
   o = Some (length (sh_slots s)) /\ wants_reply c = true /\ sl = sh_slots s ++ [mkSlot r c Waiting]) ->
  moves s (mkShared (set_task r (mkTask (at_actor t) q false) (sh_rooms s))
                    (<[r := senders_of s r ++ [o]]> (sh_senders s)) (sh_over s) sl).
Proof.
  intros Hok Hc Ht Hst Hi Hm Hx Ho. pose proof Hok as [Htasks Hn Hw].
  assert (Hsl : forall n x, sh_slots s !! n = Some x -> sl !! n = Some x).
  { intros n x Hs. destruct Ho as [(_ & _ & ->)|(_ & _ & ->)]; [done|]. by apply lookup_app_l_Some. }
  assert (Hback : forall n x, sl !! n = Some x -> sh_slots s !! n = Some x \/
            (x = mkSlot r c Waiting /\ o = Some n)).
  { intros n x Hs. destruct Ho as [(_ & _ & ->)|(-> & _ & ->)]; [by left|].
    apply lookup_app_Some in Hs as [Hs|[Hge Hs]]; [by left|right].
    apply list_lookup_singleton_Some in Hs as [Hz <-]. split; [done|]. f_equal. lia. }
  set (s' := mkShared _ _ _ _). constructor; [constructor|..].
  - intros r' t'. cbn [sh_rooms s' set_task tasks]. intros [[<- <-]|[Hne Hr]]%lookup_insert_Some.
    + pose proof (Htasks r t Ht) as Hts. pose proof Hts as [].
      constructor; cbn [at_actor at_queue at_stopped]; rewrite ?Hi, ?Hm; try done.
      * rewrite ts_closed0, Hst. done.
      * apply Forall_app. by repeat constructor.
      * unfold s'. rewrite senders_insert, decide_True by done. apply Forall2_app.
        -- eapply Forall2_impl; [done|]. intros d [n|]; [|done]. intros [? ?]. split; [done|]. by apply Hsl.
        -- constructor; [|constructor]. destruct Ho as [(-> & ? & ->)|(-> & ? & ->)]; [done|].
           split; [done|]. cbn [sh_slots]. by rewrite lookup_app_r, Nat.sub_diag by lia.
      * unfold s'. rewrite senders_insert, decide_True by done.
        assert (Hnew : forall i n, senders_of s r !! i = Some (Some n) -> o <> Some n).
        { intros i n Hl%list_elem_of_lookup_2 Heq. pose proof (senders_lt s r t n Hts Hl).
          destruct Ho as [(-> & _)|(-> & _)]; [done|]. injection Heq as <-. lia. }
        intros i j n [Hi1|[Hi1 Hi2]]%lookup_app_Some [Hj1|[Hj1 Hj2]]%lookup_app_Some.
        -- by eapply ts_once0.
        -- apply list_lookup_singleton_Some in Hj2 as [_ Hj2]. by destruct (Hnew i n).
        -- apply list_lookup_singleton_Some in Hi2 as [_ Hi2]. by destruct (Hnew j n).
        -- apply list_lookup_singleton_Some in Hi2 as [? _], Hj2 as [? _]. lia.
    + eapply (other_sound s s' r); try done; [by apply Htasks| |intros; by apply Hsl].
      unfold s'. by rewrite senders_insert, decide_False.
  - intros r'. cbn [sh_rooms s' set_task tasks]. intros [Hr Hne]%lookup_insert_None.
    unfold s'. rewrite senders_insert, decide_False by done. by apply Hn.
  - intros n r' d Hs. apply Hback in Hs as [Hs|[[= -> ->] ->]].
    + unfold s'. rewrite senders_insert. case_decide as Hd; [subst|by eapply Hw].
      apply elem_of_app. left. by eapply Hw.
    + unfold s'. rewrite senders_insert, decide_True by done. set_solver.
  - intros r' a. unfold actor_of. cbn [sh_rooms s' set_task tasks]. intros Ha.
    destruct (decide (r' = r)) as [->|]; [|rewrite lookup_insert_ne by done; eauto].
    rewrite lookup_insert_eq. rewrite Ht in Ha. injection Ha as <-. eauto.
  - intros n x Hs. exists (sl_state x). rewrite slot_eta. by apply Hsl.
  - intros n x Hs. apply Hback in Hs as [Hs|[-> _]]; [by left|by right].
Qed.

(* ------------------------------------------------------------------ *)
(** ** The actors' steps *)

Lemma set_slots_lookup st os : forall (slots : list Slot) n,
  foldr (set_slot st) slots os !! n =
  if decide (Some n ∈ os) then (fun sl => mkSlot (sl_room sl) (sl_command sl) st) <$> slots !! n
  else slots !! n.
Proof.
  induction os as [|o os IH]; intros slots n; cbn [foldr].
  - rewrite decide_False; [done|]. by intros ?%not_elem_of_nil.
  - destruct o as [m|]; cbn [set_slot].
    + destruct (decide (m = n)) as [->|Hne].
      * rewrite list_lookup_alter_eq, IH, (decide_True (P := Some n ∈ Some n :: os)) by set_solver.
        case_decide; [|done]. by destruct (slots !! n).
      * rewrite list_lookup_alter_ne, IH by done.
        destruct (decide (Some n ∈ os)); [rewrite decide_True by set_solver|rewrite decide_False by set_solver]; done.
    + rewrite IH. destruct (decide (Some n ∈ os)); [rewrite decide_True by set_solver|rewrite decide_False by set_solver]; done.
Qed.

(** A room's actor has consumed the commands whose senders are [gone]; what became of their
    reply channels is true. *)
Lemma moves_consumed s s' r t t' gone rest st :
  shared_ok s -> tasks (sh_rooms s) !! r = Some t ->
  tasks (sh_rooms s') = <[r := t']> (tasks (sh_rooms s)) ->
  senders_of s r = gone ++ rest -> sh_senders s' = <[r := rest]> (sh_senders s) ->
  sh_slots s' = foldr (set_slot st) (sh_slots s) gone ->
  (forall r', r' <> r -> r' ∈ sh_over s' <-> r' ∈ sh_over s) ->
  (ac_closed (at_actor t) = true -> ac_closed (at_actor t') = true) ->
  (Forall2 (sender_ok s r) (items (at_queue t')) rest -> Forall2 (sender_ok s' r) (items (at_queue t')) rest ->
   task_sound s' r t') ->
  Forall2 (sender_ok s r) (items (at_queue t')) rest ->
  st <> Waiting -> (forall n c, Some n ∈ gone -> sh_slots s !! n = Some (mkSlot r c Waiting) ->
                    slot_true s' (mkSlot r c st)) ->
  moves s s'.
Proof.
  intros Hok Ht Htasks Hsend Hse Hslots Hover Hclosed Hsound Hrest Hst Htrue. pose proof Hok as [Hts Hn Hw].
  pose proof (Hts r t Ht) as Htr.
  assert (Hgone : forall n, Some n ∈ gone -> exists c, sh_slots s !! n = Some (mkSlot r c Waiting)).
  { intros n Hin. assert (Hin' : Some n ∈ senders_of s r) by (rewrite Hsend; set_solver).
    apply list_elem_of_lookup in Hin' as [i Hi].
    destruct (Forall2_lookup_r _ _ _ _ _ (ts_senders _ _ _ Htr) Hi) as (c & _ & _ & Hc). by exists c. }
  assert (Hlk : forall n, sh_slots s' !! n =
    if decide (Some n ∈ gone) then (fun sl => mkSlot (sl_room sl) (sl_command sl) st) <$> sh_slots s !! n
    else sh_slots s !! n) by (intros n; rewrite Hslots; apply set_slots_lookup).
  assert (Hsr : forall r', senders_of s' r' = if decide (r' = r) then rest else senders_of s r').
  { intros r'. unfold senders_of. rewrite Hse. case_decide as Hd; [subst; by rewrite lookup_insert_eq|].
    by rewrite lookup_insert_ne. }
  assert (Hkeep : forall n, Some n ∈ rest -> Some n ∉ gone).
  { intros n [j Hj]%list_elem_of_lookup [i Hi]%list_elem_of_lookup.
    assert (Hj' : senders_of s r !! (length gone + j)%nat = Some (Some n)).
    { rewrite Hsend, lookup_app_r by lia. by replace (length gone + j - length gone)%nat with j by lia. }
    assert (Hi' : senders_of s r !! i = Some (Some n)) by (rewrite Hsend; by apply lookup_app_l_Some).
    pose proof (ts_once _ _ _ Htr _ _ _ Hi' Hj') as ->. apply lookup_lt_Some in Hi. lia. }
  constructor; [constructor|..].
  - intros r' t0. rewrite Htasks. intros [[<- <-]|[Hne Hr]]%lookup_insert_Some.
    + apply Hsound; [done|]. apply Forall2_same_length_lookup. split; [by eapply Forall2_length|].
      intros i c o Hc Ho. pose proof (Forall2_lookup_lr _ _ _ _ _ _ Hrest Hc Ho) as Hso.
      destruct o as [n|]; [|done]. destruct Hso as [? Hs]. split; [done|].
      rewrite Hlk, decide_False; [done|]. apply Hkeep. by eapply list_elem_of_lookup_2.
    + eapply (other_sound s s' r); try done; [by apply Hts|by rewrite Hsr, decide_False|by apply Hover|].
      intros n r0 c Hs Hr0. rewrite Hlk, decide_False; [done|]. intros Hin.
      destruct (Hgone n Hin) as [d Hd]. congruence.
  - intros r'. rewrite Htasks. intros [Hr Hne]%lookup_insert_None.
    rewrite Hsr, decide_False by done. destruct (Hn r' Hr) as [? ?]. split; [done|]. by rewrite Hover.
  - intros n r0 c. rewrite Hlk. case_decide as Hg.
    + destruct (Hgone n Hg) as [d ->]. simpl. intros [= _ _ ?]. done.
    + intros Hs. specialize (Hw n r0 c Hs). rewrite Hsr. case_decide as Hd; [|done]. subst.
      rewrite Hsend in Hw. apply elem_of_app in Hw as [?|?]; done.
  - intros r' a. unfold actor_of. rewrite Htasks. intros Ha.
    destruct (decide (r' = r)) as [->|]; [|rewrite lookup_insert_ne by done; eauto].
    rewrite lookup_insert_eq. rewrite Ht in Ha. injection Ha as <-. eauto.
  - intros n sl Hs. rewrite Hlk. case_decide; rewrite Hs; simpl; [by eexists|].
    exists (sl_state sl). by rewrite slot_eta.
  - intros n sl. rewrite Hlk. case_decide as Hg; [|by left].
    destruct (Hgone n Hg) as [d Hd]. rewrite Hd. simpl. intros [= <-]. right. by eapply Htrue.
Qed.

Lemma actor_handles_moves s r s' : shared_ok s -> actor_handles r s = Some s' -> moves s s'.
Proof.
  intros Hok. unfold actor_handles. destruct (tasks (sh_rooms s) !! r) as [t|] eqn:Ht; [|done].
  destruct (at_stopped t || _) eqn:Hgo; [done|]. b2p.
  destruct (pop_cases (at_queue t) _ eq_refl) as [[-> _]|(c & l & q & -> & Hi & Hi' & Hm & Hx)]; [done|].
  destruct (handle c _) as [[stop reply] [a ss]] eqn:Eh. intros [= <-].
  destruct (so_tasks s Hok r t Ht) as [Ha Hcl Hov Hrx _ Hcm Hcap Hse Hon].
  rewrite Hi in Hcm, Hse. inversion Hcm as [|? ? Hc Hcm']; subst.
  inversion Hse as [|? o ? rest Ho Hrest Hl Hsend]; subst.
  match goal with H : _ = senders_of s r |- _ => rename H into Hsend end.
  assert (Hopen : ac_closed (at_actor t) = false).
  { rewrite Hcl. rewrite bool_decide_eq_false_2 by done. by rewrite H. }
  destruct (handle_spec owner _ _ _ _ _ _ _ Ha Hopen Hc Eh) as (Ha' & Hstop & _ & _ & Hrep).
  set (s' := mkShared _ _ _ _).
  assert (Hact : actor_of s' r = Some a) by (unfold actor_of; simpl; by rewrite lookup_insert_eq).
  apply (moves_consumed s s' r t (mkTask a q false) [o] rest
           (match reply with Some rep => Answered rep | None => Dropped end)); try done.
  - intros r' Hne. unfold s'. cbn [sh_over]. destruct stop; set_solver.
  - by rewrite Hopen.
  - intros _ Hsl. constructor; cbn [at_actor at_queue at_stopped]; try done; try congruence.
    + rewrite <- Hstop. unfold s'. cbn [sh_over]. destruct stop; symmetry.
      * apply bool_decide_eq_true. set_solver.
      * by apply bool_decide_eq_false.
    + unfold s'. rewrite senders_insert, decide_True by done. exact Hsl.
    + unfold s'. rewrite senders_insert, decide_True by done. simpl.
      intros i j n H1 H2. assert (S i = S j); [|lia]. eapply Hon; rewrite <- Hsend; done.
  - by destruct reply.
  - intros n d Heq%list_elem_of_singleton Hd. subst o. destruct Ho as [Hwant Hn]. rewrite Hn in Hd. injection Hd as <-.
    unfold slot_true, reply_true. cbn [sl_state sl_room sl_command].
    destruct c as [p nick k|p txt|p why|why]; try done.
    + destruct reply as [[rr|]|]; try done. cbn [reply_spec] in Hrep. destruct Hrep as [Hiff Herr]. destruct rr as [u|e].
      * exists a. split; [done|]. by apply Hiff.
      * destruct (Herr e eq_refl) as (-> & Hf & ->). split; [done|].
        split; [by eexists|]. intros a0. rewrite Hact. intros [= <-] Hin. by apply Hiff in Hin.
    + destruct reply as [[|rr]|]; try done. destruct Hrep as [-> Hout].
      intros a0. rewrite Hact. by intros [= <-].
Qed.

Lemma actor_ends_moves s r t :
  shared_ok s -> tasks (sh_rooms s) !! r = Some t -> at_stopped t = false -> moves s (actor_ends r t s).
Proof.
  intros Hok Ht Hst. unfold actor_ends. rewrite finish_eq.
  destruct (so_tasks s Hok r t Ht) as [Ha Hcl Hov Hrx _ Hcm Hcap Hse Hon].
  destruct (drop_rx_spec _ (at_queue t)) as (Hdi & Hdm & Hdx).
  set (a' := mkActor _ _ _ _). set (s' := mkShared _ _ _ _).
  assert (Hclosed : ended s' r).
  { exists a'. unfold actor_of. simpl. by rewrite lookup_insert_eq. }
  apply (moves_consumed s s' r t (mkTask a' (drop_rx (at_queue t)) true) (senders_of s r) [] Dropped); try done.
  - by rewrite app_nil_r.
  - unfold s'. cbn [sh_over]. set_solver.
  - intros _ Hsl. constructor; cbn [at_actor at_queue at_stopped]; try done.
    + destruct (ac_closed (at_actor t)) eqn:Hcc.
      * unfold a', Room.close. rewrite <- (ai_closed owner _ Ha), Hcc. cbn [snd].
        destruct (at_actor t). cbn in *. by subst.
      * destruct (handle (Close (lit "x")) (at_actor t, (∅ : gmap Z (Sink Q)))) as [[b o] [a2 ss2]] eqn:Eh.
        pose proof (handle_spec owner _ _ _ _ _ _ _ Ha Hcc (I : cmd_ok owner (Close (lit "x"))) Eh) as (Ha2 & _).
        unfold handle, io_bind in Eh. rewrite finish_eq in Eh. injection Eh as _ _ <- _. done.
    + set_solver.
    + by rewrite Hdi.
    + by rewrite Hdm.
    + unfold s'. rewrite senders_insert, decide_True by done. exact Hsl.
    + unfold s'. rewrite senders_insert, decide_True by done. intros i j n H1. done.
  - cbn [at_queue]. rewrite Hdi. constructor.
Qed.

Lemma actor_stops_moves s r s' : shared_ok s -> actor_stops r s = Some s' -> moves s s'.
Proof.
  intros Hok. unfold actor_stops. destruct (tasks (sh_rooms s) !! r) as [t|] eqn:Ht; [|done].
  case_bool_decide as Ho; [|done]. intros [= <-]. apply actor_ends_moves; try done.
  destruct (at_stopped t) eqn:Hst; [|done]. by destruct (ts_over _ _ _ (so_tasks s Hok r t Ht) Hst).
Qed.

Lemma actor_orphaned_moves s r s' : shared_ok s -> actor_orphaned r s = Some s' -> moves s s'.
Proof.
  intros Hok. unfold actor_orphaned. destruct (tasks (sh_rooms s) !! r) as [t|] eqn:Ht; [|done].
  destruct (at_stopped t || _ || _) eqn:Ho; [done|]. b2p. destruct (items _); [|done]. intros [= <-].
  by apply actor_ends_moves.
Qed.

(* ------------------------------------------------------------------ *)
(** ** The calls' steps *)

(** What a call may ask for. *)
Definition await_ok {X} (e : await X) : Prop :=
  match e with
  | Request _ c => cmd_ok owner c /\ wants_reply c = true
  | Tell _ c | TrySend _ c => cmd_ok owner c /\ wants_reply c = false
  | SpawnActor _ _ cap => (1 <= cap)%nat
  | _ => True
  end.

Fixpoint prog_ok {A} (p : prog A) : Prop :=
  match p with Ret _ => True | Do e k => await_ok e /\ forall x, prog_ok (k x) end.

Ltac queueing s r c :=
  match goal with H : cmd_ok _ _ /\ _ |- _ => destruct H as [? ?] end;
  destruct (handle_try_send r c (sh_rooms s)) as [? ?] eqn:Es;
  apply try_send_sound in Es as [(-> & -> & _)|[(-> & -> & _)|(-> & ? & ? & ? & ? & -> & ? & ? & ?)]];
    try done; intros [= <- <-]; try (by apply moves_service);
  eapply moves_queued; eauto.

Lemma perform_moves {X} fresh (e : await X) s x s' :
  shared_ok s -> await_ok e -> perform fresh e s = Some (x, s') -> moves s s'.
Proof.
  intros Hok He. unfold perform.
  destruct e as [r| | |r|r|r|ev|max now cap|r c|r c|r c|n]; unfold on_service; cbn [await_ok] in He.
  - unfold handle_for. case_decide; [destruct (handle_is_closed _ _)|]; intros [= <- <-]; by apply moves_service.
  - intros [= <- <-]. by apply moves_service.
  - intros [= <- <-]. by apply moves_service.
  - intros [= <- <-]. by apply moves_service.
  - intros [= <- <-]. by apply moves_service.
  - intros [= <- <-]. by apply moves_service.
  - destruct (publish_event ev (sh_rooms s)) as [[] w] eqn:Ep. intros [= <- <-].
    apply publish_event_inv in Ep as (_ & Ht & _). by apply moves_service.
  - destruct (tasks (sh_rooms s) !! fresh) eqn:Ht; [done|]. intros [= <- <-].
    by eapply moves_spawn.
  - queueing s r c.
  - queueing s r c.
  - queueing s r c.
  - destruct (sl_state <$> sh_slots s !! n) as [[| |]|]; try done; intros [= <- <-]; by apply moves_refl.
Qed.

End Inv.
