(* ===== verification/RoomCallsTruth.v ===== *)
(** Whatever calls of the room service interleave ([RoomCalls]), what a call answers was
    true at some moment between its beginning and its end, and no call waits for ever.

    The proof is a program logic: [valid] says of a program that it keeps its promise
    whatever others do between any two of its points; the methods are verified one by one,
    and a run of the whole service composes them. *)
From S2P Require Import Prelude Text Tokio Values Room Session App RoomActor RoomService.
From S2P Require Import RoomCalls RoomCallsInv.
From Stdlib Require Import Strings.String.
Open Scope Z_scope.
Open Scope list_scope.
Abbreviation length := Datatypes.length.

Section Truth.
Context {Q : Type -> Type} `{HQ : Mpsc Q} {E : Type} `{HE : EventPublisher E}.
Abbreviation Rooms := (Rooms Q E).
Abbreviation Shared := (@Shared Q E).
Abbreviation Conc := (@Conc Q E).
Abbreviation Step := (@Step Q).
Variable owner : Z -> PlayerId.
Abbreviation shared_ok := (shared_ok owner).

(* ------------------------------------------------------------------ *)
(** ** What the calls promise *)

Definition at_some (V : list Shared) (P : Shared -> Prop) : Prop := exists s, s ∈ V /\ P s.

Definition gone (r : RoomId) (s : Shared) : Prop := r ∉ registry (sh_rooms s) \/ room_closed s r.
Definition out_of (r : RoomId) (p : PlayerId) (s : Shared) : Prop := gone r s \/ no_member s r p.
Definition queue_full (r : RoomId) (s : Shared) : Prop :=
  exists t, tasks (sh_rooms s) !! r = Some t /\ (max_capacity (at_queue t) <= length (items (at_queue t)))%nat.

(** An error of [join] on room [r], in the states [V] the call saw. *)
Definition join_error (r : RoomId) (p : PlayerId) (V : list Shared) (e : AppError) : Prop :=
  (e = no_room /\ at_some V (gone r)) \/
  (e = Conflict (lit "房间已满") /\ at_some V (fun s => room_full s r /\ no_member s r p)) \/
  (e = Internal (lit "房间已关闭,加入结果未知") /\ at_some V (fun s => room_closed s r)).

(** What the outcome of a call says of the states [V] between its beginning and its end. *)
Definition outcome_true (op : Op) (V : list Shared) (out : Outcome) : Prop :=
  match op, out with
  | OpJoinOrCreate _ (Some r) p _ _ _ _, Ok (Some r') => r' = r /\ at_some V (fun s => is_member s r p)
  | OpJoinOrCreate _ (Some r) p _ _ _ _, Err e => join_error r p V e
  | OpJoinOrCreate _ None p _ _ _ _, Ok (Some r) => at_some V (fun s => is_member s r p)
  | OpJoinOrCreate _ None p _ _ _ _, Err e => exists r, join_error r p V e
  | OpJoinOrCreate _ _ _ _ _ _ _, Ok None => False
  | OpChat r p text, Ok o =>
      o = None /\ chat_ok text = true /\ at_some V (fun s => Chat p (trim text) ∈ queue_of s r)
  | OpChat r p text, Err e =>
      chat_ok text = false \/ (e = no_room /\ at_some V (gone r)) \/ (e = Busy /\ at_some V (queue_full r))
  | OpLeave r p _ _, Ok o => o = None /\ at_some V (out_of r p)
  | OpLeaveAll p _ _, Ok o => o = None /\ forall r, at_some V (out_of r p)
  | OpCloseAll why, Ok o =>
      o = None /\ at_some V (fun s => registry (sh_rooms s) = ∅) /\
      exists s, s ∈ V /\ forall r, r ∈ registry (sh_rooms s) ->
        at_some V (fun s' => room_closed s' r \/ Close why ∈ queue_of s' r)
  | OpLeave _ _ _ _, Err _ | OpLeaveAll _ _ _, Err _ | OpCloseAll _, Err _ => False
  end.

(** A connection joins with its own sink; queues hold at least one command. *)
Definition op_ok (op : Op) : Prop :=
  match op with
  | OpJoinOrCreate c _ p _ sink _ _ => owner sink = p /\ (1 <= command_capacity c)%nat
  | _ => True
  end.

(* ------------------------------------------------------------------ *)
(** ** The program logic *)

Lemma at_some_mono V W (P P' : Shared -> Prop) :
  V ⊆ W -> (forall s, P s -> P' s) -> at_some V P -> at_some W P'.
Proof. intros HVW HP (s & Hs & H). exists s. auto. Qed.

(** The states [V] since a call began, when there were [n0] reply channels; [s] is the
    last one. *)
Record past (n0 : nat) (V : list Shared) (s : Shared) : Prop := mkPast {
  pa_now : s ∈ V;
  pa_ok : shared_ok s;
  pa_len : (n0 <= length (sh_slots s))%nat;
  pa_actors : forall s0 r a, s0 ∈ V -> actor_of s0 r = Some a ->
    exists a', actor_of s r = Some a' /\ (ac_closed a = true -> ac_closed a' = true);
  pa_kept : forall s0 n sl, s0 ∈ V -> sh_slots s0 !! n = Some sl ->
    exists st, sh_slots s !! n = Some (mkSlot (sl_room sl) (sl_command sl) st);
  pa_true : forall n sl, (n0 <= n)%nat -> sh_slots s !! n = Some sl ->
    sl_state sl = Waiting \/ at_some V (fun s' => slot_true s' sl)
}.

Lemma past_start s : shared_ok s -> past (length (sh_slots s)) [s] s.
Proof.
  intros Hok. constructor; try done; [set_solver| | |].
  - intros s0 r a ->%list_elem_of_singleton Ha. eauto.
  - intros s0 n sl ->%list_elem_of_singleton Hs. exists (sl_state sl). by rewrite slot_eta.
  - intros n sl Hn Hs. apply lookup_lt_Some in Hs. lia.
Qed.

Lemma past_moves n0 V s s' : past n0 V s -> moves owner s s' -> past n0 (V ++ [s']) s'.
Proof.
  intros [Hn Ho Hl Ha Hk Ht] [Mo Ma Mk Mt]. constructor; try done; [set_solver| | | |].
  - destruct (sh_slots s) as [|x l] eqn:El using rev_ind; [simpl in *; lia|].
    assert (Hx : (l ++ [x]) !! length l = Some x) by (by rewrite lookup_app_r, Nat.sub_diag).
    destruct (Mk _ _ Hx) as [st Hst%lookup_lt_Some]. rewrite length_app in Hl. simpl in Hl. lia.
  - intros s0 r a [Hs0| ->%list_elem_of_singleton]%elem_of_app Hs; [|eauto].
    destruct (Ha s0 r a Hs0 Hs) as (a1 & Ha1 & Hc1). destruct (Ma r a1 Ha1) as (a2 & ? & ?). eauto.
  - intros s0 n sl [Hs0| ->%list_elem_of_singleton]%elem_of_app Hs.
    + destruct (Hk s0 n sl Hs0 Hs) as [st Hst]. by destruct (Mk _ _ Hst) as [st' ?]; exists st'.
    + exists (sl_state sl). by rewrite slot_eta.
  - intros n sl Hge Hs. destruct (Mt n sl Hs) as [Hs'|Htr].
    + destruct (Ht n sl Hge Hs') as [?|Hsome]; [by left|right].
      eapply at_some_mono; [|intros ? Hx; exact Hx|exact Hsome]. set_solver.
    + right. exists s'. split; [set_solver|done].
Qed.

(** A program may wait only for a reply channel of its own. *)
Definition ready {X} (n0 : nat) (V : list Shared) (e : await X) : Prop :=
  match e with
  | Receive n => (n0 <= n)%nat /\ exists s, s ∈ V /\ is_Some (sh_slots s !! n)
  | _ => True
  end.

Fixpoint valid {A} (n0 : nat) (V : list Shared) (p : prog A) (Post : list Shared -> A -> Prop) : Prop :=
  match p with
  | Ret a => Post V a
  | Do e k =>
      await_ok owner e /\ ready n0 V e /\
      forall V' s fresh x s', V ⊆ V' -> past n0 V' s -> perform fresh e s = Some (x, s') ->
        past n0 (V' ++ [s']) s' -> valid n0 (V' ++ [s']) (k x) Post
  end.

Definition monotone {A} (Post : list Shared -> A -> Prop) : Prop :=
  forall V W a, V ⊆ W -> Post V a -> Post W a.

Lemma ready_mono {X} n0 V W (e : await X) : V ⊆ W -> ready n0 V e -> ready n0 W e.
Proof. destruct e; try done. intros HVW (? & s & ? & ?). split; [done|]. exists s. auto. Qed.

Lemma valid_later {A} n0 V W (p : prog A) Post :
  monotone Post -> V ⊆ W -> valid n0 V p Post -> valid n0 W p Post.
Proof.
  intros Hm HVW. destruct p as [a|X e k]; cbn [valid]; [by apply Hm|].
  intros (Ha & Hr & Hk). split; [done|]. split; [by eapply ready_mono|].
  intros V' s fresh x s' HW. apply Hk. set_solver.
Qed.

Lemma valid_map {A} n0 (p : prog A) (Post Post' : list Shared -> A -> Prop) : forall V,
  (forall W a, V ⊆ W -> Post W a -> Post' W a) -> valid n0 V p Post -> valid n0 V p Post'.
Proof.
  induction p as [a|X e k IH]; intros V HP Hp; cbn [valid] in *; [by apply HP|].
  destruct Hp as (Ha & Hr & Hk). split; [done|]. split; [done|].
  intros V' s f x s' HV' Hp Hx Hp'. eapply IH; [|by eapply Hk]. intros W a HW. apply HP. set_solver.
Qed.

Lemma valid_bind {A B} n0 (p : prog A) (f : A -> prog B) Mid Post : forall V,
  valid n0 V p Mid -> (forall W a, V ⊆ W -> Mid W a -> valid n0 W (f a) Post) ->
  valid n0 V (pbind p f) Post.
Proof.
  induction p as [a|X e k IH]; intros V Hp Hf; cbn [pbind valid] in *; [by apply Hf|].
  destruct Hp as (Ha & Hr & Hk). split; [done|]. split; [done|].
  intros V' s fresh x s' HV Hpast Hx Hpast'. apply IH; [by eapply Hk|].
  intros W a HW. apply Hf. set_solver.
Qed.

(* ------------------------------------------------------------------ *)
(** ** The points *)

Lemma at_last V (s : Shared) (P : Shared -> Prop) : P s -> at_some (V ++ [s]) P.
Proof. intros. exists s. split; [set_solver|done]. Qed.
Lemma at_now n0 V W (s : Shared) (P : Shared -> Prop) : past n0 V s -> P s -> at_some (V ++ W) P.
Proof. intros [] ?. exists s. split; [set_solver|done]. Qed.

Lemma perform_handle_for fresh r (s : Shared) x s' :
  perform fresh (HandleFor r) s = Some (x, s') ->
  match x with Some h => h = r /\ is_Some (actor_of s r) | None => gone r s end.
Proof.
  unfold perform, on_service, handle_for. case_decide as Hin.
  - destruct (handle_is_closed (sh_rooms s) r) eqn:Hc; intros [= <- <-]; [by right|]. split; [done|].
    unfold handle_is_closed, actor_of in *. destruct (_ !! r); [by eexists|done].
  - intros [= <- <-]. by left.
Qed.

Lemma perform_request fresh r c (s : Shared) x s' :
  shared_ok s -> perform fresh (Request r c) s = Some (x, s') ->
  match x with
  | Ok n => n = length (sh_slots s) /\ sh_slots s' !! n = Some (mkSlot r c Waiting)
  | Err e => e = no_room /\ room_closed s r
  end.
Proof.
  intros Hok. cbn [perform]. destruct (handle_try_send r c (sh_rooms s)) as [res w] eqn:Es.
  apply (try_send_sound owner) in Es as [(-> & -> & Hc)|[(-> & -> & _)|(-> & t & q & _)]]; try done;
    intros [= <- <-]; [done|]. split; [done|]. cbn [requested sh_slots].
  by rewrite lookup_app_r, Nat.sub_diag.
Qed.

Lemma ended_closed (s : Shared) r : ended s r -> room_closed s r.
Proof.
  intros (a & Ha & Hc). unfold room_closed, handle_is_closed, actor_of in *.
  destruct (_ !! r); [|done]. by injection Ha as ->.
Qed.

(** A reply that is received was true once. *)
Lemma perform_receive n0 V fresh n r c (s s0 : Shared) x s' :
  past n0 V s -> (n0 <= n)%nat -> s0 ∈ V -> sh_slots s0 !! n = Some (mkSlot r c Waiting) ->
  perform fresh (Receive n) s = Some (x, s') ->
  at_some V (fun s1 => match x with Some rep => reply_true s1 r c rep | None => ended s1 r end).
Proof.
  intros Hp Hn Hin Hs0 Hx. destruct (pa_kept _ _ _ Hp _ _ _ Hin Hs0) as [st Hst].
  cbn [perform] in Hx. rewrite Hst in Hx. cbn in Hx.
  destruct (pa_true _ _ _ Hp n _ Hn Hst) as [Hw|Htr]; [cbn in Hw; by subst st|].
  destruct st as [|rep|]; [done| |]; injection Hx as <- <-; exact Htr.
Qed.

(** Others' steps and one's own do not undo a promise about the past. *)
Ltac later := eapply at_some_mono; [|intros ? Hlater; exact Hlater|eassumption]; set_solver.
Ltac at_point e := cbn [valid]; split; [try done|]; split; [try done|].

(* ------------------------------------------------------------------ *)
(** ** The methods *)

Definition join_post (r : RoomId) (p : PlayerId) (V : list Shared) (res : result unit AppError) : Prop :=
  match res with Ok _ => at_some V (fun s => is_member s r p) | Err e => join_error r p V e end.

Lemma join_error_mono r p e V W : V ⊆ W -> join_error r p V e -> join_error r p W e.
Proof.
  intros HVW [[-> ?]|[[-> ?]|[-> ?]]]; [left|right; left|right; right]; (split; [done|]); later.
Qed.

Lemma join_valid n0 V r p n sink now :
  owner sink = p -> valid n0 V (Calls.join r p n sink now) (join_post r p).
Proof.
  intros Ho. unfold Calls.join. at_point tt.
  intros V1 s1 f1 o s1' HV1 Hp1 H1 Hp1'. apply perform_handle_for in H1.
  destruct o as [h|]; [destruct H1 as [-> _]|left; split; [done|]; by eapply at_now]. at_point tt.
  intros V2 s2 f2 sent s2' HV2 Hp2 H2 Hp2'. apply perform_request in H2; [|apply Hp2].
  destruct sent as [t|e]; [|destruct H2 as [-> Hc]; left; split; [done|]; eapply at_now; [done|by right]].
  destruct H2 as [-> Hs]. pose proof (pa_len _ _ _ Hp2) as Hlen. cbn [valid].
  split; [done|]. split; [split; [done|]; exists s2'; split; [set_solver|by eexists]|].
  intros V3 s3 f3 reply s3' HV3 Hp3 H3 Hp3'.
  apply (perform_receive n0 V3 f3 _ r (Join p n sink) s3 s2') in H3; try done; [|set_solver].
  destruct reply as [[[u|e]|b]|]; cbn [reply_true] in H3.
  - at_point tt. intros V4 s4 f4 x s4' HV4 Hp4 H4 Hp4'. cbn [valid join_post]. later.
  - destruct H3 as (s & Hin & -> & Hf & Hm). cbn [valid join_post]. right; left. split; [done|].
    exists s. split; [set_solver|done].
  - by destruct H3 as (? & _ & ?).
  - cbn [valid join_post]. right; right. split; [done|].
    destruct H3 as (s & Hin & He). exists s. split; [set_solver|by apply ended_closed].
Qed.

Definition out_post (r : RoomId) (p : PlayerId) (V : list Shared) (res : result unit AppError) : Prop :=
  res = Ok tt /\ at_some V (out_of r p).

Lemma left_valid n0 V r p why now h b :
  at_some V (out_of r p) -> valid n0 V (Calls.left r p why now h b) (out_post r p).
Proof.
  intros Hout. unfold Calls.left. at_point tt. intros V1 s1 f1 closed s1' HV1 Hp1 H1 Hp1'.
  apply (valid_bind n0 _ _ (fun W _ => V1 ⊆ W)).
  { destruct closed; [at_point tt|cbn [valid]; set_solver].
    intros V2 s2 f2 x s2' HV2 Hp2 H2 Hp2'. cbn [valid]. set_solver. }
  intros W [] HW HVW. destruct (negb b); [split; [done|]; later|].
  at_point tt. intros V2 s2 f2 x s2' HV2 Hp2 H2 Hp2'. split; [done|]. later.
Qed.

(** A closed room with an actor stays closed. *)
Lemma room_stays_closed n0 V (s s0 : Shared) r :
  past n0 V s -> s0 ∈ V -> is_Some (actor_of s0 r) -> room_closed s0 r -> room_closed s r.
Proof.
  intros Hp Hin [a Ha] Hc. destruct (pa_actors _ _ _ Hp s0 r a Hin Ha) as (a' & Ha' & Hcl).
  apply ended_closed. exists a'. split; [done|]. apply Hcl.
  unfold room_closed, handle_is_closed, actor_of in *. destruct (_ !! r); [|done]. by injection Ha as <-.
Qed.

Lemma perform_is_closed fresh r (s : Shared) x s' :
  perform fresh (IsClosed r) s = Some (x, s') -> room_closed s r -> x = true.
Proof. unfold perform, on_service, room_closed. intros [= <- _]. done. Qed.

Lemma leave_valid n0 V r p why now : valid n0 V (Calls.leave r p why now) (out_post r p).
Proof.
  unfold Calls.leave. at_point tt.
  intros V1 s1 f1 o s1' HV1 Hp1 H1 Hp1'. apply perform_handle_for in H1.
  destruct o as [h|]; [destruct H1 as [-> Hact]|split; [done|]; eapply at_now; [done|by left]]. at_point tt.
  intros V2 s2 f2 sent s2' HV2 Hp2 H2 Hp2'. apply perform_request in H2; [|apply Hp2].
  assert (Hact2 : is_Some (actor_of s2 r)).
  { destruct Hact as [a Ha]. destruct (pa_actors _ _ _ Hp2 s1 r a) as (a' & ? & _); [|done|by exists a'].
    apply HV2. pose proof (pa_now _ _ _ Hp1). set_solver. }
  destruct sent as [t|e].
  2: { destruct H2 as [-> Hc]. at_point tt. intros V3 s3 f3 closed s3' HV3 Hp3 H3 Hp3'.
       pose proof (pa_now _ _ _ Hp2) as Hin2.
       assert (room_closed s3 r) by (eapply (room_stays_closed n0 V3 s3 s2); try done; set_solver).
       apply perform_is_closed in H3 as ->; [|done]. at_point tt.
       intros V4 s4 f4 x s4' HV4 Hp4 H4 Hp4'. split; [done|]. exists s2. split; [set_solver|left; by right]. }
  destruct H2 as [-> Hs]. pose proof (pa_len _ _ _ Hp2) as Hlen. cbn [valid].
  split; [done|]. split; [split; [done|]; exists s2'; split; [set_solver|by eexists]|].
  intros V3 s3 f3 reply s3' HV3 Hp3 H3 Hp3'.
  apply (perform_receive n0 V3 f3 _ r (Leave p why) s3 s2') in H3; try done; [|set_solver].
  destruct reply as [[[u|e]|[b|e]]|]; cbn [reply_true] in H3; try (by destruct H3 as (? & _ & ?)).
  - apply left_valid. destruct H3 as (s & Hin & Hm). exists s. split; [set_solver|by right].
  - destruct H3 as (s & Hin & He). at_point tt. intros V4 s4 f4 closed s4' HV4 Hp4 H4 Hp4'.
    assert (Hc : room_closed s4 r).
    { destruct He as (a & Ha & Hc). apply (room_stays_closed n0 V4 s4 s); [done|set_solver|by exists a|].
      apply ended_closed. by exists a. }
    apply perform_is_closed in H4 as ->; [|done]. apply left_valid. exists s.
    split; [set_solver|left; right; by apply ended_closed].
Qed.

Definition create_post (p : PlayerId) (V : list Shared) (res : result RoomId AppError) : Prop :=
  match res with
  | Ok r => at_some V (fun s => is_member s r p)
  | Err e => exists r, join_error r p V e
  end.

Lemma create_valid n0 V config p n sink now1 now2 :
  owner sink = p -> (1 <= command_capacity config)%nat ->
  valid n0 V (Calls.create_and_join config p n sink now1 now2) (create_post p).
Proof.
  intros Ho Hcap. unfold Calls.create_and_join. at_point tt.
  intros V1 s1 f1 room s1' HV1 Hp1 H1 Hp1'. at_point tt.
  intros V2 s2 f2 x s2' HV2 Hp2 H2 Hp2'.
  apply (valid_bind n0 _ _ (join_post room p)); [by apply join_valid|].
  intros W [u|e] HW Hj; cbn [valid]; [exact Hj|]. at_point tt.
  intros V3 s3 f3 y s3' HV3 Hp3 H3 Hp3'. exists room. eapply join_error_mono; [|exact Hj]. set_solver.
Qed.

Lemma chat_valid n0 V r p text :
  valid n0 V (Calls.chat r p text) (fun V res => outcome_true (OpChat r p text) V (no_value res)).
Proof.
  unfold Calls.chat.
  destruct (is_empty (trim text)) eqn:H1; [left; unfold chat_ok; by rewrite H1|].
  destruct (MAX_CHAT_CHARS <? length (trim text))%nat eqn:H2; [left; unfold chat_ok; by rewrite H2, orb_true_r|].
  assert (Hok : chat_ok text = true) by (unfold chat_ok; by rewrite H1, H2). clear H1 H2.
  at_point tt. intros V1 s1 f1 o s1' HV1 Hp1 H1 Hp1'. apply perform_handle_for in H1.
  destruct o as [h|]; [destruct H1 as [-> Hact]|right; left; split; [done|]; by eapply at_now]. at_point tt.
  intros V2 s2 f2 sent s2' HV2 Hp2 H2 Hp2'. cbn [perform valid] in *.
  destruct (handle_try_send r _ (sh_rooms s2)) as [res w] eqn:Es.
  apply (try_send_sound owner) in Es
    as [(-> & -> & Hc)|[(-> & -> & t & Ht & Hst & Hl)|(-> & t & q & Ht & Hst & -> & Hi & Hm & Hx)]];
    [..|apply Hp2]; injection H2 as <- <-; cbn [outcome_true no_value].
  - right; left. split; [done|]. eapply at_now; [done|by right].
  - right; right. split; [done|]. eapply at_now; [done|]. by exists t.
  - split; [done|]. split; [done|]. apply at_last. unfold queue_of. cbn. rewrite lookup_insert_eq. cbn.
    rewrite Hi. set_solver.
Qed.

Lemma leave_each_valid n0 hs p why now : forall V,
  valid n0 V (Calls.leave_each hs p why now)
    (fun V res => res = Ok tt /\ forall r, r ∈ hs -> at_some V (out_of r p)).
Proof.
  induction hs as [|h hs IH]; intros V; cbn [Calls.leave_each].
  - split; [done|]. by intros r ?%not_elem_of_nil.
  - apply (valid_bind n0 _ _ (out_post h p)); [apply leave_valid|].
    intros W res HW [-> Hout].
    eapply valid_map; [|apply IH].
    intros V1 res HV1 [-> Hall]. split; [done|].
    intros r [->|Hr]%elem_of_cons; [later|by apply Hall].
Qed.

Lemma leave_all_valid n0 V p why now :
  valid n0 V (Calls.leave_all p why now) (fun V res => res = Ok tt /\ forall r, at_some V (out_of r p)).
Proof.
  unfold Calls.leave_all. at_point tt. intros V1 s1 f1 hs s1' HV1 Hp1 H1 Hp1'.
  pose proof (leave_each_valid n0 hs p why now (V1 ++ [s1'])) as Hv. revert Hv.
  apply valid_map. intros V2 res HV2 [-> Hall]. split; [done|]. intros r.
  cbn [perform] in H1. unfold on_service, live_handles in H1. injection H1 as <- <-.
  destruct (decide (r ∈ filter (fun r => handle_is_closed (sh_rooms s1) r = false) (registry (sh_rooms s1)))) as [Hin|Hout].
  - apply Hall. by apply elem_of_elements.
  - eexists. split; [apply HV2; apply elem_of_app; right; by apply list_elem_of_singleton|].
    left; left. exact Hout.
Qed.

Definition closing_now (why : rstr) (r : RoomId) (s : Shared) : Prop :=
  room_closed s r \/ Close why ∈ queue_of s r.

Lemma close_each_valid n0 hs why : forall V,
  valid n0 V (Calls.close_each hs why) (fun V _ => forall r, r ∈ hs -> at_some V (closing_now why r)).
Proof.
  induction hs as [|h hs IH]; intros V; cbn [Calls.close_each]; [by intros r ?%not_elem_of_nil|].
  at_point tt. intros V1 s1 f1 x s1' HV1 Hp1 H1 Hp1'.
  assert (Hh : at_some (V1 ++ [s1']) (closing_now why h)).
  { cbn [perform] in H1. destruct (handle_try_send h _ (sh_rooms s1)) as [res w] eqn:Es.
    apply (try_send_sound owner) in Es
      as [(-> & -> & Hc)|[(-> & -> & _)|(-> & t & q & Ht & Hst & -> & Hi & Hm & Hx)]];
      try done; [..|apply Hp1]; injection H1 as <- <-.
    - eapply at_now; [done|by left].
    - apply at_last. right. unfold queue_of. cbn. rewrite lookup_insert_eq. cbn. rewrite Hi. set_solver. }
  eapply valid_map; [|apply IH]. intros V2 u HV2 Hall r [->|Hr]%elem_of_cons; [later|by apply Hall].
Qed.

Lemma close_all_valid n0 V why :
  valid n0 V (Calls.close_all why) (fun V res => outcome_true (OpCloseAll why) V (no_value res)).
Proof.
  unfold Calls.close_all. at_point tt. intros V1 s1 f1 hs s1' HV1 Hp1 H1 Hp1'.
  apply (valid_bind n0 _ _ (fun W _ => V1 ++ [s1'] ⊆ W /\ forall r, r ∈ hs -> at_some W (closing_now why r))).
  { eapply valid_map; [|apply close_each_valid]. intros V2 u HV2 Hall. done. }
  intros W u HW [HVW Hall]. cbn [valid no_value outcome_true]. split; [done|].
  cbn [perform] in H1. unfold on_service in H1. injection H1 as <- <-. split.
  - eexists. split; [apply HVW, elem_of_app; right; by apply list_elem_of_singleton|]. done.
  - exists s1. split; [apply HVW, elem_of_app; left; apply Hp1|]. intros r Hr. apply Hall. by apply elem_of_elements.
Qed.

(** Every public method keeps its promise. *)
Lemma program_valid n0 V op : op_ok op -> valid n0 V (program op) (outcome_true op).
Proof.
  destruct op as [config [r|] p n sink now1 now2|r p text|r p why now|p why now|why]; cbn [op_ok program].
  - intros [Ho _]. unfold Calls.join_or_create.
    apply (valid_bind n0 _ _ (fun W res => match res with Ok r' => r' = r /\ at_some W (fun s => is_member s r p)
                                         | Err e => join_error r p W e end)).
    + apply (valid_bind n0 _ _ (join_post r p)); [by apply join_valid|].
      intros W [u|e] HW Hj; cbn [valid]; [done|exact Hj].
    + intros W [r'|e] HW Hj; exact Hj.
  - intros [Ho Hcap]. apply (valid_bind n0 _ _ (create_post p)); [by apply create_valid|].
    intros W [r'|e] HW Hj; exact Hj.
  - intros _. eapply valid_bind; [apply chat_valid|]. intros W res HW H. exact H.
  - intros _. eapply valid_bind; [apply leave_valid|]. intros W res HW [-> H]. done.
  - intros _. eapply valid_bind; [apply leave_all_valid|]. intros W res HW [-> H]. done.
  - intros _. eapply valid_bind; [apply close_all_valid|]. intros W res HW H. exact H.
Qed.

(* ------------------------------------------------------------------ *)
(** ** Runs *)

Definition step_ok (a : Step) : Prop := match a with Call _ op => op_ok op | _ => True end.

(** A run with its history: the state before each step, and the step. *)
Inductive run (s0 : Conc) : list (Conc * Step) -> Conc -> Prop :=
| run_start : run s0 [] s0
| run_step h s a s1 :
    run s0 h s -> step_ok a -> step a s = Some s1 -> run s0 (h ++ [(s, a)]) s1.

(** The shared states from the beginning of a call on: those before the later steps, and
    the present one. *)
Definition seen (after : list (Conc * Step)) (s : Conc) : list Shared :=
  map (fun x => cc_shared (fst x)) after ++ [cc_shared s].

Definition begun (h : list (Conc * Step)) (k : Z) (op : Op) (s1 : Conc) (after : list (Conc * Step)) : Prop :=
  exists before, h = before ++ (s1, Call k op) :: after /\ forall x op', x ∈ after -> snd x <> Call k op'.

Record conc_inv (h : list (Conc * Step)) (s : Conc) : Prop := mkConcInv {
  ci_shared : shared_ok (cc_shared s);
  ci_calls : forall k p, cc_calls s !! k = Some p -> exists op s1 after,
    begun h k op s1 after /\
    let n0 := length (sh_slots (cc_shared s1)) in
    past n0 (seen after s) (cc_shared s) /\ valid n0 (seen after s) p (outcome_true op)
}.

Lemma outcome_true_mono op : monotone (outcome_true op).
Proof.
  intros V W out HVW.
  destruct op as [config [r|] p n sink now1 now2|r p text|r p why now|p why now|why], out as [[r'|]|e];
    cbn [outcome_true]; try done; intros H.
  - destruct H as [-> H]. split; [done|]. later.
  - by eapply join_error_mono.
  - later.
  - destruct H as [r' H]. exists r'. by eapply join_error_mono.
  - by destruct H.
  - destruct H as (_ & ? & ?). split; [done|]. split; [done|]. later.
  - destruct H as [?|[[-> ?]|[-> ?]]]; [by left|right; left|right; right]; (split; [done|]); later.
  - by destruct H.
  - destruct H as [_ ?]. split; [done|]. later.
  - by destruct H.
  - destruct H as [_ H]. split; [done|]. intros r. specialize (H r). later.
  - by destruct H.
  - destruct H as (_ & H1 & s & Hs & H2). split; [done|]. split; [later|].
    exists s. split; [by apply HVW|]. intros r Hr. specialize (H2 r Hr). later.
Qed.

Lemma seen_snoc after (s s1 : Conc) a : seen (after ++ [(s, a)]) s1 = seen after s ++ [cc_shared s1].
Proof. unfold seen. rewrite map_app. simpl. by rewrite <- app_assoc. Qed.

Lemma begun_snoc h k op s1 after s a :
  begun h k op s1 after -> (forall op', a <> Call k op') -> begun (h ++ [(s, a)]) k op s1 (after ++ [(s, a)]).
Proof.
  intros (before & -> & Hn) Ha. exists before. split; [by rewrite <- app_assoc|].
  intros x op' [Hx| ->%list_elem_of_singleton]%elem_of_app; [by apply Hn|apply Ha].
Qed.

Lemma step_moves h s a s1 : conc_inv h s -> step a s = Some s1 -> moves owner (cc_shared s) (cc_shared s1).
Proof.
  intros [Hok Hcalls] Hs. destruct a as [k op|k fresh|k|r|r|r|f]; cbn [step] in Hs.
  - case_match; [done|]. injection Hs as <-. by apply moves_refl.
  - unfold advance in Hs. destruct (cc_calls s !! k) as [[out|X e f]|] eqn:Hk; try done.
    destruct (Hcalls k _ Hk) as (op & s0 & after & _ & _ & He & _).
    destruct (perform fresh e (cc_shared s)) as [[x s']|] eqn:Hx; [|done]. injection Hs as <-.
    by eapply perform_moves.
  - injection Hs as <-. by apply moves_refl.
  - unfold on_shared in Hs. destruct (actor_handles r (cc_shared s)) eqn:Ha; [|done]. injection Hs as <-.
    by eapply actor_handles_moves.
  - unfold on_shared in Hs. destruct (actor_stops r (cc_shared s)) eqn:Ha; [|done]. injection Hs as <-.
    by eapply actor_stops_moves.
  - unfold on_shared in Hs. destruct (actor_orphaned r (cc_shared s)) eqn:Ha; [|done]. injection Hs as <-.
    by eapply actor_orphaned_moves.
  - injection Hs as <-. by apply moves_service.
Qed.

(** A call that is not the one that moved. *)
Lemma call_waits h s a s1 k p :
  conc_inv h s -> step a s = Some s1 -> (forall op', a <> Call k op') -> cc_calls s !! k = Some p ->
  exists op s0 after, begun (h ++ [(s, a)]) k op s0 after /\
    let n0 := length (sh_slots (cc_shared s0)) in
    past n0 (seen after s1) (cc_shared s1) /\ valid n0 (seen after s1) p (outcome_true op).
Proof.
  intros Hinv Hs Ha Hk. destruct (ci_calls _ _ Hinv k p Hk) as (op & s0 & after & Hb & Hp & Hv).
  exists op, s0, (after ++ [(s, a)]). split; [by apply begun_snoc|]. rewrite seen_snoc. split.
  - eapply past_moves; [exact Hp|]. by eapply step_moves.
  - eapply valid_later; [apply outcome_true_mono| |exact Hv]. set_solver.
Qed.

Lemma conc_inv_step h s a s1 :
  conc_inv h s -> step_ok a -> step a s = Some s1 -> conc_inv (h ++ [(s, a)]) s1.
Proof.
  intros Hinv Ha Hs. pose proof (step_moves h s a s1 Hinv Hs) as Hm. constructor; [apply Hm|].
  intros k p Hk.
  assert (Hwait : cc_calls s !! k = Some p -> (forall op', a <> Call k op') -> exists op s0 after,
    begun (h ++ [(s, a)]) k op s0 after /\
    let n0 := length (sh_slots (cc_shared s0)) in
    past n0 (seen after s1) (cc_shared s1) /\ valid n0 (seen after s1) p (outcome_true op)).
  { intros Hk' Hne. by eapply call_waits. }
  destruct a as [k' op|k' fresh|k'|r|r|r|f]; cbn [step step_ok] in Hs, Ha;
    try (unfold on_shared in Hs; case_match; [|done]; injection Hs as <-; by apply Hwait);
    try (injection Hs as <-; by apply Hwait).
  - destruct (cc_calls s !! k') eqn:Hk'; [done|]. injection Hs as <-. cbn [cc_calls] in Hk.
    apply lookup_insert_Some in Hk as [[<- <-]|[Hne Hk]].
    + exists op, s, []. split; [exists h; split; [done|]; by intros x op' ?%not_elem_of_nil|].
      split; [apply past_start, Hinv|]. by apply program_valid.
    + apply Hwait; [done|]. intros op' [= <- _]. done.
  - unfold advance in Hs. destruct (cc_calls s !! k') as [[out|X e f]|] eqn:Hk'; try done.
    destruct (perform fresh e (cc_shared s)) as [[x s']|] eqn:Hx; [|done]. injection Hs as <-.
    cbn [cc_calls cc_shared] in *. apply lookup_insert_Some in Hk as [[<- <-]|[Hne Hk]]; [|by apply Hwait].
    destruct (ci_calls _ _ Hinv k' _ Hk') as (op & s0 & after & Hb & Hp & He & Hr & Hv).
    exists op, s0, (after ++ [(s, Advance k' fresh)]). split; [by apply begun_snoc|].
    rewrite seen_snoc. cbn [cc_shared]. pose proof (past_moves _ _ _ _ Hp Hm) as Hp'.
    split; [exact Hp'|]. by eapply Hv.
  - injection Hs as <-. cbn [cc_calls] in Hk. apply lookup_delete_Some in Hk as [Hne Hk]. by apply Hwait.
Qed.

Lemma conc_start_inv e ss : conc_inv [] (conc_start e ss).
Proof.
  constructor; [constructor|]; cbn.
  - intros r t. by rewrite lookup_empty.
  - intros r _. split; [done|set_solver].
  - intros n r c Hn. by rewrite lookup_nil in Hn.
  - intros k p. by rewrite lookup_empty.
Qed.

Lemma run_inv e ss h s : run (conc_start e ss) h s -> conc_inv h s.
Proof. intros Hr. induction Hr; [apply conc_start_inv|by eapply conc_inv_step]. Qed.

(** C16: Whatever calls of the room service run at the same time, and however they
    interleave with each other and with the room actors, what a call answers was true at
    some moment between its beginning and its end: who joined was a member, and was refused
    only by a room that was unknown, closed or full; a chat that was accepted was queued; who
    left was out of the room, and who left all rooms was out of each of them; leaving never
    fails; after [close_all] every room it found had closed or had been told to. *)
Theorem answers_were_true (e : E) (ss : gmap Z (Sink Q)) (h : list (Conc * Step)) (s : Conc) (k : Z)
  (out : Outcome)
  (Hrun : run (conc_start e ss) h s) (Hout : cc_calls s !! k = Some (Ret out)) :
  exists op s1 after, begun h k op s1 after /\ outcome_true op (seen after s) out.
Proof.
  destruct (ci_calls _ _ (run_inv _ _ _ _ Hrun) k _ Hout) as (op & s1 & after & Hb & _ & Hv).
  by exists op, s1, after.
Qed.

(* ------------------------------------------------------------------ *)
(** ** No call waits for ever *)

(** The steps that answer call [k]: its own, and those of the actors. *)
Definition answers (k : Z) (a : Step) : Prop :=
  match a with Advance k' _ => k' = k | ActorHandles _ | ActorStops _ => True | _ => False end.
Definition answering (k : Z) (s s' : Conc) : Prop := exists a, answers k a /\ step a s = Some s'.

Lemma answering_inv k h s s' :
  conc_inv h s -> star (answering k) s s' ->
  (exists h', conc_inv h' s') /\
  forall n sl, sh_slots (cc_shared s) !! n = Some sl ->
    exists st, sh_slots (cc_shared s') !! n = Some (mkSlot (sl_room sl) (sl_command sl) st).
Proof.
  intros Hinv Hs. induction Hs as [|s1 s2 _ [[h1 IH] Hkept] (a & Ha & Hstep)].
  - split; [by exists h|]. intros n sl Hn. exists (sl_state sl). by rewrite slot_eta.
  - split.
    + eexists. eapply conc_inv_step; [exact IH| |exact Hstep]. by destruct a.
    + intros n sl Hn. destruct (Hkept n sl Hn) as [st Hst].
      exact (mv_kept _ _ _ (step_moves _ _ _ _ IH Hstep) _ _ Hst).
Qed.

(** The actors empty a room's queue. *)
Lemma queue_drains k r n : forall h s,
  conc_inv h s -> length (queue_of (cc_shared s) r) = n ->
  exists s', star (answering k) s s' /\ cc_calls s' = cc_calls s /\ queue_of (cc_shared s') r = [].
Proof.
  induction n as [|n IH]; intros h s Hinv Hn.
  { exists s. split; [constructor|]. split; [done|]. by apply nil_length_inv. }
  unfold queue_of in Hn. destruct (tasks (sh_rooms (cc_shared s)) !! r) as [t|] eqn:Ht; [|done].
  pose proof (so_tasks _ _ (ci_shared _ _ Hinv) r t Ht) as Hts.
  destruct (at_stopped t) eqn:Hst; [by rewrite (ts_end _ _ _ _ Hts Hst) in Hn|].
  destruct (decide (r ∈ sh_over (cc_shared s))) as [Ho|Ho].
  - exists (mkConc (actor_ends r t (cc_shared s)) (cc_calls s)). split; [|split; [done|]].
    + eapply star_snoc; [constructor|]. exists (ActorStops r). split; [done|]. cbn [step]. unfold actor_stops.
      by rewrite Ht, bool_decide_eq_true_2.
    + cbn [cc_shared]. unfold queue_of, actor_ends. rewrite finish_eq. cbn. rewrite lookup_insert_eq. cbn.
      apply drop_rx_spec.
  - destruct (pop_cases (at_queue t) _ eq_refl) as [[_ Hi]|(c & l & q & Hp & Hi & Hi' & _)]; [by rewrite Hi in Hn|].
    assert (Hstep : exists s1, step (ActorHandles r) s = Some s1 /\ cc_calls s1 = cc_calls s /\
                               queue_of (cc_shared s1) r = l).
    { cbn [step]. unfold actor_handles. rewrite Ht, Hst, bool_decide_eq_false_2 by done. cbn [orb]. rewrite Hp.
      destruct (handle c _) as [[stop reply] [a ss]]. eexists. split; [done|]. split; [done|].
      unfold queue_of. cbn. rewrite lookup_insert_eq. exact Hi'. }
    destruct Hstep as (s1 & Hs1 & Hc1 & Hq1).
    destruct (IH (h ++ [(s, ActorHandles r)]) s1) as (s2 & H2 & Hc2 & Hq2).
    + by eapply conc_inv_step.
    + rewrite Hq1. rewrite Hi in Hn. by injection Hn.
    + exists s2. split; [|split; [congruence|done]]. eapply star_trans; [|exact H2].
      eapply star_snoc; [constructor|]. by exists (ActorHandles r).
Qed.

(** The room a call can wait for. *)
Definition waits_for {X} (e : await X) (s : Shared) : RoomId :=
  match e with
  | Request r _ | Tell r _ => r
  | Receive n => match sh_slots s !! n with Some sl => sl_room sl | None => 0 end
  | _ => 0
  end.

Lemma empty_queue_senders (s : Shared) r : shared_ok s -> queue_of s r = [] -> senders_of s r = [].
Proof.
  intros Hok. unfold queue_of. destruct (tasks (sh_rooms s) !! r) as [t|] eqn:Ht.
  - intros Hq. pose proof (ts_senders _ _ _ _ (so_tasks _ _ Hok r t Ht)) as Hf. rewrite Hq in Hf. by inversion Hf.
  - intros _. by apply (so_none _ _ Hok).
Qed.

(** With an empty queue nothing is in a call's way. *)
Lemma can_perform {X} (e : await X) n0 V (s : Shared) :
  past n0 V s -> ready n0 V e -> queue_of s (waits_for e s) = [] ->
  exists fresh x s', perform fresh e s = Some (x, s').
Proof.
  intros Hp Hr Hq. pose proof (pa_ok _ _ _ Hp) as Hok.
  assert (Hroom : forall r c, queue_of s r = [] -> forall res w, handle_try_send r c (sh_rooms s) = (res, w) ->
            res <> Err Busy).
  { intros r c Hq' res w Es ->. apply (try_send_sound owner) in Es as [(? & _)|[(_ & _ & t & Ht & Hst & Hl)|(? & _)]];
      try done. unfold queue_of in Hq'. rewrite Ht in Hq'. rewrite Hq' in Hl.
    pose proof (ts_cap _ _ _ _ (so_tasks _ _ Hok r t Ht)). simpl in Hl. lia. }
  destruct e as [r| | |r|r|r|ev|max now cap|r c|r c|r c|n]; cbn [perform waits_for] in *; unfold on_service.
  - exists 0. destruct (handle_for r (sh_rooms s)). eauto.
  - exists 0. eauto.
  - exists 0. eauto.
  - exists 0. eauto.
  - exists 0. eauto.
  - exists 0. eauto.
  - exists 0. destruct (publish_event ev (sh_rooms s)). eauto.
  - exists (fresh (dom (tasks (sh_rooms s)))).
    rewrite (not_elem_of_dom_1 (tasks (sh_rooms s))) by apply is_fresh. destruct (spawn _ _ _). eauto.
  - exists 0. destruct (handle_try_send r c (sh_rooms s)) as [[|]] eqn:Es; eauto.
  - exists 0. destruct (handle_try_send r c (sh_rooms s)) as [[|er]] eqn:Es; [eauto|].
    specialize (Hroom r c Hq _ _ Es). destruct er; try done; eauto.
  - exists 0. destruct (handle_try_send r c (sh_rooms s)) as [[|er]] eqn:Es; [eauto|].
    specialize (Hroom r c Hq _ _ Es). destruct er; try done; eauto.
  - exists 0. destruct Hr as (_ & s0 & Hin & [sl Hsl]). destruct (pa_kept _ _ _ Hp s0 n sl Hin Hsl) as [st Hst].
    rewrite Hst in Hq |- *. cbn in Hq |- *. destruct st; eauto.
    apply (so_waiting _ _ Hok) in Hst. rewrite (empty_queue_senders s _ Hok Hq) in Hst.
    by apply not_elem_of_nil in Hst.
Qed.

Lemma call_returns p : forall h s k,
  conc_inv h s -> cc_calls s !! k = Some p ->
  exists s' out, star (answering k) s s' /\ cc_calls s' !! k = Some (Ret out).
Proof.
  induction p as [out|X e f IH]; intros h s k Hinv Hk; [exists s, out; split; [constructor|done]|].
  set (r := waits_for e (cc_shared s)).
  destruct (queue_drains k r _ h s Hinv eq_refl) as (s1 & H1 & Hc1 & Hq1).
  destruct (answering_inv k h s s1 Hinv H1) as [[h1 Hinv1] Hkept].
  assert (Hk1 : cc_calls s1 !! k = Some (Do e f)) by (by rewrite Hc1).
  destruct (ci_calls _ _ Hinv k _ Hk) as (op0 & s0 & after0 & _ & Hp0 & _ & Hr0 & _).
  destruct (ci_calls _ _ Hinv1 k _ Hk1) as (op & s2 & after & _ & Hp & _ & Hr & _).
  assert (Hroom : waits_for e (cc_shared s1) = r).
  { unfold r, waits_for. destruct e as [| | | | | | | | | | |n]; try done.
    destruct Hr0 as (_ & x & Hin & [sl Hsl]). destruct (pa_kept _ _ _ Hp0 x n sl Hin Hsl) as [st Hst].
    destruct (Hkept n _ Hst) as [st' Hst']. by rewrite Hst, Hst'. }
  rewrite <- Hroom in Hq1. destruct (can_perform e _ _ _ Hp Hr Hq1) as (fr & x & sh & Hx).
  set (s3 := mkConc sh (<[k := f x]> (cc_calls s1))).
  assert (Hstep : step (Advance k fr) s1 = Some s3) by (cbn [step]; unfold advance; by rewrite Hk1, Hx).
  destruct (IH x (h1 ++ [(s1, Advance k fr)]) s3 k) as (s4 & out & H4 & Hout);
    [by apply conc_inv_step|apply lookup_insert_eq|].
  exists s4, out. split; [|done]. eapply star_trans; [|exact H4].
  eapply star_snoc; [exact H1|]. by exists (Advance k fr).
Qed.

(** C17: No call of the room service waits for ever, however calls and actors have
    interleaved so far: its own steps and those of the room actors, and nothing else, lead
    it to its answer; nobody holds what it needs. *)
Theorem every_call_can_return (e : E) (ss : gmap Z (Sink Q)) (h : list (Conc * Step)) (s : Conc) (k : Z)
  (p : prog Outcome)
  (Hrun : run (conc_start e ss) h s) (Hcall : cc_calls s !! k = Some p) :
  exists s' out, star (answering k) s s' /\ cc_calls s' !! k = Some (Ret out).
Proof. eapply call_returns; [by eapply run_inv|done]. Qed.

End Truth.

(* ------------------------------------------------------------------ *)
(** ** Runs by example *)

Section Drive.
Context {Q : Type -> Type} `{HQ : Mpsc Q} {E : Type} `{HE : EventPublisher E}.
Abbreviation Conc := (@Conc Q E).
Abbreviation Step := (@Step Q).
Variable owner : Z -> PlayerId.

(** The state after the steps, while they are possible. *)
Fixpoint drive (steps : list Step) (s : Conc) : Conc :=
  match steps with
  | [] => s
  | a :: steps' => match step a s with Some s' => drive steps' s' | None => s end
  end.

Fixpoint possible (steps : list Step) (s : Conc) : bool :=
  match steps with
  | [] => true
  | a :: steps' => match step a s with Some s' => possible steps' s' | None => false end
  end.

Fixpoint history (steps : list Step) (s : Conc) : list (Conc * Step) :=
  match steps with
  | [] => []
  | a :: steps' => match step a s with Some s' => (s, a) :: history steps' s' | None => [] end
  end.

Lemma drive_run steps : forall s0 h s,
  run owner s0 h s -> possible steps s = true -> Forall (step_ok owner) steps ->
  run owner s0 (h ++ history steps s) (drive steps s).
Proof.
  induction steps as [|a steps IH]; intros s0 h s Hr Hp Hok; cbn in *; [by rewrite app_nil_r|].
  inversion Hok as [|? ? Ha Hok']; subst. destruct (step a s) as [s'|] eqn:Es; [|done].
  specialize (IH s0 (h ++ [(s, a)]) s'). rewrite <- app_assoc in IH. apply IH; [by eapply run_step|done|done].
Qed.

End Drive.

Module CallsDemo.

#[local] Existing Instance log_events.
Abbreviation Conc := (@Conc queue (list DomainEvent)).
Abbreviation Step := (@Step queue).

Definition cfg : RoomServiceConfig := mkServiceConfig 2 2.
Definition s0 : Conc := conc_start [] ∅.

(** Call 1 creates room 50; between its spawning the actor and registering it, call 2 closes
    all rooms. *)
Definition create : Op := OpJoinOrCreate cfg None 1 (lit "a") 1 100 101.
Definition racing : list Step :=
  [Call 1 create; Advance 1 50; Call 2 (OpCloseAll (lit "bye")); Advance 2 0;
   Advance 1 0; Advance 1 0; Advance 1 0; ActorHandles 50; Advance 1 0; Advance 1 0].
Definition s1 : Conc := drive racing s0.

(** Up to call 1's request. *)
Definition waiting : list Step := take 7 racing.

(** [close_all] returned, and room 50 is open and registered: nobody told it to close. *)
Example close_all_misses_a_room_being_created :
  cc_calls s1 !! 2 = Some (Ret (Ok None)) /\ cc_calls s1 !! 1 = Some (Ret (Ok (Some 50))) /\
  registry (sh_rooms (cc_shared s1)) = {[50]} /\ handle_is_closed (sh_rooms (cc_shared s1)) 50 = false /\
  queue_of (cc_shared s1) 50 = [].
Proof. vm_compute. auto. Qed.

(** A join that is queued behind the leaving of the last member is answered by nobody. *)
Definition behind_the_last : list Step :=
  [Call 1 create; Advance 1 50; Advance 1 0; Advance 1 0; Advance 1 0; ActorHandles 50; Advance 1 0; Advance 1 0;
   Call 3 (OpLeave 50 1 (lit "bye") 102); Advance 3 0;
   Call 4 (OpJoinOrCreate cfg (Some 50) 2 (lit "b") 2 103 104); Advance 4 0;
   Advance 3 0; Advance 4 0; ActorHandles 50; ActorStops 50; Advance 3 0; Advance 3 0; Advance 3 0; Advance 3 0;
   Advance 4 0].
Example join_behind_the_last_leave :
  let s := drive behind_the_last s0 in
  cc_calls s !! 3 = Some (Ret (Ok None)) /\
  cc_calls s !! 4 = Some (Ret (Err (Internal (lit "房间已关闭,加入结果未知")))) /\
  registry (sh_rooms (cc_shared s)) = ∅.
Proof. vm_compute. auto. Qed.

Ltac steps_ok :=
  unfold waiting, racing; cbn [take];
  repeat (apply Forall_cons; split; [first [exact I|cbn; split; [reflexivity|lia]]|]);
  apply Forall_nil; exact I.

Lemma racing_run : run id s0 (history racing s0) s1.
Proof.
  apply (drive_run id racing s0 [] s0); [constructor|vm_compute; reflexivity|].
  steps_ok.
Qed.

Lemma answers_were_true_witness :
  exists op s after, begun (history racing s0) 1 op s after /\ outcome_true op (seen after s1) (Ok (Some 50)).
Proof. apply (answers_were_true id [] ∅ (history racing s0) s1 1); [exact racing_run|vm_compute; reflexivity]. Defined.

Definition s2 : Conc := drive waiting s0.
Lemma waiting_run : run id s0 (history waiting s0) s2.
Proof.
  apply (drive_run id waiting s0 [] s0); [constructor|vm_compute; reflexivity|].
  steps_ok.
Qed.

Lemma every_call_can_return_witness :
  step (Advance 1 0) s2 = None /\
  exists s' out, star (answering 1) s2 s' /\ cc_calls s' !! 1 = Some (Ret out).
Proof.
  split; [vm_compute; reflexivity|].
  destruct (cc_calls s2 !! 1) as [p|] eqn:Hp; [|vm_compute in Hp; discriminate].
  exact (every_call_can_return id [] ∅ (history waiting s0) s2 1 p waiting_run Hp).
Defined.

End CallsDemo.
