(* ===== verification/RoomSchedule.v ===== *)
(** The atomic reading of the room service ([RoomService]) is a schedule of the concurrent
    one ([RoomCalls]): what a method does there in one step, it does here when it is the
    only call and the actors take their turns while it waits.

    The only thing assumed of the channel beyond its laws is that dropping the receiver
    leaves nothing of a queue but its capacity. *)
From S2P Require Import Prelude Text Tokio Values Room Session App RoomActor RoomService.
From S2P Require Import RoomCalls RoomCallsInv RoomCallsTruth.
From Stdlib Require Import Strings.String.
Open Scope Z_scope.
Open Scope list_scope.
Abbreviation length := Datatypes.length.

Section Schedule.
Context {Q : Type -> Type} `{HQ : Mpsc Q} {E : Type} `{HE : EventPublisher E}.
Abbreviation Rooms := (Rooms Q E).
Abbreviation Shared := (@Shared Q E).
Abbreviation Conc := (@Conc Q E).
Variable owner : Z -> PlayerId.
Abbreviation shared_ok := (shared_ok owner).
Hypothesis drop_rx_same : forall (q q' : Q RoomCommand),
  max_capacity q = max_capacity q' -> drop_rx q = drop_rx q'.

(** No actor is between its last command and its end. *)
Definition quiet (s : Shared) : Prop := shared_ok s /\ sh_over s = ∅.

(** Call [k] is at [p], the rooms are [w]. *)
Record at_point (k : Z) (p : prog Outcome) (w : Rooms) (s : Conc) : Prop := mkAt {
  ap_call : cc_calls s !! k = Some p;
  ap_rooms : sh_rooms (cc_shared s) = w;
  ap_quiet : quiet (cc_shared s)
}.

(** From [p] with the rooms [w], the call gets to [p'] with the rooms [w']. *)
Definition leads (k : Z) (p : prog Outcome) (w : Rooms) (p' : prog Outcome) (w' : Rooms) : Prop :=
  forall s, at_point k p w s -> exists s', star (answering k) s s' /\ at_point k p' w' s'.

Lemma leads_refl k p w : leads k p w p w.
Proof. intros s Hs. exists s. split; [constructor|done]. Qed.

Lemma leads_trans k p1 w1 p2 w2 p3 w3 :
  leads k p1 w1 p2 w2 -> leads k p2 w2 p3 w3 -> leads k p1 w1 p3 w3.
Proof.
  intros H1 H2 s Hs. destruct (H1 s Hs) as (s2 & Hr2 & Hs2). destruct (H2 s2 Hs2) as (s3 & Hr3 & Hs3).
  exists s3. split; [by eapply star_trans|done].
Qed.

(** A point that works on the rooms alone. *)
Definition service_point {X} (e : await X) (m : io Rooms X) : Prop :=
  await_ok owner e /\ forall s fresh, perform fresh e s = on_service m s.

Lemma leads_point {X} k (e : await X) (m : io Rooms X) (f : X -> prog Outcome) w :
  service_point e m -> leads k (Do e f) w (f (fst (m w))) (snd (m w)).
Proof.
  intros [He Hm] s [Hk <- [Hok Hov]]. destruct (m (sh_rooms (cc_shared s))) as [x w'] eqn:Ex.
  assert (Hp : perform 0 e (cc_shared s) = Some (x, with_service w' (cc_shared s)))
    by (rewrite Hm; unfold on_service; by rewrite Ex).
  exists (mkConc (with_service w' (cc_shared s)) (<[k := f x]> (cc_calls s))). split.
  - eapply star_snoc; [constructor|]. exists (Advance k 0). split; [done|]. cbn [step]. unfold advance.
    by rewrite Hk, Hp.
  - constructor; [apply lookup_insert_eq|done|]. split; [|done]. exact (mv_ok _ _ _ (perform_moves _ _ _ _ _ _ Hok He Hp)).
Qed.

(* ------------------------------------------------------------------ *)
(** ** An actor's turn *)

(** Where the reply of the last queued command goes. *)
Definition slot_is (s : Shared) (n : nat) (reply : option Reply) : Prop :=
  sl_state <$> sh_slots s !! n = Some (match reply with Some rep => Answered rep | None => Dropped end).

Lemma slot_is_set (s : Shared) r n c reply w se ov os :
  sh_slots s !! n = Some (mkSlot r c Waiting) -> Some n ∈ os ->
  slot_is (mkShared w se ov
    (foldr (set_slot (match reply with Some rep => Answered rep | None => Dropped end)) (sh_slots s) os)) n reply.
Proof. intros Hn Hin. unfold slot_is. cbn [sh_slots]. by rewrite set_slots_lookup, decide_True, Hn. Qed.

Lemma last_sender (s : Shared) r t n :
  shared_ok s -> tasks (sh_rooms s) !! r = Some t -> last (senders_of s r) = Some (Some n) ->
  exists c, sh_slots s !! n = Some (mkSlot r c Waiting).
Proof.
  intros Hok Ht Hl. rewrite last_lookup in Hl.
  destruct (Forall2_lookup_r _ _ _ _ _ (ts_senders _ _ _ _ (so_tasks _ _ Hok r t Ht)) Hl) as (c & _ & _ & Hc).
  by exists c.
Qed.

(** One command. *)
Lemma handle_step k r (s : Conc) t c cs stop reply a ss :
  quiet (cc_shared s) -> tasks (sh_rooms (cc_shared s)) !! r = Some t -> at_stopped t = false ->
  items (at_queue t) = c :: cs ->
  handle c (at_actor t, sinks (sh_rooms (cc_shared s))) = ((stop, reply), (a, ss)) ->
  let w := sh_rooms (cc_shared s) in
  exists s' q, star (answering k) s s' /\ cc_calls s' = cc_calls s /\ shared_ok (cc_shared s') /\
    pop (at_queue t) = Some (c, q) /\ items q = cs /\ max_capacity q = max_capacity (at_queue t) /\
    sh_over (cc_shared s') = (if stop then {[r]} else ∅) /\
    sh_rooms (cc_shared s') = mkRooms (registry w) (<[r := mkTask a q false]> (tasks w)) ss (publisher w) /\
    senders_of (cc_shared s') r = tail (senders_of (cc_shared s) r) /\
    forall n, head (senders_of (cc_shared s) r) = Some (Some n) -> slot_is (cc_shared s') n reply.
Proof.
  intros [Hok Hov] Ht Hst Hi Hh w.
  destruct (pop_head _ (at_queue t) c cs Hi) as (q & Hp & Hq & Hm & _).
  assert (Hstep : exists s1, actor_handles r (cc_shared s) = Some s1 /\
    sh_over s1 = (if stop then {[r]} else ∅) /\
    sh_rooms s1 = mkRooms (registry w) (<[r := mkTask a q false]> (tasks w)) ss (publisher w) /\
    senders_of s1 r = tail (senders_of (cc_shared s) r) /\
    forall n, head (senders_of (cc_shared s) r) = Some (Some n) -> slot_is s1 n reply).
  { unfold actor_handles. rewrite Ht, Hst, bool_decide_eq_false_2 by (rewrite Hov; set_solver). cbn [orb].
    rewrite Hp, Hh. eexists. split; [done|]. split; [cbn [sh_over]; rewrite Hov; destruct stop; set_solver|].
    split; [done|]. split; [by rewrite senders_insert, decide_True|]. intros n Hn. rewrite Hn. cbn [default].
    destruct (senders_of (cc_shared s) r) as [|o rest] eqn:Hse; [done|]. injection Hn as ->.
    pose proof (ts_senders _ _ _ _ (so_tasks _ _ Hok r t Ht)) as Hf. rewrite Hse, Hi in Hf.
    apply Forall2_cons in Hf as [[_ Hs] _]. eapply (slot_is_set _ r n c reply _ _ _ [Some n]); [exact Hs|set_solver]. }
  destruct Hstep as (s1 & Hs1 & Hov1 & Hr1 & Hse1 & Hsl1).
  exists (mkConc s1 (cc_calls s)), q. split.
  { eapply star_snoc; [constructor|]. exists (ActorHandles r). split; [done|]. cbn [step]. by rewrite Hs1. }
  split_and!; try done. exact (mv_ok _ _ _ (actor_handles_moves _ _ _ _ Hok Hs1)).
Qed.

(** The end of an actor that left its loop. *)
Lemma stop_step k r (s : Conc) t :
  shared_ok (cc_shared s) -> sh_over (cc_shared s) = {[r]} ->
  tasks (sh_rooms (cc_shared s)) !! r = Some t ->
  let w := sh_rooms (cc_shared s) in
  let '(_, (a, ss)) := finish (lit "房间通道已关闭") (at_actor t, sinks w) in
  exists s', star (answering k) s s' /\ cc_calls s' = cc_calls s /\ quiet (cc_shared s') /\
    sh_rooms (cc_shared s') =
      mkRooms (registry w) (<[r := mkTask a (drop_rx (at_queue t)) true]> (tasks w)) ss (publisher w) /\
    (forall n, last (senders_of (cc_shared s) r) = Some (Some n) -> slot_is (cc_shared s') n None) /\
    (senders_of (cc_shared s) r = [] -> sh_slots (cc_shared s') = sh_slots (cc_shared s)).
Proof.
  intros Hok Hov Ht w. destruct (finish _ _) as [[] [a ss]] eqn:Ef. subst w.
  assert (Hs : actor_stops r (cc_shared s) = Some (actor_ends r t (cc_shared s))).
  { unfold actor_stops. rewrite Ht, bool_decide_eq_true_2; [done|]. rewrite Hov. set_solver. }
  exists (mkConc (actor_ends r t (cc_shared s)) (cc_calls s)). split; [|split; [done|split]].
  - eapply star_snoc; [constructor|]. exists (ActorStops r). split; [done|]. cbn [step]. by rewrite Hs.
  - split; [exact (mv_ok _ _ _ (actor_stops_moves _ _ _ _ Hok Hs))|]. unfold actor_ends. rewrite Ef.
    cbn. rewrite Hov. set_solver.
  - unfold actor_ends. cbn [cc_shared]. rewrite Ef. split; [done|]. split; [|by intros ->].
    intros n Hl. destruct (last_sender _ r t n Hok Ht Hl) as [c Hc].
    eapply (slot_is_set _ r n c None); [exact Hc|]. rewrite last_lookup in Hl. by eapply list_elem_of_lookup_2.
Qed.

Lemma turn_schedule k r cs : forall (s : Conc) t stop reply a ss,
  quiet (cc_shared s) -> tasks (sh_rooms (cc_shared s)) !! r = Some t -> at_stopped t = false ->
  items (at_queue t) = cs ->
  serve cs (at_actor t, sinks (sh_rooms (cc_shared s))) = ((stop, reply), (a, ss)) ->
  let w := sh_rooms (cc_shared s) in
  let '(a1, ss1) := if stop then snd (finish (lit "房间通道已关闭") (a, ss)) else (a, ss) in
  let q := if stop then drop_rx (at_queue t) else pop_all (length cs) (at_queue t) in
  exists s', star (answering k) s s' /\ cc_calls s' = cc_calls s /\ quiet (cc_shared s') /\
    sh_rooms (cc_shared s') = mkRooms (registry w) (<[r := mkTask a1 q stop]> (tasks w)) ss1 (publisher w) /\
    forall n, last (senders_of (cc_shared s) r) = Some (Some n) -> slot_is (cc_shared s') n reply.
Proof.
  induction cs as [|c cs IH]; intros s t stop reply a ss Hquiet Ht Hst Hi Hs; cbn zeta.
  { injection Hs as <- <- <- <-. cbn [length pop_all]. exists s. split; [constructor|]. split; [done|].
    split; [done|]. split.
    - destruct t as [at' qt stt]. cbn in *. subst stt. rewrite insert_id by done. by destruct (sh_rooms (cc_shared s)).
    - intros n Hl. pose proof (ts_senders _ _ _ _ (so_tasks _ _ (proj1 Hquiet) r t Ht)) as Hf. rewrite Hi in Hf.
      apply Forall2_nil_inv_l in Hf. by rewrite Hf in Hl. }
  set (w := sh_rooms (cc_shared s)) in *.
  destruct (handle c (at_actor t, sinks w)) as [[st rp] [a1 ss1]] eqn:Eh.
  destruct (handle_step k r s t c cs st rp a1 ss1 Hquiet Ht Hst Hi Eh)
    as (s1 & q & Hr1 & Hc1 & Hok1 & Hp & Hq & Hm & Hov1 & Hw1 & Hse1 & Hsl1).
  assert (Ht1 : tasks (sh_rooms (cc_shared s1)) !! r = Some (mkTask a1 q false)) by (rewrite Hw1; apply lookup_insert_eq).
  assert (Hsend : exists o, senders_of (cc_shared s) r = o :: senders_of (cc_shared s1) r).
  { pose proof (ts_senders _ _ _ _ (so_tasks _ _ (proj1 Hquiet) r t Ht)) as Hf. rewrite Hi in Hf.
    rewrite Hse1. inversion Hf. subst. by eexists. }
  destruct Hsend as [o Hsend].
  assert (Hserve : (cs = [] /\ (stop, reply) = (st, rp) /\ (a, ss) = (a1, ss1)) \/
    (cs <> [] /\ st = true /\ (stop, reply) = (true, None) /\ (a, ss) = (a1, ss1)) \/
    (cs <> [] /\ st = false /\ serve cs (a1, ss1) = ((stop, reply), (a, ss)))).
  { destruct cs as [|c2 cs]; cbn [serve] in Hs; [left; rewrite Eh in Hs; injection Hs as -> -> -> ->; by split_and!|].
    unfold io_bind in Hs. rewrite Eh in Hs. right. destruct st; [left|right; by split_and!].
    injection Hs as <- <- <- <-. by split_and!. }
  assert (Hlen : length (senders_of (cc_shared s1) r) = length cs).
  { pose proof (ts_senders _ _ _ _ (so_tasks _ _ Hok1 r _ Ht1)) as Hf%Forall2_length. cbn [at_queue] in Hf. congruence. }
  assert (Hlast : forall n, last (senders_of (cc_shared s) r) = Some (Some n) -> cs <> [] ->
    last (senders_of (cc_shared s1) r) = Some (Some n)).
  { intros n. rewrite Hsend. destruct (senders_of (cc_shared s1) r), cs; try done. }
  assert (Hcap : drop_rx q = drop_rx (at_queue t)) by (by apply drop_rx_same).
  assert (Hend : st = true -> forall rep, (cs = [] -> rep = rp) -> (cs <> [] -> rep = None) ->
    let '(a2, ss2) := snd (finish (lit "房间通道已关闭") (a1, ss1)) in
    exists s', star (answering k) s s' /\ cc_calls s' = cc_calls s /\ quiet (cc_shared s') /\
      sh_rooms (cc_shared s') =
        mkRooms (registry w) (<[r := mkTask a2 (drop_rx (at_queue t)) true]> (tasks w)) ss2 (publisher w) /\
      forall n, last (senders_of (cc_shared s) r) = Some (Some n) -> slot_is (cc_shared s') n rep).
  { intros -> rep Hrp Hno. pose proof (stop_step k r s1 _ Hok1 Hov1 Ht1) as Hstop. cbn zeta in Hstop.
    rewrite Hw1 in Hstop. cbn [sinks registry tasks publisher at_actor at_queue] in Hstop.
    destruct (finish _ (a1, ss1)) as [[] [a2 ss2]]. destruct Hstop as (s2 & Hr2 & Hc2 & Hq2 & Hw2 & Hl2 & Hsame).
    cbn [snd]. exists s2. split; [by eapply star_trans|]. split; [congruence|]. split; [done|].
    split; [rewrite Hw2, insert_insert_eq, Hcap; done|]. intros n Hl. destruct (decide (cs = [])) as [Hcs|Hcs].
    - rewrite (Hrp Hcs). rewrite Hcs in Hlen. apply nil_length_inv in Hlen. unfold slot_is. rewrite (Hsame Hlen).
      apply Hsl1. rewrite Hsend, Hlen in Hl |- *. done.
    - rewrite (Hno Hcs). apply Hl2. by apply Hlast. }
  destruct Hserve as [(Hcs & [= -> ->] & [= -> ->])|[(Hcs & -> & [= -> ->] & [= -> ->])|(Hcs & -> & Hs1)]].
  - destruct st; [apply Hend; [done|done|by rewrite Hcs]|].
    exists s1. split; [done|]. split; [done|]. split; [done|]. cbn [length pop_all]. rewrite Hp, Hcs. cbn [length pop_all].
    split; [done|]. intros n Hl. apply Hsl1. rewrite Hcs in Hlen. apply nil_length_inv in Hlen. rewrite Hsend, Hlen in Hl |- *. done.
  - apply Hend; done.
  - specialize (IH s1 (mkTask a1 q false) stop reply a ss (conj Hok1 Hov1) Ht1 eq_refl Hq).
    rewrite Hw1 in IH. cbn [sinks registry tasks publisher at_actor at_queue] in IH. specialize (IH Hs1).
    cbn zeta in IH. rewrite Hcap in IH. cbn [length pop_all]. rewrite Hp.
    destruct (if stop then _ else _) as [a2 ss2].
    destruct IH as (s2 & Hr2 & Hc2 & Hq2 & Hw2 & Hl2). exists s2. split; [by eapply star_trans|].
    split; [congruence|]. split; [done|]. split; [by rewrite Hw2, insert_insert_eq|].
    intros n Hl. apply Hl2. by apply Hlast.
Qed.

(** [actor_turn], while the call waits. *)
Lemma turn_leads k r p w reply w' (s : Conc) t :
  at_point k p w s -> tasks w !! r = Some t -> at_stopped t = false -> actor_turn r w = (reply, w') ->
  exists s', star (answering k) s s' /\ at_point k p w' s' /\
    forall n, last (senders_of (cc_shared s) r) = Some (Some n) -> slot_is (cc_shared s') n reply.
Proof.
  intros [Hk Hw Hq] Ht Hst Hx. rewrite <- Hw in Ht, Hx. unfold actor_turn in Hx. rewrite Ht, Hst in Hx.
  destruct (serve _ _) as [[stop rp] [a ss]] eqn:Es.
  pose proof (turn_schedule k r _ s t stop rp a ss Hq Ht Hst eq_refl Es) as Hsched. cbn zeta in Hsched.
  destruct (if stop then _ else _) as [a1 ss1]. injection Hx as <- <-.
  destruct Hsched as (s' & Hr & Hc & Hq' & Hw' & Hsl). exists s'. split; [done|].
  split; [constructor; [congruence|done|done]|done].
Qed.

(* ------------------------------------------------------------------ *)
(** ** Sending *)

(** A full queue is waited for: the actor makes room. *)
Lemma room_leads k p r c w (s : Conc) :
  at_point k p w s ->
  exists w0 s', star (answering k) s s' /\ at_point k p w0 s' /\
    handle_send r c w = handle_try_send r c w0 /\ fst (handle_try_send r c w0) <> Err Busy.
Proof.
  intros Hs. pose proof Hs as [Hk Hw [Hok Hov]]. unfold handle_send, io_bind.
  destruct (handle_try_send r c w) as [res w1] eqn:E1. rewrite <- Hw in E1.
  destruct (decide (res = Err Busy)) as [->|Hne].
  2: { exists w, s. split; [constructor|]. rewrite <- Hw, E1. split; [by rewrite Hw|]. split; [|done].
       by destruct res as [|[]]. }
  apply (try_send_sound owner) in E1 as [(? & _)|[(_ & -> & t & Ht & Hst & _)|(? & _)]]; try done. rewrite Hw in *.
  destruct (actor_turn r w) as [reply w2] eqn:Ea.
  destruct (turn_leads k r p w reply w2 s t Hs Ht Hst Ea) as (s2 & Hr2 & Hs2 & _).
  exists w2, s2. split; [done|]. split; [done|]. split; [done|].
  destruct (handle_try_send r c w2) as [res3 w3] eqn:E3. cbn [fst]. intros ->.
  pose proof Hs2 as [_ Hw2 [Hok2 _]]. rewrite <- Hw2 in E3.
  apply (try_send_sound owner) in E3 as [(? & _)|[(_ & _ & t2 & Ht2 & Hst2 & Hl)|(? & _)]]; try done.
  pose proof (ts_cap _ _ _ _ (so_tasks _ _ Hok2 r t2 Ht2)) as Hcap. rewrite Hw2 in Ht2.
  unfold actor_turn in Ea. rewrite Ht, Hst in Ea. destruct (serve _ _) as [[stop rp] [a ss]].
  destruct (if stop then _ else _) as [a1 ss1] in Ea. injection Ea as _ <-. cbn [tasks] in Ht2.
  rewrite lookup_insert_eq in Ht2. injection Ht2 as <-. cbn in Hst2, Hl, Hcap. subst stop.
  destruct (pop_all_spec _ (at_queue t) eq_refl) as (Hnil & _). rewrite Hnil in Hl. simpl in Hl. lia.
Qed.

Lemma advance_leads {X} k (e : await X) (f : X -> prog Outcome) w (s : Conc) x s' :
  at_point k (Do e f) w s -> await_ok owner e -> perform 0 e (cc_shared s) = Some (x, s') ->
  sh_over s' = sh_over (cc_shared s) ->
  exists s2, star (answering k) s s2 /\ at_point k (f x) (sh_rooms s') s2 /\ cc_shared s2 = s'.
Proof.
  intros [Hk _ [Hok Hov]] He Hx Hov'. exists (mkConc s' (<[k := f x]> (cc_calls s))). split; [|split; [|done]].
  - eapply star_snoc; [constructor|]. exists (Advance k 0). split; [done|]. cbn [step]. unfold advance.
    by rewrite Hk, Hx.
  - constructor; [apply lookup_insert_eq|done|]. split; [|cbn; congruence].
    exact (mv_ok _ _ _ (perform_moves _ _ _ _ _ _ Hok He Hx)).
Qed.

Lemma tell_leads k r c (f : result unit AppError -> prog Outcome) w :
  cmd_ok owner c -> wants_reply c = false ->
  leads k (Do (Tell r c) f) w (f (fst (handle_send r c w))) (snd (handle_send r c w)).
Proof.
  intros Hc Hw s Hs. destruct (room_leads k _ r c w s Hs) as (w0 & s0 & Hr0 & Hs0 & -> & Hnb).
  destruct (handle_try_send r c w0) as [res w1] eqn:E1. cbn [fst snd] in *.
  pose proof (ap_rooms _ _ _ _ Hs0) as Hw0.
  assert (Hx : exists s1, perform 0 (Tell r c) (cc_shared s0) = Some (res, s1) /\
                          sh_rooms s1 = w1 /\ sh_over s1 = sh_over (cc_shared s0)).
  { cbn [perform]. rewrite Hw0, E1. destruct res as [[]|e]; [by eexists|]. destruct e; try done; by eexists. }
  destruct Hx as (s1 & Hx & <- & Hov). destruct (advance_leads k _ f w0 s0 res s1 Hs0 (conj Hc Hw) Hx Hov)
    as (s2 & Hr2 & Hs2 & _). exists s2. split; [by eapply star_trans|done].
Qed.

Lemma refused_leads k r c (f : result nat AppError -> prog Outcome) w e w1 :
  cmd_ok owner c -> wants_reply c = true -> handle_send r c w = (Err e, w1) ->
  leads k (Do (Request r c) f) w (f (Err e)) w1.
Proof.
  intros Hc Hw Hsend s Hs. destruct (room_leads k _ r c w s Hs) as (w0 & s0 & Hr0 & Hs0 & Heq & Hnb).
  rewrite Heq in Hsend. pose proof (ap_rooms _ _ _ _ Hs0) as Hw0. rewrite Hsend in Hnb. cbn [fst] in Hnb.
  assert (Hx : perform 0 (Request r c) (cc_shared s0) = Some (Err e, with_service w1 (cc_shared s0))).
  { cbn [perform]. rewrite Hw0, Hsend. by destruct e. }
  destruct (advance_leads k _ f w0 s0 _ _ Hs0 (conj Hc Hw) Hx eq_refl) as (s2 & Hr2 & Hs2 & _).
  exists s2. split; [by eapply star_trans|done].
Qed.

(** A request and its reply. *)
Lemma asked_leads k r c (f : result nat AppError -> prog Outcome) g w w1 reply w2 :
  cmd_ok owner c -> wants_reply c = true -> (forall n, f (Ok n) = Do (Receive n) g) ->
  handle_send r c w = (Ok tt, w1) -> actor_turn r w1 = (reply, w2) ->
  leads k (Do (Request r c) f) w (g reply) w2.
Proof.
  intros Hc Hw Hf Hsend Ha s Hs. destruct (room_leads k _ r c w s Hs) as (w0 & s0 & Hr0 & Hs0 & Heq & _).
  rewrite Heq in Hsend. pose proof (ap_rooms _ _ _ _ Hs0) as Hw0.
  set (n := length (sh_slots (cc_shared s0))).
  assert (Hx : perform 0 (Request r c) (cc_shared s0) = Some (Ok n, requested r c w1 (cc_shared s0))).
  { cbn [perform]. by rewrite Hw0, Hsend. }
  destruct (advance_leads k _ f w0 s0 _ _ Hs0 (conj Hc Hw) Hx eq_refl) as (s1 & Hr1 & Hs1 & Hsh1).
  rewrite Hf in Hs1. cbn [requested sh_rooms] in Hs1.
  assert (Ht1 : exists t, tasks w1 !! r = Some t /\ at_stopped t = false).
  { rewrite <- Hw0 in Hsend. apply (try_send_sound owner) in Hsend
      as [(? & _)|[(? & _)|(_ & t & q & Ht & Hst & -> & _)]]; try done; [|apply Hs0].
    eexists. split; [apply lookup_insert_eq|done]. }
  destruct Ht1 as (t1 & Ht1 & Hst1).
  destruct (turn_leads k r _ w1 reply w2 s1 t1 Hs1 Ht1 Hst1 Ha) as (s2 & Hr2 & Hs2 & Hsl).
  specialize (Hsl n). rewrite Hsh1 in Hsl. cbn [requested] in Hsl. unfold requested in Hsl.
  rewrite senders_insert, decide_True, last_snoc in Hsl by done. specialize (Hsl eq_refl).
  assert (Hx2 : perform 0 (Receive n) (cc_shared s2) = Some (reply, cc_shared s2)).
  { cbn [perform]. unfold slot_is in Hsl. rewrite Hsl. by destruct reply. }
  destruct (advance_leads k _ g w2 s2 _ _ Hs2 I Hx2 eq_refl) as (s3 & Hr3 & Hs3 & _).
  exists s3. split; [|by rewrite (ap_rooms _ _ _ _ Hs2) in Hs3].
  eapply star_trans; [eapply star_trans; [eapply star_trans; [exact Hr0|exact Hr1]|exact Hr2]|exact Hr3].
Qed.

(* ------------------------------------------------------------------ *)
(** ** The methods *)

Lemma handle_for_point r : service_point (HandleFor r) (handle_for (Q := Q) (E := E) r).
Proof. by split. Qed.
Lemma live_handles_point : service_point LiveHandles (live_handles (Q := Q) (E := E)).
Proof. by split. Qed.
Lemma remove_point r : service_point (RemoveHandle r) (registry_remove (Q := Q) (E := E) r).
Proof. by split. Qed.
Lemma insert_point r : service_point (InsertHandle r) (registry_insert (Q := Q) (E := E) r).
Proof. by split. Qed.
Lemma closed_point r : service_point (IsClosed r) (fun w : Rooms => (handle_is_closed w r, w)).
Proof. by split. Qed.
Lemma publish_point e : service_point (Publish e) (publish_event (Q := Q) e).
Proof. by split. Qed.

(** The next point of the program works on the rooms alone. *)
Ltac point H := eapply leads_trans; [apply (leads_point _ _ _ _ _ H)|]; cbn [fst snd].

(** The rest of an atomic method [m] after a point, as a state. *)
Lemma join_leads k r p n sink now (F : result unit AppError -> prog Outcome) w :
  owner sink = p ->
  leads k (pbind (Calls.join r p n sink now) F) w
    (F (fst (RoomService.join r p n sink now w))) (snd (RoomService.join r p n sink now w)).
Proof.
  intros Ho. unfold Calls.join, RoomService.join, io_bind, io_try, io_lift, io_ret. cbn [pbind].
  point (handle_for_point r). destruct (handle_for r w) as [[h|] w1]; cbn [fst snd ok_or pbind]; [|apply leads_refl].
  destruct (handle_send h (Join p n sink) w1) as [[[]|e] w2] eqn:Es;
    [|exact (refused_leads k h (Join p n sink) _ w1 e w2 Ho eq_refl Es)].
  destruct (actor_turn h w2) as [reply w3] eqn:Ea.
  eapply leads_trans; [eapply (asked_leads k h (Join p n sink)); [done|done|intros; reflexivity|exact Es|exact Ea]|].
  destruct reply as [[[u|e]|b]|]; cbn [pbind]; try apply leads_refl.
  point (publish_point (PlayerJoinedRoom r p now)). destruct (publish_event _ w3). apply leads_refl.
Qed.

Lemma left_leads k r p why now h b (F : result unit AppError -> prog Outcome) w res w' :
  (let closed := handle_is_closed w h in
   (let* _ := (if closed then registry_remove r else io_ret tt) in
    if negb b then io_ret (Ok tt)
    else let* _ := publish_event (PlayerLeftRoom r p why now) in io_ret (Ok tt)) w) = (res, w') ->
  leads k (pbind (Calls.left r p why now h b) F) w (F res) w'.
Proof.
  intros Hx. unfold Calls.left, io_bind, io_ret in *. cbn [pbind]. point (closed_point h).
  destruct (handle_is_closed w h); cbn [pbind].
  - point (remove_point r). destruct (registry_remove r w) as [[] w1]. cbn [fst snd] in *.
    destruct b; cbn [negb pbind] in *.
    + point (publish_point (PlayerLeftRoom r p why now)). destruct (publish_event _ w1). injection Hx as <- <-.
      apply leads_refl.
    + injection Hx as <- <-. apply leads_refl.
  - destruct b; cbn [negb pbind] in *.
    + point (publish_point (PlayerLeftRoom r p why now)). destruct (publish_event _ w). injection Hx as <- <-.
      apply leads_refl.
    + injection Hx as <- <-. apply leads_refl.
Qed.

Lemma leave_leads k r p why now (F : result unit AppError -> prog Outcome) w :
  leads k (pbind (Calls.leave r p why now) F) w
    (F (fst (RoomService.leave r p why now w))) (snd (RoomService.leave r p why now w)).
Proof.
  unfold Calls.leave, RoomService.leave, io_bind, io_try, io_lift, io_ret. cbn [pbind].
  point (handle_for_point r). destruct (handle_for r w) as [[h|] w1]; cbn [fst snd pbind]; [|apply leads_refl].
  destruct (handle_send h (Leave p why) w1) as [[[]|e] w2] eqn:Es.
  - destruct (actor_turn h w2) as [reply w3] eqn:Ea.
    eapply leads_trans; [eapply (asked_leads k h (Leave p why)); [done|done|intros; reflexivity|exact Es|exact Ea]|].
    match goal with |- leads _ _ _ (F (fst ?X)) _ => destruct X as [res w'] eqn:Hx end. cbn [fst snd].
    destruct reply as [[u|[b|e]]|]; cbn [pbind] in *.
    + point (closed_point h). destruct (handle_is_closed w3 h) eqn:Hc; cbn [pbind].
      * apply left_leads. cbn zeta. rewrite Hc. exact Hx.
      * injection Hx as <- <-. apply leads_refl.
    + by apply left_leads.
    + injection Hx as <- <-. apply leads_refl.
    + point (closed_point h). destruct (handle_is_closed w3 h) eqn:Hc; cbn [pbind].
      * apply left_leads. cbn zeta. rewrite Hc. exact Hx.
      * injection Hx as <- <-. apply leads_refl.
  - eapply leads_trans; [exact (refused_leads k h (Leave p why) _ w1 e w2 I eq_refl Es)|]. cbn [pbind].
    point (closed_point h). destruct (handle_is_closed w2 h); cbn [pbind]; [|apply leads_refl].
    point (remove_point r). apply leads_refl.
Qed.

Lemma spawn_leads k i max now cap (f : RoomId -> prog Outcome) (w : Rooms) :
  tasks w !! i = None -> (1 <= cap)%nat ->
  leads k (Do (SpawnActor max now cap) f) w (f i) (snd (spawn (Room.open i max now) cap w)).
Proof.
  intros Hi Hcap s [Hk Hw [Hok Hov]].
  set (w1 := snd (spawn (Room.open i max now) cap w)).
  assert (Hx : perform i (SpawnActor max now cap) (cc_shared s) = Some (i, with_service w1 (cc_shared s))).
  { cbn [perform]. rewrite Hw, Hi. unfold on_service. rewrite Hw. done. }
  exists (mkConc (with_service w1 (cc_shared s)) (<[k := f i]> (cc_calls s))). split.
  - eapply star_snoc; [constructor|]. exists (Advance k i). split; [done|]. cbn [step]. unfold advance. by rewrite Hk, Hx.
  - constructor; [apply lookup_insert_eq|done|]. split; [|done].
    exact (mv_ok _ _ _ (perform_moves owner i (SpawnActor max now cap) _ _ _ Hok Hcap Hx)).
Qed.

Lemma create_leads k config i p n sink now1 now2 (F : result RoomId AppError -> prog Outcome) w :
  owner sink = p -> (1 <= command_capacity config)%nat -> tasks w !! i = None ->
  leads k (pbind (Calls.create_and_join config p n sink now1 now2) F) w
    (F (fst (RoomService.create_and_join config i p n sink now1 now2 w)))
    (snd (RoomService.create_and_join config i p n sink now1 now2 w)).
Proof.
  intros Ho Hcap Hi. unfold Calls.create_and_join, RoomService.create_and_join, io_bind, io_ret. cbn [pbind].
  eapply leads_trans; [apply (spawn_leads k i); done|]. cbn [spawn fst snd Room.open rm_id].
  point (insert_point i). unfold registry_insert. cbn [fst snd]. rewrite pbind_assoc. eapply leads_trans; [by apply join_leads|].
  destruct (RoomService.join i p n sink now2 _) as [[u|e] w3]; cbn [fst snd pbind]; [apply leads_refl|].
  point (remove_point i). apply leads_refl.
Qed.

Lemma chat_leads k r p text (F : result unit AppError -> prog Outcome) w :
  leads k (pbind (Calls.chat r p text) F) w
    (F (fst (RoomService.chat r p text w))) (snd (RoomService.chat r p text w)).
Proof.
  unfold Calls.chat, RoomService.chat. destruct (is_empty (trim text)); [apply leads_refl|].
  destruct (_ <? _)%nat; [apply leads_refl|]. unfold io_bind, io_try, io_lift, io_ret. cbn [pbind].
  point (handle_for_point r). destruct (handle_for r w) as [[h|] w1]; cbn [fst snd ok_or pbind]; [|apply leads_refl].
  intros s Hs. pose proof (ap_rooms _ _ _ _ Hs) as Hw.
  destruct (handle_try_send h (Chat p (trim text)) w1) as [res w2] eqn:E1.
  assert (Hx : exists s1, perform 0 (TrySend h (Chat p (trim text))) (cc_shared s) = Some (res, s1) /\
                          sh_rooms s1 = w2 /\ sh_over s1 = sh_over (cc_shared s)).
  { cbn [perform]. rewrite Hw, E1. destruct res as [[]|e]; by eexists. }
  destruct Hx as (s1 & Hx & <- & Hov).
  destruct (advance_leads k _ _ w1 s res s1 Hs (conj I eq_refl) Hx Hov) as (s2 & Hr2 & Hs2 & _).
  by exists s2.
Qed.

Lemma leave_each_leads k hs p why now (F : result unit AppError -> prog Outcome) : forall w,
  leads k (pbind (Calls.leave_each hs p why now) F) w
    (F (fst (RoomService.leave_each hs p why now w))) (snd (RoomService.leave_each hs p why now w)).
Proof.
  induction hs as [|h hs IH]; intros w; cbn [Calls.leave_each RoomService.leave_each]; [apply leads_refl|].
  rewrite pbind_assoc. eapply leads_trans; [apply leave_leads|]. unfold io_try.
  destruct (RoomService.leave h p why now w) as [[u|e] w1]; cbn [fst snd pbind]; [apply IH|apply leads_refl].
Qed.

Lemma leave_all_leads k p why now (F : result unit AppError -> prog Outcome) w :
  leads k (pbind (Calls.leave_all p why now) F) w
    (F (fst (RoomService.leave_all p why now w))) (snd (RoomService.leave_all p why now w)).
Proof.
  unfold Calls.leave_all, RoomService.leave_all, io_bind. cbn [pbind].
  point live_handles_point. destruct (live_handles w) as [hs w1]. apply leave_each_leads.
Qed.

Lemma close_each_leads k hs why (F : unit -> prog Outcome) : forall w,
  leads k (pbind (Calls.close_each hs why) F) w (F tt) (snd (RoomService.close_each hs why w)).
Proof.
  induction hs as [|h hs IH]; intros w; cbn [Calls.close_each RoomService.close_each pbind]; [apply leads_refl|].
  unfold io_bind. eapply leads_trans; [apply (tell_leads k h (Close why)); done|].
  destruct (handle_send h (Close why) w) as [res w1]. apply IH.
Qed.

Lemma close_all_leads k why (F : result unit AppError -> prog Outcome) w :
  leads k (pbind (Calls.close_all why) F) w
    (F (fst (RoomService.close_all why w))) (snd (RoomService.close_all why w)).
Proof.
  unfold Calls.close_all, RoomService.close_all, io_bind, io_ret. cbn [pbind].
  assert (Hd : service_point DrainRegistry
    (fun w : Rooms => (elements (registry w), mkRooms ∅ (tasks w) (sinks w) (publisher w)))) by (by split).
  point Hd. rewrite pbind_assoc. eapply leads_trans; [apply close_each_leads|]. cbn [pbind].
  destruct (RoomService.close_each _ _ _) as [u w1]. apply leads_refl.
Qed.

(** A public method in one step. *)
Definition atomic (fresh : RoomId) (op : Op) : io Rooms Outcome :=
  match op with
  | OpJoinOrCreate c o p n sink now1 now2 =>
      let* r := RoomService.join_or_create c o fresh p n sink now1 now2 in io_ret (room_value r)
  | OpChat r p t => let* x := RoomService.chat r p t in io_ret (no_value x)
  | OpLeave r p why now => let* x := RoomService.leave r p why now in io_ret (no_value x)
  | OpLeaveAll p why now => let* x := RoomService.leave_all p why now in io_ret (no_value x)
  | OpCloseAll why => let* x := RoomService.close_all why in io_ret (no_value x)
  end.

Lemma program_leads k fresh op w :
  op_ok owner op -> tasks w !! fresh = None ->
  leads k (program op) w (Ret (fst (atomic fresh op w))) (snd (atomic fresh op w)).
Proof.
  intros Hop Hfresh.
  destruct op as [config [r|] p n sink now1 now2|r p text|r p why now|p why now|why];
    cbn [program atomic op_ok] in *; unfold io_bind, io_ret.
  - destruct Hop as [Ho _]. unfold Calls.join_or_create, RoomService.join_or_create, io_try, io_ret.
    rewrite pbind_assoc. eapply leads_trans; [by apply join_leads|].
    destruct (RoomService.join r p n sink now2 w) as [[u|e] w1]; apply leads_refl.
  - destruct Hop as [Ho Hcap]. cbn [Calls.join_or_create RoomService.join_or_create].
    eapply leads_trans; [by apply (create_leads k config fresh)|].
    destruct (RoomService.create_and_join _ _ _ _ _ _ _ w) as [res w1]. apply leads_refl.
  - eapply leads_trans; [apply chat_leads|]. destruct (RoomService.chat _ _ _ w). apply leads_refl.
  - eapply leads_trans; [apply leave_leads|]. destruct (RoomService.leave _ _ _ _ w). apply leads_refl.
  - eapply leads_trans; [apply leave_all_leads|]. destruct (RoomService.leave_all _ _ _ w). apply leads_refl.
  - eapply leads_trans; [apply close_all_leads|]. destruct (RoomService.close_all _ w). apply leads_refl.
Qed.

(** What a method of the room service does when it is read as one step, it can do when
    its points are interleaved with the actors: from any reachable state in which no actor is
    at its end, the call, its own points and the turns of the actors it waits for lead to the
    same answer and the same rooms. *)
Theorem atomic_calls_are_schedules (k : Z) (op : Op) (fresh : RoomId) (s : Conc)
  (Hquiet : quiet (cc_shared s)) (Hop : op_ok owner op) (Hfree : cc_calls s !! k = None)
  (Hfresh : tasks (sh_rooms (cc_shared s)) !! fresh = None) :
  exists s1 s2, step (Call k op) s = Some s1 /\ star (answering k) s1 s2 /\
    let '(out, w) := atomic fresh op (sh_rooms (cc_shared s)) in
    cc_calls s2 !! k = Some (Ret out) /\ sh_rooms (cc_shared s2) = w.
Proof.
  eexists. cbn [step]. rewrite Hfree.
  edestruct (program_leads k fresh op (sh_rooms (cc_shared s)) Hop Hfresh) as (s2 & Hr2 & [Hk Hw _]); cycle 1.
  - exists s2. split; [done|]. split; [exact Hr2|]. destruct (atomic _ _ _) as [out w]. done.
  - constructor; [apply lookup_insert_eq|done|done].
Qed.

End Schedule.

(* ------------------------------------------------------------------ *)
(** ** By example: player 2 joins the room of [CallsDemo] *)

Module ScheduleDemo.
Import CallsDemo.
#[local] Existing Instance log_events.

Definition joining : Op := OpJoinOrCreate cfg (Some 50) 2 (lit "b") 2 103 104.

Lemma atomic_calls_are_schedules_witness :
  fst (atomic 60 joining (sh_rooms (cc_shared s1))) = Ok (Some 50) /\
  exists sa sb, step (Call 5 joining) s1 = Some sa /\ star (answering 5) sa sb /\
    let '(out, w) := atomic 60 joining (sh_rooms (cc_shared s1)) in
    cc_calls sb !! 5 = Some (Ret out) /\ sh_rooms (cc_shared sb) = w.
Proof.
  split; [vm_compute; reflexivity|].
  apply (atomic_calls_are_schedules id).
  - intros [] [] Hcap. simpl in *. by rewrite Hcap.
  - split; [exact (ci_shared _ _ _ (run_inv id _ _ _ _ racing_run))|vm_compute; reflexivity].
  - split; [reflexivity|simpl; lia].
  - vm_compute. reflexivity.
  - vm_compute. reflexivity.
Defined.

End ScheduleDemo.
