(* ===== verification/Speech.v ===== *)
(** Who is quoted by the rooms ([application/src/room]): every name and every chat line
    that a room emits was handed to the service by a caller.

    [D] is the set of sinks, [named p n] says that player [p] goes by the nickname [n], [said p t] that [p] said
    [t]; all are arbitrary.  If every call of the service is made in these terms, all
    rooms, their queued commands and the events in the members' sinks stay in them,
    through joining, chatting, leaving, clean-up and shutdown. *)
From S2P Require Import Prelude Text Tokio Values Room Session App RoomActor RoomService.
From Stdlib Require Import Strings.String.
Open Scope Z_scope.
Open Scope list_scope.
Abbreviation length := Datatypes.length.

(** A computation keeps a predicate on its world. *)
Definition preserves {W A} (I : W -> Prop) (m : io W A) : Prop :=
  forall w r w', I w -> m w = (r, w') -> I w'.

Section Preserves.
Context {W : Type} (I : W -> Prop).

Lemma preserves_ret {A} (a : A) : preserves I (io_ret a).
Proof. by intros w r w' Hw [_ <-]%io_ret_inv. Qed.

Lemma preserves_bind {A B} (m : io W A) (k : A -> io W B) :
  preserves I m -> (forall a, preserves I (k a)) -> preserves I (io_bind m k).
Proof. intros Hm Hk w r w' Hw (a & w1 & H1 & H2)%io_bind_inv. eapply Hk; [|done]. by eapply Hm. Qed.

Lemma preserves_try {A B E} (m : io W (result A E)) (k : A -> io W (result B E)) :
  preserves I m -> (forall a, preserves I (k a)) -> preserves I (io_try m k).
Proof.
  intros Hm Hk w r w' Hw [(a & w1 & H1 & H2)|(e & H1 & _)]%io_try_inv; [|by eapply Hm].
  eapply Hk; [|done]. by eapply Hm.
Qed.

Lemma preserves_lift {A} (r : A) : preserves I (io_lift r).
Proof. apply preserves_ret. Qed.

(** A branch may depend on the world it runs in. *)
Lemma preserves_here {A} (f : W -> io W A) :
  (forall w, preserves I (f w)) -> preserves I (fun w => f w w).
Proof. intros Hf w r w' Hw Hx. by eapply Hf. Qed.

End Preserves.

#[export] Hint Resolve preserves_ret preserves_lift : longship.

(** Walks through the binds of a computation and uses the known parts. *)
Ltac preserve :=
  repeat lazymatch goal with
    | |- preserves _ (io_bind _ _) => apply preserves_bind; [|intros ?]
    | |- preserves _ (io_try _ _) => apply preserves_try; [|intros ?]
    | |- preserves _ (match ?x with _ => _ end) => destruct x
    | |- preserves _ _ => solve [eauto with longship]
    end.

Section Speech.
Context {Q : Type -> Type} `{HQ : Mpsc Q} {E : Type} `{HE : EventPublisher E}.
Variables (named : PlayerId -> rstr -> Prop) (said : PlayerId -> rstr -> Prop) (D : gset Z).

Abbreviation Rooms := (Rooms Q E).

Definition ev_true (e : RoomEvent) : Prop :=
  match e with
  | MemberJoined _ p n => named p n
  | EvChat _ p n t => named p n /\ said p t
  | MemberLeft _ _ | EvClosed _ _ => True
  end.

Definition cmd_true (c : RoomCommand) : Prop :=
  match c with
  | Join p n _ => named p n
  | Chat p t => said p (trim t)
  | Leave _ _ | Close _ => True
  end.

Definition members_true (ms : gmap Z Member) : Prop :=
  forall p m, ms !! p = Some m -> named p (mb_nickname m).

(** The sinks are those of [D], and what is queued in them is true. *)
Definition sinks_true (ss : gmap Z (Sink Q)) : Prop :=
  dom ss = D /\ forall k s, ss !! k = Some s -> Forall ev_true (items (sk_tx s)).

Definition task_true (t : ActorTask Q) : Prop :=
  members_true (ac_members (at_actor t)) /\ Forall cmd_true (items (at_queue t)).

Implicit Types (s : Sink Q) (ss : gmap Z (Sink Q)).

Record rooms_true (w : Rooms) : Prop := mkRoomsTrue {
  rt_tasks : forall r t, tasks w !! r = Some t -> task_true t;
  rt_sinks : sinks_true (sinks w)
}.

(* ------------------------------------------------------------------ *)
(** ** The actor *)

Lemma sink_send_true ev s :
  ev_true ev -> Forall ev_true (items (sk_tx s)) ->
  Forall ev_true (items (sk_tx (sink_try_send ev s))).
Proof.
  intros Hev Hs. unfold sink_try_send. destruct (try_send (sk_tx s) ev) as [r tx] eqn:Et.
  apply try_send_cases in Et as [(_ & _ & _ & Hi & _)|[(_ & _ & _ & ->)|(_ & _ & ->)]];
    cbn [sk_tx]; [|done|done].
  rewrite Hi. apply Forall_app. by repeat constructor.
Qed.

Lemma broadcast_true ms ev ss : ev_true ev -> sinks_true ss -> sinks_true (broadcast ms ev ss).
Proof.
  intros Hev Hss. unfold broadcast. induction (map_to_list ms) as [|kv l IH]; [done|]. cbn [foldr].
  destruct IH as [Hd IH]. split; [by rewrite dom_alter_L|]. intros k s Hk. apply lookup_alter_Some in Hk as [(_ & s0 & Hs0 & ->)|[_ Hk]]; [|by eapply IH].
  apply sink_send_true; [done|]. by eapply IH.
Qed.

Lemma deliver_true ms evs : forall ss, Forall ev_true evs -> sinks_true ss -> sinks_true (deliver ms evs ss).
Proof.
  unfold deliver. induction evs as [|ev evs IH]; intros ss Hev Hss; [done|]. cbn [foldl].
  apply Forall_cons in Hev as [He Hev]. apply IH; [done|]. by apply broadcast_true.
Qed.

Lemma closing_true a reason : Forall ev_true (closing a reason).
Proof. unfold closing. by case_match; repeat constructor. Qed.

Lemma emits_true a c : members_true (ac_members a) -> cmd_true c -> Forall ev_true (emits a c).
Proof.
  intros Hm Hc. destruct c as [p n s|p t|p r|r]; cbn [emits]; [| | |apply closing_true].
  - repeat case_match; by repeat constructor.
  - destruct (ac_members a !! p) as [m|] eqn:Em; [|constructor]. case_match; [|constructor].
    repeat constructor; [by apply Hm|done].
  - destruct (Room.try_leave _ _) as [[[|]|] room']; try constructor; [done|].
    case_match; [apply closing_true|constructor].
Qed.

Lemma members_after_true a c :
  members_true (ac_members a) -> cmd_true c -> members_true (members_after a c).
Proof.
  intros Hm Hc. destruct c as [p n s|p t|p r|r]; cbn [members_after receivers]; try done.
  - repeat case_match; try done. intros q m [[<- <-]|[_ Hq]]%lookup_insert_Some; [done|by apply Hm].
  - repeat case_match; try done. intros q m [_ Hq]%lookup_delete_Some. by apply Hm.
Qed.

Lemma handle_true c a ss o a' ss' :
  members_true (ac_members a) -> cmd_true c -> sinks_true ss -> handle c (a, ss) = (o, (a', ss')) ->
  members_true (ac_members a') /\ sinks_true ss'.
Proof.
  intros Hm Hc Hss Hx. apply handle_effect in Hx as [-> ->]. split.
  - by apply members_after_true.
  - apply deliver_true; [by apply emits_true|done].
Qed.

Lemma serve_true cs : forall a ss o a' ss',
  members_true (ac_members a) -> Forall cmd_true cs -> sinks_true ss ->
  serve cs (a, ss) = (o, (a', ss')) -> members_true (ac_members a') /\ sinks_true ss'.
Proof.
  induction cs as [|c cs IH]; intros a ss o a' ss' Hm Hc Hss Hx.
  { injection Hx as _ <- <-. done. }
  apply Forall_cons in Hc as [Hc Hcs]. destruct cs as [|c2 cs].
  { by eapply handle_true. }
  cbn [serve] in Hx. apply io_bind_inv in Hx as ([st rp] & [a1 ss1] & Hh & Hx).
  apply handle_true in Hh as [Hm1 Hs1]; try done. destruct st; [by injection Hx as _ <- <-|].
  by eapply IH.
Qed.

Lemma finish_true reason a ss a' ss' :
  members_true (ac_members a) -> sinks_true ss -> finish reason (a, ss) = (tt, (a', ss')) ->
  members_true (ac_members a') /\ sinks_true ss'.
Proof.
  intros Hm Hss. rewrite finish_eq. intros [= <- <-]. split; [done|].
  apply deliver_true; [apply closing_true|done].
Qed.

(* ------------------------------------------------------------------ *)
(** ** The service *)

Lemma rooms_true_task r t (w : Rooms) : rooms_true w -> task_true t -> rooms_true (set_task r t w).
Proof.
  intros [] Ht. constructor; [|done]. intros q u. cbn.
  intros [[<- <-]|[_ Hq]]%lookup_insert_Some; [done|by eapply rt_tasks0].
Qed.

(** Registry and publisher do not matter. *)
Lemma rooms_true_same (w w' : Rooms) :
  tasks w' = tasks w -> sinks w' = sinks w -> rooms_true w -> rooms_true w'.
Proof. intros Ht Hs []. by constructor; rewrite ?Ht, ?Hs. Qed.

Lemma actor_turn_true r : preserves rooms_true (actor_turn r).
Proof.
  intros w o w' Hw Hx. unfold actor_turn in Hx. destruct (tasks w !! r) as [t|] eqn:Et; [|by injection Hx as _ <-].
  destruct (at_stopped t); [by injection Hx as _ <-|].
  destruct (rt_tasks _ Hw _ _ Et) as [Hm Hc].
  destruct (serve _ _) as [[stop rp] [a ss]] eqn:Es.
  apply serve_true in Es as [Hm1 Hs1]; [|done|done|apply Hw].
  destruct (if stop then _ else _) as [a2 ss2] eqn:Ef.
  assert (H2 : members_true (ac_members a2) /\ sinks_true ss2).
  { destruct stop; [|by injection Ef as <- <-].
    destruct (finish _ _) as [[] [a3 ss3]] eqn:Efi. injection Ef as <- <-. exact (finish_true _ _ _ _ _ Hm1 Hs1 Efi). }
  injection Hx as _ <-. destruct H2 as [Hm2 Hs2]. constructor; [|done]. cbn.
  intros q u [[<- <-]|[_ Hq]]%lookup_insert_Some; [|by eapply (rt_tasks _ Hw)]. split; [done|]. cbn.
  destruct stop.
  - destruct (drop_rx_spec _ (at_queue t)) as [-> _]. constructor.
  - destruct (pop_all_spec _ (at_queue t) eq_refl) as [-> _]. constructor.
Qed.

Lemma handle_try_send_true r c : cmd_true c -> preserves rooms_true (handle_try_send (E := E) r c).
Proof.
  intros Hc w o w' Hw Hx. unfold handle_try_send in Hx.
  destruct (tasks w !! r) as [t|] eqn:Et; [|by injection Hx as _ <-].
  destruct (rt_tasks _ Hw _ _ Et) as [Hm Hcs].
  destruct (try_send (at_queue t) c) as [res q] eqn:Es.
  apply try_send_cases in Es as [(-> & _ & _ & Hi & _)|[(-> & _)|(-> & _)]]; injection Hx as _ <-; try done.
  apply rooms_true_task; [done|]. split; [done|]. cbn. rewrite Hi. apply Forall_app. by repeat constructor.
Qed.

Lemma handle_send_true r c : cmd_true c -> preserves rooms_true (handle_send (E := E) r c).
Proof.
  intros Hc. pose proof (handle_try_send_true r c Hc). pose proof (actor_turn_true r).
  unfold handle_send. preserve.
Qed.

Lemma handle_for_true r : preserves rooms_true (handle_for (E := E) r).
Proof.
  intros w o w' Hw Hx. unfold handle_for, registry_remove in Hx.
  repeat case_match; injection Hx as _ <-; try done. by apply (rooms_true_same w).
Qed.

Lemma registry_remove_true r : preserves rooms_true (registry_remove (E := E) r).
Proof. intros w o w' Hw [= _ <-]. by apply (rooms_true_same w). Qed.

Lemma registry_insert_true r : preserves rooms_true (registry_insert (E := E) r).
Proof. intros w o w' Hw [= _ <-]. by apply (rooms_true_same w). Qed.

Lemma live_handles_true : preserves rooms_true (live_handles (E := E)).
Proof. intros w o w' Hw [= _ <-]. by apply (rooms_true_same w). Qed.

Lemma publish_event_true e : preserves rooms_true (publish_event e).
Proof.
  intros w o w' Hw Hx. apply publish_event_inv in Hx as (_ & ? & ?). by apply (rooms_true_same w).
Qed.

Lemma spawn_true room cap : preserves rooms_true (spawn (E := E) room cap).
Proof.
  intros w o w' Hw [= _ <-]. apply rooms_true_task; [done|]. split.
  - intros p m. cbn. by rewrite lookup_empty.
  - cbn. destruct (chan_spec (Q := Q) RoomCommand cap) as [-> _]. constructor.
Qed.

Hint Resolve actor_turn_true handle_try_send_true handle_send_true handle_for_true
  registry_remove_true registry_insert_true live_handles_true publish_event_true spawn_true : longship.

Lemma join_true r p n k now : named p n -> preserves rooms_true (join r p n k now).
Proof. intros Hn. unfold join. preserve. Qed.

Lemma create_and_join_true config i p n k now1 now2 :
  named p n -> preserves rooms_true (create_and_join config i p n k now1 now2).
Proof. intros Hn. pose proof join_true. unfold create_and_join. preserve. Qed.

Lemma join_or_create_true config o i p n k now1 now2 :
  named p n -> preserves rooms_true (join_or_create config o i p n k now1 now2).
Proof.
  intros Hn. pose proof join_true. pose proof create_and_join_true. unfold join_or_create. preserve.
Qed.

Lemma chat_true r p text : said p (trim text) -> preserves rooms_true (chat (E := E) r p text).
Proof.
  intros Hs. unfold chat.
  assert (cmd_true (Chat p (trim text))) by (cbn; by rewrite trim_idemp). preserve.
Qed.

Lemma leave_true r p reason now : preserves rooms_true (leave r p reason now).
Proof.
  unfold leave. apply preserves_bind; [apply handle_for_true|]. intros [h|]; [|apply preserves_ret].
  apply preserves_bind; [by apply handle_send_true|]. intros [u|err].
  - apply preserves_bind; [apply actor_turn_true|]. intros reply.
    apply (preserves_here _ (fun w => io_try _ _)). intros w. preserve.
  - intros w o w' Hw Hx. destruct (handle_is_closed w h); [|by injection Hx as _ <-].
    revert Hw Hx. apply (preserves_bind rooms_true (registry_remove r)); [|intros []]; preserve.
Qed.

Lemma leave_each_true hs p reason now : preserves rooms_true (leave_each hs p reason now).
Proof. pose proof leave_true. induction hs as [|h hs IH]; cbn [leave_each]; preserve. Qed.

Lemma leave_all_true p reason now : preserves rooms_true (leave_all p reason now).
Proof. pose proof leave_each_true. unfold leave_all. preserve. Qed.

Lemma close_each_true hs reason : preserves rooms_true (close_each (E := E) hs reason).
Proof.
  pose proof (fun h => handle_send_true h (Close reason) I).
  induction hs as [|h hs IH]; cbn [close_each]; preserve.
Qed.

Lemma close_all_true reason : preserves rooms_true (close_all (E := E) reason).
Proof.
  intros w o w' Hw Hx. unfold close_all in Hx.
  apply (preserves_bind rooms_true (close_each (elements (registry w)) reason) (fun _ => io_ret (Ok tt))) in Hx;
    [done|apply close_each_true|intros ?; apply preserves_ret|by apply (rooms_true_same w)].
Qed.

End Speech.
