(* ===== verification/Presence.v ===== *)
(** Who is in the rooms ([application/src/room]): whatever relation [L] holds between a
    room, a player and the sink of a connection when the player joins, holds for every
    member that the open rooms list.

    A room counts while it is registered and its actor runs.  Only a join makes members,
    and a join that is refused makes none; outside of a call of the service no join waits
    in a queue. *)
From S2P Require Import Prelude Text Tokio Values Room Session App RoomActor RoomService Speech.
From Stdlib Require Import Strings.String.
Open Scope Z_scope.
Open Scope list_scope.
Abbreviation length := Datatypes.length.

Section Presence.
Context {Q : Type -> Type} `{HQ : Mpsc Q} {E : Type} `{HE : EventPublisher E}.
Abbreviation Rooms := (Rooms Q E).
Implicit Types (w : Rooms) (c : RoomCommand) (a : Actor) (ss : gmap Z (Sink Q)).

Definition no_join c : Prop := match c with Join _ _ _ => False | _ => True end.

Section Relation.
Variable L : RoomId -> PlayerId -> Z -> Prop.

Definition members_in (r : RoomId) (ms : gmap Z Member) : Prop := forall q m, ms !! q = Some m -> L r q (mb_sink m).
Definition join_in (r : RoomId) c : Prop := match c with Join q _ k => L r q k | _ => True end.

(** Room [r], if it is open, has such members, and such commands wait for it. *)
Definition room_in (waiting : list RoomCommand -> Prop) w (r : RoomId) : Prop :=
  r ∈ registry w -> forall t, tasks w !! r = Some t -> at_stopped t = false ->
    members_in r (ac_members (at_actor t)) /\ waiting (items (at_queue t)).

Definition present w : Prop := forall r, room_in (Forall no_join) w r.

(* ------------------------------------------------------------------ *)
(** ** The actor *)

Lemma handle_members r c a ss o a' ss' :
  members_in r (ac_members a) -> join_in r c -> handle c (a, ss) = (o, (a', ss')) ->
  members_in r (ac_members a').
Proof.
  intros Hm Hc Hx. apply handle_effect in Hx as [_ ->].
  destruct c as [p n k|p t|p rs|rs]; cbn [members_after receivers]; try done; repeat case_match; try done.
  - intros q m [[<- <-]|[_ Hq]]%lookup_insert_Some; [done|by apply Hm].
  - intros q m [_ Hq]%lookup_delete_Some. by apply Hm.
Qed.

Lemma serve_members r cs : forall a ss o a' ss',
  members_in r (ac_members a) -> Forall (join_in r) cs -> serve cs (a, ss) = (o, (a', ss')) ->
  members_in r (ac_members a').
Proof.
  induction cs as [|c cs IH]; intros a ss o a' ss' Hm Hc Hx; [by injection Hx as _ <- _|].
  apply Forall_cons in Hc as [Hc Hcs]. destruct cs as [|c2 cs]; [by eapply handle_members|].
  cbn [serve] in Hx. apply io_bind_inv in Hx as ([st rp] & [a1 ss1] & Hh & Hx).
  apply (handle_members r) in Hh; [|done..]. destruct st; [by injection Hx as _ <- _|]. by eapply IH.
Qed.

(** A refused join adds nobody. *)
Lemma serve_refused r p n k cs : forall a ss stop rp a' ss',
  members_in r (ac_members a) -> Forall (join_in r) cs ->
  serve (cs ++ [Join p n k]) (a, ss) = ((stop, rp), (a', ss')) ->
  stop = true \/ exists res, rp = Some (JoinReply res) /\ (is_err res = true -> members_in r (ac_members a')).
Proof.
  induction cs as [|c cs IH]; intros a ss stop rp a' ss' Hm Hcs Hx.
  - right. cbn [app serve] in Hx. pose proof Hx as [_ Hms]%handle_effect.
    unfold handle, io_bind, io_ret, handle_join in Hx. cbn [members_after receivers] in Hms. rewrite Hms.
    destruct (Room.try_join (ac_room a) p) as [[[|]|e] room]; injection Hx as _ <- _ _;
      (eexists; split; [reflexivity|done]).
  - apply Forall_cons in Hcs as [Hc Hcs]. destruct cs as [|c2 cs]; cbn [app serve] in *.
    + apply io_bind_inv in Hx as ([st r1] & [a1 ss1] & Hh & Hx). apply (handle_members r) in Hh; [|done..].
      destruct st; [injection Hx as <- _ _ _; by left|]. by eapply (IH a1 ss1).
    + apply io_bind_inv in Hx as ([st r1] & [a1 ss1] & Hh & Hx). apply (handle_members r) in Hh; [|done..].
      destruct st; [injection Hx as <- _ _ _; by left|]. by eapply (IH a1 ss1).
Qed.

(** The turn of a room's actor empties its queue. *)
Lemma turn_present r w o w' :
  (forall i, i <> r -> room_in (Forall no_join) w i) ->
  (forall t a ss, r ∈ registry w -> tasks w !! r = Some t -> at_stopped t = false ->
     serve (items (at_queue t)) (at_actor t, sinks w) = ((false, o), (a, ss)) -> members_in r (ac_members a)) ->
  actor_turn r w = (o, w') -> present w'.
Proof.
  intros Hother Hr Hx. unfold actor_turn in Hx. destruct (tasks w !! r) as [t|] eqn:Et.
  2: { injection Hx as _ <-. intros i. destruct (decide (i = r)) as [->|]; [|by apply Hother].
       intros _ t Ht. congruence. }
  destruct (at_stopped t) eqn:Est.
  { injection Hx as _ <-. intros i. destruct (decide (i = r)) as [->|]; [|by apply Hother].
    intros _ u Hu. congruence. }
  destruct (serve _ _) as [[stop rp] [a ss]] eqn:Es. destruct (if stop then _ else _) as [a2 ss2] eqn:Ef.
  injection Hx as -> <-. intros i Hi u Hu Hst. cbn in Hi, Hu.
  apply lookup_insert_Some in Hu as [[<- <-]|[Hne Hu]]; [|by eapply (Hother i)].
  cbn in *. subst stop. injection Ef as <- <-.
  split; [by eapply Hr|]. destruct (pop_all_spec _ (at_queue t) eq_refl) as [-> _]. constructor.
Qed.

End Relation.

(** [L] may be weakened where there are members. *)
Lemma members_in_mono (L L' : RoomId -> PlayerId -> Z -> Prop) r ms :
  (forall q k, L r q k -> L' r q k) -> members_in L r ms -> members_in L' r ms.
Proof. intros HL Hm q m Hq. apply HL. by apply Hm. Qed.

Lemma present_mono (L L' : RoomId -> PlayerId -> Z -> Prop) w :
  (forall r q k, L r q k -> L' r q k) -> present L w -> present L' w.
Proof.
  intros HL Hw r Hr t Ht Hst. destruct (Hw r Hr t Ht Hst) as [Hm Hc]. split; [|done].
  by eapply members_in_mono; [apply HL|].
Qed.

(** Fewer registered rooms, other sinks or another publisher. *)
Lemma present_sub L w w' : tasks w' = tasks w -> registry w' ⊆ registry w -> present L w -> present L w'.
Proof. intros Ht Hr Hw r Hin t. rewrite Ht. apply Hw. set_solver. Qed.

Section Service.
Variable L : RoomId -> PlayerId -> Z -> Prop.
Abbreviation present := (present L).

Lemma waiting_join r cs : Forall no_join cs -> Forall (join_in L r) cs.
Proof. intros Hc. eapply Forall_impl; [exact Hc|]. by intros []. Qed.

Lemma actor_turn_present r : preserves present (actor_turn (E := E) r).
Proof.
  intros w o w' Hw Hx. eapply turn_present; [by intros| |exact Hx]. intros t a ss Hr Ht Hst Hs.
  destruct (Hw r Hr t Ht Hst) as [Hm Hc]. by eapply serve_members; [|apply waiting_join|].
Qed.

(** After the sending of [c]: it may wait at the end of the queue of its room. *)
Definition sent_to (r : RoomId) c (res : result unit AppError) w : Prop :=
  (forall i, i <> r -> room_in L (Forall no_join) w i) /\
  room_in L (fun q => Forall no_join q \/ res = Ok tt /\ exists pre, Forall no_join pre /\ q = pre ++ [c]) w r.

Lemma sent_waits r c res w : present w -> sent_to r c res w.
Proof.
  intros Hw. split; [by intros|]. intros Hr t Ht Hst. destruct (Hw r Hr t Ht Hst) as [Hm Hc]. auto.
Qed.

Lemma sent_present r c res w : sent_to r c res w -> no_join c \/ res <> Ok tt -> present w.
Proof.
  intros [Ho Hr] Hc i. destruct (decide (i = r)) as [->|]; [|by apply Ho]. intros Hi t Ht Hst.
  destruct (Hr Hi t Ht Hst) as [Hm [Hq|(-> & pre & Hq & ->)]]; (split; [done|]); [done|].
  destruct Hc as [Hc|]; [|done]. apply Forall_app. split; [done|]. by apply Forall_singleton.
Qed.

Lemma handle_try_send_sent r c w res w' : present w -> handle_try_send r c w = (res, w') -> sent_to r c res w'.
Proof.
  intros Hw Hx. unfold handle_try_send in Hx.
  destruct (tasks w !! r) as [t|] eqn:Et; [|injection Hx as <- <-; by apply sent_waits].
  destruct (try_send (at_queue t) c) as [o q] eqn:Es.
  apply try_send_cases in Es as [(-> & _ & _ & Hi & _)|[(-> & _)|(-> & _)]]; injection Hx as <- <-;
    [|by apply sent_waits..].
  split.
  - intros i Hne Hin u. cbn. rewrite lookup_insert_ne by done. by apply Hw.
  - intros Hin u Hu Hst. cbn in Hu. rewrite lookup_insert_eq in Hu. injection Hu as <-. cbn in *.
    destruct (Hw r Hin t Et Hst) as [Hm Hc]. split; [done|]. right. eauto.
Qed.

Lemma handle_send_sent r c w res w' : present w -> handle_send r c w = (res, w') -> sent_to r c res w'.
Proof.
  intros Hw Hx. unfold handle_send in Hx. apply io_bind_inv in Hx as (r1 & w1 & H1 & Hx).
  apply handle_try_send_sent in H1 as Hs; [|done].
  destruct r1 as [[]|e]; [by apply io_ret_inv in Hx as [<- <-]|].
  assert (Hw1 : present w1) by (eapply sent_present; [exact Hs|by right]).
  destruct e; try by (apply io_ret_inv in Hx as [<- <-]).
  apply io_bind_inv in Hx as (o & w2 & H2 & Hx). apply actor_turn_present in H2; [|done].
  eapply handle_try_send_sent; [exact H2|exact Hx].
Qed.

Lemma handle_try_send_present r c : no_join c -> preserves present (handle_try_send (E := E) r c).
Proof. intros Hc w o w' Hw Hx. eapply sent_present; [by eapply handle_try_send_sent|by left]. Qed.

Lemma handle_send_present r c : no_join c -> preserves present (handle_send (E := E) r c).
Proof. intros Hc w o w' Hw Hx. eapply sent_present; [by eapply handle_send_sent|by left]. Qed.

(* ------------------------------------------------------------------ *)
(** ** The service *)

Lemma handle_for_present r : preserves present (handle_for (E := E) r).
Proof.
  intros w o w' Hw Hx. unfold handle_for, registry_remove in Hx.
  repeat case_match; injection Hx as _ <-; try done. apply (present_sub L w); [done|cbn; set_solver|done].
Qed.

Lemma registry_remove_present r : preserves present (registry_remove (E := E) r).
Proof. intros w o w' Hw [= _ <-]. apply (present_sub L w); [done|cbn; set_solver|done]. Qed.

Lemma live_handles_present : preserves present (live_handles (E := E)).
Proof. intros w o w' Hw [= _ <-]. apply (present_sub L w); [done|cbn; set_solver|done]. Qed.

Lemma publish_event_present e : preserves present (publish_event e).
Proof.
  intros w o w' Hw Hx. apply publish_event_inv in Hx as (Hr & ? & ?). apply (present_sub L w); [done|by rewrite Hr|done].
Qed.

Hint Resolve actor_turn_present handle_try_send_present handle_send_present handle_for_present
  registry_remove_present live_handles_present publish_event_present : longship.

Lemma chat_present r p text : preserves present (chat (E := E) r p text).
Proof. pose proof (fun h => handle_try_send_present h (Chat p (trim text)) I). unfold chat. preserve. Qed.

Lemma leave_present r p reason now : preserves present (leave r p reason now).
Proof.
  unfold leave. apply preserves_bind; [apply handle_for_present|]. intros [h|]; [|apply preserves_ret].
  apply preserves_bind; [by apply handle_send_present|]. intros [u|err].
  - apply preserves_bind; [apply actor_turn_present|]. intros reply.
    apply (preserves_here _ (fun w => io_try _ _)). intros w. preserve.
  - intros w o w' Hw Hx. destruct (handle_is_closed w h); [|by injection Hx as _ <-].
    revert Hw Hx. apply (preserves_bind present (registry_remove r)); [|intros []]; preserve.
Qed.

Lemma leave_each_present hs p reason now : preserves present (leave_each hs p reason now).
Proof. pose proof leave_present. induction hs as [|h hs IH]; cbn [leave_each]; preserve. Qed.

Lemma leave_all_present p reason now : preserves present (leave_all p reason now).
Proof. pose proof leave_each_present. unfold leave_all. preserve. Qed.

Lemma close_all_present reason : preserves present (close_all (E := E) reason).
Proof.
  intros w o w' Hw Hx. unfold close_all in Hx.
  assert (Hc : forall hs, preserves present (close_each (E := E) hs reason)).
  { pose proof (fun h => handle_send_present h (Close reason) I). induction hs; cbn [close_each]; preserve. }
  apply (preserves_bind present (close_each (elements (registry w)) reason) (fun _ => io_ret (Ok tt))) in Hx;
    [done|apply Hc|intros ?; apply preserves_ret|]. apply (present_sub L w); [done|cbn; set_solver|done].
Qed.

(** The turn that answers a join. *)
Lemma join_turn r p n k w o w' :
  sent_to r (Join p n k) (Ok tt) w -> actor_turn r w = (o, w') ->
  (o = Some (JoinReply (Ok tt)) -> L r p k) -> present w'.
Proof.
  intros [Ho Hr] Hx HL. eapply turn_present; [exact Ho| |exact Hx]. intros t a ss Hin Ht Hst Hs.
  destruct (Hr Hin t Ht Hst) as [Hm [Hq|(_ & pre & Hq & Heq)]].
  { by eapply serve_members; [|apply waiting_join|]. }
  rewrite Heq in Hs. destruct (serve_refused L r p n k pre _ _ _ _ _ _ Hm (waiting_join r pre Hq) Hs)
    as [?|([[]|e] & -> & Herr)]; [done| |by apply Herr].
  eapply serve_members; [exact Hm| |exact Hs]. apply Forall_app. split; [by apply waiting_join|].
  apply Forall_singleton. by apply HL.
Qed.

Lemma join_present r p n k now w res w' :
  present w -> join r p n k now w = (res, w') -> (is_ok res = true -> L r p k) -> present w'.
Proof.
  intros Hw Hx HL. unfold join in Hx. apply io_bind_inv in Hx as (o & w1 & Hf & Hx).
  assert (Ho : o = None \/ o = Some r).
  { unfold handle_for, registry_remove in Hf. repeat case_match; injection Hf as <- _; auto. }
  apply handle_for_present in Hf; [|done]. destruct Ho as [->| ->]; [by injection Hx as <- <-|].
  apply io_try_inv in Hx as [(h & w2 & Hh & Hx)|(e & Hh & _)]; [|done]. injection Hh as <- <-.
  apply io_try_inv in Hx as [([] & w2 & Hs & Hx)|(e & Hs & ->)].
  2: { apply handle_send_sent in Hs; [|done]. eapply sent_present; [exact Hs|by right]. }
  apply handle_send_sent in Hs; [|done]. apply io_bind_inv in Hx as (reply & w3 & Ht & Hx).
  destruct reply as [[[[]|e]|?]|]; cbn in Hx.
  - apply io_bind_inv in Hx as (z & w5 & Hz & Hx). apply io_ret_inv in Hx as [<- <-].
    eapply publish_event_present; [|exact Hz]. eapply join_turn; [exact Hs|exact Ht|]. intros _. by apply HL.
  - injection Hx as _ <-. by eapply join_turn; [exact Hs|exact Ht|].
  - injection Hx as _ <-. by eapply join_turn; [exact Hs|exact Ht|].
  - injection Hx as _ <-. by eapply join_turn; [exact Hs|exact Ht|].
Qed.

(** A new room has no members. *)
Lemma created_present config i now w :
  present w ->
  present (snd (registry_insert i (snd (spawn (Room.open i (max_players config) now) (command_capacity config) w)))).
Proof.
  intros Hw r Hr t Ht Hst. cbn in Hr, Ht. apply lookup_insert_Some in Ht as [[<- <-]|[Hne Ht]]; cbn in *.
  - split; [intros q m; by rewrite lookup_empty|].
    destruct (chan_spec (Q := Q) RoomCommand (command_capacity config)) as [-> _]. constructor.
  - apply (Hw r); [set_solver|done|done].
Qed.

Lemma join_or_create_present config o i p n k now1 now2 w res w' :
  present w -> join_or_create config o i p n k now1 now2 w = (res, w') ->
  (forall j, res = Ok j -> L j p k) -> present w'.
Proof.
  intros Hw Hx HL. unfold join_or_create in Hx. destruct o as [r|].
  - apply io_try_inv in Hx as [([] & w1 & Hj & Hx)|(e & Hj & ->)].
    + apply io_ret_inv in Hx as [<- <-]. eapply join_present; [exact Hw|exact Hj|]. intros _. by apply HL.
    + by eapply join_present; [exact Hw|exact Hj|].
  - unfold create_and_join in Hx. pose proof (created_present config i now1 w Hw) as Hw1.
    apply io_bind_inv in Hx as (r0 & w1 & Hs & Hx). injection Hs as <- <-.
    apply io_bind_inv in Hx as ([] & w2 & Hi & Hx). injection Hi as <-.
    apply io_bind_inv in Hx as (rj & w3 & Hj & Hx). destruct rj as [[]|e].
    + apply io_ret_inv in Hx as [<- <-]. eapply join_present; [exact Hw1|exact Hj|]. intros _. by apply HL.
    + apply join_present in Hj; [|exact Hw1|done].
      apply io_bind_inv in Hx as (y & w4 & Hy & Hx). apply io_ret_inv in Hx as [_ <-].
      eapply registry_remove_present; [exact Hj|exact Hy].
Qed.

End Service.

(* ------------------------------------------------------------------ *)
(** ** Staying in a room *)

Section Stay.
Variables (r : RoomId) (q : PlayerId).

(** Commands that do not concern player [q]'s membership. *)
Definition quiet c : Prop := match c with Join p _ _ | Leave p _ => p <> q | _ => True end.

(** Room [r] exists, and if it is open it lists [q] and nothing waits that would change it. *)
Definition stays w : Prop :=
  is_Some (tasks w !! r) /\
  (r ∈ registry w -> forall t, tasks w !! r = Some t -> at_stopped t = false ->
     is_Some (ac_members (at_actor t) !! q) /\ Forall quiet (items (at_queue t))).

Lemma handle_stays c a ss o a' ss' :
  is_Some (ac_members a !! q) -> quiet c -> handle c (a, ss) = (o, (a', ss')) -> is_Some (ac_members a' !! q).
Proof.
  intros Hm Hc Hx. apply handle_effect in Hx as [_ ->].
  destruct c as [p n k|p t|p rs|rs]; cbn [members_after receivers quiet] in *; try done; repeat case_match; try done.
  - by rewrite lookup_insert_ne.
  - by rewrite lookup_delete_ne.
Qed.

Lemma serve_stays cs : forall a ss o a' ss',
  is_Some (ac_members a !! q) -> Forall quiet cs -> serve cs (a, ss) = (o, (a', ss')) -> is_Some (ac_members a' !! q).
Proof.
  induction cs as [|c cs IH]; intros a ss o a' ss' Hm Hc Hx; [by injection Hx as _ <- _|].
  apply Forall_cons in Hc as [Hc Hcs]. destruct cs as [|c2 cs]; [by eapply handle_stays|].
  cbn [serve] in Hx. apply io_bind_inv in Hx as ([st rp] & [a1 ss1] & Hh & Hx).
  apply handle_stays in Hh; [|done..]. destruct st; [by injection Hx as _ <- _|]. by eapply IH.
Qed.

Lemma stays_sub w w' : tasks w' = tasks w -> registry w' ⊆ registry w -> stays w -> stays w'.
Proof. unfold stays. intros -> Hr [He Hs]. split; [done|]. intros Hin. apply Hs. set_solver. Qed.

(** A task of another room. *)
Lemma stays_other i t (w w' : Rooms) :
  i <> r -> tasks w' = <[i := t]> (tasks w) -> registry w' ∖ {[i]} ⊆ registry w -> stays w -> stays w'.
Proof.
  unfold stays. intros Hne -> Hr. rewrite lookup_insert_ne by done. intros [He Hs]. split; [done|].
  intros Hin. apply Hs. set_solver.
Qed.

Lemma actor_turn_stays i : preserves stays (actor_turn (E := E) i).
Proof.
  intros w o w' Hw Hx. unfold actor_turn in Hx. destruct (tasks w !! i) as [t|] eqn:Et; [|by injection Hx as _ <-].
  destruct (at_stopped t) eqn:Est; [by injection Hx as _ <-|].
  destruct (serve _ _) as [[stop rp] [a ss]] eqn:Es. destruct (if stop then _ else _) as [a2 ss2] eqn:Ef.
  injection Hx as _ <-. destruct (decide (i = r)) as [->|Hne]; [|eapply (stays_other i); [done|reflexivity|cbn; set_solver|done]].
  destruct Hw as [_ Hs]. split; [cbn; rewrite lookup_insert_eq; eauto|]. cbn. intros Hin u Hu Hst.
  rewrite lookup_insert_eq in Hu. injection Hu as <-. cbn in *. subst stop. injection Ef as <- <-.
  destruct (Hs Hin t Et Est) as [Hm Hc]. split; [by eapply serve_stays|].
  destruct (pop_all_spec _ (at_queue t) eq_refl) as [-> _]. constructor.
Qed.

Lemma handle_try_send_stays i c : quiet c -> preserves stays (handle_try_send (E := E) i c).
Proof.
  intros Hc w o w' Hw Hx. unfold handle_try_send in Hx.
  destruct (tasks w !! i) as [t|] eqn:Et; [|by injection Hx as _ <-].
  destruct (try_send (at_queue t) c) as [res k] eqn:Es.
  apply try_send_cases in Es as [(-> & _ & _ & Hi & _)|[(-> & _)|(-> & _)]]; injection Hx as _ <-; try done.
  destruct (decide (i = r)) as [->|Hne]; [|eapply (stays_other i); [done|reflexivity|cbn; set_solver|done]].
  destruct Hw as [_ Hs]. split; [cbn; rewrite lookup_insert_eq; eauto|]. cbn. intros Hin u Hu Hst.
  rewrite lookup_insert_eq in Hu. injection Hu as <-. cbn in *. destruct (Hs Hin t Et Hst) as [Hm Hq].
  split; [done|]. rewrite Hi. apply Forall_app. split; [done|]. by apply Forall_singleton.
Qed.

Lemma handle_send_stays i c : quiet c -> preserves stays (handle_send (E := E) i c).
Proof.
  intros Hc. pose proof (handle_try_send_stays i c Hc). pose proof (actor_turn_stays i).
  unfold handle_send. preserve.
Qed.

Lemma handle_for_stays i : preserves stays (handle_for (E := E) i).
Proof.
  intros w o w' Hw Hx. unfold handle_for, registry_remove in Hx.
  repeat case_match; injection Hx as _ <-; try done. apply (stays_sub w); [done|cbn; set_solver|done].
Qed.

Lemma registry_remove_stays i : preserves stays (registry_remove (E := E) i).
Proof. intros w o w' Hw [= _ <-]. apply (stays_sub w); [done|cbn; set_solver|done]. Qed.

Lemma live_handles_stays : preserves stays (live_handles (E := E)).
Proof. intros w o w' Hw [= _ <-]. apply (stays_sub w); [done|cbn; set_solver|done]. Qed.

Lemma publish_event_stays e : preserves stays (publish_event e).
Proof.
  intros w o w' Hw Hx. apply publish_event_inv in Hx as (Hr & ? & ?). apply (stays_sub w); [done|by rewrite Hr|done].
Qed.

Hint Resolve actor_turn_stays handle_try_send_stays handle_send_stays handle_for_stays
  registry_remove_stays live_handles_stays publish_event_stays : longship.

Lemma chat_stays i p text : preserves stays (chat (E := E) i p text).
Proof. pose proof (fun h => handle_try_send_stays h (Chat p (trim text)) I). unfold chat. preserve. Qed.

(** The calls of another player. *)
Lemma join_stays i p n k now : p <> q -> preserves stays (join i p n k now).
Proof. intros Hp. unfold join. preserve. Qed.

Lemma leave_stays i p reason now : p <> q -> preserves stays (leave i p reason now).
Proof.
  intros Hp. unfold leave. apply preserves_bind; [apply handle_for_stays|]. intros [h|]; [|apply preserves_ret].
  apply preserves_bind; [by apply handle_send_stays|]. intros [u|err].
  - apply preserves_bind; [apply actor_turn_stays|]. intros reply.
    apply (preserves_here _ (fun w => io_try _ _)). intros w. preserve.
  - intros w o w' Hw Hx. destruct (handle_is_closed w h); [|by injection Hx as _ <-].
    revert Hw Hx. apply (preserves_bind stays (registry_remove i)); [|intros []]; preserve.
Qed.

Lemma leave_each_stays hs p reason now : p <> q -> preserves stays (leave_each hs p reason now).
Proof. intros Hp. pose proof leave_stays. induction hs as [|h hs IH]; cbn [leave_each]; preserve. Qed.

Lemma leave_all_stays p reason now : p <> q -> preserves stays (leave_all p reason now).
Proof. intros Hp. pose proof leave_each_stays. unfold leave_all. preserve. Qed.

Lemma close_all_stays reason : preserves stays (close_all (E := E) reason).
Proof.
  intros w o w' Hw Hx. unfold close_all in Hx.
  assert (Hc : forall hs, preserves stays (close_each (E := E) hs reason)).
  { pose proof (fun h => handle_send_stays h (Close reason) I). induction hs; cbn [close_each]; preserve. }
  apply (preserves_bind stays (close_each (elements (registry w)) reason) (fun _ => io_ret (Ok tt))) in Hx;
    [done|apply Hc|intros ?; apply preserves_ret|]. apply (stays_sub w); [done|cbn; set_solver|done].
Qed.

Lemma join_or_create_stays config o i p n k now1 now2 w res w' :
  p <> q -> tasks w !! i = None -> stays w -> join_or_create config o i p n k now1 now2 w = (res, w') -> stays w'.
Proof.
  intros Hp Hfree Hw Hx. pose proof (join_stays i p n k now2 Hp) as Hjoin. unfold join_or_create in Hx. destruct o as [j|].
  - revert Hw Hx. apply (preserves_try stays (join j p n k now2) (fun _ => io_ret (Ok j)));
      [by apply join_stays|intros ?; apply preserves_ret].
  - unfold create_and_join in Hx.
    apply io_bind_inv in Hx as (r0 & w1 & Hs & Hx). injection Hs as <- <-.
    apply io_bind_inv in Hx as ([] & w2 & Hi & Hx). injection Hi as <-. cbn [rm_id Room.open] in Hx.
    revert Hx. match goal with |- _ ?x = _ -> _ => assert (Hx : stays x) end.
    { eapply (stays_other i); [|reflexivity|cbn; set_solver|exact Hw]. intros ->. destruct Hw as [[t Ht] _]. congruence. }
    revert Hx. apply (preserves_bind stays); [exact Hjoin|]. intros [[]|e]; [apply preserves_ret|].
    apply preserves_bind; [apply registry_remove_stays|intros ?; apply preserves_ret].
Qed.

End Stay.

(** Leaving a room leaves the others alone. *)
Lemma confined_stays i r q w w' : confined i w w' -> i <> r -> stays r q w -> stays r q w'.
Proof.
  intros [_ Hc] Hne [He Hs]. destruct (Hc r (not_eq_sym Hne)) as [Ht Hr].
  split; [by rewrite Ht|]. intros Hin t Ht' Hst. apply (Hs (proj2 Hr Hin)); [by rewrite <- Ht|done].
Qed.

(** Whoever was let in stays. *)
Lemma join_seats owner r p n k now w w' :
  rooms_inv owner w -> owner k = p -> join r p n k now w = (Ok tt, w') -> stays r p w'.
Proof.
  intros Hinv Ho Hx. pose proof (join_spec owner _ _ _ _ _ _ _ _ Hinv Ho Hx) as (Hinv' & _ & (_ & t' & Ht' & Hin') & _).
  split; [eauto|]. intros Hin t Ht Hst. assert (t' = t) as -> by congruence.
  split; [by apply (ai_members _ _ (tk_actor _ _ _ (ri_tasks _ _ Hinv' r t Ht)))|].
  unfold join in Hx. apply io_bind_inv in Hx as (o & w1 & Hf & Hx).
  apply (handle_for_spec owner) in Hf as (Hinv1 & _ & _ & _ & Ho1); [|done].
  destruct o as [h|]; [|done]. destruct Ho1 as (-> & -> & _ & t0 & Ht0 & Hst0).
  apply io_try_inv in Hx as [(h & w2 & Hh & Hx)|(e & Hh & _)]; [|done]. injection Hh as <- <-.
  apply io_try_inv in Hx as [(x & w2 & Hs & Hx)|(e & _ & ?)]; [|done].
  apply (handle_send_spec owner r (Join p n k) w t0) in Hs
    as (Hinv2 & _ & t2 & Ht2 & [[_ ?]|(Hst2 & _ & _)]); [done| |done..].
  apply io_bind_inv in Hx as (reply & w3 & Ha & Hx).
  apply (actor_turn_spec owner r w2 t2) in Ha as (_ & _ & t3 & Ht3 & Hi3 & _); [|done..].
  assert (Hsame : tasks w' !! r = tasks w3 !! r).
  { destruct reply as [[[[]|e]|?]|]; cbn in Hx; try done.
    apply io_bind_inv in Hx as (z & w5 & Hz & Hx). apply io_ret_inv in Hx as [_ <-].
    by apply publish_event_inv in Hz as (_ & -> & _). }
  assert (t3 = t) as -> by congruence. rewrite Hi3. constructor.
Qed.

Lemma join_or_create_seats config owner o i p n k now1 now2 w j w' :
  rooms_inv owner w -> owner k = p -> tasks w !! i = None -> (1 <= command_capacity config)%nat ->
  join_or_create config o i p n k now1 now2 w = (Ok j, w') -> stays j p w'.
Proof.
  intros Hinv Ho Hfree Hcap Hx. unfold join_or_create in Hx. destruct o as [r|].
  - apply io_try_inv in Hx as [([] & w1 & Hj & Hx)|(e & _ & ?)]; [|done].
    apply io_ret_inv in Hx as [[= <-] <-]. by eapply join_seats.
  - unfold create_and_join in Hx.
    apply io_bind_inv in Hx as (r0 & w1 & Hs & Hx). injection Hs as <- <-.
    apply io_bind_inv in Hx as ([] & w2 & Hi & Hx). injection Hi as <-. cbn [rm_id Room.open] in Hx.
    apply io_bind_inv in Hx as (rj & w3 & Hj & Hx). destruct rj as [[]|e].
    + apply io_ret_inv in Hx as [[= <-] <-]. eapply join_seats; [|exact Ho|exact Hj]. destruct Hinv. constructor; cbn.
      * intros x u [[<- <-]|[_ Hu]]%lookup_insert_Some; [by apply open_task_ok|auto].
      * intros x Hin. rewrite lookup_insert_is_Some'. set_solver.
    + apply io_bind_inv in Hx as (y & w4 & _ & Hx). by apply io_ret_inv in Hx as [? _].
Qed.

End Presence.
