(* ===== verification/AuthGate.v ===== *)
(** The per-address limit on unauthenticated connections
    ([gateway/src/tcp/auth_gate.rs]).

    A permit is a value that releases its slot when it is dropped.  The system of
    gate and permits is a state machine whose state records the permits alive;
    [gate_refines_permits] shows that the counters are exactly their numbers. *)
From S2P Require Import Prelude.
Open Scope Z_scope.
Open Scope list_scope.

(** An [IpAddr] is only used as a key. *)
Abbreviation IpAddr := Z (only parsing).

Record AuthGate := mkGate { max_per_ip : nat; counts : gmap Z nat }.

(** [AuthGate::new] *)
Definition gate_new (max : nat) : AuthGate := mkGate max ∅.

(** [acquire]: the entry is created before the limit is looked at. *)
Definition acquire (ip : IpAddr) : io AuthGate bool :=
  fun g =>
    let count := default 0%nat (counts g !! ip) in
    if (max_per_ip g <=? count)%nat
    then (false, mkGate (max_per_ip g) (<[ip := count]> (counts g)))
    else (true, mkGate (max_per_ip g) (<[ip := S count]> (counts g))).

Definition release (ip : IpAddr) : io AuthGate unit :=
  fun g =>
    (tt,
     match counts g !! ip with
     | None => g
     | Some count =>
         let count' := (count - 1)%nat in
         mkGate (max_per_ip g)
                (if (count' =? 0)%nat then delete ip (counts g) else <[ip := count']> (counts g))
     end).

Definition unauth_count (g : AuthGate) (ip : IpAddr) : nat := default 0%nat (counts g !! ip).

(** [AuthGate::permit]: [Some ip] is an [AuthPermit] for that address;
    dropping it is [release]. *)
Definition permit (ip : IpAddr) : io AuthGate (option IpAddr) :=
  let* ok := acquire ip in io_ret (if ok then Some ip else None).

Definition drop_permit (p : IpAddr) : io AuthGate unit := release p.

(* ------------------------------------------------------------------ *)
(** ** The gate and the permits alive *)

Record gated := mkGated { gd_gate : AuthGate; gd_alive : list Z }.

Inductive gate_step : gated -> gated -> Prop :=
| gate_admit g l ip g' :
    permit ip g = (Some ip, g') -> gate_step (mkGated g l) (mkGated g' (ip :: l))
| gate_refuse g l ip g' :
    permit ip g = (None, g') -> gate_step (mkGated g l) (mkGated g' l)
| gate_drop g l1 ip l2 g' :
    drop_permit ip g = (tt, g') ->
    gate_step (mkGated g (l1 ++ ip :: l2)) (mkGated g' (l1 ++ l2)).

(** How many permits of an address are alive. *)
Definition alive (l : list Z) (ip : Z) : nat := count_occ Z.eq_dec l ip.
Arguments alive : simpl never.

Definition gate_inv (max : nat) (s : gated) : Prop :=
  max_per_ip (gd_gate s) = max /\
  (forall ip, unauth_count (gd_gate s) ip = alive (gd_alive s) ip) /\
  (forall ip, (alive (gd_alive s) ip <= max)%nat) /\
  ((1 <= max)%nat -> forall ip, counts (gd_gate s) !! ip <> Some 0%nat).

Lemma permit_spec ip g o g' :
  permit ip g = (o, g') ->
  max_per_ip g' = max_per_ip g /\
  (o = Some ip /\ (unauth_count g ip < max_per_ip g)%nat /\
   counts g' = <[ip := S (unauth_count g ip)]> (counts g) \/
   o = None /\ (max_per_ip g <= unauth_count g ip)%nat /\
   counts g' = <[ip := unauth_count g ip]> (counts g)).
Proof.
  unfold permit, io_bind, acquire, io_ret, unauth_count.
  destruct (Nat.leb_spec (max_per_ip g) (default 0%nat (counts g !! ip))); intros [= <- <-]; auto.
Qed.

Lemma release_count ip g q :
  unauth_count (snd (release ip g)) q =
  if decide (q = ip) then (unauth_count g ip - 1)%nat else unauth_count g q.
Proof.
  unfold release, unauth_count. simpl. destruct (counts g !! ip) as [n|] eqn:E.
  - destruct (Nat.eqb_spec (n - 1) 0); simpl.
    + case_decide; subst; [by rewrite lookup_delete_eq|by rewrite lookup_delete_ne by congruence].
    + case_decide; subst; [by rewrite lookup_insert_eq|by rewrite lookup_insert_ne by congruence].
  - case_decide; subst; [by rewrite E|done].
Qed.

Lemma alive_app l1 l2 ip : alive (l1 ++ l2) ip = (alive l1 ip + alive l2 ip)%nat.
Proof. apply count_occ_app. Qed.

Lemma alive_cons x l ip :
  alive (x :: l) ip = (if decide (ip = x) then S (alive l ip) else alive l ip).
Proof. unfold alive. simpl. destruct (Z.eq_dec x ip); case_decide; congruence. Qed.

Lemma gate_step_inv max s s' : gate_inv max s -> gate_step s s' -> gate_inv max s'.
Proof.
  intros (Hm & Hc & Hle & Hz) Hs.
  destruct Hs as [g l ip g' Hp|g l ip g' Hp|g l1 ip l2 g' Hp]; simpl in *.
  - apply permit_spec in Hp as [Hm' [(_ & Hlt & Hg)|(? & _)]]; [|done].
    rewrite Hc, Hm in Hlt. split; [simpl; congruence|]. split; [|split]; simpl.
    + intros q. unfold unauth_count. rewrite Hg, alive_cons. case_decide; subst.
      * rewrite lookup_insert_eq. simpl. by rewrite Hc.
      * rewrite lookup_insert_ne by congruence. apply Hc.
    + intros q. rewrite alive_cons. case_decide; subst; [lia|apply Hle].
    + intros H1 q. rewrite Hg. intros [[_ ?]|[_ ?]]%lookup_insert_Some; [done|]. by eapply Hz.
  - apply permit_spec in Hp as [Hm' [(? & _)|(_ & Hge & Hg)]]; [done|].
    split; [simpl; congruence|]. split; [|split]; simpl; [|done|].
    + intros q. unfold unauth_count. rewrite Hg. destruct (decide (ip = q)) as [->|].
      * rewrite lookup_insert_eq. apply Hc.
      * rewrite lookup_insert_ne by done. apply Hc.
    + intros H1 q. rewrite Hg. intros [[_ ?]|[_ ?]]%lookup_insert_Some; [lia|]. by eapply Hz.
  - assert (Hg : g' = snd (release ip g)) by (unfold drop_permit in Hp; by rewrite Hp). subst g'.
    assert (Hal : forall q, alive (l1 ++ ip :: l2) q =
      if decide (q = ip) then S (alive (l1 ++ l2) q) else alive (l1 ++ l2) q).
    { intros q. rewrite !alive_app, alive_cons. case_decide; lia. }
    split; [|split; [|split]]; cbn [gd_gate gd_alive].
    + unfold release. simpl. by destruct (counts g !! ip).
    + intros q. rewrite release_count, !Hc, !Hal. case_decide; subst; [|done].
      rewrite decide_True by done. lia.
    + intros q. specialize (Hle q). rewrite Hal in Hle. case_decide; lia.
    + intros H1 q. unfold release. simpl. destruct (counts g !! ip) as [n|] eqn:E; [|by apply Hz].
      destruct (Nat.eqb_spec (n - 1) 0); simpl.
      * intros [_ ?]%lookup_delete_Some. by eapply Hz.
      * intros [[_ ?]|[_ ?]]%lookup_insert_Some; [lia|]. by eapply Hz.
Qed.

Lemma gate_init_inv max : gate_inv max (mkGated (gate_new max) []).
Proof.
  unfold gate_inv, unauth_count, alive. simpl. split; [done|]. split; [done|].
  split; [lia|]. intros _ ip. by rewrite lookup_empty.
Qed.

(** C29: In every reachable state the gate's counter of an address equals the
    number of its permits alive, which never exceeds the limit; a new permit is
    granted exactly when fewer than the limit are alive; and with a positive limit
    the table holds no entry for an address without permits, so it cannot grow
    beyond the connections that are open. *)
Theorem gate_refines_permits (max : nat) (s : gated) (ip : Z)
  (Hr : star gate_step (mkGated (gate_new max) []) s) :
  unauth_count (gd_gate s) ip = alive (gd_alive s) ip /\
  (alive (gd_alive s) ip <= max)%nat /\
  (is_Some (fst (permit ip (gd_gate s))) <-> (alive (gd_alive s) ip < max)%nat) /\
  ((1 <= max)%nat -> is_Some (counts (gd_gate s) !! ip) -> ip ∈ gd_alive s).
Proof.
  assert (Hinv : gate_inv max s).
  { apply (star_invariant gate_step) with (3 := Hr); [|apply gate_init_inv].
    intros a b. apply gate_step_inv. }
  destruct Hinv as (Hm & Hc & Hle & Hz). split; [done|]. split; [done|]. split.
  - destruct (permit ip (gd_gate s)) as [o g'] eqn:Ep. simpl.
    apply permit_spec in Ep as [_ [(-> & Hlt & _)|(-> & Hge & _)]]; rewrite Hc, Hm in *.
    + split; eauto.
    + split; [by intros []|lia].
  - intros H1 [n Hn]. apply list_elem_of_In, (count_occ_In Z.eq_dec).
    fold (alive (gd_alive s) ip). rewrite <- Hc. unfold unauth_count. rewrite Hn. simpl.
    destruct n; [by apply Hz in Hn|lia].
Qed.

Lemma gate_refines_permits_witness :
  exists s, star gate_step (mkGated (gate_new 2) []) s /\
    unauth_count (gd_gate s) 7 = 2%nat /\ alive (gd_alive s) 7 = 2%nat /\
    unauth_count (gd_gate s) 7 = alive (gd_alive s) 7.
Proof.
  set (s := mkGated (mkGate 2 {[7 := 2%nat]}) [7; 7]). exists s.
  assert (Hr : star gate_step (mkGated (gate_new 2) []) s).
  { eapply star_to; [eapply star_to; [apply star_refl| |reflexivity]| |].
    - apply (gate_admit _ _ 7). reflexivity.
    - apply (gate_admit _ _ 7). reflexivity.
    - reflexivity. }
  split; [exact Hr|]. split; [reflexivity|]. split; [reflexivity|].
  exact (proj1 (gate_refines_permits 2 s 7 Hr)).
Defined.

(** With a limit of zero the gate refuses every connection but keeps an entry
    for every address it has refused: the table grows with each new address and
    nothing ever removes the entries. *)
Theorem zero_limit_keeps_refused_addresses (ips : list Z) :
  let g := foldl (fun g ip => snd (acquire ip g)) (gate_new 0) ips in
  Forall (fun ip => fst (acquire ip g) = false) ips /\
  size (counts g) = size (list_to_set ips : gset Z).
Proof.
  intros g.
  assert (Hg : max_per_ip g = 0%nat /\ dom (counts g) = (list_to_set ips : gset Z)).
  { subst g. induction ips as [|ip ips [Hm Hd]] using rev_ind; [done|].
    rewrite foldl_app. cbn [foldl]. set (g := foldl _ _ ips) in *. unfold acquire.
    rewrite Hm. cbn [Nat.leb snd max_per_ip counts]. split; [done|].
    rewrite dom_insert_L, Hd, list_to_set_app_L. set_solver. }
  destruct Hg as [Hm Hd]. split.
  - apply Forall_true. intros ip. unfold acquire. by rewrite Hm.
  - rewrite <- size_dom, Hd. done.
Qed.
