(* ===== verification/Float64.v ===== *)
(** Floating-point numbers ([f64]) as the rate limiter uses them.

    [f64] is IEEE binary64 in the Standard Library's specification floats: every
    operation rounds as the machine does.  This file proves, for numbers that are not
    negative, what the rounding keeps: results are numbers in normal form ([sound]),
    their order is that of their values ([leb_units]), whole numbers up to 2^53 are exact
    ([of_u_exact]) and so is subtracting one from any number between 1 and 2^53
    ([sub_one]).  The value of a number is counted in [units] of the least positive one,
    2^-1074, so it is an integer. *)
From S2P Require Import Prelude.
From Stdlib Require Import Floats.SpecFloat.
Open Scope Z_scope.
Open Scope list_scope.

Definition f64 : Type := spec_float.
Definition f64_add : f64 -> f64 -> f64 := SFadd 53 1024.
Definition f64_sub : f64 -> f64 -> f64 := SFsub 53 1024.
Definition f64_mul : f64 -> f64 -> f64 := SFmul 53 1024.
Definition f64_div : f64 -> f64 -> f64 := SFdiv 53 1024.
(** [n as f64] of an unsigned integer. *)
Definition f64_of_u (n : Z) : f64 := binary_normalize 53 1024 n 0 false.
(** [f64::min]: a NaN loses. *)
Definition f64_min (a b : f64) : f64 :=
  if SFltb a b then a else match b with S754_nan => a | _ => b end.

(* ------------------------------------------------------------------ *)
(** ** Mantissas *)

Lemma digits2_log2 p : Zpos (digits2_pos p) = Z.log2 (Zpos p) + 1.
Proof.
  induction p as [p IH|p IH|]; [| |done]; cbn [digits2_pos]; rewrite Pos2Z.inj_succ, IH.
  - change (Zpos p~1) with (2 * Zpos p + 1). by rewrite Z.log2_succ_double by lia.
  - change (Zpos p~0) with (2 * Zpos p). by rewrite Z.log2_double by lia.
Qed.

Lemma iter_xO d : forall m, Zpos (Pos.iter xO m d) = Zpos m * 2 ^ Zpos d.
Proof.
  induction d as [|d IH] using Pos.peano_ind; intros m; [simpl; lia|].
  rewrite Pos.iter_succ, Pos2Z.inj_succ, Z.pow_succ_r by lia.
  change (Zpos (Pos.iter xO m d)~0) with (2 * Zpos (Pos.iter xO m d)). rewrite IH. lia.
Qed.

Lemma shl_align_spec m e e' : 
  e' <= e -> shl_align m e e' = (fst (shl_align m e e'), e') /\
  Zpos (fst (shl_align m e e')) = Zpos m * 2 ^ (e - e').
Proof.
  intros He. unfold shl_align. destruct (e' - e) eqn:E; simpl.
  - split; [f_equal; lia|]. replace (e - e') with 0 by lia. lia.
  - lia.
  - split; [done|]. rewrite iter_xO. do 2 f_equal. lia.
Qed.

Lemma iter_pos_nat {A} (f : A -> A) p : forall x, SpecFloat.iter_pos f p x = Nat.iter (Pos.to_nat p) f x.
Proof.
  induction p as [p IH|p IH|]; intros x; cbn [SpecFloat.iter_pos]; rewrite ?IH, ?Pos2Nat.inj_xI, ?Pos2Nat.inj_xO.
  - rewrite <- Nat.iter_add. replace (S (2 * Pos.to_nat p)) with ((Pos.to_nat p + Pos.to_nat p) + 1)%nat by lia.
    by rewrite (Nat.iter_add (_ + _) 1).
  - rewrite <- Nat.iter_add. f_equal. lia.
  - done.
Qed.

Lemma shr_1_spec x : 0 <= shr_m x ->
  shr_m (shr_1 x) = shr_m x / 2 /\
  (shr_m x mod 2 = 0 -> shr_r x = false -> shr_s x = false -> shr_r (shr_1 x) = false /\ shr_s (shr_1 x) = false).
Proof.
  destruct x as [m r s]; cbn [shr_m shr_r shr_s]. intros Hm.
  destruct m as [|p|p]; [|destruct p as [p|p|]|lia]; cbn [shr_1 shr_m shr_r shr_s].
  - split; [done|]. by intros _ -> ->.
  - change (Zpos p~1) with (2 * Zpos p + 1). Z.to_euclidean_division_equations. split; lia.
  - split; [|by intros _ -> ->].
    change (Zpos p~0) with (2 * Zpos p). Z.to_euclidean_division_equations. lia.
  - split; [done|]. done.
Qed.

Lemma iter_shr_spec n : forall x, 0 <= shr_m x ->
  shr_m (Nat.iter n shr_1 x) = shr_m x / 2 ^ Z.of_nat n /\
  (shr_m x mod 2 ^ Z.of_nat n = 0 -> shr_r x = false -> shr_s x = false ->
   shr_r (Nat.iter n shr_1 x) = false /\ shr_s (Nat.iter n shr_1 x) = false).
Proof.
  induction n as [|n IH]; intros x Hx.
  - simpl. rewrite Z.div_1_r. done.
  - rewrite Nat2Z.inj_succ, Z.pow_succ_r by lia. cbn [Nat.iter nat_rect].
    destruct (IH x Hx) as [Hm Hf]. fold (Nat.iter n shr_1 x) in *. set (y := Nat.iter n shr_1 x) in *.
    assert (Hp : 0 < 2 ^ Z.of_nat n) by (apply Z.pow_pos_nonneg; lia).
    assert (Hy : 0 <= shr_m y) by (rewrite Hm; apply Z.div_pos; lia).
    destruct (shr_1_spec y Hy) as [Hm1 Hf1]. split.
    + rewrite Hm1, Hm, Z.div_div by lia. f_equal. lia.
    + intros Hmod Hr Hs. rewrite (Z.mul_comm 2), Z.rem_mul_r in Hmod by lia.
      pose proof (Z.mod_pos_bound (shr_m x) (2 ^ Z.of_nat n) Hp).
      pose proof (Z.mod_pos_bound (shr_m x / 2 ^ Z.of_nat n) 2 ltac:(lia)).
      destruct Hf as [? ?]; [nia|done|done|]. apply Hf1; [rewrite Hm; nia|done|done].
Qed.

(** The exponent of a number below 2^e. *)
Definition fe (e : Z) : Z := Z.max (e - 53) (-1074).
Lemma fexp_fe e : fexp 53 1024 e = fe e.
Proof. reflexivity. Qed.

(** The number of binary digits. *)
Definition digits (m : Z) : Z := if m =? 0 then 0 else Z.log2 m + 1.
Lemma Zdigits2_digits m : 0 <= m -> Zdigits2 m = digits m.
Proof.
  intros Hm. destruct m as [|p|p]; [done| |lia]. unfold digits. simpl Zdigits2. rewrite digits2_log2. done.
Qed.
Lemma digits_nonneg m : 0 <= digits m.
Proof. unfold digits. destruct (Z.eqb_spec m 0); [lia|]. pose proof (Z.log2_nonneg m). lia. Qed.
Lemma digits_shift m n : 0 <= m -> 0 <= n -> digits (m / 2 ^ n) = Z.max 0 (digits m - n).
Proof.
  intros Hm Hn. rewrite <- Z.shiftr_div_pow2 by lia. unfold digits.
  destruct (Z.eqb_spec m 0) as [->|Hm0]; [rewrite Z.shiftr_0_l; simpl; lia|].
  destruct (Z.eqb_spec (Z.shiftr m n) 0) as [H|H].
  - apply Z.shiftr_eq_0_iff in H as [->|[_ H]]; lia.
  - rewrite Z.log2_shiftr by lia.
    assert (n <= Z.log2 m); [|lia].
    destruct (Z.le_gt_cases n (Z.log2 m)); [done|]. exfalso. apply H, Z.shiftr_eq_0; lia.
Qed.
Lemma digits_mul m n : 0 < m -> 0 <= n -> digits (m * 2 ^ n) = digits m + n.
Proof.
  intros Hm Hn. unfold digits. assert (0 < 2 ^ n) by (apply Z.pow_pos_nonneg; lia).
  destruct (Z.eqb_spec (m * 2 ^ n) 0); [nia|]. destruct (Z.eqb_spec m 0); [lia|].
  rewrite Z.log2_mul_pow2 by lia. lia.
Qed.
Lemma digits_bound m : 0 < m -> 2 ^ (digits m - 1) <= m < 2 ^ digits m.
Proof.
  intros Hm. unfold digits. destruct (Z.eqb_spec m 0); [lia|].
  replace (Z.log2 m + 1 - 1) with (Z.log2 m) by lia. rewrite Z.add_1_r. by apply Z.log2_spec.
Qed.
Lemma digits_le m d : 0 < m -> m < 2 ^ d -> digits m <= d.
Proof.
  intros Hm Hd. destruct (digits_bound m Hm) as [Hl _].
  assert (0 <= digits m - 1).
  { unfold digits. destruct (Z.eqb_spec m 0); [lia|]. pose proof (Z.log2_nonneg m). lia. }
  assert (0 <= d). { destruct (Z.lt_ge_cases d 0); [|done]. rewrite Z.pow_neg_r in Hd; lia. }
  enough (digits m - 1 < d) by lia. apply (Z.pow_lt_mono_r_iff 2); lia.
Qed.

Definition canonical (m e : Z) : Prop := fe (digits m + e) = e.

(** Shifting a mantissa to its place. *)
Lemma shr_fexp_spec m e x e' l :
  0 <= m -> e <= fe (digits m + e) -> shr_fexp 53 1024 m e l = (x, e') ->
  e' = fe (digits m + e) /\ shr_m x = m / 2 ^ (e' - e) /\
  (l = loc_Exact -> m mod 2 ^ (e' - e) = 0 -> loc_of_shr_record x = loc_Exact).
Proof.
  intros Hm He. unfold shr_fexp, shr. rewrite Zdigits2_digits by done. rewrite fexp_fe.
  set (f := fe (digits m + e)) in *.
  assert (Hr : shr_m (shr_record_of_loc m l) = m) by (destruct l as [|[]]; done).
  destruct (f - e) as [|p|p] eqn:Ep; [| |lia].
  - intros [= <- <-]. replace (e - e) with 0 by lia. rewrite Hr, Z.div_1_r.
    split_and!; [lia|done|]. by intros -> _.
  - intros [= <- <-]. replace (e + Zpos p - e) with (Zpos p) by lia. rewrite iter_pos_nat.
    destruct (iter_shr_spec (Pos.to_nat p) (shr_record_of_loc m l)) as [Hm1 Hf]; [by rewrite Hr|].
    rewrite positive_nat_Z, Hr in *. split_and!; [lia|done|].
    intros -> Hmod. destruct (Hf Hmod eq_refl eq_refl) as [Hr1 Hs1].
    destruct (Nat.iter _ _ _) as [a b c]. simpl in *. by subst.
Qed.

(* ------------------------------------------------------------------ *)
(** ** Rounding *)

(** Zero, infinity, or a positive number in normal form. *)
Inductive sound : f64 -> Prop :=
| sound_zero : sound (S754_zero false)
| sound_inf : sound (S754_infinity false)
| sound_finite p e : canonical (Zpos p) e -> e <= 971 -> sound (S754_finite false p e).

Lemma round_choice m l : 0 <= m ->
  let r := round_nearest_even m l in r = m \/ r = m + 1.
Proof. intros Hm. destruct l as [|[]]; simpl; auto. destruct (Z.even m); auto. Qed.

(** A rounded mantissa overflows at most to the next power of two. *)
Lemma digits_succ m : 0 < m ->
  digits (m + 1) = digits m \/ (digits (m + 1) = digits m + 1 /\ m + 1 = 2 ^ digits m).
Proof.
  intros Hm. unfold digits. destruct (Z.eqb_spec m 0); [lia|]. destruct (Z.eqb_spec (m + 1) 0); [lia|].
  destruct (Z.log2_succ_or m) as [H|H]; rewrite <- !Z.add_1_r in H; [right|left; lia].
  split; [lia|]. pose proof (Z.log2_spec m Hm). pose proof (Z.log2_spec (m + 1) ltac:(lia)).
  rewrite H in *. rewrite <- !Z.add_1_r in *. lia.
Qed.

(** The value of a non-negative number, in units of the least positive one. *)
Definition units (x : f64) : Z :=
  match x with S754_finite _ m e => Zpos m * 2 ^ (e + 1074) | _ => 0 end.
Definition finite (x : f64) : bool :=
  match x with S754_zero _ | S754_finite _ _ _ => true | _ => false end.
(** The result of rounding is a number; it is finite where the argument is far from the
    largest number, and positive where it is not below the least one. *)
Definition rounded (m e : Z) (x : f64) : Prop :=
  sound x /\ (digits m + e < 1024 -> finite x = true) /\
  (0 < m -> -1074 <= e -> finite x = true -> 0 < units x).

Lemma round_aux_spec m e l :
  0 <= m -> e <= fe (digits m + e) -> rounded m e (binary_round_aux 53 1024 false m e l).
Proof.
  intros Hm He. unfold binary_round_aux.
  destruct (shr_fexp 53 1024 m e l) as [x e1] eqn:E1.
  apply shr_fexp_spec in E1 as (He1 & Hx & _); [|done|done].
  assert (Hp : 0 < 2 ^ (e1 - e)) by (apply Z.pow_pos_nonneg; lia).
  assert (Hm1 : 0 <= shr_m x) by (rewrite Hx; apply Z.div_pos; lia).
  assert (Hd1 : digits (shr_m x) = Z.max 0 (digits m - (e1 - e))) by (rewrite Hx; apply digits_shift; lia).
  pose proof (digits_nonneg m).
  destruct (shr_fexp 53 1024 _ e1 loc_Exact) as [y e2] eqn:E2.
  set (m1 := shr_m x) in *. set (r := round_nearest_even m1 _) in *.
  assert (Hr : r = m1 \/ r = m1 + 1) by (by apply round_choice).
  assert (Hcase : (fe (digits r + e1) = e1) \/
                  (0 < m1 /\ r = 2 ^ digits m1 /\ digits r = digits m1 + 1 /\ fe (digits r + e1) = e1 + 1 /\
                   fe (digits m1 + (e1 + 1)) = e1 + 1)).
  { destruct (decide (m1 = 0)) as [Hz|Hnz].
    - left. rewrite Hz in *. assert (digits 0 = 0) as H0 by done. rewrite H0 in Hd1.
      unfold fe in *. destruct Hr as [-> | ->]; [rewrite H0; lia|]. change (digits (0 + 1)) with 1. lia.
    - assert (Hd : 0 < digits m1).
      { unfold digits. destruct (Z.eqb_spec m1 0); [lia|]. pose proof (Z.log2_nonneg m1). lia. }
      assert (Hfe : fe (digits m1 + e1) = e1) by (unfold fe in *; lia).
      destruct Hr as [-> | ->]; [by left|].
      destruct (digits_succ m1) as [->|[Hs Hpow]]; [lia|by left|].
      destruct (decide (fe (digits (m1 + 1) + e1) = e1)); [by left|]. right.
      split_and!; [lia|done|done| |]; unfold fe in *; lia. }
  assert (Hr0 : 0 <= r) by (destruct Hr as [-> | ->]; lia).
  apply shr_fexp_spec in E2 as (He2 & Hy & _); [|done|destruct Hcase as [|(?&?&?&?&?)]; lia].
  destruct Hcase as [Hc|(Hpos & Hrp & Hdr & Hf & Hc)].
  - rewrite Hc in He2. subst e2. replace (e1 - e1) with 0 in Hy by lia. rewrite Z.div_1_r in Hy. rewrite Hy.
    destruct r as [|p|p] eqn:Er; [| |lia].
    + split_and!; [constructor|done|]. intros Hm0 He0 _. exfalso.
      assert (m1 = 0) as Hz by lia. rewrite Hz in Hd1. change (digits 0) with 0 in Hd1.
      assert (0 < digits m). { unfold digits. destruct (Z.eqb_spec m 0); [lia|]. pose proof (Z.log2_nonneg m). lia. }
      unfold fe in *. lia.
    + destruct (Z.leb_spec e1 (1024 - 53)); split_and!; try done; try (constructor; done || lia).
      * intros. cbn [units]. apply Z.mul_pos_pos; [lia|apply Z.pow_pos_nonneg; unfold fe in *; lia].
      * intros. exfalso. unfold fe in *. lia.
  - rewrite Hf in He2. subst e2. replace (e1 + 1 - e1) with 1 in Hy by lia.
    assert (Hd : 0 < digits m1).
    { unfold digits. destruct (Z.eqb_spec m1 0); [lia|]. pose proof (Z.log2_nonneg m1). lia. }
    assert (Hy' : shr_m y = 2 ^ (digits m1 - 1)).
    { rewrite Hy, Hrp. replace (digits m1) with (1 + (digits m1 - 1)) at 1 by lia.
      rewrite Z.pow_add_r by lia. rewrite (Z.mul_comm (2 ^ 1)). apply Z.div_mul. lia. }
    rewrite Hy'. assert (0 < 2 ^ (digits m1 - 1)) by (apply Z.pow_pos_nonneg; lia).
    destruct (2 ^ (digits m1 - 1)) as [|p|p] eqn:Ep; try lia.
    assert (Hcan : canonical (Zpos p) (e1 + 1)).
    { unfold canonical. replace (digits (Zpos p)) with (digits m1); [done|].
      rewrite <- Ep. rewrite <- (Z.mul_1_l (2 ^ _)), digits_mul by lia. change (digits 1) with 1. lia. }
    destruct (Z.leb_spec (e1 + 1) (1024 - 53)); split_and!; try done; try (constructor; done || lia).
    + intros. cbn [units]. apply Z.mul_pos_pos; [lia|apply Z.pow_pos_nonneg; unfold fe in *; lia].
    + intros. exfalso. unfold fe in *. lia.
Qed.

Lemma normalize_spec m e : 0 <= m -> rounded m e (binary_normalize 53 1024 m e false).
Proof.
  intros Hm. destruct m as [|p|p]; [by split_and!; [constructor|..]| |lia]. simpl. unfold binary_round.
  rewrite fexp_fe, digits2_log2. change (Z.log2 (Zpos p) + 1) with (digits (Zpos p)).
  destruct (Z.le_gt_cases (fe (digits (Zpos p) + e)) e) as [Hle|Hgt].
  - destruct (shl_align_spec p e (fe (digits (Zpos p) + e)) Hle) as [Heq Hq].
    destruct (shl_align _ _ _) as [mz ez]. cbn [fst] in *. injection Heq as ->.
    set (f := fe (digits (Zpos p) + e)) in *.
    destruct (round_aux_spec (Zpos mz) f loc_Exact) as (Hs & Hf & Hu);
      [lia|rewrite Hq, digits_mul by lia; unfold fe in *; lia|].
    assert (Hd : digits (Zpos mz) + f = digits (Zpos p) + e) by (rewrite Hq, digits_mul by lia; lia).
    rewrite Hd in Hf.
    split_and!; [done|intros; apply Hf; lia|intros; apply Hu; try done; unfold f, fe; lia].
  - unfold shl_align. destruct (_ - e) eqn:E; try lia. apply round_aux_spec; lia.
Qed.

Lemma normalize_sound m e : 0 <= m -> sound (binary_normalize 53 1024 m e false).
Proof. intros. by apply normalize_spec. Qed.
Lemma round_aux_sound m e l :
  0 <= m -> e <= fe (digits m + e) -> sound (binary_round_aux 53 1024 false m e l).
Proof. intros. by apply round_aux_spec. Qed.

Definition ONE : Z := 2 ^ 1074.
Lemma ONE_pos : 0 < ONE.
Proof. reflexivity. Qed.

Definition value_is (x : f64) (v : Z) : Prop := sound x /\ finite x = true /\ units x = v.

(** A value that fits into 53 bits is represented exactly. *)
Lemma normalize_exact m e q f :
  0 < m -> -1074 <= e -> -1074 <= f -> 0 < q < 2 ^ 53 -> digits m + e <= 1024 ->
  m * 2 ^ (e + 1074) = q * 2 ^ (f + 1074) ->
  value_is (binary_normalize 53 1024 m e false) (m * 2 ^ (e + 1074)).
Proof.
  intros Hm He Hf Hq Htop Heq.
  assert (Hdq : digits q <= 53) by (apply digits_le; lia).
  assert (Hdig : digits m + e = digits q + f).
  { apply (f_equal digits) in Heq. rewrite !digits_mul in Heq by lia. lia. }
  pose proof (normalize_sound m e ltac:(lia)) as Hsound. split; [done|].
  clear Hsound. destruct m as [|p|p]; try lia. simpl binary_normalize. unfold binary_round.
  rewrite fexp_fe, digits2_log2. change (Z.log2 (Zpos p) + 1) with (digits (Zpos p)).
  (* after alignment: a mantissa of the same value *)
  assert (exists mz ez, shl_align p e (fe (digits (Zpos p) + e)) = (mz, ez) /\ -1074 <= ez <= e /\
            Zpos mz = Zpos p * 2 ^ (e - ez) /\ ez <= fe (digits (Zpos mz) + ez)) as (mz & ez & -> & Hez & Hmz & Hle).
  { destruct (Z.le_gt_cases (fe (digits (Zpos p) + e)) e) as [Hle|Hgt].
    - destruct (shl_align_spec p e _ Hle) as [Heq' Hz]. destruct (shl_align _ _ _) as [mz ez].
      cbn [fst] in *. injection Heq' as ->. do 2 eexists. split; [done|]. split; [unfold fe in *; lia|].
      split; [done|]. rewrite Hz, digits_mul by lia. unfold fe in *. lia.
    - exists p, e. unfold shl_align. destruct (_ - e) eqn:E; try lia. split; [done|].
      rewrite Z.sub_diag, Z.mul_1_r. split_and!; lia. }
  assert (Hdz : digits (Zpos mz) + ez = digits q + f).
  { rewrite Hmz, digits_mul by lia. lia. }
  assert (Hvz : Zpos mz * 2 ^ (ez + 1074) = q * 2 ^ (f + 1074)).
  { rewrite <- Heq, Hmz, <- Z.mul_assoc, <- Z.pow_add_r by lia. do 2 f_equal. lia. }
  rewrite Heq, <- Hvz. rewrite Hdig in Htop. clear Heq Hm Hdig Hmz.
  unfold binary_round_aux.
  destruct (shr_fexp 53 1024 (Zpos mz) ez loc_Exact) as [x e1] eqn:E1.
  apply shr_fexp_spec in E1 as (He1 & Hx & Hloc); [|lia|done].
  assert (Hdiv : exists k, Zpos mz = k * 2 ^ (e1 - ez) /\ 0 < k).
  { destruct (Z.le_gt_cases f ez) as [Hfe|Hfe].
    - replace e1 with ez by (unfold fe in *; lia). exists (Zpos mz). rewrite Z.sub_diag. lia.
    - exists (q * 2 ^ (f - e1)). assert (e1 <= f) by (unfold fe in *; lia).
      assert (Hqq : Zpos mz = q * 2 ^ (f - ez)).
      { apply (Z.mul_cancel_r _ _ (2 ^ (ez + 1074))); [apply Z.pow_nonzero; lia|].
        rewrite Hvz, <- Z.mul_assoc, <- Z.pow_add_r by lia. do 2 f_equal. lia. }
      split; [|apply Z.mul_pos_pos; [lia|apply Z.pow_pos_nonneg; lia]].
      rewrite Hqq, <- Z.mul_assoc, <- Z.pow_add_r by lia. do 2 f_equal. lia. }
  destruct Hdiv as (k & Hk & Hk0).
  assert (Hp : 2 ^ (e1 - ez) <> 0) by (apply Z.pow_nonzero; lia).
  rewrite Hk, Z.div_mul in Hx by done.
  rewrite Hloc by (rewrite ?Hk, ?Z.mod_mul; done). cbn [round_nearest_even]. rewrite Hx.
  destruct (shr_fexp 53 1024 k e1 loc_Exact) as [y e2] eqn:E2.
  assert (Hdk : digits k + e1 = digits q + f).
  { rewrite Hk, digits_mul in Hdz by lia. lia. }
  apply shr_fexp_spec in E2 as (He2 & Hy & _); [|lia|rewrite Hdk, <- Hdz; lia].
  rewrite Hdk, <- Hdz, <- He1 in He2. subst e2. rewrite Z.sub_diag, Z.div_1_r in Hy. rewrite Hy.
  destruct k as [|k|k]; try lia.
  assert (e1 <= 1024 - 53) by (unfold fe in *; lia). destruct (Z.leb_spec e1 (1024 - 53)); [|lia].
  split; [done|]. cbn [units]. rewrite Hk, <- Z.mul_assoc, <- Z.pow_add_r by lia. do 2 f_equal. lia.
Qed.

Lemma units_nonneg x : 0 <= units x.
Proof. destruct x as [| | |s m e]; simpl; lia. Qed.

(* ------------------------------------------------------------------ *)
(** ** Order *)

Lemma canonical_spec m e : canonical m e -> 0 < m ->
  -1074 <= e /\ m < 2 ^ 53 /\ (-1074 < e -> 2 ^ 52 <= m).
Proof.
  unfold canonical, fe. intros Hc Hm. destruct (digits_bound m Hm) as [Hl Hu].
  split; [lia|]. split.
  - eapply Z.lt_le_trans; [done|]. apply Z.pow_le_mono_r; lia.
  - intros He. replace 52 with (digits m - 1) by lia. done.
Qed.

Lemma sound_mantissa s m e : sound (S754_finite s m e) ->
  s = false /\ -1074 <= e <= 971 /\ Zpos m < 2 ^ 53 /\ (-1074 < e -> 2 ^ 52 <= Zpos m).
Proof.
  intros H. inversion H as [| |? ? Hc]; subst. destruct (canonical_spec _ _ Hc) as (? & ? & ?); [lia|].
  split_and!; auto; lia.
Qed.

Lemma mantissas_order m1 e1 m2 e2 :
  -1074 <= e1 < e2 -> 0 < m1 < 2 ^ 53 -> 2 ^ 52 <= m2 ->
  m1 * 2 ^ (e1 + 1074) < m2 * 2 ^ (e2 + 1074).
Proof.
  intros He Hm1 Hm2. set (k := e1 + 1074). assert (Hk : 0 <= k) by lia.
  replace (e2 + 1074) with ((e2 - e1 - 1) + 1 + k) by lia.
  rewrite (Z.pow_add_r 2 _ k), (Z.pow_add_r 2 _ 1), Z.mul_assoc by lia.
  apply Z.mul_lt_mono_pos_r; [apply Z.pow_pos_nonneg; lia|].
  assert (0 < 2 ^ (e2 - e1 - 1)) by (apply Z.pow_pos_nonneg; lia). change (2 ^ 53) with (2 ^ 52 * 2) in Hm1. nia.
Qed.

Lemma compare_units x y :
  sound x -> sound y -> finite x = true -> finite y = true ->
  SFcompare x y = Some (Z.compare (units x) (units y)).
Proof.
  intros Hx Hy Fx Fy.
  destruct x as [s1|s1| |s1 m1 e1], y as [s2|s2| |s2 m2 e2]; try done;
    repeat match goal with H : sound (S754_finite _ _ _) |- _ => apply sound_mantissa in H as (-> & ? & ? & ?) end;
    cbn [SFcompare units].
  - f_equal. symmetry. apply Z.compare_lt_iff, Z.mul_pos_pos; [lia|apply Z.pow_pos_nonneg; lia].
  - f_equal. symmetry. apply Z.compare_gt_iff, Z.mul_pos_pos; [lia|apply Z.pow_pos_nonneg; lia].
  - f_equal. symmetry. destruct (Z.compare_spec e1 e2) as [->|Hlt|Hgt].
    + change (Pos.compare_cont Eq m1 m2) with (Zpos m1 ?= Zpos m2).
      symmetry. apply Zmult_compare_compat_r. apply Z.lt_gt, Z.pow_pos_nonneg; lia.
    + apply Z.compare_lt_iff, mantissas_order; lia.
    + apply Z.compare_gt_iff, mantissas_order; lia.
Qed.

Lemma ltb_units x y : sound x -> sound y -> finite x = true -> finite y = true ->
  SFltb x y = (units x <? units y).
Proof. intros. unfold SFltb, Z.ltb. rewrite compare_units by done. by destruct (_ ?= _). Qed.
Lemma leb_units x y : sound x -> sound y -> finite x = true -> finite y = true ->
  SFleb x y = (units x <=? units y).
Proof. intros. unfold SFleb, Z.leb. rewrite compare_units by done. by destruct (_ ?= _). Qed.

(* ------------------------------------------------------------------ *)
(** ** Exact operations *)
Lemma of_u_exact n : 0 <= n <= 2 ^ 53 -> value_is (f64_of_u n) (n * ONE).
Proof.
  intros Hn. unfold f64_of_u. destruct (decide (n = 0)) as [->|]; [split_and!; [constructor|done..]|].
  assert (He : ONE = 2 ^ (0 + 1074)) by done. rewrite He.
  destruct (decide (n = 2 ^ 53)) as [->|].
  - apply (normalize_exact _ 0 1 53); try done. 
  - apply (normalize_exact _ 0 n 0); try lia; try done.
    pose proof (digits_le n 53). lia.
Qed.

Lemma of_u_sound n : 0 <= n -> sound (f64_of_u n).
Proof. apply normalize_sound. Qed.

Lemma of_u_finite n : 0 < n < 2 ^ 1000 -> finite (f64_of_u n) = true /\ 0 < units (f64_of_u n).
Proof.
  intros Hn. destruct (normalize_spec n 0 ltac:(lia)) as (_ & Hf & Hu).
  pose proof (digits_le n 1000). assert (finite (f64_of_u n) = true) by (apply Hf; lia).
  split; [done|]. apply Hu; [lia|lia|done].
Qed.

(** Subtracting one from a number between 1 and 2^53 is exact. *)
Lemma exponent_range m e :
  0 < m < 2 ^ 53 -> -1074 <= e -> (-1074 < e -> 2 ^ 52 <= m) ->
  ONE <= m * 2 ^ (e + 1074) <= 2 ^ 53 * ONE -> -52 <= e <= 0 \/ (e = 1 /\ m = 2 ^ 52).
Proof.
  intros Hm He Hbig [Hlo Hhi].
  assert (Hp : 0 < 2 ^ (e + 1074)) by (apply Z.pow_pos_nonneg; lia).
  assert (Helo : -52 <= e).
  { assert (2 ^ 1074 < 2 ^ (53 + (e + 1074))); [|apply Z.pow_lt_mono_r_iff in H; lia].
    rewrite Z.pow_add_r by lia. fold ONE. nia. }
  destruct (Z.le_gt_cases e 0); [left; lia|right].
  assert (Hm52 : 2 ^ 52 <= m) by (apply Hbig; lia).
  assert (Heq : 2 ^ (e + 1074) = 2 ^ e * ONE) by (unfold ONE; rewrite <- Z.pow_add_r; lia || done).
  rewrite Heq in Hhi. assert (HO : 0 < ONE) by (by vm_compute).
  assert (Hme : m * 2 ^ e <= 2 ^ 53) by nia. clear Hhi Hlo Heq Hp.
  assert (2 <= 2 ^ e) by (change 2 with (2 ^ 1) at 1; apply Z.pow_le_mono_r; lia).
  assert (e = 1).
  { destruct (Z.le_gt_cases 2 e); [|lia].
    assert (4 <= 2 ^ e) by (change 4 with (2 ^ 2); apply Z.pow_le_mono_r; lia). nia. }
  subst e. change (2 ^ 1) with 2 in *. split; [done|]. change (2 ^ 53) with (2 ^ 52 * 2) in Hme. lia.
Qed.

Lemma f64_one : f64_of_u 1 = S754_finite false 4503599627370496 (-52).
Proof. reflexivity. Qed.

Lemma sub_one x :
  sound x -> finite x = true -> ONE <= units x <= 2 ^ 53 * ONE ->
  value_is (f64_sub x (f64_of_u 1)) (units x - ONE).
Proof.
  intros Hs Hf Hu. destruct x as [s|s| |s m e]; try done; [pose proof ONE_pos; cbn [units] in Hu; lia|].
  apply sound_mantissa in Hs as (-> & He & Hm & Hbig). cbn [units] in *.
  destruct (exponent_range (Zpos m) e) as [Hr|Hr]; try lia; try done.
  all: rewrite f64_one; unfold f64_sub; cbn [SFsub cond_Zopp].
  all: rewrite Z.min_r by lia.
  all: destruct (shl_align_spec m e (-52)) as [_ ->]; [lia|].
  all: change (Zpos (fst (shl_align 4503599627370496 (-52) (-52)))) with (2 ^ 52).
  all: set (M := Zpos m * 2 ^ (e - -52) - 2 ^ 52).
  all: assert (HM : Zpos m * 2 ^ (e + 1074) - ONE = M * 2 ^ (-52 + 1074));
    [unfold M, ONE; rewrite Z.mul_sub_distr_r, <- Z.mul_assoc, <- !Z.pow_add_r by lia; do 3 f_equal; lia|].
  all: rewrite HM; assert (HM0 : 0 <= M) by (assert (0 < 2 ^ (-52 + 1074)) by (apply Z.pow_pos_nonneg; lia); nia).
  all: destruct (Z.eq_dec M 0) as [->|HMn]; [split_and!; [constructor|done..]|].
  - assert (HMq : M = (Zpos m - 2 ^ (- e)) * 2 ^ (e + 52)).
    { unfold M. rewrite Z.mul_sub_distr_r, <- Z.pow_add_r by lia. f_equal. f_equal. lia. }
    assert (Hp : 0 < 2 ^ (e + 52)) by (apply Z.pow_pos_nonneg; lia).
    assert (Hq0 : 0 < Zpos m - 2 ^ (- e)) by nia.
    assert (Hpe : 0 < 2 ^ (- e)) by (apply Z.pow_pos_nonneg; lia).
    apply (normalize_exact M (-52) (Zpos m - 2 ^ (- e)) e); try lia.
    + rewrite HMq, digits_mul by lia. pose proof (digits_le (Zpos m - 2 ^ (- e)) 53). lia.
    + rewrite HMq, <- Z.mul_assoc, <- Z.pow_add_r by lia. do 2 f_equal. lia.
  - destruct Hr as [-> Hr]. unfold M in *. rewrite Hr in *. clear HM. by apply (normalize_exact _ _ (2 ^ 53 - 1) 0).
Qed.

(** Results that are rounded *)
Lemma add_sound x y : sound x -> sound y -> sound (f64_add x y).
Proof.
  intros Hx Hy. destruct Hx, Hy; unfold f64_add; cbn [SFadd]; try by constructor.
  cbn [cond_Zopp]. apply normalize_sound. lia.
Qed.

Lemma mul_sound x y : sound x -> sound y -> finite y = true -> 0 < units y -> sound (f64_mul x y).
Proof.
  intros Hx Hy Hf Hu. destruct Hx as [| |m1 e1 Hc1], Hy as [| |m2 e2 Hc2]; try done; unfold f64_mul; cbn [SFmul];
    try by constructor.
  apply round_aux_sound; [lia|].
  assert (Hd : digits (Zpos m1) <= digits (Zpos (m1 * m2)) /\ digits (Zpos m2) <= digits (Zpos (m1 * m2))).
  { unfold digits. simpl (_ =? 0). cbn iota. rewrite Pos2Z.inj_mul.
    split; apply Z.add_le_mono_r, Z.log2_le_mono; nia. }
  unfold canonical, fe in *. lia.
Qed.

Lemma normal_digits x : sound x -> finite x = true -> ONE <= units x ->
  exists m e, x = S754_finite false m e /\ 2 ^ 52 <= Zpos m < 2 ^ 53 /\ -52 <= e <= 971.
Proof.
  intros Hs Hf Hu. destruct x as [s|s| |s m e]; try done.
  apply sound_mantissa in Hs as (-> & He & Hm & Hbig). exists m, e. cbn [units] in Hu.
  assert (-52 <= e).
  { assert (2 ^ 1074 < 2 ^ (53 + (e + 1074))); [|apply Z.pow_lt_mono_r_iff in H; lia].
    rewrite Z.pow_add_r by lia. fold ONE. assert (0 < 2 ^ (e + 1074)) by (apply Z.pow_pos_nonneg; lia). nia. }
  split_and!; try done; lia.
Qed.

Lemma div_sound x y :
  sound x -> finite x = true -> sound y -> finite y = true -> ONE <= units y ->
  (units x = 0 \/ ONE <= units x) -> units y <= 2 ^ 53 * ONE -> sound (f64_div x y).
Proof.
  intros Hx Fx Hy Fy Hy1 Hx1 Hy2.
  destruct (normal_digits y Hy Fy Hy1) as (m2 & e2 & -> & Hm2 & He2).
  destruct Hx1 as [Hx1|Hx1].
  { destruct Hx as [| |m e Hc He]; [constructor|done|].
    cbn [units] in Hx1. apply canonical_spec in Hc as (? & _); [|lia].
    assert (0 < 2 ^ (e + 1074)) by (apply Z.pow_pos_nonneg; lia). nia. }
  destruct (normal_digits x Hx Fx Hx1) as (m1 & e1 & -> & Hm1 & He1).
  cbn [units] in *.
  assert (He2' : e2 <= 1). { destruct (exponent_range (Zpos m2) e2); lia. }
  unfold f64_div. cbn [SFdiv]. unfold SFdiv_core_binary. rewrite !Zdigits2_digits by lia.
  assert (Hd : forall m, 2 ^ 52 <= m < 2 ^ 53 -> digits m = 53).
  { intros m Hm. pose proof (digits_le m 53). destruct (digits_bound m) as [_ Hb]; [lia|].
    assert (2 ^ 52 < 2 ^ digits m) as Hl%Z.pow_lt_mono_r_iff by lia; [lia|lia|]. pose proof (digits_nonneg m). lia. }
  rewrite !Hd by done. rewrite fexp_fe.
  assert (fe (53 + e1 - (53 + e2)) = e1 - e2 - 53) as -> by (unfold fe; lia).
  rewrite Z.min_l by lia. replace (e1 - e2 - (e1 - e2 - 53)) with 53 by lia.
  rewrite Z.shiftl_mul_pow2 by lia.
  pose proof (Z_div_mod_eq_full (Zpos m1 * 2 ^ 53) (Zpos m2)) as Hqr.
  pose proof (Z.mod_pos_bound (Zpos m1 * 2 ^ 53) (Zpos m2) ltac:(lia)) as Hrem.
  assert (Hq : 2 ^ 52 <= Zpos m1 * 2 ^ 53 / Zpos m2).
  { apply Z.div_le_lower_bound; [lia|]. change (2 ^ 53) with (2 * 2 ^ 52) in *. nia. }
  unfold Z.div, Z.modulo in *. destruct (Z.div_eucl _ _) as [q r].
  apply round_aux_sound; [lia|].
  assert (53 <= digits q).
  { destruct (digits_bound q) as [_ Hb]; [lia|].
    assert (2 ^ 52 < 2 ^ digits q) as Hl%Z.pow_lt_mono_r_iff by lia; [lia|lia|apply digits_nonneg]. }
  unfold fe. lia.
Qed.
