(* ===== verification/RateLimit.v ===== *)
(** The per-connection token bucket ([gateway/src/tcp/rate_limit.rs]) with its
    settings ([config.rs]).

    The numbers are those of [Float64].  An [Instant] is an integer number of
    nanoseconds. *)
From S2P Require Import Prelude Float64.
From Stdlib Require Import Floats.SpecFloat.
Open Scope Z_scope.
Open Scope list_scope.

Record RateLimitSettings := mkRate { rl_enabled : bool; rl_per_second : Z; rl_burst : Z }.

Record TokenBucket := mkBucket {
  tb_capacity : f64; tb_refill_per_sec : f64; tb_tokens : f64; tb_last_refill : Z
}.

(** [TokenBucket::new] at the instant [now]. *)
Definition bucket_new (now : Z) (s : RateLimitSettings) : option TokenBucket :=
  if negb (rl_enabled s) || (rl_per_second s =? 0) || (rl_burst s =? 0) then None
  else Some (mkBucket (f64_of_u (rl_burst s)) (f64_of_u (rl_per_second s))
                      (f64_of_u (rl_burst s)) now).

(** [Duration::as_secs_f64] of a duration in nanoseconds. *)
Definition as_secs_f64 (d : Z) : f64 :=
  f64_add (f64_of_u (d / 1000000000)) (f64_div (f64_of_u (d mod 1000000000)) (f64_of_u 1000000000)).

(** The tokens after the refill of [try_acquire]. *)
Definition refilled (now : Z) (b : TokenBucket) : f64 :=
  let elapsed := as_secs_f64 (Z.max (now - tb_last_refill b) 0) in
  f64_min (f64_add (tb_tokens b) (f64_mul elapsed (tb_refill_per_sec b))) (tb_capacity b).

Definition try_acquire (now : Z) : io TokenBucket bool :=
  fun b =>
    let tokens := refilled now b in
    if SFleb (f64_of_u 1) tokens
    then (true, mkBucket (tb_capacity b) (tb_refill_per_sec b) (f64_sub tokens (f64_of_u 1)) now)
    else (false, mkBucket (tb_capacity b) (tb_refill_per_sec b) tokens now).

(** [n] requests at one instant: how many are let through. *)
Fixpoint acquire_many (n : nat) (now : Z) : io TokenBucket nat :=
  match n with
  | O => io_ret 0%nat
  | S n' =>
      let* ok := try_acquire now in
      let* k := acquire_many n' now in
      io_ret (if ok then S k else k)
  end.

(** The bucket after the requests at the instants [ts]. *)
Definition requests (ts : list Z) (b : TokenBucket) : TokenBucket :=
  fold_left (fun b t => snd (try_acquire t b)) ts b.

(** The whole tokens of a bucket at the instant [now]. *)
Definition whole_tokens (now : Z) (b : TokenBucket) : Z := units (refilled now b) / ONE.

(* ------------------------------------------------------------------ *)
(** ** The bucket is a counter, in spite of the rounding *)

(** A bucket of capacity [n]. *)
Record bucket_ok (n : Z) (b : TokenBucket) : Prop := mkBucketOk {
  bo_range : 1 <= n <= 2 ^ 53;
  bo_capacity : tb_capacity b = f64_of_u n;
  bo_rate : sound (tb_refill_per_sec b) /\ finite (tb_refill_per_sec b) = true /\
            0 < units (tb_refill_per_sec b);
  bo_tokens : sound (tb_tokens b) /\ finite (tb_tokens b) = true /\ units (tb_tokens b) <= n * ONE
}.

Lemma as_secs_sound d : 0 <= d -> sound (as_secs_f64 d).
Proof.
  intros Hd. unfold as_secs_f64. apply add_sound.
  { apply of_u_sound, Z.div_pos; lia. }
  pose proof (Z.mod_pos_bound d 1000000000 ltac:(lia)).
  destruct (of_u_exact (d mod 1000000000)) as (Hs & Hf & Hu); [lia|].
  destruct (of_u_exact 1000000000) as (Hs' & Hf' & Hu'); [lia|]. pose proof ONE_pos.
  apply div_sound; try assumption; rewrite ?Hu, ?Hu'; try nia.
  destruct (decide (d mod 1000000000 = 0)) as [->|]; [by left|right; nia].
Qed.

Lemma min_units a cap n :
  sound a -> value_is cap n -> value_is (f64_min a cap) (if finite a then Z.min (units a) n else n).
Proof.
  intros Ha (Hs & Hf & <-). unfold f64_min. destruct (finite a) eqn:Fa.
  - rewrite ltb_units by done. destruct (Z.ltb_spec (units a) (units cap)).
    + split_and!; try done. lia.
    + rewrite Z.min_r by done. by destruct cap.
  - destruct Ha; try done. by destruct cap.
Qed.

(** After a refill the bucket holds at most its capacity. *)
Lemma refilled_spec n now b :
  bucket_ok n b ->
  sound (refilled now b) /\ finite (refilled now b) = true /\ units (refilled now b) <= n * ONE.
Proof.
  intros [Hn Hc (Hr1 & Hr2 & Hr3) (Ht1 & Ht2 & Ht3)]. unfold refilled.
  assert (Ha : sound (f64_add (tb_tokens b)
      (f64_mul (as_secs_f64 (Z.max (now - tb_last_refill b) 0)) (tb_refill_per_sec b)))).
  { apply add_sound; [done|]. apply mul_sound; try done. apply as_secs_sound. lia. }
  rewrite Hc. destruct (min_units _ (f64_of_u n) (n * ONE) Ha) as (? & ? & ->); [apply of_u_exact; lia|].
  split_and!; try done. case_match; lia.
Qed.

(** At the instant of the last refill nothing is added. *)
Lemma refilled_again n now b :
  bucket_ok n b -> now <= tb_last_refill b -> units (refilled now b) = units (tb_tokens b).
Proof.
  intros [Hn Hc (Hr1 & Hr2 & Hr3) (Ht1 & Ht2 & Ht3)] Hnow. unfold refilled. rewrite Z.max_r by lia.
  replace (as_secs_f64 0) with (S754_zero false) by done.
  assert (Hz : f64_mul (S754_zero false) (tb_refill_per_sec b) = S754_zero false).
  { destruct Hr1; try done. }
  assert (Ha : f64_add (tb_tokens b) (S754_zero false) = tb_tokens b) by (destruct Ht1; done).
  rewrite Hz, Ha, Hc. destruct (min_units (tb_tokens b) (f64_of_u n) (n * ONE) Ht1) as (_ & _ & ->);
    [apply of_u_exact; lia|]. rewrite Ht2. lia.
Qed.

(** A request takes one token, exactly, if there is a whole one. *)
Lemma try_acquire_spec n now b :
  bucket_ok n b ->
  exists b', try_acquire now b = (ONE <=? units (refilled now b), b') /\ bucket_ok n b' /\
             tb_last_refill b' = now /\
             units (tb_tokens b') =
               units (refilled now b) - (if ONE <=? units (refilled now b) then ONE else 0).
Proof.
  intros Hb. pose proof (refilled_spec n now b Hb) as (Hs & Hf & Hu). destruct Hb as [Hn Hc Hr Ht].
  destruct (of_u_exact 1) as (Hs1 & Hf1 & Hu1); [lia|].
  unfold try_acquire. rewrite leb_units, Hu1 by done. rewrite Z.mul_1_l.
  destruct (Z.leb_spec ONE (units (refilled now b))) as [Hle|Hgt].
  - destruct (sub_one (refilled now b)) as (Hs' & Hf' & Hu'); [done|done|pose proof ONE_pos; nia|].
    eexists. split; [done|]. split; [|done]. constructor; cbn [tb_capacity tb_refill_per_sec tb_tokens]; try done.
    split_and!; try done. rewrite Hu'. pose proof ONE_pos. lia.
  - eexists. split; [done|]. split; [by constructor|]. split; [done|]. cbn [tb_tokens]. lia.
Qed.

Lemma acquire_many_spec n m : forall now b,
  bucket_ok n b ->
  exists b', acquire_many m now b = (min m (Z.to_nat (whole_tokens now b)), b') /\ bucket_ok n b'.
Proof.
  induction m as [|m IH]; intros now b Hb; [by exists b|].
  destruct (try_acquire_spec n now b Hb) as (b1 & H1 & Hb1 & Hl & Hu).
  destruct (IH now b1 Hb1) as (b2 & H2 & Hb2).
  exists b2. split; [|done]. cbn [acquire_many]. unfold io_bind. rewrite H1, H2. unfold io_ret. f_equal.
  unfold whole_tokens in *. rewrite (refilled_again n now b1 Hb1), Hu by lia.
  pose proof (units_nonneg (refilled now b)). set (u := units (refilled now b)) in *. pose proof ONE_pos.
  destruct (Z.leb_spec ONE u) as [Hle|Hgt].
  - replace (u - ONE) with (u + (-1) * ONE) by lia. rewrite Z.div_add by lia.
    assert (1 <= u / ONE) by (apply Z.div_le_lower_bound; lia). lia.
  - rewrite Z.sub_0_r, Z.div_small by lia. simpl. lia.
Qed.

Lemma bucket_new_ok t s b :
  bucket_new t s = Some b -> 0 <= rl_burst s <= 2 ^ 53 -> 0 <= rl_per_second s < 2 ^ 64 ->
  bucket_ok (rl_burst s) b.
Proof.
  intros Hnew Hb Hr. unfold bucket_new in Hnew. destruct (_ || _) eqn:E; [done|]. b2p.
  injection Hnew as <-. destruct (of_u_finite (rl_per_second s)) as [? ?].
  { split; [lia|]. eapply Z.lt_trans; [apply Hr|]. by apply Z.pow_lt_mono_r. }
  destruct (of_u_exact (rl_burst s)) as (? & ? & ?); [lia|].
  constructor; cbn [tb_capacity tb_refill_per_sec tb_tokens]; try done; [lia| |].
  - split; [|done]. apply of_u_sound. lia.
  - split_and!; try done. lia.
Qed.

Lemma requests_ok n ts : forall b, bucket_ok n b -> bucket_ok n (requests ts b).
Proof.
  induction ts as [|t ts IH]; intros b Hb; [done|]. cbn [requests fold_left]. apply IH.
  by destruct (try_acquire_spec n t b Hb) as (b' & -> & ? & _).
Qed.

Lemma whole_tokens_range n now b : bucket_ok n b -> 0 <= whole_tokens now b <= n.
Proof.
  intros Hb. pose proof (refilled_spec n now b Hb) as (_ & _ & Hu). unfold whole_tokens.
  pose proof (units_nonneg (refilled now b)). pose proof ONE_pos.
  split; [apply Z.div_pos; lia|]. apply Z.div_le_upper_bound; lia.
Qed.

Lemma whole_tokens_fresh t s b now :
  bucket_new t s = Some b -> 0 <= rl_burst s <= 2 ^ 53 -> 0 <= rl_per_second s < 2 ^ 64 -> now <= t ->
  whole_tokens now b = rl_burst s.
Proof.
  intros Hnew Hb Hr Hnow. pose proof (bucket_new_ok t s b Hnew Hb Hr) as Hok.
  assert (Hl : tb_last_refill b = t /\ tb_tokens b = f64_of_u (rl_burst s)).
  { unfold bucket_new in Hnew. destruct (_ || _); [done|]. by injection Hnew as <-. }
  destruct Hl as [Hl Ht]. unfold whole_tokens. rewrite (refilled_again _ _ _ Hok), Ht by lia.
  destruct (of_u_exact (rl_burst s)) as (_ & _ & ->); [lia|]. apply Z.div_mul. pose proof ONE_pos. lia.
Qed.

(** C40: whatever requests a connection has made before, at whatever instants, the
    requests it makes at one instant are let through exactly as long as the bucket holds
    whole tokens, and these are never more than the burst, with the rounding of [f64]
    accounted for, for every burst up to 2^53 and every rate; a fresh bucket holds the
    burst. *)
Theorem bucket_admits_whole_tokens (s : RateLimitSettings) (t now : Z) (b : TokenBucket)
    (before : list Z) (m : nat)
  (Hnew : bucket_new t s = Some b) (Hburst : 0 <= rl_burst s <= 2 ^ 53)
  (Hrate : 0 <= rl_per_second s < 2 ^ 64) :
  let held := whole_tokens now (requests before b) in
  0 <= held <= rl_burst s /\
  fst (acquire_many m now (requests before b)) = min m (Z.to_nat held) /\
  (before = [] -> now <= t -> held = rl_burst s).
Proof.
  intros held. pose proof (bucket_new_ok t s b Hnew Hburst Hrate) as Hok.
  apply (requests_ok _ before) in Hok as Hok'.
  split; [by apply whole_tokens_range|]. split.
  - by destruct (acquire_many_spec _ m now _ Hok') as (b' & -> & _).
  - unfold held. intros -> Hnow. by apply (whole_tokens_fresh t s b now).
Qed.

(** A burst of 300 with 50 tokens a second: after 299 requests at once and one more a
    tenth of a second later, five tokens are left. *)
Lemma bucket_admits_whole_tokens_witness :
  exists b, bucket_new 0 (mkRate true 50 300) = Some b /\
    let before := List.repeat 0 299 ++ [100000000] in
    whole_tokens 100000000 (requests before b) = 5 /\
    fst (acquire_many 9 100000000 (requests before b)) = min 9 5.
Proof.
  eexists. split; [reflexivity|]. intros before.
  destruct (bucket_admits_whole_tokens (mkRate true 50 300) 0 100000000 _ before 9 eq_refl) as (_ & H & _);
    [simpl; lia|simpl; lia|].
  split; [vm_compute; reflexivity|]. exact H.
Defined.

(** A fresh bucket lets exactly [burst] of any number of requests through that arrive at
    the instant it was created, and at no later instant does the refill raise the bucket
    above its capacity. *)
Theorem bucket_burst_is_exact (s : RateLimitSettings) (t now : Z) (b : TokenBucket) (m : nat) :
  bucket_new t s = Some b -> now <= t ->
  0 <= rl_burst s <= 2 ^ 53 -> 0 <= rl_per_second s < 2 ^ 64 ->
  exists b', acquire_many m now b = (min m (Z.to_nat (rl_burst s)), b') /\
             forall later, SFleb (refilled later b') (f64_of_u (rl_burst s)) = true.
Proof.
  intros Hnew Hnow Hb Hr. pose proof (bucket_new_ok t s b Hnew Hb Hr) as Hok.
  destruct (acquire_many_spec _ m now b Hok) as (b' & -> & Hok').
  rewrite (whole_tokens_fresh t s b now) by done. exists b'. split; [done|]. intros later.
  destruct (refilled_spec _ later _ Hok') as (? & ? & Hu).
  destruct (of_u_exact (rl_burst s)) as (? & ? & Hu'); [lia|].
  rewrite leb_units by done. apply Z.leb_le. lia.
Qed.

Lemma bucket_burst_is_exact_witness :
  exists b', acquire_many 15 1000
      (mkBucket (f64_of_u 10) (f64_of_u 100) (f64_of_u 10) 1000) = (10%nat, b') /\
    forall later, SFleb (refilled later b') (f64_of_u 10) = true.
Proof.
  apply (bucket_burst_is_exact (mkRate true 100 10) 1000 1000
    (mkBucket (f64_of_u 10) (f64_of_u 100) (f64_of_u 10) 1000) 15).
  - reflexivity.
  - lia.
  - simpl. lia.
  - simpl. lia.
Defined.
