(* ===== verification/Gateway.v ===== *)
(** The TCP gateway's connection context and message handlers ([gateway/src/tcp]:
    [context.rs], [convert.rs], [handlers.rs], [router_setup.rs]).

    The world of a connection holds the services it shares with the other
    connections (the player repository, the token store, the room service) and its
    own authentication state and outbound queue.  What a handler draws from its
    surroundings (clock readings, a fresh room identifier, whether a session check
    answers within its timeout) is the record [Env] of its context. *)
From S2P Require Import Prelude Text Tokio Values Account Player Room Session Frame Connection.
From S2P Require Import Protocol App MemRepos TokenStore UseCases RoomActor RoomService.
From Stdlib Require Import Strings.String.
Open Scope Z_scope.
Open Scope list_scope.
Abbreviation length := Datatypes.length.

(** ** The context ([context.rs]) *)

Record AuthedPlayer := mkAuthed { ap_player_id : PlayerId; ap_nickname : rstr }.

Record AuthState := mkAuthState {
  au_player : option AuthedPlayer; au_session_token : option rstr; au_current_room : option RoomId
}.
Definition auth_default : AuthState := mkAuthState None None None.

(** [env_now]: [Utc::now()], twice where a handler reads it twice; [env_instant]:
    the monotonic clock the token store reads. *)
Record Env := mkEnv {
  env_now : DateTime; env_now2 : DateTime; env_instant : Z; env_new_room : RoomId;
  env_in_time : bool
}.

Record ConnContext := mkCtx {
  cx_conn_id : Z; cx_peer_ip : Z; cx_room_tx : Z; cx_env : Env
}.

(** [DateTime::timestamp_millis] of an instant in nanoseconds. *)
Definition timestamp_millis (t : DateTime) : Z := t / 1000000.

Section Gateway.
Context {Q : Type -> Type} `{HQ : Mpsc Q} {S T E : Type} `{HS : Repositories S}
        `{HT : SessionTokenStore T} `{HE : EventPublisher E} `{HP : Prost} `{HU : UuidFmt}.
Variable rooms_config : RoomServiceConfig.

(** The services and the state of one connection. *)
Record Gw := mkGw {
  gw_store : S; gw_tokens : T; gw_rooms : @Rooms Q E; gw_auth : AuthState;
  gw_out : @OutboundSender Q
}.

Definition on_players {X} (m : io S X) : io Gw X := fun g =>
  let '(x, s) := m (gw_store g) in
  (x, mkGw s (gw_tokens g) (gw_rooms g) (gw_auth g) (gw_out g)).
Definition on_session_tokens {X} (m : io T X) : io Gw X := fun g =>
  let '(x, t) := m (gw_tokens g) in
  (x, mkGw (gw_store g) t (gw_rooms g) (gw_auth g) (gw_out g)).
Definition on_rooms {X} (m : io (@Rooms Q E) X) : io Gw X := fun g =>
  let '(x, r) := m (gw_rooms g) in
  (x, mkGw (gw_store g) (gw_tokens g) r (gw_auth g) (gw_out g)).
Definition on_outbound {X} (m : io (@OutboundSender Q) X) : io Gw X := fun g =>
  let '(x, o) := m (gw_out g) in
  (x, mkGw (gw_store g) (gw_tokens g) (gw_rooms g) (gw_auth g) o).
(** [self.auth.lock()] *)
Definition with_auth {X} (f : AuthState -> X * AuthState) : io Gw X := fun g =>
  let '(x, a) := f (gw_auth g) in
  (x, mkGw (gw_store g) (gw_tokens g) (gw_rooms g) a (gw_out g)).

Definition is_authenticated (g : Gw) : bool :=
  match au_player (gw_auth g) with Some _ => true | None => false end.

Definition authed_player : io Gw (option AuthedPlayer) := with_auth (fun a => (au_player a, a)).

Definition set_authed (player : AuthedPlayer) (token : rstr) : io Gw unit :=
  with_auth (fun a => (tt, mkAuthState (Some player) (Some token) (au_current_room a))).

Definition validate_session (ctx : ConnContext) : io Gw bool :=
  let* (player, token) := with_auth (fun a => ((au_player a, au_session_token a), a)) in
  match player, token with
  | Some player, Some token =>
      if env_in_time (cx_env ctx) then
        let* r := on_session_tokens (tok_resolve (env_instant (cx_env ctx)) token) in
        io_ret (match r with
                | Ok (Some i) => i =? ap_player_id player
                | Ok None => false
                | Err _ => false
                end)
      else io_ret false
  | _, _ => io_ret false
  end.

Definition current_room : io Gw (option RoomId) := with_auth (fun a => (au_current_room a, a)).

Definition set_current_room (r : option RoomId) : io Gw unit :=
  with_auth (fun a => (tt, mkAuthState (au_player a) (au_session_token a) r)).

(** [ConnContext::try_send] *)
Definition ctx_try_send (message : OutboundMessage) : io Gw (result unit ProtocolError) :=
  await? frame := io_lift (codec_encode (Codec := GameCodec) message) in
  let* r := on_outbound (try_send_frame frame) in
  io_ret (map_err (fun e => Handler (NetError_to_string e)) r).

(* ------------------------------------------------------------------ *)
(** ** Room events on the wire ([convert.rs]) *)

Definition room_id_str (r : RoomId) : rstr := uuid_to_string r.

Definition room_event_to_notification (event : RoomEvent) : pb.RoomEventNotification :=
  pb.mkRoomEventNotification (Some
    match event with
    | MemberJoined room_id player_id nickname =>
        pb.MemberJoined (room_id_str room_id) (uuid_to_string player_id) nickname
    | MemberLeft room_id player_id =>
        pb.MemberLeft (room_id_str room_id) (uuid_to_string player_id)
    | EvChat room_id sender nickname text =>
        pb.RoomChat (room_id_str room_id) (uuid_to_string sender) nickname text
    | EvClosed room_id reason => pb.RoomClosed (room_id_str room_id) reason
    end).

Definition room_event_message (event : RoomEvent) : OutboundMessage :=
  ORoomEvent (room_event_to_notification event).

(* ------------------------------------------------------------------ *)
(** ** The handlers ([handlers.rs]) *)

Definition app_error_notification (err : AppError) : OutboundMessage :=
  let '(code, message) :=
    match err with
    | Validation msg => (ERR_INVALID_INPUT, msg)
    | Unauthorized msg => (ERR_NOT_AUTHENTICATED, msg)
    | Forbidden msg => (ERR_FORBIDDEN, msg)
    | NotFound msg => (ERR_NOT_FOUND, msg)
    | Conflict msg => (ERR_CONFLICT, msg)
    | Busy => (ERR_SERVER_BUSY, lit "服务繁忙,请稍后重试")
    | RateLimited => (ERR_RATE_LIMITED, lit "请求过于频繁")
    | PostCommit _ => (ERR_PROTOCOL, lit "数据已提交,事件发布失败,请勿重试整个操作")
    | Storage _ | Internal _ => (ERR_PROTOCOL, lit "服务器内部错误")
    end in
  error_notification code message.

Definition parse_optional_room_id (raw : option rstr) : result (option RoomId) rstr :=
  match raw with
  | None => Ok None
  | Some text =>
      if is_empty (trim text) then Ok None
      else match uuid_parse_str (trim text) with
           | Some uuid => Ok (Some uuid)
           | None => Err (lit "room_id 不是合法的 UUID")
           end
  end.

(** [Ok(Some(reply))] *)
Definition reply (m : OutboundMessage) : io Gw (result (option OutboundMessage) ProtocolError) :=
  io_ret (Ok (Some m)).
Definition no_reply : io Gw (result (option OutboundMessage) ProtocolError) := io_ret (Ok None).
Definition wrong_route (m : rstr) : io Gw (result (option OutboundMessage) ProtocolError) :=
  io_ret (Err (Handler m)).
Definition bind_first : OutboundMessage := error_notification ERR_NOT_AUTHENTICATED (lit "请先完成绑定").

Definition handle_bind : BoxedHandler ConnContext Gw := fun ctx message =>
  match message with
  | Bind request => fun g =>
      if is_authenticated g
      then reply (error_notification ERR_ALREADY_BOUND (lit "连接已完成绑定")) g
      else
        let token := trim (pb.bind_token request) in
        if is_empty token then reply (bind_rejected (lit "缺少 token")) g
        else
          (let* resolved := on_session_tokens (tok_resolve (env_instant (cx_env ctx)) token) in
           match resolved with
           | Ok None => reply (bind_rejected (lit "token 无效或已过期"))
           | Err err => io_ret (Err (Handler (AppError_to_string err)))
           | Ok (Some player_id) =>
               await? found := (let* r := on_players (find_player_by_id player_id) in
                                io_ret (map_err (fun e => Handler (RepoError_to_string e)) r)) in
               await? player := io_lift (ok_or (Handler (lit "token 对应的玩家不存在")) found) in
               let nickname := Nickname.as_str (pl_nickname player) in
               let* _ := set_authed (mkAuthed player_id nickname) token in
               reply (bind_ok (uuid_to_string player_id) nickname)
           end) g
  | _ => wrong_route (lit "BIND 路由收到异构消息")
  end.

Definition handle_heartbeat : BoxedHandler ConnContext Gw := fun ctx message =>
  match message with
  | Heartbeat ping => reply (OHeartbeatAck (pb.mkHeartbeatAck (timestamp_millis (env_now (cx_env ctx)))))
  | _ => wrong_route (lit "HEARTBEAT 路由收到异构消息")
  end.

Definition handle_join_room : BoxedHandler ConnContext Gw := fun ctx message =>
  match message with
  | JoinRoom request =>
      let* authed := authed_player in
      match authed with
      | None => reply bind_first
      | Some player =>
          match parse_optional_room_id (pb.join_room_id request) with
          | Err message_text => reply (error_notification ERR_INVALID_INPUT message_text)
          | Ok target =>
              let* current := current_room in
              match current with
              | Some current =>
                  if bool_decide (target = Some current) then no_reply
                  else reply (error_notification ERR_CONFLICT (lit "请先离开当前房间"))
              | None =>
                  let env := cx_env ctx in
                  let* joined := on_rooms (join_or_create rooms_config target (env_new_room env)
                                   (ap_player_id player) (ap_nickname player) (cx_room_tx ctx)
                                   (env_now env) (env_now2 env)) in
                  match joined with
                  | Ok room_id => let* _ := set_current_room (Some room_id) in no_reply
                  | Err err => reply (app_error_notification err)
                  end
              end
          end
      end
  | _ => wrong_route (lit "JOIN_ROOM 路由收到异构消息")
  end.

Definition handle_leave_room : BoxedHandler ConnContext Gw := fun ctx message =>
  match message with
  | LeaveRoom request =>
      let* authed := authed_player in
      match authed with
      | None => reply bind_first
      | Some player =>
          match parse_optional_room_id (pb.leave_room_id request) with
          | Err message_text => reply (error_notification ERR_INVALID_INPUT message_text)
          | Ok target =>
              let now := env_now (cx_env ctx) in
              let* outcome :=
                match target with
                | Some room_id =>
                    let* result := on_rooms (leave room_id (ap_player_id player) (lit "client leave") now) in
                    let* current := current_room in
                    let* _ := (if is_ok result && bool_decide (current = Some room_id)
                               then set_current_room None else io_ret tt) in
                    io_ret result
                | None =>
                    let* result := on_rooms (leave_all (ap_player_id player) (lit "client leave") now) in
                    let* _ := (if is_ok result then set_current_room None else io_ret tt) in
                    io_ret result
                end in
              match outcome with
              | Ok _ => no_reply
              | Err err => reply (app_error_notification err)
              end
          end
      end
  | _ => wrong_route (lit "LEAVE_ROOM 路由收到异构消息")
  end.

Definition handle_room_chat : BoxedHandler ConnContext Gw := fun ctx message =>
  match message with
  | InRoomChat request =>
      let* authed := authed_player in
      match authed with
      | None => reply bind_first
      | Some player =>
          let* current := current_room in
          match current with
          | None => reply (error_notification ERR_NOT_FOUND (lit "请先加入一个房间"))
          | Some room_id =>
              let* sent := on_rooms (chat room_id (ap_player_id player) (pb.chat_text request)) in
              match sent with
              | Ok _ => no_reply
              | Err err => reply (app_error_notification err)
              end
          end
      end
  | _ => wrong_route (lit "ROOM_CHAT 路由收到异构消息")
  end.

Definition profile_message (p : PlayerProfile) : OutboundMessage :=
  OProfile (pb.mkProfileResponse true (Some (uuid_to_string (pp_player_id p)))
    (Some (pp_nickname p)) (Some (pp_level p)) (Some (pp_exp p))
    (timestamp_millis <$> pp_last_login_at p) None).

Definition handle_get_profile : BoxedHandler ConnContext Gw := fun ctx message =>
  match message with
  | GetProfile _ =>
      let* authed := authed_player in
      match authed with
      | None => reply bind_first
      | Some player =>
          let* r := on_players (profile_query (ap_player_id player)) in
          match r with
          | Ok profile => reply (profile_message profile)
          | Err err => reply (app_error_notification err)
          end
      end
  | _ => wrong_route (lit "GET_PROFILE 路由收到异构消息")
  end.

(** ** The router ([router_setup.rs]) *)

Definition build_router : Router ConnContext Gw :=
  route OP_C2S_GET_PROFILE handle_get_profile
  (route OP_C2S_ROOM_CHAT handle_room_chat
  (route OP_C2S_LEAVE_ROOM handle_leave_room
  (route OP_C2S_JOIN_ROOM handle_join_room
  (route OP_C2S_HEARTBEAT handle_heartbeat
  (route OP_C2S_BIND handle_bind router_new))))).

(* ------------------------------------------------------------------ *)
(** ** What each handler changes *)

Implicit Types g : Gw.

Ltac run_handler :=
  unfold reply, no_reply, wrong_route, authed_player, current_room, set_current_room, set_authed,
    on_rooms, on_players, on_session_tokens, with_auth, io_bind, io_try, io_lift, io_ret in *;
  cbn [gw_store gw_tokens gw_rooms gw_auth gw_out au_player au_session_token au_current_room
       ok_or map_err res_bind is_ok] in *.
Ltac cases :=
  repeat match goal with
  | H : context [match ?x with _ => _ end] |- _ =>
      lazymatch x with context [match _ with _ => _ end] => fail | _ => destruct x eqn:? end;
      run_handler
  end.

(** Everything but the rooms and the current room of the connection. *)
Record keeps g g' : Prop := mkKeeps {
  kp_tokens : gw_tokens g' = gw_tokens g;
  kp_out : gw_out g' = gw_out g;
  kp_wf : repo_wf (gw_store g) -> repo_wf (gw_store g');
  kp_players : repo_wf (gw_store g) -> players_view (gw_store g') = players_view (gw_store g);
  kp_player : au_player (gw_auth g') = au_player (gw_auth g);
  kp_token : au_session_token (gw_auth g') = au_session_token (gw_auth g)
}.

Lemma keeps_refl g : keeps g g.
Proof. by constructor. Qed.

(** The handlers of a bound connection's messages. *)
Definition served (ctx : ConnContext) (m : InboundMessage)
  : io Gw (result (option OutboundMessage) ProtocolError) :=
  match m with
  | Bind _ => handle_bind ctx m
  | Heartbeat _ => handle_heartbeat ctx m
  | JoinRoom _ => handle_join_room ctx m
  | LeaveRoom _ => handle_leave_room ctx m
  | InRoomChat _ => handle_room_chat ctx m
  | GetProfile _ => handle_get_profile ctx m
  | Unknown op => io_ret (Err (UnsupportedOpcode op))
  end.

Lemma get_profile_keeps ctx m g r g' :
  handle_get_profile ctx m g = (r, g') -> keeps g g' /\ gw_rooms g' = gw_rooms g /\ gw_auth g' = gw_auth g.
Proof.
  unfold handle_get_profile. intros Hx.
  destruct m; try (injection Hx as <- <-; split; [by constructor|done]).
  run_handler. destruct (au_player (gw_auth g)) as [p|] eqn:Ep; [|injection Hx as <- <-; split; [by constructor|done]].
  run_handler. destruct (profile_query (ap_player_id p) (gw_store g)) as [q s] eqn:Eq.
  assert (exists x, (x, mkGw s (gw_tokens g) (gw_rooms g) (gw_auth g) (gw_out g)) = (r, g')) as [x [= _ <-]].
  { destruct q; injection Hx as <- <-; eauto. }
  split; [|done]. constructor; cbn; try done;
    intros Hwf; by apply profile_query_spec in Eq as (? & ? & ? & _).
Qed.

Lemma join_keeps ctx m g r g' : handle_join_room ctx m g = (r, g') -> keeps g g'.
Proof.
  unfold handle_join_room. intros Hx. destruct m; run_handler; cases; simplify_eq/=; by constructor.
Qed.

Lemma leave_keeps ctx m g r g' : handle_leave_room ctx m g = (r, g') -> keeps g g'.
Proof.
  unfold handle_leave_room. intros Hx. destruct m; run_handler; cases; simplify_eq/=; by constructor.
Qed.

Lemma chat_keeps ctx m g r g' : handle_room_chat ctx m g = (r, g') -> keeps g g'.
Proof.
  unfold handle_room_chat. intros Hx. destruct m; run_handler; cases; simplify_eq/=; by constructor.
Qed.

(** Without a bound player the room handlers change nothing. *)
Lemma served_unbound ctx m g r g' :
  au_player (gw_auth g) = None -> (forall b, m <> Bind b) -> served ctx m g = (r, g') -> g' = g.
Proof.
  intros Hn Hb Hx. destruct m; cbn [served] in Hx;
    unfold handle_heartbeat, handle_join_room, handle_leave_room, handle_room_chat,
      handle_get_profile in Hx; run_handler; rewrite ?Hn in Hx; try congruence;
    destruct g; cbn in *; congruence.
Qed.

Lemma served_keeps ctx m g r g' :
  (forall b, m <> Bind b) -> served ctx m g = (r, g') -> keeps g g'.
Proof.
  intros Hb Hx. destruct m; cbn [served] in Hx; try congruence.
  - unfold handle_heartbeat in Hx. injection Hx as <- <-. apply keeps_refl.
  - by eapply join_keeps.
  - by eapply leave_keeps.
  - by eapply chat_keeps.
  - by eapply get_profile_keeps.
  - injection Hx as <- <-. apply keeps_refl.
Qed.

(* ------------------------------------------------------------------ *)
(** ** Binding *)

(** The token a request carries stands for this player. *)
Definition authentic g (now : Z) (token : rstr) (p : PlayerId) (pl : Player) : Prop :=
  live (gw_tokens g) now token = Some p /\ players_view (gw_store g) !! p = Some pl.

Definition bound g (p : PlayerId) (pl : Player) (token : rstr) : AuthState :=
  mkAuthState (Some (mkAuthed p (Nickname.as_str (pl_nickname pl)))) (Some token)
              (au_current_room (gw_auth g)).

Definition bind_post (ctx : ConnContext) (request : pb.BindRequest) g
    (r : result (option OutboundMessage) ProtocolError) g' : Prop :=
  let token := trim (pb.bind_token request) in
  let now := env_instant (cx_env ctx) in
  match r with
  | Ok (Some m) =>
      (exists p pl, token <> [] /\ authentic g now token p pl /\ gw_auth g' = bound g p pl token /\
         m = bind_ok (uuid_to_string p) (Nickname.as_str (pl_nickname pl))) \/
      (gw_auth g' = gw_auth g /\ token = [] /\ m = bind_rejected (lit "缺少 token")) \/
      (gw_auth g' = gw_auth g /\ live (gw_tokens g) now token = None /\
       m = bind_rejected (lit "token 无效或已过期"))
  | Ok None => False
  | Err _ => gw_auth g' = gw_auth g
  end.

Lemma handle_bind_spec ctx request g r g' :
  repo_wf (gw_store g) -> tok_wf (env_instant (cx_env ctx)) (gw_tokens g) -> au_player (gw_auth g) = None ->
  handle_bind ctx (Bind request) g = (r, g') ->
  gw_rooms g' = gw_rooms g /\ gw_tokens g' = gw_tokens g /\ gw_out g' = gw_out g /\
  repo_wf (gw_store g') /\ players_view (gw_store g') = players_view (gw_store g) /\
  bind_post ctx request g r g'.
Proof.
  intros Hwf Htw Hn Hx. unfold handle_bind, is_authenticated in Hx. rewrite Hn in Hx.
  unfold bind_post. cbv zeta in *. set (token := trim (pb.bind_token request)) in *.
  destruct token as [|c tl] eqn:Et; cbn [is_empty] in Hx.
  { unfold reply in Hx. apply io_ret_inv in Hx as [<- <-]. split_and!; try done. auto. }
  rewrite <- Et in *. apply io_bind_inv in Hx as (o & g1 & Hr & Hx).
  unfold on_session_tokens in Hr. destruct (tok_resolve _ _ _) as [o' t] eqn:Er.
  injection Hr as <- <-. apply tok_resolve_spec in Er as [-> Hlive]; [|done].
  destruct o' as [[p|]|err].
  2: { unfold reply in Hx. apply io_ret_inv in Hx as [<- <-]. cbn. split_and!; try done.
       right; right. by rewrite <- (Hlive _ eq_refl). }
  2: { apply io_ret_inv in Hx as [<- <-]. by cbn. }
  specialize (Hlive _ eq_refl).
  unfold io_try, io_bind, on_players, io_ret in Hx. cbn [gw_store gw_tokens gw_rooms gw_auth gw_out] in Hx.
  destruct (find_player_by_id p (gw_store g)) as [found s] eqn:Ef.
  apply find_player_by_id_spec in Ef as (Hwf' & _ & Hpv & Hf); [|done].
  destruct found as [[pl|]|e]; cbn [map_err io_lift ok_or] in Hx.
  2, 3: injection Hx as <- <-; by cbn.
  unfold set_authed, with_auth, reply, io_ret, io_lift in Hx. injection Hx as <- <-. cbn. split_and!; try done.
  left. exists p, pl. unfold authentic. rewrite Et. split_and!; try done; [by rewrite <- Et|].
  by rewrite <- (Hf _ eq_refl).
Qed.

(** Binding a connection is authentic.  An unbound connection becomes bound
    exactly when the trimmed token of the request is live at that moment and its
    player exists; it is then bound to that player, under the player's nickname and
    with that token, and told so.  A missing or dead token is refused with the
    stated answer, and a failure of a store is an error; both leave the connection
    unbound.  Rooms, tokens and players are untouched in every case. *)
Theorem bind_is_authentic (ctx : ConnContext) (request : pb.BindRequest) (g g' : Gw)
  (r : result (option OutboundMessage) ProtocolError)
  (Hwf : repo_wf (gw_store g)) (Htok : tok_wf (env_instant (cx_env ctx)) (gw_tokens g)) (Hun : is_authenticated g = false)
  (Hx : handle_bind ctx (Bind request) g = (r, g')) :
  gw_rooms g' = gw_rooms g /\ gw_tokens g' = gw_tokens g /\
  players_view (gw_store g') = players_view (gw_store g) /\
  bind_post ctx request g r g' /\
  (is_authenticated g' = true <->
   exists p nickname, r = Ok (Some (bind_ok (uuid_to_string p) nickname))).
Proof.
  unfold is_authenticated in Hun. destruct (au_player (gw_auth g)) eqn:Hn; [done|].
  apply handle_bind_spec in Hx as (? & ? & _ & _ & ? & Hpost); try done.
  do 4 (split; [done|]). unfold is_authenticated. split.
  - unfold bind_post in Hpost. intros Ha. revert Ha. destruct r as [[m|]|e]; [|done|rewrite Hpost, Hn; done].
    destruct Hpost as [(p & pl & _ & _ & -> & ->)|[(-> & _)|(-> & _)]]; [by eauto|rewrite Hn; done|rewrite Hn; done].
  - intros (p & n & ->). unfold bind_post in Hpost.
    destruct Hpost as [(q & pl & _ & _ & -> & _)|[(_ & _ & ?)|(_ & _ & ?)]]; done.
Qed.

(* ------------------------------------------------------------------ *)
(** ** Routing *)

Lemma router_route m :
  (forall op, m <> Unknown op) ->
  exists h, get_route build_router (in_opcode m) = Some h /\ forall ctx g, h ctx m g = served ctx m g.
Proof.
  intros Hm. destruct m; try (by destruct (Hm op));
    unfold get_route, build_router, route; cbn [routes in_opcode];
    repeat first [rewrite lookup_insert_eq; eexists; split; [reflexivity|done]
                 |rewrite lookup_insert_ne by done].
Qed.

Lemma router_unknown op :
  op ∉ [OP_C2S_BIND; OP_C2S_HEARTBEAT; OP_C2S_JOIN_ROOM; OP_C2S_LEAVE_ROOM; OP_C2S_ROOM_CHAT;
        OP_C2S_GET_PROFILE] -> has_route build_router op = false.
Proof.
  rewrite !not_elem_of_cons. intros (? & ? & ? & ? & ? & ? & _).
  unfold has_route, get_route, build_router, route. cbn [routes].
  rewrite !lookup_insert_ne by done. apply bool_decide_eq_false. intros [x Hx]. done.
Qed.

Lemma decode_unknown (f : Frame) op :
  codec_decode (Codec := GameCodec) f = Ok (Unknown op) ->
  op ∉ [OP_C2S_BIND; OP_C2S_HEARTBEAT; OP_C2S_JOIN_ROOM; OP_C2S_LEAVE_ROOM; OP_C2S_ROOM_CHAT;
        OP_C2S_GET_PROFILE].
Proof.
  cbn [codec_decode GameCodec]. unfold decode_inbound.
  repeat (case_match; [destruct (pdecode _); simpl; congruence|]).
  intros [= <-]. b2p. rewrite !not_elem_of_cons. split_and!; try done. apply not_elem_of_nil.
Qed.

Lemma dispatch_served ctx (f : Frame) m g :
  codec_decode (Codec := GameCodec) f = Ok m -> dispatch build_router ctx m g = served ctx m g.
Proof.
  intros Hd.
  assert ((forall op, m <> Unknown op) \/ exists op, m = Unknown op) as [Hm|[op ->]]
    by (destruct m; eauto).
  - destruct (router_route m Hm) as (h & Hh & Hs). by rewrite (dispatch_hit _ _ _ _ h Hh).
  - rewrite dispatch_miss; [done|]. cbn [in_opcode]. apply router_unknown.
    by eapply decode_unknown.
Qed.

(** Routing is complete and never crosses handlers: the message any frame
    decodes to reaches the handler written for it, a message with another opcode is
    answered by the error for that opcode with nothing changed; a handler is never
    given a message of another kind. *)
Theorem router_serves_decoded (ctx : ConnContext) (f : Frame) (m : InboundMessage) (g : Gw)
  (Hd : codec_decode (Codec := GameCodec) f = Ok m) :
  route_count build_router = 6%nat /\
  dispatch build_router ctx m g =
    match m with
    | Bind _ => handle_bind ctx m g
    | Heartbeat _ => handle_heartbeat ctx m g
    | JoinRoom _ => handle_join_room ctx m g
    | LeaveRoom _ => handle_leave_room ctx m g
    | InRoomChat _ => handle_room_chat ctx m g
    | GetProfile _ => handle_get_profile ctx m g
    | Unknown op => (Err (UnsupportedOpcode op), g)
    end.
Proof.
  split; [reflexivity|]. rewrite (dispatch_served ctx f m g Hd). by destruct m.
Qed.

End Gateway.

(* ------------------------------------------------------------------ *)
(** ** A concrete gateway

    The world of [UseCases.Demo] after Alice has registered and logged in. *)

Module GwDemo.

#[local] Existing Instance log_events.
#[local] Existing Instance plain_hasher.
#[local] Existing Instance log_audit.
#[local] Existing Instance simple_prost.
#[local] Existing Instance hex_uuid.
Import UseCases.Demo.

Definition rooms_cfg : RoomServiceConfig := mkServiceConfig 4 2.
Definition sinks0 : gmap Z (Sink queue) := {[77 := sink_new (chan 4)]}.
Definition g0 : @Gw queue Memory.Store MemTokens.State (list DomainEvent) :=
  mkGw (w_store w2) (w_tokens w2) (service_new [] sinks0) auth_default (outbound_new (chan 4)).
Definition ctx : ConnContext := mkCtx 1000 1 77 (mkEnv 10 11 12 300 true).
Definition token : rstr := random_token [7; 8].
Definition bind_req : pb.BindRequest := pb.mkBindRequest (lit " " ++ token ++ lit " ").
Definition bound_gw : @Gw queue Memory.Store MemTokens.State (list DomainEvent) :=
  snd (handle_bind ctx (Bind bind_req) g0).

Lemma w2_consistent : consistent 5 w2.
Proof.
  apply (consistent_login 0 60000000000 3 4 5 [7; 8] log_cmd w1
           (fst (login_execute 60000000000 3 4 5 [7; 8] log_cmd w1)));
    [apply w1_consistent|lia| |vm_compute; reflexivity].
  split; [vm_compute; reflexivity|]. intros p ts. vm_compute. discriminate.
Qed.

Lemma w2_tokens_wf now : tok_wf now (w_tokens w2).
Proof. exact (c_tok _ _ w2_consistent). Qed.

Lemma bind_is_authentic_witness :
  fst (handle_bind ctx (Bind bind_req) g0) = Ok (Some (bind_ok (uuid_to_string 20) (lit "爱丽丝"))) /\
  is_authenticated bound_gw = true.
Proof.
  split; [vm_compute; reflexivity|].
  apply (bind_is_authentic ctx bind_req g0 bound_gw (fst (handle_bind ctx (Bind bind_req) g0))
           (c_wf _ _ w2_consistent) (w2_tokens_wf _)).
  - reflexivity.
  - vm_compute. reflexivity.
  - exists 20, (lit "爱丽丝"). vm_compute. reflexivity.
Defined.

Lemma router_serves_decoded_witness :
  dispatch (build_router rooms_cfg) ctx (Heartbeat (pb.mkHeartbeatPing 5)) g0 =
    handle_heartbeat ctx (Heartbeat (pb.mkHeartbeatPing 5)) g0.
Proof.
  refine (proj2 (router_serves_decoded rooms_cfg ctx
    (frame_new OP_C2S_HEARTBEAT (encode_to_vec (pb.mkHeartbeatPing 5)))
    (Heartbeat (pb.mkHeartbeatPing 5)) g0 _)).
  vm_compute. reflexivity.
Defined.

End GwDemo.
