(* ===== verification/ConnLoop.v ===== *)
(** The life of one TCP connection ([gateway/src/tcp/handler.rs]): admission of
    frames, the read loop and the relay of room events.

    One [Turn] is one round of the loop's [select!]: when the deadline was computed,
    when the select woke up, and what was ready then.  The branches are looked at in
    the order of the source ([biased]).  Between two turns the other tasks of the
    server may change everything that is not this connection's own. *)
From S2P Require Import Prelude Text Tokio Values Account Player Room Session Frame Connection.
From S2P Require Import Protocol App MemRepos TokenStore UseCases RoomActor RoomService.
From S2P Require Import AuthGate RateLimit Gateway.
From Stdlib Require Import Strings.String.
Open Scope Z_scope.
Open Scope list_scope.
Abbreviation length := Datatypes.length.

Section ConnLoop.
Context {Q : Type -> Type} `{HQ : Mpsc Q} {S T E : Type} `{HS : Repositories S}
        `{HT : SessionTokenStore T} `{HE : EventPublisher E} `{HP : Prost} `{HU : UuidFmt}.
Variable rooms_config : RoomServiceConfig.

Abbreviation Gw := (@Gw Q S T E).
Abbreviation router := (build_router rooms_config).

(* ------------------------------------------------------------------ *)
(** ** Admission of a frame *)

(** [let _ = ctx.try_send(error_notification(code, message)); return b] *)
Definition notify (code : Z) (message : rstr) (b : bool) : io Gw bool :=
  let* _ := ctx_try_send (error_notification code message) in io_ret b.

(** The part of [admit_frame] after the rate limiter. *)
Definition admit_message (ctx : ConnContext) (frame : Frame) : io Gw bool :=
  match codec_decode (Codec := GameCodec) frame with
  | Err err => notify ERR_PROTOCOL (ProtocolError_to_string err) false
  | Ok message => fun g =>
      let is_bind := in_opcode message =? OP_C2S_BIND in
      if negb (is_authenticated g) && negb is_bind
      then notify ERR_AUTH_REQUIRED_FIRST (lit "必须先完成绑定") false g
      else
        let authenticated := is_authenticated g in
        (let* valid := (if authenticated then validate_session ctx else io_ret true) in
         if authenticated && negb valid
         then notify ERR_NOT_AUTHENTICATED (lit "会话无效或已过期") false
         else if authenticated && is_bind
         then notify ERR_ALREADY_BOUND (lit "连接已完成绑定") true
         else
           let* outcome := dispatch router ctx message in
           match outcome with
           | Ok (Some reply) => let* r := ctx_try_send reply in io_ret (is_ok r)
           | Ok None => io_ret true
           | Err err =>
               let* r := ctx_try_send (app_error_notification (Internal (ProtocolError_to_string err))) in
               io_ret (is_ok r)
           end) g
  end.

(** [bucket.try_acquire(Instant::now())] where there is a bucket. *)
Definition rate_check (now : Z) (bucket : option TokenBucket) : bool * option TokenBucket :=
  match bucket with
  | None => (true, None)
  | Some b => let '(ok, b') := try_acquire now b in (ok, Some b')
  end.

Definition admit_frame (ctx : ConnContext) (now : Z) (frame : Frame)
  : io (option TokenBucket * Gw) bool :=
  fun '(bucket, g) =>
    let '(ok, bucket') := rate_check now bucket in
    let '(b, g') := (if ok then admit_message ctx frame
                     else notify ERR_RATE_LIMITED (lit "请求过于频繁") false) g in
    (b, (bucket', g')).

(** Whether an unauthenticated connection's dispatch gets as far as awaiting a
    store: the only places where it can be cancelled. *)
Definition reaches_await (now : Z) (frame : Frame) (bucket : option TokenBucket) : bool :=
  fst (rate_check now bucket) &&
  match codec_decode (Codec := GameCodec) frame with
  | Ok (Bind request) => negb (is_empty (trim (pb.bind_token request)))
  | _ => false
  end.

(* ------------------------------------------------------------------ *)
(** ** The read loop *)

(** What the loop owns, and the gate its permit belongs to. *)
Record Loop := mkLoop {
  lp_gw : Gw; lp_session : Session.Session; lp_bucket : option TokenBucket;
  lp_permit : option IpAddr; lp_gate : AuthGate
}.

(** [tn_cancelled]: a dispatch that awaits a store for an unauthenticated connection
    is still waiting when the deadline passes, and is dropped there. *)
Record Turn := mkTurn {
  tn_start : Z; tn_wake : Z; tn_shutdown : bool;
  tn_frame : option (result (option Frame) NetError);
  tn_cancelled : bool; tn_rate_now : Z; tn_env : Env
}.

Inductive loop_status := LContinue | LReturn | LPending.

Definition lp_set_gw (l : Loop) (g : Gw) : Loop :=
  mkLoop g (lp_session l) (lp_bucket l) (lp_permit l) (lp_gate l).

(** [let _ = ctx.try_send(message); return] *)
Definition say_and_return (m : OutboundMessage) (l : Loop) : loop_status * Loop :=
  (LReturn, lp_set_gw l (snd (ctx_try_send m (lp_gw l)))).

Definition session_timeout : OutboundMessage := error_notification ERR_TIMEOUT (lit "会话超时").
Definition shutdown_notice : OutboundMessage :=
  OShutdown (pb.mkServerShutdownNotice (lit "服务器即将维护,请保存进度并重连")).

(** [ctx.room_tx.failed()] *)
Definition sink_failed (g : Gw) (k : Z) : bool :=
  match sinks (gw_rooms g) !! k with Some s => sk_failed s | None => false end.

(** [admission.permit.take()]: the permit is dropped. *)
Definition take_permit (l : Loop) : Loop :=
  match lp_permit l with
  | None => l
  | Some ip => mkLoop (lp_gw l) (lp_session l) (lp_bucket l) None (snd (drop_permit ip (lp_gate l)))
  end.

Section Turn.
Variables (conn_id ip sink : Z) (heartbeat_timeout admission_deadline : Z).

Definition turn_ctx (t : Turn) : ConnContext := mkCtx conn_id ip sink (tn_env t).

Definition turn_deadline (t : Turn) (l : Loop) : Z :=
  if is_authenticated (lp_gw l) then tn_start t + heartbeat_timeout else admission_deadline.

(** A frame that arrived before the deadline. *)
Definition on_frame (t : Turn) (frame : Frame) (l : Loop) : loop_status * Loop :=
  let l := mkLoop (lp_gw l) (Session.touch_heartbeat (lp_session l) (env_now (tn_env t)))
                  (lp_bucket l) (lp_permit l) (lp_gate l) in
  if turn_deadline t l <=? tn_wake t then say_and_return session_timeout l
  else if negb (is_authenticated (lp_gw l)) && tn_cancelled t
          && reaches_await (tn_rate_now t) frame (lp_bucket l) then
    let l := mkLoop (lp_gw l) (lp_session l) (snd (rate_check (tn_rate_now t) (lp_bucket l)))
                    (lp_permit l) (lp_gate l) in
    say_and_return session_timeout l
  else
    let '(go, (bucket, g)) := admit_frame (turn_ctx t) (tn_rate_now t) frame (lp_bucket l, lp_gw l) in
    let l := mkLoop g (lp_session l) bucket (lp_permit l) (lp_gate l) in
    if go then (LContinue, if is_authenticated g then take_permit l else l) else (LReturn, l).

Definition read_turn (t : Turn) (l : Loop) : loop_status * Loop :=
  let g := lp_gw l in
  if ob_is_closed (gw_out g) then (LReturn, l)
  else if sink_failed g sink then
    (LReturn, lp_set_gw l (snd (on_outbound disconnect g)))
  else if tn_shutdown t then say_and_return shutdown_notice l
  else
    match tn_frame t with
    | Some (Ok (Some frame)) => on_frame t frame l
    | Some (Ok None) => (LReturn, l)
    | Some (Err err) =>
        if is_disconnect err then (LReturn, l)
        else
          let code := match err with FrameTooLarge _ _ => ERR_FRAME_TOO_LARGE | _ => ERR_PROTOCOL end in
          say_and_return (error_notification code (NetError_to_string err)) l
    | None =>
        if turn_deadline t l <=? tn_wake t then say_and_return session_timeout l
        else (LPending, l)
    end.
End Turn.

(* ------------------------------------------------------------------ *)
(** ** The relay of room events *)

(** One round of [room_event_translator]; [false]: the task ends. *)
Definition translate (ctx : ConnContext) (event : RoomEvent) : io Gw bool :=
  let* valid := validate_session ctx in
  if negb valid
  then notify ERR_NOT_AUTHENTICATED (lit "会话无效或已过期") false
  else
    match codec_encode (Codec := GameCodec) (room_event_message event) with
    | Err _ => let* _ := on_outbound disconnect in io_ret false
    | Ok frame => let* r := on_outbound (try_send_frame frame) in io_ret (is_ok r)
    end.

(** The loop over the events received, each with the surroundings of its round;
    the result is how many were relayed. *)
Fixpoint translator (ctx : ConnContext) (evs : list (Env * RoomEvent)) : io Gw nat :=
  match evs with
  | [] => io_ret 0%nat
  | (env, event) :: evs' =>
      let* go := translate (mkCtx (cx_conn_id ctx) (cx_peer_ip ctx) (cx_room_tx ctx) env) event in
      if go then let* n := translator ctx evs' in io_ret (1 + n)%nat else io_ret 0%nat
  end.

(* ------------------------------------------------------------------ *)
(** ** What sending and checking leave alone *)

Implicit Types g : Gw.

(** Only the outbound queue may differ. *)
Definition only_out g g' : Prop :=
  gw_store g' = gw_store g /\ gw_tokens g' = gw_tokens g /\ gw_rooms g' = gw_rooms g /\
  gw_auth g' = gw_auth g.

Lemma only_out_refl g : only_out g g.
Proof. by unfold only_out. Qed.

Lemma try_send_only_out m g r g' : ctx_try_send m g = (r, g') -> only_out g g'.
Proof.
  unfold ctx_try_send, io_try, io_lift, io_ret, io_bind, on_outbound.
  destruct (codec_encode m); [|intros [= <- <-]; apply only_out_refl].
  destruct (try_send_frame _ _). by intros [= <- <-].
Qed.

Lemma notify_only_out code m b g r g' : notify code m b g = (r, g') -> r = b /\ only_out g g'.
Proof.
  unfold notify. intros (x & g1 & Hs & Hx)%io_bind_inv. apply io_ret_inv in Hx as [<- <-].
  split; [done|]. by eapply try_send_only_out.
Qed.

(** The session of a connection is live: the token it was bound with still stands
    for its player. *)
Definition session_live (ctx : ConnContext) g : Prop :=
  exists p token, au_player (gw_auth g) = Some p /\ au_session_token (gw_auth g) = Some token /\
    live (gw_tokens g) (env_instant (cx_env ctx)) token = Some (ap_player_id p).

Lemma validate_session_spec ctx g b g' :
  tok_wf (env_instant (cx_env ctx)) (gw_tokens g) -> validate_session ctx g = (b, g') ->
  only_out g g' /\ gw_out g' = gw_out g /\ (b = true -> session_live ctx g).
Proof.
  intros Hwf Hx. unfold validate_session in Hx.
  apply io_bind_inv in Hx as (pt & g1 & Ha & Hx). unfold with_auth in Ha. injection Ha as <- <-.
  assert (Hsame : forall b0 g2,
    (b0, mkGw (gw_store g) (gw_tokens g) (gw_rooms g) (gw_auth g) (gw_out g)) = (b, g2) -> g2 = g' ->
    b0 = false -> only_out g g' /\ gw_out g' = gw_out g /\ (b = true -> session_live ctx g)).
  { intros b0 g2 [= <- <-] <- ->. by unfold only_out. }
  destruct (au_player (gw_auth g)) as [p|] eqn:Ep; [|by eapply Hsame].
  destruct (au_session_token (gw_auth g)) as [token|] eqn:Et; [|by eapply Hsame].
  destruct (env_in_time (cx_env ctx)); [|by eapply Hsame].
  apply io_bind_inv in Hx as (r & g2 & Hr & Hx). apply io_ret_inv in Hx as [<- <-].
  unfold on_session_tokens in Hr. cbn [gw_tokens gw_store gw_rooms gw_auth gw_out] in Hr.
  destruct (tok_resolve _ _ _) as [o t] eqn:Er.
  apply tok_resolve_spec in Er as [-> Hl]; [|done]. injection Hr as <- <-.
  split; [by unfold only_out|]. split; [done|]. intros Hb. exists p, token. split; [done|]. split; [done|].
  destruct o as [[i|]|e]; try done. b2p. subst i. by rewrite <- (Hl _ eq_refl).
Qed.

(* ------------------------------------------------------------------ *)
(** ** Admission is guarded *)

(** A connection that was unbound is now bound to the player of a live token. *)
Definition newly_bound (ctx : ConnContext) g g' : Prop :=
  exists token p pl, authentic g (env_instant (cx_env ctx)) token p pl /\
    gw_auth g' = bound g p pl token.

Record guarded (ctx : ConnContext) (go : bool) g g' : Prop := mkGuarded {
  gd_tokens : gw_tokens g' = gw_tokens g;
  gd_wf : repo_wf (gw_store g');
  gd_identity : is_authenticated g = true ->
    au_player (gw_auth g') = au_player (gw_auth g) /\
    au_session_token (gw_auth g') = au_session_token (gw_auth g);
  gd_bound : is_authenticated g = false -> gw_auth g' = gw_auth g \/ newly_bound ctx g g';
  gd_rooms : session_live ctx g \/
    gw_rooms g' = gw_rooms g /\ au_current_room (gw_auth g') = au_current_room (gw_auth g);
  gd_dead : is_authenticated g = true -> go = true -> session_live ctx g
}.

Lemma guarded_out ctx (go : bool) g g' :
  repo_wf (gw_store g) -> only_out g g' -> (is_authenticated g = true -> go = true -> session_live ctx g) ->
  guarded ctx go g g'.
Proof.
  intros Hwf (Hs & Ht & Hr & Ha) Hgo. constructor; rewrite ?Hs, ?Ht, ?Hr, ?Ha; auto.
Qed.

(** Sending afterwards does not matter. *)
Lemma guarded_then_out ctx go go' g g1 g' :
  guarded ctx go g g1 -> only_out g1 g' -> (is_authenticated g = true -> session_live ctx g) ->
  guarded ctx go' g g'.
Proof.
  intros [] (Hs & Ht & Hr & Ha) Hl. unfold newly_bound in *.
  constructor; unfold newly_bound; rewrite ?Hs, ?Ht, ?Hr, ?Ha; auto.
Qed.

Lemma served_guarded ctx m g r g' :
  repo_wf (gw_store g) -> tok_wf (env_instant (cx_env ctx)) (gw_tokens g) ->
  (is_authenticated g = true -> session_live ctx g /\ forall b, m <> Bind b) ->
  (is_authenticated g = false -> exists b, m = Bind b) ->
  served rooms_config ctx m g = (r, g') -> guarded ctx true g g'.
Proof.
  intros Hwf Htw Hl Hb Hx. destruct (is_authenticated g) eqn:Ha.
  - destruct (Hl eq_refl) as [Hlive Hnb]. apply served_keeps in Hx; [|done].
    destruct Hx. constructor; auto. rewrite Ha. done.
  - destruct (Hb eq_refl) as [b ->]. cbn [served] in Hx. unfold is_authenticated in Ha.
    destruct (au_player (gw_auth g)) eqn:Hn; [done|].
    apply handle_bind_spec in Hx as (Hr & Ht & _ & Hwf' & _ & Hpost); try done.
    assert (Hauth : gw_auth g' = gw_auth g \/ newly_bound ctx g g').
    { unfold bind_post in Hpost. destruct r as [[m|]|e]; [|done|auto].
      destruct Hpost as [(p & pl & _ & Hau & Hb' & _)|[(? & _)|(? & _)]]; auto.
      right. exists (trim (pb.bind_token b)), p, pl. done. }
    constructor; auto; unfold is_authenticated; rewrite ?Hn; try done.
    right. split; [done|]. destruct Hauth as [->|(tk & p & pl & _ & ->)]; done.
Qed.

Lemma in_opcode_bind (f : Frame) m :
  codec_decode (Codec := GameCodec) f = Ok m ->
  (in_opcode m =? OP_C2S_BIND) = true <-> exists b, m = Bind b.
Proof.
  intros Hd. split.
  - intros Hop. destruct m; try done; [eauto|]. apply decode_unknown in Hd.
    cbn [in_opcode] in Hop. b2p. subst op. set_solver.
  - by intros [b ->].
Qed.

(** Answering a dispatched message. *)
Lemma send_outcome_only_out (o : result (option OutboundMessage) ProtocolError) g (go : bool) g' :
  match o with
  | Ok (Some reply) => let* r := ctx_try_send reply in io_ret (is_ok r)
  | Ok None => io_ret true
  | Err err =>
      let* r := ctx_try_send (app_error_notification (Internal (ProtocolError_to_string err))) in
      io_ret (is_ok r)
  end g = (go, g') -> only_out g g'.
Proof.
  intros Hx. destruct o as [[m'|]|e]; [|apply io_ret_inv in Hx as [_ <-]; apply only_out_refl|];
    apply io_bind_inv in Hx as (x & g2 & Hsend & Hx); apply io_ret_inv in Hx as [_ <-];
    by eapply try_send_only_out.
Qed.

Lemma decode_bind_opcode (f : Frame) b :
  codec_decode (Codec := GameCodec) f = Ok (Bind b) -> opcode f = OP_C2S_BIND.
Proof.
  cbn [codec_decode GameCodec]. unfold decode_inbound. case_match; [by b2p|].
  repeat (case_match; [destruct (pdecode _); simpl; congruence|]). done.
Qed.

Lemma admit_message_spec ctx f g go g' :
  repo_wf (gw_store g) -> tok_wf (env_instant (cx_env ctx)) (gw_tokens g) ->
  admit_message ctx f g = (go, g') ->
  guarded ctx go g g' /\
  (is_authenticated g = false -> go = true -> opcode f = OP_C2S_BIND).
Proof.
  intros Hwf Htw Hx. unfold admit_message in Hx.
  destruct (codec_decode f) as [m|err] eqn:Hd.
  2: { apply notify_only_out in Hx as [-> Ho]. split; [|done]. by apply guarded_out. }
  cbv zeta in Hx. pose proof (in_opcode_bind f m Hd) as Hbind.
  destruct (is_authenticated g) eqn:Ha; cbn [negb andb] in Hx.
  - split; [|done]. apply io_bind_inv in Hx as (valid & g1 & Hv & Hx).
    apply validate_session_spec in Hv as ((Hs & Ht & Hr & Hau) & Hout & Hlive); [|done].
    destruct valid; cbn [negb] in Hx.
    2: { apply notify_only_out in Hx as [-> (Hs' & Ht' & Hr' & Ha')]. apply guarded_out; [done| |done].
         unfold only_out. split_and!; congruence. }
    specialize (Hlive eq_refl). assert (Hg1 : g1 = g).
    { destruct g, g1. cbn in *. congruence. }
    subst g1. destruct (in_opcode m =? OP_C2S_BIND) eqn:Eb.
    { apply notify_only_out in Hx as [-> Ho]. by apply guarded_out. }
    apply io_bind_inv in Hx as (o & g1 & Hserved & Hx).
    rewrite (dispatch_served _ ctx f m) in Hserved by done.
    apply served_guarded in Hserved; [|done|done| |congruence].
    2: { intros _. split; [done|]. intros b ->. by destruct (proj2 Hbind (ex_intro _ b eq_refl)). }
    apply send_outcome_only_out in Hx.
    by eapply guarded_then_out.
  - destruct (in_opcode m =? OP_C2S_BIND) eqn:Eb; cbn [negb] in Hx.
    2: { apply notify_only_out in Hx as [-> Ho]. split; [|done]. by apply guarded_out. }
    split; [|intros _ _; destruct (proj1 Hbind eq_refl) as [b ->]; by eapply decode_bind_opcode].
    apply io_bind_inv in Hx as (valid & g1 & Hv & Hx). apply io_ret_inv in Hv as [<- <-].
    apply io_bind_inv in Hx as (o & g1 & Hserved & Hx).
    rewrite (dispatch_served _ ctx f m) in Hserved by done.
    apply served_guarded in Hserved; [|done|done|congruence|by intros _; apply Hbind].
    apply send_outcome_only_out in Hx.
    eapply guarded_then_out; [done|done|congruence].
Qed.

Lemma admit_frame_spec ctx now f bucket g go bucket' g' :
  repo_wf (gw_store g) -> tok_wf (env_instant (cx_env ctx)) (gw_tokens g) ->
  admit_frame ctx now f (bucket, g) = (go, (bucket', g')) ->
  guarded ctx go g g' /\ (is_authenticated g = false -> go = true -> opcode f = OP_C2S_BIND).
Proof.
  intros Hwf Htw Hx. unfold admit_frame in Hx. destruct (rate_check now bucket) as [[] bk].
  - destruct (admit_message ctx f g) as [b g1] eqn:Em. injection Hx as <- <- <-.
    by apply admit_message_spec in Em.
  - destruct (notify _ _ _ g) as [b g1] eqn:En. injection Hx as <- <- <-.
    apply notify_only_out in En as [-> Ho]. split; [|done]. by apply guarded_out.
Qed.

(** C1: Nothing a client sends gets past the authentication gate.  Whatever the frame
    and the rate limiter say, handling it changes rooms or the connection's current
    room only if the token the connection was bound with is still live for its player;
    a bound connection keeps its player and token and is dropped once that token is
    dead; an unbound connection becomes bound only to the player of a live token, and
    is dropped if the frame is anything but a bind request.  Tokens never change. *)
Theorem frame_admission_is_guarded (ctx : ConnContext) (now : Z) (f : Frame)
  (bucket bucket' : option TokenBucket) (g g' : Gw) (go : bool)
  (Hwf : repo_wf (gw_store g)) (Htok : tok_wf (env_instant (cx_env ctx)) (gw_tokens g))
  (Hx : admit_frame ctx now f (bucket, g) = (go, (bucket', g'))) :
  guarded ctx go g g' /\ (is_authenticated g = false -> opcode f <> OP_C2S_BIND -> go = false).
Proof.
  apply admit_frame_spec in Hx as [Hg Hop]; try done. split; [done|].
  intros Ha Hne. destruct go; [|done]. by destruct Hne; apply Hop.
Qed.

(* ------------------------------------------------------------------ *)
(** ** The loop *)

Section Loop.
Variables (conn_id ip sink : Z) (heartbeat_timeout admission_deadline : Z).
Abbreviation turn := (read_turn conn_id ip sink heartbeat_timeout admission_deadline).
Abbreviation deadline := (turn_deadline heartbeat_timeout admission_deadline).

(** No connection outlives its deadline: a turn of the read loop that wakes at or
    after it ends the connection, whatever else is ready, be it a frame.  The deadline
    is the admission's, fixed when the connection was accepted, as long as the
    connection is unbound, and one heartbeat timeout after the start of the turn
    afterwards. *)
Theorem deadline_ends_connection (t : Turn) (l : Loop)
  (Hlate : deadline t l <= tn_wake t) : fst (turn t l) = LReturn.
Proof.
  unfold read_turn, say_and_return. apply Z.leb_le in Hlate.
  repeat (case_match; try done); unfold on_frame, say_and_return, turn_deadline in *;
    cbn [lp_gw] in *; congruence || by rewrite Hlate.
Qed.

Definition loop_inv (l : Loop) : Prop :=
  repo_wf (gw_store (lp_gw l)) /\
  lp_permit l = if is_authenticated (lp_gw l) then None else Some ip.

(** What one completed turn does to the connection's identity and its permit. *)
Lemma turn_continues t l l' :
  loop_inv l -> tok_wf (env_instant (tn_env t)) (gw_tokens (lp_gw l)) -> turn t l = (LContinue, l') ->
  loop_inv l' /\
  (is_authenticated (lp_gw l) = true ->
    au_player (gw_auth (lp_gw l')) = au_player (gw_auth (lp_gw l)) /\
    au_session_token (gw_auth (lp_gw l')) = au_session_token (gw_auth (lp_gw l))) /\
  lp_gate l' = (if is_authenticated (lp_gw l) then lp_gate l
                else if is_authenticated (lp_gw l') then snd (release ip (lp_gate l))
                else lp_gate l).
Proof.
  intros (Hwf & Hpm) Htw Hx. unfold read_turn, say_and_return in Hx.
  destruct (ob_is_closed _); [done|]. destruct (sink_failed _ _); [done|].
  destruct (tn_shutdown t); [done|].
  destruct (tn_frame t) as [[[f|]|e]|]; [|done|by destruct (is_disconnect e)|by destruct (_ <=? _)].
  unfold on_frame, say_and_return in Hx. cbn [lp_gw lp_session lp_bucket lp_permit lp_gate] in Hx.
  destruct (_ <=? _); [done|]. destruct (_ && _); [done|].
  destruct (admit_frame _ _ _ _) as [go [bk g']] eqn:Ea. apply admit_frame_spec in Ea as [Hg _]; try done.
  destruct go; [|done]. injection Hx as <-. destruct Hg as [Ht Hwf' Hid Hb _ _].
  destruct (is_authenticated (lp_gw l)) eqn:Ea.
  - destruct (Hid eq_refl) as [Hpl Htk]. assert (Ha' : is_authenticated g' = true).
    { unfold is_authenticated in *. by rewrite Hpl. }
    rewrite Ha'. unfold take_permit. cbn [lp_permit]. rewrite Hpm. cbn [lp_gw lp_permit lp_gate].
    unfold loop_inv. cbn [lp_gw lp_permit]. rewrite Ha'. done.
  - destruct (is_authenticated g') eqn:Ea'; unfold take_permit; cbn [lp_permit]; rewrite ?Hpm;
      cbn [lp_gw lp_permit lp_gate lp_bucket lp_session]; unfold loop_inv;
      cbn [lp_gw lp_permit lp_gate]; rewrite ?Ea'; done.
Qed.

(** The connection among the other tasks. *)
Inductive loop_step : Loop -> Loop -> Prop :=
| loop_turn t l l' :
    tok_wf (env_instant (tn_env t)) (gw_tokens (lp_gw l)) -> turn t l = (LContinue, l') ->
    loop_step l l'
| loop_others l g gate :
    gw_auth g = gw_auth (lp_gw l) -> repo_wf (gw_store g) ->
    loop_step l (mkLoop g (lp_session l) (lp_bucket l) (lp_permit l) gate).

Lemma loop_step_inv l l' :
  loop_inv l -> loop_step l l' ->
  loop_inv l' /\
  (is_authenticated (lp_gw l) = true ->
    au_player (gw_auth (lp_gw l')) = au_player (gw_auth (lp_gw l)) /\
    au_session_token (gw_auth (lp_gw l')) = au_session_token (gw_auth (lp_gw l))).
Proof.
  intros Hinv Hs. destruct Hs as [t l1 l2 Htw Ht|l1 g gate Ha Hwf].
  - destruct (turn_continues t l1 l2 Hinv Htw Ht) as (? & ? & _). split; assumption.
  - destruct Hinv as (_ & Hp). unfold loop_inv, is_authenticated. cbn [lp_gw lp_permit].
    rewrite Ha. done.
Qed.

Lemma loop_run l l' :
  loop_inv l -> star loop_step l l' ->
  loop_inv l' /\
  forall p, au_player (gw_auth (lp_gw l)) = Some p ->
    au_player (gw_auth (lp_gw l')) = Some p /\
    au_session_token (gw_auth (lp_gw l')) = au_session_token (gw_auth (lp_gw l)).
Proof.
  intros Hinv Hrun. induction Hrun as [|l1 l2 Hrun [Hi Hid] Hs]; [done|].
  apply loop_step_inv in Hs as [Hi2 Hid2]; [|done]. split; [done|].
  intros p Hp. destruct (Hid p Hp) as [Hp1 Ht1]. destruct Hid2 as [Hp2 Ht2].
  { unfold is_authenticated. by rewrite Hp1. }
  split; congruence.
Qed.

(** A connection has one identity and pays for its anonymity.  From its admission
    with a permit, through any turns of its loop and anything the other tasks do, it
    holds the permit for its address exactly while it is unbound, and from the moment
    it is bound its player and its token never change. *)
Theorem connection_identity_and_permit (l0 l1 l2 : Loop)
  (Hwf : repo_wf (gw_store (lp_gw l0)))
  (Hnew : gw_auth (lp_gw l0) = auth_default) (Hpermit : lp_permit l0 = Some ip)
  (Hrun : star loop_step l0 l1) (Hlater : star loop_step l1 l2) :
  lp_permit l1 = (if is_authenticated (lp_gw l1) then None else Some ip) /\
  forall p, au_player (gw_auth (lp_gw l1)) = Some p ->
    au_player (gw_auth (lp_gw l2)) = Some p /\
    au_session_token (gw_auth (lp_gw l2)) = au_session_token (gw_auth (lp_gw l1)).
Proof.
  assert (Hinv : loop_inv l0).
  { unfold loop_inv, is_authenticated. by rewrite Hnew. }
  apply loop_run in Hrun as [Hinv1 _]; [|done]. split; [apply Hinv1|].
  by apply loop_run in Hlater as [_ ?].
Qed.

End Loop.

(* ------------------------------------------------------------------ *)
(** ** Relaying room events *)

Definition queued g : list Frame := items (ob_tx (gw_out g)).

Definition out_frame (m : OutboundMessage) : Frame :=
  match codec_encode (Codec := GameCodec) m with Ok f => f | Err _ => frame_new 0 [] end.
Definition event_frame (e : RoomEvent) : Frame := out_frame (room_event_message e).
Definition expired_frame : Frame :=
  out_frame (error_notification ERR_NOT_AUTHENTICATED (lit "会话无效或已过期")).

Lemma encode_out m : codec_encode (Codec := GameCodec) m = Ok (out_frame m).
Proof. unfold out_frame. by destruct m. Qed.

(** One sent frame, or a closed queue. *)
Lemma send_out f g r g' :
  on_outbound (try_send_frame f) g = (r, g') ->
  only_out g g' /\
  ((r = Ok tt /\ queued g' = queued g ++ [f]) \/
   (is_ok r = false /\ queued g' = queued g /\ ob_is_closed (gw_out g') = true)).
Proof.
  unfold on_outbound. destruct (try_send_frame f (gw_out g)) as [r0 o] eqn:Es. intros [= <- <-].
  split; [by unfold only_out|]. unfold queued, ob_is_closed. cbn [gw_out].
  apply try_send_frame_cases in Es as [(-> & Hs)|[(-> & _ & _ & ->)|(-> & Hc & ->)]].
  - left. split; [done|]. apply Hs.
  - right. cbn. by rewrite orb_true_r.
  - right. by split_and!.
Qed.

Definition env_ctx (ctx : ConnContext) (env : Env) : ConnContext :=
  mkCtx (cx_conn_id ctx) (cx_peer_ip ctx) (cx_room_tx ctx) env.

(** The outcome of a session check depends on the identity and the tokens alone. *)
Lemma validate_only_out ctx g g' :
  only_out g g' -> fst (validate_session ctx g') = fst (validate_session ctx g).
Proof.
  intros (Hs & Ht & Hr & Ha). unfold validate_session, io_bind, with_auth. rewrite Ha.
  destruct (au_player (gw_auth g)); [|done]. destruct (au_session_token (gw_auth g)); [|done].
  destruct (env_in_time _); [|done]. unfold on_session_tokens. cbn [gw_tokens]. rewrite Ht.
  by destruct (tok_resolve _ _ _).
Qed.

Lemma translate_spec ctx e g b g' :
  tok_wf (env_instant (cx_env ctx)) (gw_tokens g) -> translate ctx e g = (b, g') ->
  only_out g g' /\
  if b then session_live ctx g /\ queued g' = queued g ++ [event_frame e]
  else (fst (validate_session ctx g) = false \/ ob_is_closed (gw_out g') = true) /\
       (queued g' = queued g \/ queued g' = queued g ++ [expired_frame]).
Proof.
  intros Hwf Hx. unfold translate in Hx. apply io_bind_inv in Hx as (v & g1 & Hv & Hx).
  pose proof (validate_session_spec _ _ _ _ Hwf Hv) as ((Hs & Ht & Hr & Ha) & Ho & Hlive).
  assert (Hg1 : g1 = g) by (destruct g, g1; cbn in *; congruence). subst g1.
  destruct v; cbn [negb] in Hx.
  - rewrite encode_out in Hx. apply io_bind_inv in Hx as (r & g2 & Hs2 & Hx).
    apply io_ret_inv in Hx as [<- <-]. apply send_out in Hs2 as [Hoo [(-> & Hq)|(-> & Hq & Hc)]].
    + split; [done|]. cbn [is_ok]. auto.
    + split; [done|]. auto.
  - unfold notify, ctx_try_send in Hx. apply io_bind_inv in Hx as (r & g2 & Hs2 & Hx).
    apply io_ret_inv in Hx as [<- <-]. rewrite encode_out in Hs2.
    apply io_try_inv in Hs2 as [(f & g3 & Hf & Hs2)|(? & Hf & _)]; [|done].
    unfold io_lift in Hf. apply io_ret_inv in Hf as [[= <-] <-].
    apply io_bind_inv in Hs2 as (r2 & g4 & Hs2 & Hx). apply io_ret_inv in Hx as [_ <-].
    rewrite Hv. apply send_out in Hs2 as [Hoo [(_ & Hq)|(_ & Hq & _)]]; auto.
Qed.

Lemma only_out_trans g1 g2 g3 : only_out g1 g2 -> only_out g2 g3 -> only_out g1 g3.
Proof. unfold only_out. intros (? & ? & ? & ?) (? & ? & ? & ?). split_and!; congruence. Qed.

Lemma session_live_only_out ctx g g' : only_out g g' -> session_live ctx g' -> session_live ctx g.
Proof. unfold session_live. by intros (_ & -> & _ & ->). Qed.

(** C36: Room events are relayed in order, without gaps and only to live sessions: of the
    events received, a prefix was put on the connection's queue, frame by frame in the
    order of the room, each while the session was live; nothing else was added but one
    closing notice.  The relay stops early only when a session check failed or the
    queue is closed (a full queue closes it). *)
Theorem relay_in_order (ctx : ConnContext) (evs : list (Env * RoomEvent)) (g g' : Gw) (n : nat)
  (Htok : Forall (fun ev => tok_wf (env_instant (fst ev)) (gw_tokens g)) evs)
  (Hx : translator ctx evs g = (n, g')) :
  (n <= length evs)%nat /\ only_out g g' /\
  Forall (fun ev => session_live (env_ctx ctx (fst ev)) g) (take n evs) /\
  (exists notice, queued g' = queued g ++ map (fun ev => event_frame (snd ev)) (take n evs) ++ notice /\
     (notice = [] \/ notice = [expired_frame] /\ (n < length evs)%nat)) /\
  (forall ev, evs !! n = Some ev ->
     fst (validate_session (env_ctx ctx (fst ev)) g) = false \/ ob_is_closed (gw_out g') = true).
Proof.
  revert g n Htok Hx. induction evs as [|[env e] evs IH]; intros g n Htok Hx; cbn [translator] in Hx.
  { apply io_ret_inv in Hx as [<- <-]. split_and!; try done. exists []. rewrite app_nil_r. auto. }
  apply io_bind_inv in Hx as (go & g1 & Ht & Hx). fold (env_ctx ctx env) in Ht.
  apply Forall_cons in Htok as [Htok Hrest].
  apply translate_spec in Ht as [Ho Hb]; [|done]. destruct go.
  - destruct Hb as [Hl Hq]. apply io_bind_inv in Hx as (k & g2 & Hrec & Hx).
    apply io_ret_inv in Hx as [<- <-].
    apply IH in Hrec as (Hk & Ho2 & Hlive & (notice & Hq2 & Hn) & Hstop).
    2: { destruct Ho as (_ & -> & _). done. }
    split; [simpl; lia|]. split; [by eapply only_out_trans|]. split; [|split].
    + constructor; [done|]. eapply Forall_impl; [exact Hlive|]. intros ev. by apply session_live_only_out.
    + exists notice. rewrite Hq2, Hq. simpl. rewrite <- app_assoc. split; [done|].
      destruct Hn as [->|[-> ?]]; [auto|]. right. split; [done|lia].
    + intros ev Hev. simpl in Hev. apply Hstop in Hev. by rewrite (validate_only_out _ g g1) in Hev.
  - apply io_ret_inv in Hx as [<- <-]. destruct Hb as [Hwhy Hq].
    split; [simpl; lia|]. split; [done|]. split; [constructor|]. split.
    + destruct Hq as [->| ->]; [exists []; rewrite app_nil_r; auto|exists [expired_frame]].
      split; [done|]. right. split; [done|]. simpl. lia.
    + intros ev [= <-]. done.
Qed.

End ConnLoop.

(* ------------------------------------------------------------------ *)
(** ** A concrete connection *)

Module LoopDemo.

#[local] Existing Instance log_events.
#[local] Existing Instance plain_hasher.
#[local] Existing Instance log_audit.
#[local] Existing Instance simple_prost.
#[local] Existing Instance hex_uuid.
Import GwDemo.

Definition frame_of (m : InboundMessage) : Frame :=
  match codec_encode (Codec := ClientCodec) m with Ok f => f | Err _ => frame_new 0 [] end.
Definition bind_frame : Frame := frame_of (Bind bind_req).
Definition join_frame : Frame := frame_of (JoinRoom (pb.mkJoinRoomRequest None)).
Definition bucket : option TokenBucket := bucket_new 0 (mkRate true 100 10).
Definition DemoLoop : Type := @Loop queue Memory.Store MemTokens.State (list DomainEvent).
Definition loop0 : DemoLoop := mkLoop g0 (Session.new 5 0) bucket (Some 1) (snd (permit 1 (gate_new 5))).
Definition turn_of (f : Frame) : Turn := mkTurn 10 20 false (Some (Ok (Some f))) false 15 (cx_env ctx).
Definition step_of (f : Frame) (l : DemoLoop) : loop_status * DemoLoop :=
  read_turn rooms_cfg 1000 1 77 1000 500 (turn_of f) l.
Definition loop1 : DemoLoop := snd (step_of bind_frame loop0).
Definition loop2 : DemoLoop := snd (step_of join_frame loop1).

(** After binding and joining, Alice is in the room the service opened for her. *)
Example bind_then_join :
  fst (step_of bind_frame loop0) = LContinue /\ fst (step_of join_frame loop1) = LContinue /\
  au_current_room (gw_auth (lp_gw loop2)) = Some 300 /\
  unauth_count (lp_gate loop0) 1 = 1%nat /\ unauth_count (lp_gate loop2) 1 = 0%nat.
Proof. vm_compute. done. Qed.

Lemma frame_admission_is_guarded_witness :
  let out := admit_frame rooms_cfg ctx 15 join_frame (bucket, g0) in
  fst out = false /\ gw_rooms (snd (snd out)) = gw_rooms g0.
Proof.
  intros out.
  assert (Hx : admit_frame rooms_cfg ctx 15 join_frame (bucket, g0)
               = (fst out, (fst (snd out), snd (snd out)))) by (by rewrite <- !surjective_pairing).
  destruct (frame_admission_is_guarded rooms_cfg ctx 15 join_frame bucket (fst (snd out)) g0
              (snd (snd out)) (fst out) (c_wf _ _ w2_consistent) (w2_tokens_wf _) Hx) as [Hg Hno].
  split; [apply Hno; [reflexivity|vm_compute; discriminate]|].
  destruct (gd_rooms _ _ _ _ Hg) as [(p & tk & Hp & _)|[Hr _]]; [vm_compute in Hp; discriminate|exact Hr].
Defined.

Lemma deadline_ends_connection_witness :
  fst (read_turn rooms_cfg 1000 1 77 1000 500
         (mkTurn 10 500 false (Some (Ok (Some bind_frame))) false 15 (cx_env ctx)) loop0) = LReturn.
Proof.
  apply (deadline_ends_connection rooms_cfg 1000 1 77 1000 500).
  vm_compute. discriminate.
Defined.

Lemma connection_identity_and_permit_witness :
  lp_permit loop1 = None /\
  au_player (gw_auth (lp_gw loop2)) = Some (mkAuthed 20 (lit "爱丽丝")).
Proof.
  assert (Hs1 : star (loop_step rooms_cfg 1000 1 77 1000 500) loop0 loop1).
  { eapply star_snoc; [apply star_refl|]. apply (loop_turn _ _ _ _ _ _ (turn_of bind_frame)).
    - apply w2_tokens_wf.
    - vm_compute. reflexivity. }
  assert (Hs2 : star (loop_step rooms_cfg 1000 1 77 1000 500) loop1 loop2).
  { eapply star_snoc; [apply star_refl|]. apply (loop_turn _ _ _ _ _ _ (turn_of join_frame)).
    - replace (gw_tokens (lp_gw loop1)) with (gw_tokens (lp_gw loop0)) by (vm_compute; reflexivity).
      apply w2_tokens_wf.
    - vm_compute. reflexivity. }
  destruct (connection_identity_and_permit rooms_cfg 1000 1 77 1000 500 loop0 loop1 loop2
              (c_wf _ _ w2_consistent) eq_refl eq_refl Hs1 Hs2) as [Hp Hid].
  split; [rewrite Hp; vm_compute; reflexivity|].
  apply (Hid (mkAuthed 20 (lit "爱丽丝"))). vm_compute. reflexivity.
Defined.

Definition ev1 : Env * RoomEvent := (cx_env ctx, EvChat 300 20 (lit "爱丽丝") (lit "hi")).
Definition ev2 : Env * RoomEvent := (mkEnv 0 0 70000000000 0 true, EvClosed 300 (lit "bye")).

(** The second event comes after the token expired. *)
Lemma relay_in_order_witness :
  let out := translator ctx [ev1; ev2] bound_gw in
  fst out = 1%nat /\
  exists notice, queued (snd out) = [event_frame (snd ev1)] ++ notice /\
    (notice = [] \/ notice = [expired_frame] /\ (1 < 2)%nat).
Proof.
  intros out. assert (Hn : fst out = 1%nat) by (vm_compute; reflexivity). split; [exact Hn|].
  assert (Hx : translator ctx [ev1; ev2] bound_gw = (1%nat, snd out)).
  { rewrite <- Hn. apply surjective_pairing. }
  assert (Hwf : Forall (fun ev : Env * RoomEvent => tok_wf (env_instant (fst ev)) (gw_tokens bound_gw)) [ev1; ev2]).
  { replace (gw_tokens bound_gw) with (gw_tokens g0) by (vm_compute; reflexivity).
    apply Forall_true. intros ev. apply w2_tokens_wf. }
  exact (proj1 (proj2 (proj2 (proj2 (relay_in_order ctx [ev1; ev2] bound_gw (snd out) 1 Hwf Hx))))).
Defined.

End LoopDemo.
