(* ===== verification/Lifecycle.v ===== *)
(** Opening and closing connections ([gateway/src/tcp]: [connections.rs],
    [lifecycle.rs], [Admission] and [handle_admitted_connection] of [handler.rs]).

    The registry maps a connection to its sender, or to nothing once it drains.
    The guard of a connection takes it off the registry and the gauge when it is
    dropped.  If the task of a bound connection is aborted before its room clean-up,
    the guard instead spawns a task that cleans up and then does so: until that task
    has run, the connection is registered and counted although its own task is gone. *)
From S2P Require Import Prelude Text Tokio Values Room Session Frame Connection Protocol App.
From S2P Require Import RoomActor RoomService AuthGate Gateway.
From Stdlib Require Import Strings.String.
Open Scope Z_scope.
Open Scope list_scope.
Abbreviation length := Datatypes.length.

Section Lifecycle.
Context {Q : Type -> Type} `{HQ : Mpsc Q} {E : Type} `{HE : EventPublisher E} `{HP : Prost}.

Abbreviation OutboundSender := (@OutboundSender Q).

(* ------------------------------------------------------------------ *)
(** ** The registry ([connections.rs]) *)

Abbreviation ConnectionRegistry := (gmap Z (option OutboundSender)).

Definition registry_new : ConnectionRegistry := ∅.

Definition register (conn_id : Z) (sender : OutboundSender) : io ConnectionRegistry unit :=
  fun conns => (tt, <[conn_id := Some sender]> conns).

Definition remove (conn_id : Z) : io ConnectionRegistry (option OutboundSender) :=
  fun conns => (mjoin (conns !! conn_id), delete conn_id conns).

(** [if let Some(sender) = conns.get_mut(&id) { sender.take(); }] *)
Definition begin_drain (conn_id : Z) : io ConnectionRegistry unit :=
  fun conns => (tt, alter (fun _ => None) conn_id conns).

Definition active_count (conns : ConnectionRegistry) : nat := size conns.

(** What [try_send_frame] leaves of a registered sender, and whether it succeeded. *)
Definition offer (frame : Frame) (o : option OutboundSender) : option OutboundSender :=
  (fun s => snd (try_send_frame frame s)) <$> o.
Definition takes (frame : Frame) (o : option OutboundSender) : bool :=
  match o with Some s => is_ok (fst (try_send_frame frame s)) | None => false end.

(** [ConnectionRegistry::broadcast]: the number of senders that took the frame. *)
Definition broadcast_all (message : OutboundMessage) : io ConnectionRegistry nat :=
  fun conns =>
    match codec_encode (Codec := GameCodec) message with
    | Err _ => (0%nat, conns)
    | Ok frame =>
        (size (filter (fun kv : Z * option OutboundSender => takes frame (snd kv) = true) conns),
         offer frame <$> conns)
    end.

(** [TcpGateway::broadcast_shutdown] *)
Definition broadcast_shutdown (message : rstr) : io ConnectionRegistry nat :=
  broadcast_all (OShutdown (pb.mkServerShutdownNotice message)).

(* ------------------------------------------------------------------ *)
(** ** A connection's resources *)

(** The parts of the server a connection holds something of. *)
Record Srv := mkSrv {
  sv_rooms : @Rooms Q E; sv_conns : ConnectionRegistry; sv_gate : AuthGate; sv_gauge : Z
}.

Definition on_conns {X} (m : io ConnectionRegistry X) : io Srv X := fun s =>
  let '(x, c) := m (sv_conns s) in (x, mkSrv (sv_rooms s) c (sv_gate s) (sv_gauge s)).
Definition on_gate {X} (m : io AuthGate X) : io Srv X := fun s =>
  let '(x, g) := m (sv_gate s) in (x, mkSrv (sv_rooms s) (sv_conns s) g (sv_gauge s)).
Definition on_srv_rooms {X} (m : io (@Rooms Q E) X) : io Srv X := fun s =>
  let '(x, r) := m (sv_rooms s) in (x, mkSrv r (sv_conns s) (sv_gate s) (sv_gauge s)).
(** The gauge [longshipx_connections_active]. *)
Definition gauge_add (d : Z) : io Srv unit := fun s =>
  (tt, mkSrv (sv_rooms s) (sv_conns s) (sv_gate s) (sv_gauge s + d)).

(** [Admission]: the permit and the deadline of an accepted connection. *)
Record Admission := mkAdmission { ad_deadline : Z; ad_permit : option IpAddr }.

(** [Admission::acquire] at the instant [now]. *)
Definition admission_acquire (ip : IpAddr) (now timeout : Z) : io Srv (option Admission) :=
  let* p := on_gate (permit ip) in
  io_ret (match p with Some p => Some (mkAdmission (now + timeout) (Some p)) | None => None end).

(** Dropping an [Admission] drops its permit. *)
Definition drop_admission (a : Admission) : io Srv unit :=
  match ad_permit a with Some ip => on_gate (drop_permit ip) | None => io_ret tt end.

(** The first part of [handle_admitted_connection]. *)
Definition connection_open (conn_id : Z) (outbound : OutboundSender) : io Srv unit :=
  let* _ := gauge_add 1 in on_conns (register conn_id outbound).

(** [cleanup_room]: [leave_all] under a timeout; [rounds] is how many rooms were
    dealt with before it struck. *)
Definition cleanup_room (auth : AuthState) (rounds : nat) (now : DateTime) : io Srv unit :=
  match au_player auth with
  | None => io_ret tt
  | Some player =>
      let* _ := on_srv_rooms
        (let* hs := live_handles in
         leave_each (take rounds hs) (ap_player_id player) (lit "connection closed") now) in
      io_ret tt
  end.

Record ConnectionGuard := mkGuard { cg_conn_id : Z; cg_auth : AuthState; cg_cleaned : bool }.

Definition guard_cleanup (rounds : nat) (now : DateTime) (g : ConnectionGuard)
  : io Srv ConnectionGuard :=
  let* _ := cleanup_room (cg_auth g) rounds now in
  io_ret (mkGuard (cg_conn_id g) (cg_auth g) true).

(** The connection is taken off the registry and the gauge. *)
Definition guard_release (g : ConnectionGuard) : io Srv unit :=
  let* _ := on_conns (remove (cg_conn_id g)) in gauge_add (-1).

(** [Drop for ConnectionGuard], apart from the two aborted tasks: whether it spawned the
    task [spawned_cleanup]. *)
Definition guard_drop (g : ConnectionGuard) : io Srv bool :=
  let authenticated := match au_player (cg_auth g) with Some _ => true | None => false end in
  if negb (cg_cleaned g) && authenticated then io_ret true
  else let* _ := guard_release g in io_ret false.

(** The task that it spawns. *)
Definition spawned_cleanup (rounds : nat) (now : DateTime) (g : ConnectionGuard) : io Srv unit :=
  let* _ := cleanup_room (cg_auth g) rounds now in guard_release g.

(** The end of [handle_admitted_connection]. *)
Definition connection_close (rounds : nat) (now : DateTime) (g : ConnectionGuard) (a : Admission)
  : io Srv bool :=
  let* g' := guard_cleanup rounds now g in
  let* _ := on_conns (begin_drain (cg_conn_id g)) in
  let* _ := drop_admission a in
  guard_drop g'.

(** The task is aborted: its values are dropped, nothing else of it runs. *)
Definition connection_abort (g : ConnectionGuard) (a : Admission) : io Srv bool :=
  let* spawned := guard_drop g in
  let* _ := drop_admission a in
  io_ret spawned.

(* ------------------------------------------------------------------ *)
(** ** Broadcasting *)

Definition accepts (o : option OutboundSender) : Prop :=
  exists s, o = Some s /\ ob_is_closed s = false /\
    (length (items (ob_tx s)) < max_capacity (ob_tx s))%nat.

Lemma takes_spec frame o : takes frame o = true <-> accepts o.
Proof.
  unfold takes, accepts. destruct o as [s|]; [|split; [done|by intros (? & ? & _)]].
  destruct (try_send_frame frame s) as [r s'] eqn:Es.
  apply try_send_frame_cases in Es as [(-> & Hs)|[(-> & ? & ? & _)|(-> & ? & _)]]; cbn [fst is_ok].
  - split; [|done]. intros _. exists s. destruct Hs as (? & ? & _). done.
  - split; [done|]. intros (? & [= <-] & _ & ?). lia.
  - split; [done|]. intros (? & [= <-] & ? & _). congruence.
Qed.

(** A broadcast reaches exactly the connections that can take it: its result is the
    number of registered connections that are not draining, not closed and have room in
    their queue; each of these gets the frame once, at the end of its queue, and keeps
    its state otherwise; the queue of every other connection is unchanged, and one that
    was full is disconnected.  No connection appears or disappears. *)
Theorem broadcast_reaches_open_queues (message : OutboundMessage) (conns conns' : ConnectionRegistry)
  (n : nat) (Hx : broadcast_all message conns = (n, conns')) :
  dom conns' = dom conns /\
  (exists reached : gset Z, n = size reached /\
     forall i, i ∈ reached <-> exists o, conns !! i = Some o /\ accepts o) /\
  exists frame, codec_encode (Codec := GameCodec) message = Ok frame /\
    forall i s, conns !! i = Some (Some s) ->
      exists s', conns' !! i = Some (Some s') /\
        if takes frame (Some s)
        then items (ob_tx s') = items (ob_tx s) ++ [frame] /\ ob_is_closed s' = false
        else items (ob_tx s') = items (ob_tx s) /\ ob_is_closed s' = true.
Proof.
  unfold broadcast_all in Hx.
  assert (exists frame, codec_encode (Codec := GameCodec) message = Ok frame) as [frame Hf]
    by (destruct message; eexists; reflexivity).
  rewrite Hf in Hx. injection Hx as <- <-. split; [apply dom_fmap_L|]. split.
  - exists (dom (filter (fun kv : Z * option OutboundSender => takes frame (snd kv) = true) conns)).
    split; [by rewrite size_dom|]. intros i. rewrite elem_of_dom. split.
    + intros [o [Ho Ht]%map_lookup_filter_Some]. exists o. split; [done|]. by apply (takes_spec frame).
    + intros (o & Ho & Ha). exists o. apply map_lookup_filter_Some. split; [done|].
      by apply takes_spec.
  - exists frame. split; [done|]. intros i s Hi. rewrite lookup_fmap, Hi. eexists. split; [done|].
    unfold takes. destruct (try_send_frame frame s) as [r s'] eqn:Es. unfold ob_is_closed in *.
    apply try_send_frame_cases in Es as [(-> & Hs)|[(-> & Hc & _ & ->)|(-> & Hc & ->)]];
      cbn [fst snd is_ok].
    + destruct Hs as (Hc & _ & Hi' & _ & Hr & Hd). unfold ob_is_closed in Hc. by rewrite Hr, Hd.
    + cbn. by rewrite orb_true_r.
    + done.
Qed.

(* ------------------------------------------------------------------ *)
(** ** What a connection leaves behind *)

Variable owner : Z -> PlayerId.

Lemma cleanup_room_spec auth rounds now s x s' :
  rooms_inv owner (sv_rooms s) -> cleanup_room auth rounds now s = (x, s') ->
  rooms_inv owner (sv_rooms s') /\ sv_conns s' = sv_conns s /\ sv_gate s' = sv_gate s /\
  sv_gauge s' = sv_gauge s /\
  (forall p, au_player auth = Some p -> (size (registry (sv_rooms s)) <= rounds)%nat ->
     forall r, ~ in_room (sv_rooms s') r (ap_player_id p)).
Proof.
  intros Hinv Hx. unfold cleanup_room in Hx. destruct (au_player auth) as [p|].
  2: { apply io_ret_inv in Hx as [_ <-]. split_and!; done. }
  apply io_bind_inv in Hx as (res & s1 & Hr & Hx). apply io_ret_inv in Hx as [_ <-].
  unfold on_srv_rooms in Hr. destruct (io_bind _ _ _) as [res' w'] eqn:Eb.
  injection Hr as <- <-. cbn [sv_rooms sv_conns sv_gate sv_gauge].
  apply io_bind_inv in Eb as (hs & w1 & Hl & Eb). unfold live_handles in Hl. injection Hl as <- <-.
  apply (leave_each_spec owner) in Eb as (Hinv' & _ & Hsub & Hdone & _).
  2: { eapply rooms_inv_frame; [done|done|]. cbn [registry]. set_solver. }
  split_and!; try done. intros q [= <-] Hsz r Hin. pose proof Hin as [Hreg _]. apply (Hdone r); [|done].
  rewrite take_ge; [apply elem_of_elements; cbn [registry] in Hsub; set_solver|].
  etrans; [|exact Hsz].
  apply (subseteq_size (filter (fun r => handle_is_closed (sv_rooms s) r = false)
           (registry (sv_rooms s)))). set_solver.
Qed.

(** What is left of a connection [i] with admission [a] and identity [auth]. *)
Definition gone (i : Z) (a : Admission) (auth : AuthState) (rounds : nat) (s s' : Srv) : Prop :=
  sv_conns s' = delete i (sv_conns s) /\ sv_gauge s' = sv_gauge s - 1 /\
  sv_gate s' = match ad_permit a with Some ip => snd (release ip (sv_gate s)) | None => sv_gate s end /\
  rooms_inv owner (sv_rooms s') /\
  forall p, au_player auth = Some p -> (size (registry (sv_rooms s)) <= rounds)%nat ->
    forall r, ~ in_room (sv_rooms s') r (ap_player_id p).

Lemma drop_admission_spec a s x s' :
  drop_admission a s = (x, s') ->
  sv_rooms s' = sv_rooms s /\ sv_conns s' = sv_conns s /\ sv_gauge s' = sv_gauge s /\
  sv_gate s' = match ad_permit a with Some ip => snd (release ip (sv_gate s)) | None => sv_gate s end.
Proof.
  unfold drop_admission, on_gate, drop_permit. destruct (ad_permit a); [|by intros [= _ <-]].
  destruct (release _ _) eqn:Er. by intros [= _ <-].
Qed.

Lemma guard_release_spec g s x s' :
  guard_release g s = (x, s') ->
  sv_rooms s' = sv_rooms s /\ sv_conns s' = delete (cg_conn_id g) (sv_conns s) /\ sv_gate s' = sv_gate s /\
  sv_gauge s' = sv_gauge s - 1.
Proof. unfold guard_release, io_bind, on_conns, remove, gauge_add. by intros [= _ <-]. Qed.

(** The guard of a connection that is bound and has not been cleaned leaves the clean-up
    to a task of its own. *)
Definition leaves_cleanup (g : ConnectionGuard) : bool :=
  negb (cg_cleaned g) && bool_decide (is_Some (au_player (cg_auth g))).

Lemma guard_drop_spec g s o s' :
  guard_drop g s = (o, s') ->
  o = leaves_cleanup g /\ if o then s' = s else guard_release g s = (tt, s').
Proof.
  unfold guard_drop, leaves_cleanup. intros Hx.
  assert (Hb : (match au_player (cg_auth g) with Some _ => true | None => false end)
             = bool_decide (is_Some (au_player (cg_auth g)))).
  { destruct (au_player (cg_auth g)); [by rewrite bool_decide_true by eauto|].
    rewrite bool_decide_false; [done|by intros []]. }
  rewrite Hb in Hx. destruct (_ && _); [by injection Hx as <- <-|].
  apply io_bind_inv in Hx as ([] & s1 & Hr & Hx). by apply io_ret_inv in Hx as [<- <-].
Qed.

Lemma connection_close_spec rounds now g a s o s' :
  rooms_inv owner (sv_rooms s) -> connection_close rounds now g a s = (o, s') ->
  o = false /\ gone (cg_conn_id g) a (cg_auth g) rounds s s'.
Proof.
  intros Hinv Hx. unfold connection_close in Hx.
  apply io_bind_inv in Hx as (g1 & s1 & Hc & Hx). unfold guard_cleanup in Hc.
  apply io_bind_inv in Hc as (y & s2 & Hc & Hg). apply io_ret_inv in Hg as [<- <-].
  apply cleanup_room_spec in Hc as (Hinv1 & Hc1 & Hg1 & Hu1 & Hout); [|done].
  apply io_bind_inv in Hx as (z & s3 & Hb & Hx). unfold on_conns, begin_drain in Hb. injection Hb as _ <-.
  apply io_bind_inv in Hx as (u & s4 & Hd & Hx). apply drop_admission_spec in Hd as (Hr4 & Hc4 & Hu4 & Hg4).
  cbn [sv_rooms sv_conns sv_gate sv_gauge] in *.
  apply guard_drop_spec in Hx as [-> Hx]. split; [done|].
  apply guard_release_spec in Hx as (Hr5 & Hc5 & Hg5 & Hu5). unfold gone. cbn [cg_conn_id cg_auth] in *.
  rewrite Hr5, Hc5, Hg5, Hu5, Hr4, Hc4, Hu4, Hg4, Hc1, Hg1, Hu1. split_and!; try done.
  apply map_eq. intros j. destruct (decide (j = cg_conn_id g)) as [->|Hne].
  - by rewrite !lookup_delete_eq.
  - by rewrite !lookup_delete_ne, lookup_alter_ne.
Qed.

(** What is left of the server when the task of a connection was aborted and its clean-up
    is still to run: the permit is back, and nothing else has happened. *)
Definition abandoned (a : Admission) (s s' : Srv) : Prop :=
  sv_conns s' = sv_conns s /\ sv_gauge s' = sv_gauge s /\ sv_rooms s' = sv_rooms s /\
  sv_gate s' = match ad_permit a with Some ip => snd (release ip (sv_gate s)) | None => sv_gate s end.

Lemma connection_abort_spec rounds g a s o s' :
  rooms_inv owner (sv_rooms s) -> cg_cleaned g = false -> connection_abort g a s = (o, s') ->
  o = bool_decide (is_Some (au_player (cg_auth g))) /\
  if o then abandoned a s s' else gone (cg_conn_id g) a (cg_auth g) rounds s s'.
Proof.
  intros Hinv Hcl Hx. unfold connection_abort in Hx. apply io_bind_inv in Hx as (y & s1 & Hg & Hx).
  apply io_bind_inv in Hx as (z & s2 & Hd & Hx). apply io_ret_inv in Hx as [<- <-].
  apply drop_admission_spec in Hd as (Hr & Hc & Hu & Hgt).
  apply guard_drop_spec in Hg as [Ho Hg]. unfold leaves_cleanup in Ho. rewrite Hcl in Ho. cbn in Ho.
  split; [done|]. destruct y.
  - subst s1. by unfold abandoned.
  - apply guard_release_spec in Hg as (Hr1 & Hc1 & Hg1 & Hu1). unfold gone.
    rewrite Hr, Hc, Hu, Hgt, Hr1, Hc1, Hg1, Hu1. split_and!; try done.
    intros p Hp. symmetry in Ho. apply bool_decide_eq_false in Ho. destruct Ho. eauto.
Qed.

(** The spawned clean-up does the rest, whatever has happened since. *)
Lemma spawned_cleanup_spec rounds now g s x s' :
  rooms_inv owner (sv_rooms s) -> spawned_cleanup rounds now g s = (x, s') ->
  gone (cg_conn_id g) (mkAdmission 0 None) (cg_auth g) rounds s s'.
Proof.
  intros Hinv Hx. unfold spawned_cleanup in Hx. apply io_bind_inv in Hx as (y & s1 & Hc & Hx).
  apply cleanup_room_spec in Hc as (Hinv1 & Hc1 & Hg1 & Hu1 & Hout); [|done].
  apply guard_release_spec in Hx as (Hr & Hcn & Hg & Hu). unfold gone. cbn [ad_permit].
  by rewrite Hr, Hcn, Hg, Hu, Hc1, Hg1, Hu1.
Qed.

(** A connection leaves no trace, however it ends.  After the regular end of its
    task it is off the registry and off the gauge, a permit it still held is back with the
    gate, the other connections are registered as before, and (unless the clean-up ran into
    its timeout) its player is a member of no room.  When its task is aborted the permit is
    back at once; the rest has happened too unless the connection was bound, and then it
    happens when the task that the guard spawned runs, in whatever state that is. *)
Theorem connection_leaves_no_trace (rounds : nat) (now : DateTime) (g : ConnectionGuard)
  (a : Admission) (s : Srv)
  (Hinv : rooms_inv owner (sv_rooms s)) (Hfresh : cg_cleaned g = false) :
  (fst (connection_close rounds now g a s) = false /\
   gone (cg_conn_id g) a (cg_auth g) rounds s (snd (connection_close rounds now g a s))) /\
  let '(spawned, s1) := connection_abort g a s in
  spawned = bool_decide (is_Some (au_player (cg_auth g))) /\
  if spawned then
    abandoned a s s1 /\
    forall s2, rooms_inv owner (sv_rooms s2) ->
      gone (cg_conn_id g) (mkAdmission 0 None) (cg_auth g) rounds s2 (snd (spawned_cleanup rounds now g s2))
  else gone (cg_conn_id g) a (cg_auth g) rounds s s1.
Proof.
  split.
  - destruct (connection_close rounds now g a s) as [o s'] eqn:Ec. by eapply connection_close_spec.
  - destruct (connection_abort g a s) as [o s1] eqn:Ea.
    apply (connection_abort_spec rounds) in Ea as [Ho Ha]; [|done..]. split; [done|]. destruct o; [|done].
    split; [done|]. intros s2 H2. destruct (spawned_cleanup rounds now g s2) as [x s'] eqn:Es.
    by eapply spawned_cleanup_spec.
Qed.

(* ------------------------------------------------------------------ *)
(** ** All connections together *)

(** The server, the identifiers of the connections whose tasks exist, and of those whose
    spawned clean-ups are still to run. *)
Inductive srv_step : Srv * gset Z * gset Z -> Srv * gset Z * gset Z -> Prop :=
| srv_open i out s c d s' :
    i ∉ c ∪ d -> connection_open i out s = (tt, s') -> srv_step (s, c, d) (s', {[i]} ∪ c, d)
| srv_close rounds now g a s c d o s' :
    cg_conn_id g ∈ c -> connection_close rounds now g a s = (o, s') ->
    srv_step (s, c, d) (s', c ∖ {[cg_conn_id g]}, d)
| srv_abort g a s c d o s' :
    cg_conn_id g ∈ c -> cg_cleaned g = false -> connection_abort g a s = (o, s') ->
    srv_step (s, c, d) (s', c ∖ {[cg_conn_id g]}, if o : bool then {[cg_conn_id g]} ∪ d else d)
| srv_spawned rounds now g s c d s' :
    cg_conn_id g ∈ d -> spawned_cleanup rounds now g s = (tt, s') ->
    srv_step (s, c, d) (s', c, d ∖ {[cg_conn_id g]})
| srv_broadcast m s c d n s' :
    on_conns (broadcast_all m) s = (n, s') -> srv_step (s, c, d) (s', c, d)
| srv_rooms s c d r :
    rooms_inv owner r ->
    srv_step (s, c, d) (mkSrv r (sv_conns s) (sv_gate s) (sv_gauge s), c, d).

Definition srv_inv (x : Srv * gset Z * gset Z) : Prop :=
  let '(s, c, d) := x in
  rooms_inv owner (sv_rooms s) /\ c ## d /\ dom (sv_conns s) = c ∪ d /\
  sv_gauge s = Z.of_nat (size (c ∪ d)).

Lemma gone_inv i a auth rounds s s' c d c' d' :
  srv_inv (s, c, d) -> i ∈ c ∪ d -> c' ## d' -> c' ∪ d' = (c ∪ d) ∖ {[i]} ->
  gone i a auth rounds s s' -> srv_inv (s', c', d').
Proof.
  intros (Hr & _ & Hd & Hg) Hi Hdis He (Hc' & Hg' & _ & Hr' & _). unfold srv_inv.
  split; [done|]. split; [done|]. split; [by rewrite Hc', dom_delete_L, He, Hd|].
  rewrite Hg', Hg, He, (size_difference (c ∪ d) {[i]}), size_singleton by set_solver.
  assert (size (c ∪ d) <> 0%nat) by (apply size_non_empty_iff; set_solver). lia.
Qed.

Lemma srv_inv_step x y : srv_inv x -> srv_step x y -> srv_inv y.
Proof.
  intros Hinv Hs.
  destruct Hs as [i out s c d s' Hi Ho|rounds now g a s c d o s' Hi Hx|g a s c d o s' Hi Hcl Hx
                 |rounds now g s c d s' Hi Hx|m s c d n s' Hb|s c d r Hr];
    pose proof Hinv as (Hrm & Hdis & Hdom & Hg).
  - unfold connection_open, io_bind, gauge_add, on_conns, register in Ho. injection Ho as <-.
    unfold srv_inv. cbn. assert (({[i]} ∪ c) ∪ d = {[i]} ∪ (c ∪ d)) as -> by set_solver.
    split; [done|]. split; [set_solver|]. split; [rewrite dom_insert_L; set_solver|].
    rewrite size_union, size_singleton by set_solver. lia.
  - apply connection_close_spec in Hx as [_ Hx]; [|done].
    eapply gone_inv; [done| | | |exact Hx]; set_solver.
  - apply (connection_abort_spec 0) in Hx as [_ Hx]; [|done..]. destruct o.
    + destruct Hx as (Hc' & Hg' & Hr' & _). unfold srv_inv.
      assert ((c ∖ {[cg_conn_id g]}) ∪ ({[cg_conn_id g]} ∪ d) = c ∪ d) as ->.
      { apply set_eq. intros k. destruct (decide (k = cg_conn_id g)) as [->|]; set_solver. }
      rewrite Hc', Hg', Hr'. split; [done|]. split; [set_solver|done].
    + eapply gone_inv; [done| | | |exact Hx]; set_solver.
  - apply spawned_cleanup_spec in Hx; [|done]. eapply gone_inv; [done| | | |exact Hx]; set_solver.
  - unfold on_conns, broadcast_all in Hb. unfold srv_inv.
    destruct (codec_encode m); injection Hb as _ <-; cbn; [|done]. by rewrite dom_fmap_L.
  - done.
Qed.

(** The registry is exactly the set of connections that exist: in every state the
    server reaches by opening, closing and aborting connections, running the clean-ups that
    aborted ones left, broadcasting and working in rooms, the registered connections are
    those whose tasks have not ended and those whose clean-up is still to run, and the gauge
    counts them; so [wait_until_drained] waits for the last clean-up. *)
Theorem registry_tracks_connections (r0 : @Rooms Q E) (gate : AuthGate) (s : Srv) (c d : gset Z)
  (Hinv : rooms_inv owner r0)
  (Hrun : star srv_step (mkSrv r0 registry_new gate 0, ∅, ∅) (s, c, d)) :
  dom (sv_conns s) = c ∪ d /\ c ## d /\ sv_gauge s = Z.of_nat (active_count (sv_conns s)) /\
  (active_count (sv_conns s) = 0%nat <-> c = ∅ /\ d = ∅).
Proof.
  assert (Hi : srv_inv (s, c, d)).
  { apply (star_invariant srv_step) with (3 := Hrun); [apply srv_inv_step|].
    unfold srv_inv. cbn. by rewrite union_empty_l_L. }
  destruct Hi as (_ & Hdis & Hd & Hg). unfold active_count.
  assert (Hsz : size (sv_conns s) = size (c ∪ d)) by (by rewrite <- Hd, size_dom).
  rewrite Hsz. do 3 (split; [done|]). rewrite size_empty_iff. split.
  - intros H0%leibniz_equiv. set_solver.
  - intros [-> ->]. set_solver.
Qed.

End Lifecycle.

(* ------------------------------------------------------------------ *)
(** ** A concrete server *)

Module SrvDemo.

#[local] Existing Instance log_events.
#[local] Existing Instance simple_prost.

Definition rooms0 : Rooms queue (list DomainEvent) := service_new [] {[77 := sink_new (chan 4)]}.
Definition owner0 : Z -> PlayerId := fun _ => 20.
(** Player 20 is alone in room 300. *)
Definition rooms1 : Rooms queue (list DomainEvent) :=
  snd (create_and_join (mkServiceConfig 4 2) 300 20 (lit "a") 77 1 2 rooms0).
Definition gate1 : AuthGate := snd (permit 9 (gate_new 5)).
Definition conns1 : gmap Z (option (OutboundSender queue)) :=
  {[1 := Some (outbound_new (chan 1)); 2 := None; 3 := Some (outbound_new (chan 0))]}.
Definition srv1 : @Srv queue (list DomainEvent) := mkSrv rooms1 conns1 gate1 3.
Definition guard1 : ConnectionGuard :=
  mkGuard 1 (mkAuthState (Some (mkAuthed 20 (lit "a"))) (Some []) (Some 300)) false.
Definition adm1 : Admission := mkAdmission 100 (Some 9).

Lemma rooms0_inv : rooms_inv owner0 rooms0.
Proof. constructor; intros; simpl in *; [simplify_map_eq|set_solver]. Qed.

Lemma rooms1_inv : rooms_inv owner0 rooms1.
Proof.
  apply (create_and_join_spec owner0 (mkServiceConfig 4 2) 300 20 (lit "a") 77 1 2 rooms0
    (fst (create_and_join (mkServiceConfig 4 2) 300 20 (lit "a") 77 1 2 rooms0)) rooms1 rooms0_inv);
    [reflexivity|reflexivity|simpl; lia|reflexivity].
Qed.

(** The maintenance notice reaches connection 1: connection 2 drains, 3 is full. *)
Lemma broadcast_reaches_open_queues_witness :
  let out := broadcast_shutdown (lit "bye") conns1 in
  fst out = 1%nat /\ dom (snd out) = dom conns1.
Proof.
  intros out. split; [vm_compute; reflexivity|].
  apply (broadcast_reaches_open_queues (OShutdown (pb.mkServerShutdownNotice (lit "bye"))) conns1 (snd out) (fst out)).
  apply surjective_pairing.
Defined.

(** The task of connection 1, of player 20, is aborted: the permit is back at once, the
    player leaves its room and the registry with the spawned clean-up. *)
Lemma connection_leaves_no_trace_witness :
  let s1 := snd (connection_abort guard1 adm1 srv1) in
  let s2 := snd (spawned_cleanup 5 50 guard1 s1) in
  (exists r, in_room (sv_rooms s1) r 20) /\ unauth_count (sv_gate s1) 9 = 0%nat /\
  sv_conns s1 = conns1 /\ sv_conns s2 = delete 1 conns1 /\ forall r, ~ in_room (sv_rooms s2) r 20.
Proof.
  intros s1 s2.
  destruct (connection_leaves_no_trace owner0 5 50 guard1 adm1 srv1 rooms1_inv eq_refl) as [_ Ha].
  assert (Hs : connection_abort guard1 adm1 srv1 = (true, s1)) by (vm_compute; reflexivity).
  rewrite Hs in Ha. destruct Ha as (_ & (Hc & _ & Hr & Hg) & Hlater).
  destruct (Hlater s1) as (Hc2 & _ & _ & _ & Hout).
  { rewrite Hr. exact rooms1_inv. }
  split. { exists 300. split; [vm_compute; reflexivity|]. eexists. split; [vm_compute; reflexivity|]. vm_compute. left. }
  split; [rewrite Hg; vm_compute; reflexivity|]. split; [exact Hc|].
  split; [etransitivity; [exact Hc2|exact (f_equal (delete 1) Hc)]|].
  apply (Hout (mkAuthed 20 (lit "a"))); [reflexivity|]. vm_compute. lia.
Defined.

Lemma registry_tracks_connections_witness :
  exists s, star (srv_step owner0) (mkSrv rooms1 registry_new gate1 0, ∅, ∅) (s, {[7]} ∪ ∅, ∅) /\
    dom (sv_conns s) = ({[7]} ∪ ∅) ∪ ∅.
Proof.
  eexists. split.
  - eapply star_snoc; [apply star_refl|]. apply (srv_open owner0 7 (outbound_new (chan 1))); [set_solver|].
    reflexivity.
  - eapply (registry_tracks_connections owner0 rooms1 gate1 _ _ _ rooms1_inv).
    eapply star_snoc; [apply star_refl|]. apply (srv_open owner0 7 (outbound_new (chan 1))); [set_solver|].
    reflexivity.
Defined.

End SrvDemo.
