(* ===== verification/Listener.v ===== *)
(** Accepting connections: the accept loop with its connection limit
    ([net-kit/src/listener.rs]) and what the TCP gateway does with an accepted socket
    up to the TLS handshake ([TcpGateway::run] in [gateway/src/tcp/server.rs]).

    The accept loop is a fixed number of workers that share the listening socket and
    one semaphore; each owns the tasks it spawned.  A worker's [select!] takes any
    branch that is ready, so the workers are a step relation over executable steps. *)
From S2P Require Import Prelude Text Tokio Values Session App RoomActor RoomService AuthGate.
From S2P Require Import Connection Protocol Gateway Lifecycle.
Open Scope Z_scope.
Open Scope list_scope.

Section Listener.
Context {Sem : Type} `{HSem : Semaphore Sem}.

Record AcceptLoopConfig := mkAcceptConfig {
  al_shutdown_timeout : Z; al_max_concurrent : option nat; al_accept_concurrency : nat
}.
(** [AcceptLoopConfig::default] *)
Definition accept_default : AcceptLoopConfig := mkAcceptConfig 30000000000 None 1.

(** The phases of a worker: accepting, waiting for its tasks after the shutdown
    signal, collecting the tasks it aborted, done. *)
Inductive phase := Accepting | Draining | Aborting | Exited.
#[global] Instance phase_eq_dec : EqDecision phase.
Proof. solve_decision. Defined.

(** [wk_handshakes]: the [JoinSet]; a task is [true] if it holds a permit. *)
Record Worker := mkWorker { wk_phase : phase; wk_handshakes : list bool }.

Record Listener := mkListener {
  ls_semaphore : option Sem; ls_shutdown : bool; ls_workers : list Worker
}.

(** [accept_loop_with]: the workers are spawned. *)
Definition listener_start (config : AcceptLoopConfig) : Listener :=
  mkListener (sem_new <$> al_max_concurrent config) false
             (replicate (Nat.max (al_accept_concurrency config) 1) (mkWorker Accepting [])).

(** [accept_loop]: one worker, the other settings as they are by default. *)
Definition accept_loop_start (max_concurrent : option nat) : Listener :=
  listener_start (mkAcceptConfig (al_shutdown_timeout accept_default) max_concurrent 1).

Definition set_worker (l : Listener) (i : nat) (w : Worker) : Listener :=
  mkListener (ls_semaphore l) (ls_shutdown l) (<[i := w]> (ls_workers l)).

(** A socket was accepted: a permit is taken at once, or the socket is dropped. *)
Definition worker_accept (sem : option Sem) (w : Worker) : option Sem * Worker :=
  match sem with
  | None => (None, mkWorker (wk_phase w) (wk_handshakes w ++ [false]))
  | Some s =>
      match try_acquire s with
      | Some s' => (Some s', mkWorker (wk_phase w) (wk_handshakes w ++ [true]))
      | None => (Some s, w)
      end
  end.

(** [join_next] returns task [k]: it is gone, and its permit with it. *)
Definition worker_reap (k : nat) (sem : option Sem) (w : Worker) : option Sem * Worker :=
  (match wk_handshakes w !! k with
   | Some true => sem_release <$> sem
   | _ => sem
   end, mkWorker (wk_phase w) (delete k (wk_handshakes w))).

(** The end of the worker's task, once the [JoinSet] is empty. *)
Definition worker_finish (w : Worker) : Worker :=
  match wk_phase w, wk_handshakes w with
  | (Draining | Aborting), [] => mkWorker Exited []
  | _, _ => w
  end.

Inductive listener_step : Listener -> Listener -> Prop :=
| ls_signal l : listener_step l (mkListener (ls_semaphore l) true (ls_workers l))
| ls_accept l i w s w' :
    ls_workers l !! i = Some w -> wk_phase w = Accepting ->
    worker_accept (ls_semaphore l) w = (s, w') ->
    listener_step l (set_worker (mkListener s (ls_shutdown l) (ls_workers l)) i w')
| ls_reap l i w k s w' :
    ls_workers l !! i = Some w -> (k < length (wk_handshakes w))%nat ->
    worker_reap k (ls_semaphore l) w = (s, w') ->
    listener_step l (set_worker (mkListener s (ls_shutdown l) (ls_workers l)) i w')
| ls_stop l i w :
    ls_workers l !! i = Some w -> wk_phase w = Accepting -> ls_shutdown l = true ->
    listener_step l (set_worker l i (mkWorker Draining (wk_handshakes w)))
| ls_timeout l i w :
    ls_workers l !! i = Some w -> wk_phase w = Draining ->
    listener_step l (set_worker l i (mkWorker Aborting (wk_handshakes w)))
| ls_exit l i w :
    ls_workers l !! i = Some w -> wk_phase w <> Exited ->
    listener_step l (set_worker l i (worker_finish w)).

(** The connections being handled, handshakes included. *)
Fixpoint count_tasks (ws : list Worker) : nat :=
  match ws with [] => 0 | w :: ws' => length (wk_handshakes w) + count_tasks ws' end.
Definition running (l : Listener) : nat := count_tasks (ls_workers l).

Definition permits_ok (sem : option Sem) (w : Worker) : Prop :=
  Forall (fun b : bool => b = match sem with Some _ => true | None => false end) (wk_handshakes w).

Definition listener_inv (max : option nat) (l : Listener) : Prop :=
  Forall (permits_ok (ls_semaphore l)) (ls_workers l) /\
  Forall (fun w => wk_phase w = Exited -> wk_handshakes w = []) (ls_workers l) /\
  match max, ls_semaphore l with
  | Some n, Some s => (available s + running l = n)%nat
  | None, None => True
  | _, _ => False
  end.

Lemma running_update ws i (w w' : Worker) :
  ws !! i = Some w ->
  (count_tasks (<[i := w']> ws) + length (wk_handshakes w) =
   count_tasks ws + length (wk_handshakes w'))%nat.
Proof.
  revert i. induction ws as [|v ws IH]; intros i Hi; [done|]. destruct i as [|i]; simpl in *.
  - simplify_eq. lia.
  - specialize (IH i Hi). lia.
Qed.

Lemma same_kind_permits (s s' : option Sem) w :
  (is_Some s <-> is_Some s') -> permits_ok s w -> permits_ok s' w.
Proof.
  intros Hk. unfold permits_ok. destruct s, s'; try done; destruct Hk as [H1 H2].
  - by destruct (H1 ltac:(eauto)).
  - by destruct (H2 ltac:(eauto)).
Qed.

(** Replacing one worker, with the semaphore following its tasks. *)
Lemma listener_inv_update max l i w w' s :
  listener_inv max l -> ls_workers l !! i = Some w ->
  (is_Some (ls_semaphore l) <-> is_Some s) -> permits_ok s w' ->
  (wk_phase w' = Exited -> wk_handshakes w' = []) ->
  (forall s0 s1, ls_semaphore l = Some s0 -> s = Some s1 ->
     (available s1 + length (wk_handshakes w') = available s0 + length (wk_handshakes w))%nat) ->
  listener_inv max (set_worker (mkListener s (ls_shutdown l) (ls_workers l)) i w').
Proof.
  intros (Hp & He & Hn) Hi Hk Hw' He' Hav. unfold listener_inv, set_worker. cbn [ls_semaphore ls_workers].
  split; [|split].
  - apply Forall_insert; [|done]. eapply Forall_impl; [exact Hp|]. intros v. by apply same_kind_permits.
  - by apply Forall_insert.
  - unfold running in *. cbn [ls_workers]. pose proof (running_update _ _ _ w' Hi).
    destruct max as [n|], (ls_semaphore l) as [s0|] eqn:Es, s as [s1|]; try done;
      try (by destruct Hk as [H1 H2]; destruct (H1 ltac:(eauto)));
      try (by destruct Hk as [H1 H2]; destruct (H2 ltac:(eauto))).
    specialize (Hav s0 s1 eq_refl eq_refl). lia.
Qed.

Lemma worker_accept_spec max l i w s w' :
  listener_inv max l -> ls_workers l !! i = Some w -> wk_phase w = Accepting ->
  worker_accept (ls_semaphore l) w = (s, w') ->
  listener_inv max (set_worker (mkListener s (ls_shutdown l) (ls_workers l)) i w').
Proof.
  intros Hinv Hi Hph Hx. pose proof Hinv as (Hp & _ & _).
  pose proof (Forall_lookup_1 _ _ _ _ Hp Hi) as Hpw. unfold worker_accept in Hx.
  destruct (ls_semaphore l) as [s0|] eqn:Es.
  - destruct (try_acquire s0) as [s1|] eqn:Et; injection Hx as <- <-.
    + eapply listener_inv_update; [done|done|rewrite Es; split; eauto|..].
      * unfold permits_ok in *. cbn. apply Forall_app. split; [done|]. by constructor.
      * intros Hp'. cbn in Hp'. congruence.
      * rewrite Es. intros ? ? [= <-] [= <-]. cbn. rewrite length_app. simpl.
        destruct (available s0) as [|n] eqn:Ea; [by rewrite try_acquire_none in Et|].
        destruct (try_acquire_some s0 n Ea) as (s' & Hs' & ?). simplify_eq. lia.
    + eapply listener_inv_update; [done|done|rewrite Es; split; eauto|done|congruence|].
      rewrite Es. by intros ? ? [= <-] [= <-].
  - injection Hx as <- <-. eapply listener_inv_update; [done|done|by rewrite Es|..].
    + unfold permits_ok in *. cbn. apply Forall_app. split; [done|]. by constructor.
    + intros Hp'. cbn in Hp'. congruence.
    + by rewrite Es.
Qed.

Lemma worker_reap_spec max l i w k s w' :
  listener_inv max l -> ls_workers l !! i = Some w -> (k < length (wk_handshakes w))%nat ->
  worker_reap k (ls_semaphore l) w = (s, w') ->
  listener_inv max (set_worker (mkListener s (ls_shutdown l) (ls_workers l)) i w').
Proof.
  intros Hinv Hi Hk Hx. pose proof Hinv as (Hp & He & _).
  pose proof (Forall_lookup_1 _ _ _ _ Hp Hi) as Hpw.
  pose proof (Forall_lookup_1 _ _ _ _ He Hi) as Hew. unfold worker_reap in Hx.
  destruct (lookup_lt_is_Some_2 _ _ Hk) as [b Hb]. rewrite Hb in Hx.
  pose proof (Forall_lookup_1 _ _ _ _ Hpw Hb) as Hbk. cbn in Hbk. injection Hx as <- <-.
  eapply listener_inv_update; [done|done|..]; cbn [wk_handshakes wk_phase].
  - destruct (ls_semaphore l); subst b; cbn; split; eauto.
  - eapply same_kind_permits with (s := ls_semaphore l);
      [destruct (ls_semaphore l); subst b; cbn; split; eauto|].
    unfold permits_ok in *. cbn. by apply Forall_delete.
  - intros Hx%Hew. by rewrite Hx in Hb.
  - intros s0 s1 Hs0 Hs1. rewrite Hs0 in *. subst b. cbn in Hs1. injection Hs1 as <-.
    rewrite sem_release_spec, length_delete by eauto. lia.
Qed.

(** The worker changes its phase and keeps its tasks. *)
Lemma worker_phase_inv max l i w w' :
  listener_inv max l -> ls_workers l !! i = Some w -> wk_handshakes w' = wk_handshakes w ->
  (wk_phase w' = Exited -> wk_handshakes w' = []) -> listener_inv max (set_worker l i w').
Proof.
  intros Hinv Hi Hh He. pose proof Hinv as (Hp & _ & _).
  pose proof (Forall_lookup_1 _ _ _ _ Hp Hi) as Hpw.
  assert (H : listener_inv max
    (set_worker (mkListener (ls_semaphore l) (ls_shutdown l) (ls_workers l)) i w')); [|by destruct l].
  eapply listener_inv_update; [done|done|done| |done|].
  - unfold permits_ok. by rewrite Hh.
  - intros ? ? Hs0 Hs1. rewrite Hh. congruence.
Qed.

Lemma listener_inv_step max l l' : listener_inv max l -> listener_step l l' -> listener_inv max l'.
Proof.
  intros Hinv Hs. destruct Hs as [l|l i w s w' Hi Hp Hx|l i w k s w' Hi Hk Hx|l i w Hi Hp Hsd|l i w Hi Hp|l i w Hi Hp].
  - done.
  - by eapply worker_accept_spec.
  - by eapply worker_reap_spec.
  - by eapply worker_phase_inv.
  - by eapply worker_phase_inv.
  - eapply worker_phase_inv; [done|done| |]; unfold worker_finish;
      destruct w as [[] []]; done.
Qed.

Lemma listener_inv_start config : listener_inv (al_max_concurrent config) (listener_start config).
Proof.
  unfold listener_inv, listener_start. cbn [ls_semaphore ls_workers]. split; [|split].
  - apply Forall_replicate. by constructor.
  - by apply Forall_replicate.
  - assert (H0 : forall n, count_tasks (replicate n (mkWorker Accepting [])) = 0%nat).
    { induction n; simpl; auto. }
    destruct (al_max_concurrent config) as [n|]; [|done]. cbn [fmap option_fmap option_map].
    unfold running. cbn [ls_workers]. rewrite H0, sem_new_spec. lia.
Qed.

(** The connection limit is exact and leaks nothing.  However the workers accept,
    refuse, finish and abort connections, with a limit [n] the connections being
    handled (handshakes included) and the free permits add up to [n], so there are
    never more than [n]; a socket is refused only when there are exactly [n]; and when
    all workers have left their loops no connection is left and all permits are back. *)
Theorem accept_limit_is_exact (config : AcceptLoopConfig) (n : nat) (l : Listener)
  (Hmax : al_max_concurrent config = Some n)
  (Hrun : star listener_step (listener_start config) l) :
  exists s, ls_semaphore l = Some s /\ (available s + running l = n)%nat /\
    (forall i w, ls_workers l !! i = Some w ->
       worker_accept (ls_semaphore l) w = (ls_semaphore l, w) -> running l = n) /\
    (Forall (fun w => wk_phase w = Exited) (ls_workers l) -> running l = 0%nat /\ available s = n).
Proof.
  assert (Hinv : listener_inv (Some n) l).
  { apply (star_invariant listener_step) with (3 := Hrun);
      [intros a b; apply listener_inv_step|rewrite <- Hmax; apply listener_inv_start]. }
  destruct Hinv as (_ & He & Hn). destruct (ls_semaphore l) as [s|]; [|done].
  exists s. split; [done|]. split; [done|]. split.
  - intros i w Hi Hx. unfold worker_accept in Hx. destruct (try_acquire s) as [s'|] eqn:Et.
    + injection Hx as Hs Hw. apply (f_equal (fun w => length (wk_handshakes w))) in Hw.
      cbn in Hw. rewrite length_app in Hw. simpl in Hw. lia.
    + destruct (available s) as [|m] eqn:Ea; [lia|].
      destruct (try_acquire_some s m Ea) as (? & ? & _). congruence.
  - intros Hex. assert (H0 : running l = 0%nat); [|lia]. unfold running.
    clear Hn. induction (ls_workers l) as [|w ws IH]; [done|].
    apply Forall_cons_1 in He as [Hw He]. apply Forall_cons_1 in Hex as [Hx Hex].
    simpl. rewrite (Hw Hx). simpl. by apply IH.
Qed.

End Listener.

(* ------------------------------------------------------------------ *)
(** ** An accepted socket ([TcpGateway::run]) *)

Section Server.
Context {Sem : Type} `{HSem : Semaphore Sem} {Q : Type -> Type} {E : Type}.

Abbreviation Srv := (@Srv Q E).

(** How the wait for the TLS handshake ended. *)
Inductive handshake := HsShutdown | HsStream | HsFailed | HsTimeout.

(** The first half of the handler: a permit of the gate, then a handshake slot; an
    early return drops what was taken. *)
Definition socket_admit (ip now timeout : Z) : io (Sem * Srv) (option Admission) :=
  fun '(slots, s) =>
    match admission_acquire ip now timeout s with
    | (None, s) => (None, (slots, s))
    | (Some adm, s) =>
        match try_acquire slots with
        | None => (None, (slots, snd (drop_admission adm s)))
        | Some slots' => (Some adm, (slots', s))
        end
    end.

(** The second half: the slot is dropped in every case; the connection is served with
    its admission when the handshake gave a stream, and the admission is dropped
    otherwise. *)
Definition socket_handshaken (h : handshake) (adm : Admission) : io (Sem * Srv) (option Admission) :=
  fun '(slots, s) =>
    match h with
    | HsStream => (Some adm, (sem_release slots, s))
    | HsShutdown | HsFailed | HsTimeout => (None, (sem_release slots, snd (drop_admission adm s)))
    end.

(** [wait_until_drained]: the loop over what it observes every 50 ms, the number of
    active connections and the time; [None] while it waits. *)
Fixpoint wait_until_drained (deadline : Z) (obs : list (nat * Z)) : option bool :=
  match obs with
  | [] => None
  | (active, now) :: obs' =>
      if (active =? 0)%nat then Some true
      else if deadline <=? now then Some false
      else wait_until_drained deadline obs'
  end.

(** The pause between two observations, in nanoseconds, and how many observations are
    enough for a timeout. *)
Definition POLL : Z := 50000000.
Definition polls (timeout : Z) : nat := (Z.to_nat (timeout / POLL) + 2)%nat.

(** The sockets between the two halves, and the admissions handed on. *)
Record Sockets := mkSockets {
  so_slots : Sem; so_srv : Srv; so_handshaking : list Admission; so_served : list Admission
}.

Inductive socket_step : Sockets -> Sockets -> Prop :=
| socket_accepted ip now timeout slots s l d o slots' s' :
    socket_admit ip now timeout (slots, s) = (o, (slots', s')) ->
    socket_step (mkSockets slots s l d)
                (mkSockets slots' s' (match o with Some a => a :: l | None => l end) d)
| socket_done h slots s l1 a l2 d o slots' s' :
    socket_handshaken h a (slots, s) = (o, (slots', s')) ->
    socket_step (mkSockets slots s (l1 ++ a :: l2) d)
                (mkSockets slots' s' (l1 ++ l2) (match o with Some a => a :: d | None => d end)).

(** The permits of an address that admissions hold. *)
Definition held (l : list Admission) (ip : Z) : nat := alive (omap ad_permit l) ip.

Lemma held_app l1 l2 ip : held (l1 ++ l2) ip = (held l1 ip + held l2 ip)%nat.
Proof. unfold held. by rewrite omap_app, alive_app. Qed.

Lemma held_cons a l ip : held (a :: l) ip = (held [a] ip + held l ip)%nat.
Proof. apply (held_app [a] l). Qed.

(** The invariant of the gate does not depend on the order of the permits. *)
Lemma gate_inv_counts max g l l' :
  (forall ip, alive l ip = alive l' ip) -> gate_inv max (mkGated g l) -> gate_inv max (mkGated g l').
Proof.
  intros Heq (Hm & Hc & Hle & Hz). unfold gate_inv. cbn [gd_gate gd_alive] in *.
  split; [done|]. split; [intros ip; by rewrite Hc, Heq|]. split; [|done].
  intros ip. by rewrite <- Heq.
Qed.

Lemma acquire_gate max l ip now timeout (s : Srv) o s' :
  gate_inv max (mkGated (sv_gate s) (omap ad_permit l)) ->
  admission_acquire ip now timeout s = (o, s') ->
  gate_inv max (mkGated (sv_gate s') (omap ad_permit (match o with Some a => a :: l | None => l end))).
Proof.
  intros Hg Hx. unfold admission_acquire, io_bind, io_ret, on_gate in Hx.
  destruct (permit ip (sv_gate s)) as [p g'] eqn:Ep. injection Hx as <- <-. cbn [sv_gate].
  pose proof (permit_spec _ _ _ _ Ep) as [_ [(-> & _)|(-> & _)]].
  - eapply gate_step_inv; [exact Hg|]. by apply gate_admit.
  - eapply gate_step_inv; [exact Hg|]. by eapply gate_refuse.
Qed.

Lemma drop_gate max l1 a l2 (s : Srv) :
  gate_inv max (mkGated (sv_gate s) (omap ad_permit (l1 ++ a :: l2))) ->
  gate_inv max (mkGated (sv_gate (snd (drop_admission a s))) (omap ad_permit (l1 ++ l2))).
Proof.
  rewrite !omap_app. cbn [omap list_omap]. unfold drop_admission, on_gate.
  destruct (ad_permit a) as [ip|]; [|done]. intros Hg.
  destruct (drop_permit ip (sv_gate s)) as [[] g'] eqn:Ed. cbn [snd sv_gate].
  eapply gate_step_inv; [exact Hg|]. by apply gate_drop.
Qed.

Definition sockets_inv (n max : nat) (x : Sockets) : Prop :=
  (available (so_slots x) + length (so_handshaking x) = n)%nat /\
  gate_inv max (mkGated (sv_gate (so_srv x)) (omap ad_permit (so_handshaking x ++ so_served x))).

Lemma socket_step_inv n max x y : sockets_inv n max x -> socket_step x y -> sockets_inv n max y.
Proof.
  intros [Hn Hg] Hs. unfold sockets_inv.
  destruct Hs as [ip now timeout slots s l d o slots' s' Hx|h slots s l1 adm l2 d o slots' s' Hx];
    cbn [so_slots so_handshaking so_srv so_served] in *.
  - unfold socket_admit in Hx. destruct (admission_acquire ip now timeout s) as [o1 s1] eqn:Ea.
    apply (acquire_gate max (l ++ d)) in Ea; [|done].
    destruct o1 as [adm|]; [|by injection Hx as <- <- <-].
    destruct (try_acquire slots) as [sl|] eqn:Et; injection Hx as <- <- <-.
    + split; [|done]. destruct (available slots) as [|m] eqn:Em; [by rewrite try_acquire_none in Et|].
      destruct (try_acquire_some slots m Em) as (sl' & Hsl & ?). simplify_eq. simpl. lia.
    + split; [done|]. by apply (drop_gate max []) in Ea.
  - rewrite length_app in *. simpl in Hn.
    assert (Hsl : slots' = sem_release slots) by (unfold socket_handshaken in Hx; destruct h; by injection Hx).
    split; [rewrite Hsl, sem_release_spec; lia|].
    rewrite <- app_assoc in Hg. unfold socket_handshaken in Hx.
    destruct h; injection Hx as <- _ <-; try (rewrite <- app_assoc; by apply drop_gate).
    eapply gate_inv_counts; [|exact Hg]. intros ip. fold (held (l1 ++ (adm :: l2) ++ d) ip).
    fold (held ((l1 ++ l2) ++ adm :: d) ip). rewrite !held_app, (held_cons adm d), (held_cons adm l2). lia.
Qed.

(** Accepting sockets is bounded twice, and whatever is taken comes back.  With [n]
    handshake slots, the handshakes in progress and the free slots add up to [n] at
    every moment, whichever way handshakes end (stream, failure, timeout, shutdown);
    and the gate's counter of every address equals the number of admissions in a
    handshake or handed on to the connection handler, never more than the limit per
    address. *)
Theorem sockets_are_bounded (n max : nat) (r0 : @Rooms Q E) (conns : gmap Z (option (OutboundSender Q)))
  (gauge : Z) (x : Sockets)
  (Hrun : star socket_step (mkSockets (sem_new n) (mkSrv r0 conns (gate_new max) gauge) [] []) x) :
  (available (so_slots x) + length (so_handshaking x) = n)%nat /\
  forall ip, unauth_count (sv_gate (so_srv x)) ip = held (so_handshaking x ++ so_served x) ip /\
    (held (so_handshaking x ++ so_served x) ip <= max)%nat.
Proof.
  assert (Hinv : sockets_inv n max x).
  { apply (star_invariant socket_step) with (3 := Hrun); [intros a b; apply socket_step_inv|].
    split; cbn; [rewrite sem_new_spec; lia|]. apply gate_init_inv. }
  destruct Hinv as [Hn (_ & Hc & Hle & _)]. split; [done|]. intros ip. split; [apply Hc|apply Hle].
Qed.

(* ------------------------------------------------------------------ *)
(** ** Waiting for the connections to drain *)

Lemma drained_decides deadline l l' :
  Exists (fun x => deadline <= snd x) l ->
  exists b, wait_until_drained deadline l = Some b /\ wait_until_drained deadline (l ++ l') = Some b.
Proof.
  induction 1 as [[a t] l Ht|[a t] l Hl (b & Hb & Hb')]; cbn [wait_until_drained app]; cbn in *;
    destruct (a =? 0)%nat; eauto.
  - rewrite (proj2 (Z.leb_le _ _)) by done. eauto.
  - destruct (deadline <=? t); eauto.
Qed.

Lemma drained_true deadline l :
  wait_until_drained deadline l = Some true <->
  exists l1 x l2, l = l1 ++ x :: l2 /\ fst x = 0%nat /\ Forall (fun y => snd y < deadline) l1.
Proof.
  induction l as [|[a t] l IH]; cbn [wait_until_drained].
  - split; [done|]. intros ([|? ?] & ? & ? & [=] & _).
  - destruct (a =? 0)%nat eqn:Ea; [|destruct (deadline <=? t) eqn:Et].
    + apply Nat.eqb_eq in Ea as ->. split; [|done]. intros _. by exists [], (0%nat, t), l.
    + apply Nat.eqb_neq in Ea. b2p. split; [done|].
      intros ([|y l1] & x & l2 & Heq & Hx & Hl); injection Heq as Ha ->; [by subst x|].
      apply Forall_cons_1 in Hl as [Hy _]. subst y. cbn in Hy. lia.
    + apply Nat.eqb_neq in Ea. b2p. rewrite IH. split.
      * intros (l1 & x & l2 & -> & Hx & Hl). exists ((a, t) :: l1), x, l2.
        split; [done|]. split; [done|]. by constructor.
      * intros ([|y l1] & x & l2 & Heq & Hx & Hl); injection Heq as Ha ->; [by subst x|].
        apply Forall_cons_1 in Hl as [_ Hl]. eauto 10.
Qed.

(** The observations are made at least [POLL] apart, so [polls] of them pass the deadline. *)
Lemma polls_enough start timeout (obs : nat -> nat * Z) :
  0 <= timeout -> (forall i, start + POLL * Z.of_nat i <= snd (obs i)) ->
  Exists (fun x => start + timeout <= snd x) (map obs (seq 0 (polls timeout))).
Proof.
  intros Ht Hobs. apply Exists_exists. exists (obs (S (Z.to_nat (timeout / POLL)))). split.
  - apply list_elem_of_fmap. eexists. split; [done|]. apply elem_of_seq. unfold polls. lia.
  - pose proof (Hobs (S (Z.to_nat (timeout / POLL)))) as H. unfold POLL in *.
    pose proof (Z.div_pos timeout 50000000 ltac:(lia) ltac:(lia)).
    pose proof (Z.mul_succ_div_gt timeout 50000000 ltac:(lia)). lia.
Qed.

(** C33: Waiting for the connections to drain always ends.  Whatever numbers of connections
    the loop observes, its clock advances by at least the pause between two observations,
    so within [timeout / 50 ms + 2] observations it has answered, and more change
    nothing; the answer is [true] exactly when no connection was left at an observation
    that no observation at or after the deadline precedes. *)
Theorem drain_wait_terminates (start timeout : Z) (obs : nat -> nat * Z)
  (Ht : 0 <= timeout) (Hobs : forall i, start + POLL * Z.of_nat i <= snd (obs i)) :
  exists b,
    (forall n, (polls timeout <= n)%nat ->
       wait_until_drained (start + timeout) (map obs (seq 0 n)) = Some b) /\
    (b = true <-> exists i, fst (obs i) = 0%nat /\ forall j, (j < i)%nat -> snd (obs j) < start + timeout).
Proof.
  pose proof (polls_enough start timeout obs Ht Hobs) as Hex.
  destruct (drained_decides _ _ [] Hex) as (b & Hb & _). exists b.
  assert (Hn : forall n, (polls timeout <= n)%nat ->
    wait_until_drained (start + timeout) (map obs (seq 0 n)) = Some b).
  { intros n Hn. replace n with (polls timeout + (n - polls timeout))%nat by lia.
    rewrite seq_app, map_app.
    destruct (drained_decides _ _ (map obs (seq (0 + polls timeout) (n - polls timeout))) Hex) as (b' & H1 & H2).
    congruence. }
  split; [done|]. split.
  - intros ->. apply drained_true in Hb as (l1 & x & l2 & Hl & Hx & Hall).
    exists (length l1). assert (Hat : forall j, (j <= length l1)%nat -> (l1 ++ [x]) !! j = Some (obs j)).
    { intros j Hj. assert (Hm : map obs (seq 0 (polls timeout)) !! j = (l1 ++ [x]) !! j).
      { rewrite Hl. rewrite (app_assoc l1 [x] l2 : l1 ++ x :: l2 = _).
        rewrite lookup_app_l by (rewrite length_app; simpl; lia). done. }
      rewrite <- Hm, list_lookup_fmap, lookup_seq_lt; [done|].
      apply (f_equal length) in Hl. rewrite length_map, length_seq, length_app in Hl. simpl in Hl. lia. }
    split.
    + specialize (Hat (length l1) (Nat.le_refl _)). rewrite lookup_app_r, Nat.sub_diag in Hat by lia.
      by injection Hat as <-.
    + intros j Hj. specialize (Hat j ltac:(lia)). rewrite lookup_app_l in Hat by lia.
      rewrite Forall_lookup in Hall. by eapply Hall.
  - intros (i & Hi & Hlt). specialize (Hn (polls timeout + S i)%nat ltac:(lia)). rewrite <- Hn in *.
    assert (Ht' : wait_until_drained (start + timeout) (map obs (seq 0 (polls timeout + S i))) = Some true);
      [|congruence].
    apply drained_true. exists (map obs (seq 0 i)), (obs i), (map obs (seq (S i) (polls timeout))).
    replace (polls timeout + S i)%nat with (i + S (polls timeout))%nat by lia.
    rewrite seq_app, map_app. split; [done|]. split; [done|].
    apply Forall_fmap, Forall_forall. intros j Hj%elem_of_seq. cbn. apply Hlt. lia.
Qed.

End Server.

(* ------------------------------------------------------------------ *)
(** ** Concrete runs *)

Module ListenDemo.

Definition config : AcceptLoopConfig := mkAcceptConfig 30 (Some 1%nat) 2.
(** The first worker has the only connection. *)
Definition busy : Listener (Sem := nat) :=
  mkListener (Some 0%nat) false [mkWorker Accepting [true]; mkWorker Accepting []].

Lemma busy_reachable : star listener_step (listener_start config) busy.
Proof.
  eapply star_to; [apply star_refl|eapply (ls_accept (listener_start config) 0); reflexivity|].
  reflexivity.
Qed.

(** The second worker's socket is refused: the limit is reached. *)
Lemma accept_limit_is_exact_witness : running busy = 1%nat.
Proof.
  destruct (accept_limit_is_exact config 1 busy eq_refl busy_reachable) as (s & Hs & _ & Href & _).
  exact (Href 1%nat (mkWorker Accepting []) eq_refl eq_refl).
Defined.

Definition rooms0 : Rooms queue (list DomainEvent) := service_new [] ∅.

Lemma sockets_are_bounded_witness :
  exists x : Sockets (Sem := nat) (Q := queue) (E := list DomainEvent),
    length (so_handshaking x) = 1%nat /\ (available (so_slots x) + 1 = 1)%nat /\
    unauth_count (sv_gate (so_srv x)) 7 = held (so_handshaking x ++ so_served x) 7.
Proof.
  set (s0 := mkSrv rooms0 ∅ (gate_new 3) 0).
  set (out := socket_admit (Sem := nat) 7 100 10 (1%nat, s0)).
  set (x := mkSockets (fst (snd out)) (snd (snd out)) [mkAdmission 110 (Some 7)] []).
  exists x. split; [reflexivity|].
  destruct (sockets_are_bounded 1 3 rooms0 ∅ 0 x) as [Hn Hg].
  - eapply star_to; [apply star_refl| |reflexivity].
    apply (socket_accepted 7 100 10 1%nat s0 [] [] (Some (mkAdmission 110 (Some 7)))).
    vm_compute. reflexivity.
  - split; [exact Hn|]. exact (proj1 (Hg 7)).
Defined.

(** Two connections that are gone after three pauses. *)
Definition leaving (i : nat) : nat * Z := ((if (i <? 3)%nat then 2 else 0)%nat, 100 + POLL * Z.of_nat i).

Lemma drain_wait_terminates_witness :
  wait_until_drained (100 + 1000000000) (map leaving (seq 0 (polls 1000000000))) = Some true.
Proof.
  destruct (drain_wait_terminates 100 1000000000 leaving) as (b & Hb & Ht).
  - lia.
  - intros i. cbn. lia.
  - rewrite Hb by lia. f_equal. apply Ht. exists 3%nat. split; [reflexivity|].
    intros j Hj. cbn. unfold POLL. lia.
Defined.

End ListenDemo.
