(* ===== verification/SqlRepos.v ===== *)
(** Persistence in PostgreSQL ([infrastructure/src/persistence]): the conversions
    between table rows and aggregates ([converters.rs]) and the repositories over
    SeaORM ([player_repo.rs], [account_repo.rs], [registration_store.rs]).

    SeaORM and the database are not part of the repository: the class [Sql] states what
    a statement does to the two tables, what the constraints of the migrations refuse,
    and that a statement that fails is carried out as a whole or not at all.  A
    transaction works on a copy of the tables that [commit] publishes.
    [keep_time] is the resolution of the database's timestamps.  A time with an offset
    is the instant it denotes, so [to_utc] and [to_fixed] do not change it. *)
From S2P Require Import Prelude Text Values Account Player App.
From Stdlib Require Import Strings.String.
Open Scope Z_scope.
Open Scope list_scope.
Abbreviation length := Datatypes.length.

(* ------------------------------------------------------------------ *)
(** ** Rows and conversions *)

Record account_row := mkAccountRow {
  ar_id : Z; ar_username : rstr; ar_password_hash : rstr; ar_status : Z;
  ar_banned_reason : option rstr; ar_banned_until : option DateTime; ar_created_at : DateTime
}.
Record player_row := mkPlayerRow {
  pr_id : Z; pr_account_id : Z; pr_nickname : rstr; pr_level : Z; pr_exp : Z;
  pr_last_login_at : option DateTime; pr_created_at : DateTime
}.

(** [{other}] of an [i16]. *)
Definition show_i (n : Z) : rstr := if n <? 0 then lit "-" ++ show_u (- n) else show_u n.

Definition status_from_code (c : Z) : result AccountStatus RepoError :=
  if c =? 0 then Ok Active
  else if c =? 1 then Ok Suspended
  else if c =? 2 then Ok (Banned [] None)
  else Err (RStorage (lit "未知的账号状态码 " ++ show_i c)).

Definition status_to_parts (s : AccountStatus) : Z * option rstr * option DateTime :=
  match s with
  | Active => (0, None, None)
  | Suspended => (1, None, None)
  | Banned reason until => (2, Some reason, until)
  end.

(** [i32::try_from] and [i64::try_from] of a non-negative number. *)
Definition try_from_i (w n : Z) : option Z := if n <=? 2 ^ (w - 1) - 1 then Some n else None.
(** [u32::try_from] and [u64::try_from] of a signed number. *)
Definition try_from_u (w n : Z) : option Z :=
  if (0 <=? n) && (n <=? u_max w) then Some n else None.

Section Converters.
Context `{HU : UuidFmt}.

Definition account_to_domain (m : account_row) : result Account RepoError :=
  let? username := map_err (fun err => RStorage (lit "账号数据不符合领域规则: " ++ DomainError_to_string err))
                           (Username.try_new (ar_username m)) in
  let? status := status_from_code (ar_status m) in
  let status := match status with
                | Banned _ _ => Banned (default [] (ar_banned_reason m)) (ar_banned_until m)
                | s => s
                end in
  Ok (Account.reconstitute (ar_id m) username (PasswordHash.new (ar_password_hash m)) status
        (ar_created_at m)).

Definition account_to_active (a : Account) : account_row :=
  let '(status, reason, until) := status_to_parts (acc_status a) in
  mkAccountRow (acc_id a) (Username.as_str (acc_username a))
    (PasswordHash.expose (acc_password_hash a)) status reason until (acc_created_at a).

Definition player_to_domain (m : player_row) : result Player RepoError :=
  let? nickname := map_err (fun err => RStorage (lit "玩家数据不符合领域规则: " ++ DomainError_to_string err))
                           (Nickname.try_new (pr_nickname m)) in
  Ok (Player.reconstitute (pr_id m) (pr_account_id m) nickname
        (default 0 (try_from_u 32 (Z.max (pr_level m) 0)))
        (default 0 (try_from_u 64 (Z.max (pr_exp m) 0)))
        (pr_last_login_at m) (pr_created_at m)).

Definition player_to_active (p : Player) : player_row :=
  mkPlayerRow (pl_id p) (pl_account_id p) (Nickname.as_str (pl_nickname p))
    (default (2 ^ 31 - 1) (try_from_i 32 (pl_level p)))
    (default (2 ^ 63 - 1) (try_from_i 64 (pl_exp p)))
    (pl_last_login_at p) (pl_created_at p).

(* ------------------------------------------------------------------ *)
(** ** Round trips *)

Lemma account_roundtrip a :
  Username.valid (acc_username a) -> account_to_domain (account_to_active a) = Ok a.
Proof.
  intros Hv. unfold account_to_domain, account_to_active.
  destruct a as [i u h s c]. destruct h. cbn [acc_status acc_id acc_username acc_password_hash acc_created_at] in *.
  destruct s; cbn [status_to_parts ar_username ar_status ar_banned_reason ar_banned_until ar_id ar_password_hash ar_created_at];
    rewrite (Username.try_new_valid_id u Hv); done.
Qed.

Lemma try_from_i_default w n :
  default (2 ^ (w - 1) - 1) (try_from_i w n) = Z.min n (2 ^ (w - 1) - 1).
Proof. unfold try_from_i. destruct (Z.leb_spec n (2 ^ (w - 1) - 1)); simpl; lia. Qed.

Lemma try_from_u_max w n : is_u w n -> default 0 (try_from_u w (Z.max n 0)) = n.
Proof.
  unfold is_u, try_from_u. intros Hn. rewrite Z.max_l by lia.
  rewrite (proj2 (Z.leb_le 0 n)), (proj2 (Z.leb_le n (u_max w))) by lia. done.
Qed.

(** What the columns of a player's row can hold. *)
Definition clamp (p : Player) : Player :=
  Player.set_growth p (Z.min (pl_level p) (2 ^ 31 - 1)) (Z.min (pl_exp p) (2 ^ 63 - 1)).

Lemma player_roundtrip p :
  Nickname.valid (pl_nickname p) -> is_u 32 (pl_level p) -> is_u 64 (pl_exp p) ->
  player_to_domain (player_to_active p) = Ok (clamp p).
Proof.
  intros Hv Hl He. unfold player_to_domain, player_to_active.
  cbn [pr_nickname pr_level pr_exp pr_id pr_account_id pr_last_login_at pr_created_at].
  rewrite (Nickname.nick_new_valid_id _ Hv). cbn [map_err res_bind]. f_equal.
  unfold clamp, Player.set_growth, Player.reconstitute, is_u, u_max in *.
  change (2 ^ 31 - 1) with (2 ^ (32 - 1) - 1). change (2 ^ 63 - 1) with (2 ^ (64 - 1) - 1).
  rewrite !try_from_i_default, !try_from_u_max by (unfold is_u, u_max; lia). done.
Qed.

(** Aggregates survive the database: every well-formed account, banned or not, comes
    back from its row as it was; so does every well-formed player whose experience fits
    the signed 64-bit column (a level always fits once it is at most 2^31 - 1), and a
    larger number is stored as the largest the column holds, never wrapped. *)
Theorem rows_roundtrip (a : Account) (p : Player)
  (Ha : Username.valid (acc_username a)) (Hn : Nickname.valid (pl_nickname p))
  (Hl : is_u 32 (pl_level p)) (He : is_u 64 (pl_exp p)) :
  account_to_domain (account_to_active a) = Ok a /\
  player_to_domain (player_to_active p) = Ok (clamp p) /\
  (pl_level p <= 2 ^ 31 - 1 -> pl_exp p <= 2 ^ 63 - 1 -> clamp p = p).
Proof.
  split; [by apply account_roundtrip|]. split; [by apply player_roundtrip|].
  intros H1 H2. unfold clamp, Player.set_growth. destruct p. cbn in *. f_equal; lia.
Qed.

End Converters.

(* ------------------------------------------------------------------ *)
(** ** The database *)

Record DbErr := mkDbErr { de_text : rstr; de_unique : bool }.

(** [storage_error] *)
Definition storage_error (e : DbErr) : RepoError := RStorage (de_text e).
(** [map_error] of [registration_store.rs] *)
Definition map_error (e : DbErr) : AppError :=
  if de_unique e then Conflict (lit "注册数据已存在") else Storage (de_text e).

(** A row as the database returns it, with the resolution of its timestamps. *)
Definition stamp_account (keep : DateTime -> DateTime) (m : account_row) : account_row :=
  mkAccountRow (ar_id m) (ar_username m) (ar_password_hash m) (ar_status m) (ar_banned_reason m)
    (keep <$> ar_banned_until m) (keep (ar_created_at m)).
Definition stamp_player (keep : DateTime -> DateTime) (m : player_row) : player_row :=
  mkPlayerRow (pr_id m) (pr_account_id m) (pr_nickname m) (pr_level m) (pr_exp m)
    (keep <$> pr_last_login_at m) (keep (pr_created_at m)).
Definition with_growth (m : player_row) (level exp : Z) : player_row :=
  mkPlayerRow (pr_id m) (pr_account_id m) (pr_nickname m) level exp (pr_last_login_at m)
    (pr_created_at m).
Definition with_login (m : player_row) (at_ : DateTime) : player_row :=
  mkPlayerRow (pr_id m) (pr_account_id m) (pr_nickname m) (pr_level m) (pr_exp m) (Some at_)
    (pr_created_at m).

(** What a statement that writes promises: its effect when it answers [Ok]; when it
    answers an error the effect may have taken place all the same (the connection was
    lost after the statement was carried out), but never a part of it, and not when the
    error is a violated constraint. *)
Definition atomically {X} (r : result X DbErr) (effect none : Prop) : Prop :=
  match r with Ok _ => effect | Err e => none \/ (de_unique e = false /\ effect) end.

(** The database. A transaction is a private copy of the tables on which its statements
    run; [commit] publishes the copy, and dropping it is the rollback. An operation of a
    repository runs without another transaction in between: the isolation that the row
    lock ([lock_exclusive]) and the unique indexes give. *)
Class Sql (D : Type) := {
  t_accounts : D -> gmap Z account_row;
  t_players : D -> gmap Z player_row;
  keep_time : DateTime -> DateTime;
  (** equality in the column [username], whose type [CITEXT] ignores case *)
  same_name : rstr -> rstr -> Prop;
  same_name_refl u : same_name u u;
  same_name_ascii u v :
    Forall (fun c => 0 <= c < 0x80) u -> Forall (fun c => 0 <= c < 0x80) v -> same_name u v ->
    to_ascii_lowercase u = to_ascii_lowercase v;

  sel_account_by_id : Z -> io D (result (option account_row) DbErr);
  sel_account_by_username : rstr -> io D (result (option account_row) DbErr);
  ins_account : account_row -> io D (result unit DbErr);
  upd_account : account_row -> io D (result unit DbErr);
  sel_player_by_id : Z -> io D (result (option player_row) DbErr);
  sel_player_by_account : Z -> io D (result (option player_row) DbErr);
  ins_player : player_row -> io D (result unit DbErr);
  upd_player : player_row -> io D (result unit DbErr);
  (** [UPDATE players SET level, exp WHERE id] *)
  upd_growth : Z -> Z -> Z -> io D (result unit DbErr);
  (** [UPDATE players SET last_login_at WHERE id RETURNING *] *)
  upd_last_login : Z -> DateTime -> io D (result (list player_row) DbErr);
  (** the private copy of a transaction, and publishing it *)
  begin_txn : io D (result D DbErr);
  commit : D -> io D (result unit DbErr);

  sel_account_by_id_spec i d r d' :
    sel_account_by_id i d = (r, d') ->
    t_accounts d' = t_accounts d /\ t_players d' = t_players d /\
    (forall o, r = Ok o -> o = t_accounts d !! i);
  sel_account_by_username_spec u d r d' :
    sel_account_by_username u d = (r, d') ->
    t_accounts d' = t_accounts d /\ t_players d' = t_players d /\
    (forall m, r = Ok (Some m) -> same_name (ar_username m) u /\ exists i, t_accounts d !! i = Some m) /\
    (r = Ok None -> forall i m, t_accounts d !! i = Some m -> ~ same_name (ar_username m) u);
  sel_player_by_id_spec i d r d' :
    sel_player_by_id i d = (r, d') ->
    t_accounts d' = t_accounts d /\ t_players d' = t_players d /\
    (forall o, r = Ok o -> o = t_players d !! i);
  sel_player_by_account_spec i d r d' :
    sel_player_by_account i d = (r, d') ->
    t_accounts d' = t_accounts d /\ t_players d' = t_players d /\
    (forall m, r = Ok (Some m) -> pr_account_id m = i /\ exists j, t_players d !! j = Some m) /\
    (r = Ok None -> forall j m, t_players d !! j = Some m -> pr_account_id m <> i);
  (** the primary key and the unique key on the name *)
  ins_account_spec m d r d' :
    ins_account m d = (r, d') ->
    t_players d' = t_players d /\
    atomically r
      (t_accounts d !! ar_id m = None /\
       (forall i n, t_accounts d !! i = Some n -> ~ same_name (ar_username n) (ar_username m)) /\
       t_accounts d' = <[ar_id m := stamp_account keep_time m]> (t_accounts d))
      (t_accounts d' = t_accounts d);
  upd_account_spec m d r d' :
    upd_account m d = (r, d') ->
    t_players d' = t_players d /\
    atomically r
      (is_Some (t_accounts d !! ar_id m) /\
       t_accounts d' = <[ar_id m := stamp_account keep_time m]> (t_accounts d))
      (t_accounts d' = t_accounts d);
  (** the primary key and the foreign key to the account *)
  ins_player_spec m d r d' :
    ins_player m d = (r, d') ->
    t_accounts d' = t_accounts d /\
    atomically r
      (t_players d !! pr_id m = None /\ is_Some (t_accounts d !! pr_account_id m) /\
       t_players d' = <[pr_id m := stamp_player keep_time m]> (t_players d))
      (t_players d' = t_players d);
  upd_player_spec m d r d' :
    upd_player m d = (r, d') ->
    t_accounts d' = t_accounts d /\
    atomically r
      (is_Some (t_players d !! pr_id m) /\ is_Some (t_accounts d !! pr_account_id m) /\
       t_players d' = <[pr_id m := stamp_player keep_time m]> (t_players d))
      (t_players d' = t_players d);
  upd_growth_spec i l e d r d' :
    upd_growth i l e d = (r, d') ->
    t_accounts d' = t_accounts d /\
    atomically r
      (exists m, t_players d !! i = Some m /\ t_players d' = <[i := with_growth m l e]> (t_players d))
      (t_players d' = t_players d);
  upd_last_login_spec i at_ d r d' :
    upd_last_login i at_ d = (r, d') ->
    t_accounts d' = t_accounts d /\
    match r, t_players d !! i with
    | Ok rows, Some m => rows = [with_login m (keep_time at_)] /\
                         t_players d' = <[i := with_login m (keep_time at_)]> (t_players d)
    | Ok rows, None => rows = [] /\ t_players d' = t_players d
    | Err _, Some m => t_players d' = t_players d \/
                       t_players d' = <[i := with_login m (keep_time at_)]> (t_players d)
    | Err _, None => t_players d' = t_players d
    end;
  begin_txn_spec d r d' :
    begin_txn d = (r, d') ->
    t_accounts d' = t_accounts d /\ t_players d' = t_players d /\
    (forall c, r = Ok c -> t_accounts c = t_accounts d /\ t_players c = t_players d);
  commit_spec c d r d' :
    commit c d = (r, d') ->
    atomically r (t_accounts d' = t_accounts c /\ t_players d' = t_players c)
                 (t_accounts d' = t_accounts d /\ t_players d' = t_players d)
}.

Section Repositories.
Context {D : Type} `{HD : Sql D} `{HU : UuidFmt}.

(** [?] with [map_err(storage_error)] *)
Definition db {X} (m : io D (result X DbErr)) : io D (result X RepoError) :=
  let* r := m in io_ret (map_err storage_error r).

Definition sea_find_account (i : AccountId) : io D (result (option Account) RepoError) :=
  await? m := db (sel_account_by_id i) in io_ret (transpose (account_to_domain <$> m)).

Definition sea_find_by_username (u : rstr) : io D (result (option Account) RepoError) :=
  await? m := db (sel_account_by_username u) in io_ret (transpose (account_to_domain <$> m)).

Definition sea_save_account (a : Account) : io D (result unit RepoError) :=
  await? m := db (sel_account_by_id (acc_id a)) in
  let active := account_to_active a in
  db (match m with Some _ => upd_account active | None => ins_account active end).

Definition sea_find_player (i : PlayerId) : io D (result (option Player) RepoError) :=
  await? m := db (sel_player_by_id i) in io_ret (transpose (player_to_domain <$> m)).

Definition sea_find_by_account (i : AccountId) : io D (result (option Player) RepoError) :=
  await? m := db (sel_player_by_account i) in io_ret (transpose (player_to_domain <$> m)).

Definition sea_save_player (p : Player) : io D (result unit RepoError) :=
  await? m := db (sel_player_by_id (pl_id p)) in
  let active := player_to_active p in
  db (match m with Some _ => upd_player active | None => ins_player active end).

(** The text of a [TryFromIntError]. *)
Definition out_of_range : RepoError := RStorage (lit "out of range integral type conversion attempted").

Definition sea_gain_exp (i : PlayerId) (amount : Z)
  : io D (result (option (Player * option Z)) RepoError) :=
  await? txn := db begin_txn in
  match sel_player_by_id i txn with
  | (Err e, _) => io_ret (Err (storage_error e))
  | (Ok None, _) => io_ret (Ok None)
  | (Ok (Some model), txn) =>
      await? player := io_lift (player_to_domain model) in
      let '(player, level) := Player.gain_exp player amount in
      await? l := io_lift (ok_or out_of_range (try_from_i 32 (pl_level player))) in
      await? e := io_lift (ok_or out_of_range (try_from_i 64 (pl_exp player))) in
      match upd_growth i l e txn with
      | (Err e, _) => io_ret (Err (storage_error e))
      | (Ok _, txn) =>
          await? _ := db (commit txn) in io_ret (Ok (Some (player, level)))
      end
  end.

Definition sea_record_login (i : PlayerId) (at_ : DateTime) : io D (result (option Player) RepoError) :=
  await? rows := db (upd_last_login i at_) in
  io_ret (transpose (player_to_domain <$> head rows)).

Definition sea_register (a : Account) (p : Player) : io D (result unit AppError) :=
  await? txn := (let* r := begin_txn in io_ret (map_err map_error r)) in
  match ins_account (account_to_active a) txn with
  | (Err e, _) => io_ret (Err (map_error e))
  | (Ok _, txn) =>
      match ins_player (player_to_active p) txn with
      | (Err e, _) => io_ret (Err (map_error e))
      | (Ok _, txn) => let* r := commit txn in io_ret (map_err map_error r)
      end
  end.

(* ------------------------------------------------------------------ *)
(** ** What the repositories do to the tables *)

Definition unchanged (d d' : D) : Prop :=
  t_accounts d' = t_accounts d /\ t_players d' = t_players d.

Lemma db_inv {X} (m : io D (result X DbErr)) d r d' :
  db m d = (r, d') -> exists r0, m d = (r0, d') /\ r = map_err storage_error r0.
Proof.
  unfold db. intros (r0 & d1 & Hm & Hr)%io_bind_inv. apply io_ret_inv in Hr as [<- <-]. eauto.
Qed.

(** The two rows of a registration are new and have been added. *)
Definition registered (a : Account) (p : Player) (d d' : D) : Prop :=
  t_accounts d !! acc_id a = None /\ t_players d !! pl_id p = None /\
  (forall i m, t_accounts d !! i = Some m -> ar_username m <> Username.as_str (acc_username a)) /\
  t_accounts d' = <[acc_id a := stamp_account keep_time (account_to_active a)]> (t_accounts d) /\
  t_players d' = <[pl_id p := stamp_player keep_time (player_to_active p)]> (t_players d).

(** The statements of a registration, up to the commit. *)
Definition reaches_commit (a : Account) (p : Player) (d : D) : Prop :=
  exists c d1 c1 c2, begin_txn d = (Ok c, d1) /\ ins_account (account_to_active a) c = (Ok tt, c1) /\
    ins_player (player_to_active p) c1 = (Ok tt, c2).

Lemma sea_register_spec (a : Account) (p : Player) (d d' : D) (r : result unit AppError)
  (Hx : sea_register a p d = (r, d')) :
  match r with
  | Ok _ => registered a p d d'
  | Err e => (unchanged d d' \/
              (exists text, e = Storage text) /\ reaches_commit a p d /\ registered a p d d') /\
             exists err, e = map_error err
  end.
Proof.
  assert (Hid : ar_id (account_to_active a) = acc_id a /\
                ar_username (account_to_active a) = Username.as_str (acc_username a)).
  { unfold account_to_active. by destruct (acc_status a). }
  destruct Hid as [Hid Hun].
  unfold sea_register in Hx.
  apply io_try_inv in Hx as [(c & d1 & Hb & Hx)|(e & Hb & ->)];
    apply io_bind_inv in Hb as (rb & d2 & Hb & Hr); apply io_ret_inv in Hr as [Hr <-];
    pose proof (begin_txn_spec _ _ _ Hb) as (Ha1 & Hp1 & Hc).
  2: { destruct rb; [done|]. injection Hr as <-. unfold unchanged. eauto. }
  destruct rb as [c0|]; [|done]. injection Hr as ->. specialize (Hc c eq_refl) as [Hca Hcp].
  destruct (ins_account _ c) as [r1 c1] eqn:E1. pose proof (ins_account_spec _ _ _ _ E1) as [Hp2 F1].
  destruct r1 as [[]|e1]; [|apply io_ret_inv in Hx as [<- <-]; unfold unchanged; eauto].
  destruct F1 as (Hfa & Hfu & Ha2). rewrite Hid, Hun in *.
  destruct (ins_player _ c1) as [r2 c2] eqn:E2. pose proof (ins_player_spec _ _ _ _ E2) as [Ha3 F2].
  destruct r2 as [[]|e2]; [|apply io_ret_inv in Hx as [<- <-]; unfold unchanged; eauto].
  destruct F2 as (Hfp & _ & Hp3). change (pr_id (player_to_active p)) with (pl_id p) in *.
  apply io_bind_inv in Hx as (r3 & d3 & Hcm & Hx). apply io_ret_inv in Hx as [<- <-].
  assert (Hreg : t_accounts d3 = t_accounts c2 /\ t_players d3 = t_players c2 -> registered a p d d3).
  { unfold registered. intros [-> ->]. rewrite Ha3, Ha2, Hp3, Hp2, Hca, Hcp in *. split_and!; try done.
    intros i m Hm Hn. apply (Hfu i m Hm). rewrite Hn. apply same_name_refl. }
  apply commit_spec in Hcm. destruct r3 as [[]|e3]; cbn [map_err atomically] in *; [by apply Hreg|].
  split; [|eauto]. destruct Hcm as [[Hda Hdp]|[Hu Hcm]]; [left|right].
  - unfold unchanged. by rewrite Hda, Hdp.
  - split; [unfold map_error; rewrite Hu; eauto|]. split; [|by apply Hreg]. unfold reaches_commit. eauto 10.
Qed.

(** C26: Registration in the database is atomic: it succeeds only when the account's
    identifier and name and the player's identifier are new, and then exactly the two
    rows of the aggregates are added; with any error, a violated uniqueness or a lost
    connection at any statement or at the commit, both rows have been added or neither
    table has changed, and neither has unless the failure is the commit's own; the error
    is the database's, as a conflict when it is a violated uniqueness, and then nothing
    was added. *)
Theorem sql_registration_is_atomic (a : Account) (p : Player) (d d' : D) (r : result unit AppError)
  (Hx : sea_register a p d = (r, d')) :
  match r with
  | Ok _ => registered a p d d'
  | Err e => (unchanged d d' \/
              (exists text, e = Storage text) /\ reaches_commit a p d /\ registered a p d d') /\
             exists err, e = map_error err
  end.
Proof. by apply sea_register_spec. Qed.

Lemma player_to_domain_range m p : player_to_domain m = Ok p -> Player.in_range p.
Proof.
  unfold player_to_domain. intros (n & _ & [= <-])%res_bind_ok. unfold Player.in_range. cbn.
  assert (Hu : forall w k, 0 <= w -> is_u w (default 0 (try_from_u w k))).
  { intros w k Hw. pose proof (Z.pow_pos_nonneg 2 w ltac:(lia) Hw). unfold try_from_u, is_u, u_max.
    destruct (_ && _) eqn:E; cbn; [b2p|]; unfold u_max in *; lia. }
  split; apply Hu; lia.
Qed.

(** A row with the growth of a player that fits reads back as that player. *)
Lemma growth_reads_back m p0 l e :
  player_to_domain m = Ok p0 -> is_u 32 l -> is_u 64 e ->
  player_to_domain (with_growth m l e) = Ok (Player.set_growth p0 l e).
Proof.
  unfold player_to_domain. intros (n & Hn & [= <-])%res_bind_ok Hl He.
  cbn [with_growth pr_nickname pr_level pr_exp pr_id pr_account_id pr_last_login_at pr_created_at].
  rewrite Hn. cbn [res_bind]. by rewrite (try_from_u_max 32 l), (try_from_u_max 64 e).
Qed.

(** The repositories report every failure as a storage error. *)
Definition is_storage (e : RepoError) : Prop := exists text, e = RStorage text.

Lemma storage_error_is e : is_storage (storage_error e).
Proof. by exists (de_text e). Qed.

Lemma player_to_domain_err m e : player_to_domain m = Err e -> is_storage e.
Proof.
  unfold player_to_domain. destruct (Nickname.try_new _); cbn [map_err res_bind]; [done|].
  intros [= <-]. by eexists.
Qed.

Lemma try_from_i_err w n e : ok_or out_of_range (try_from_i w n) = Err e -> is_storage e.
Proof. unfold try_from_i. destruct (_ <=? _); [done|]. intros [= <-]. by eexists. Qed.

Lemma try_from_i_ok w n v : ok_or out_of_range (try_from_i w n) = Ok v -> v = n /\ n <= 2 ^ (w - 1) - 1.
Proof. unfold try_from_i. destruct (_ <=? _) eqn:E; [|done]. intros [= <-]. b2p. done. Qed.

(** The row of the player has been read, grown by the aggregate and written back, in its
    two growth columns only and within their range. *)
Definition grown (i : PlayerId) (amount : Z) (p : Player) (l : option Z) (d d' : D) : Prop :=
  exists m p0, t_players d !! i = Some m /\ player_to_domain m = Ok p0 /\
    (p, l) = Player.gain_exp p0 amount /\
    pl_level p <= 2 ^ 31 - 1 /\ pl_exp p <= 2 ^ 63 - 1 /\
    t_players d' = <[i := with_growth m (pl_level p) (pl_exp p)]> (t_players d) /\
    player_to_domain (with_growth m (pl_level p) (pl_exp p)) = Ok p.

Lemma grown_intro i amount p l m p0 d d' :
  is_u 64 amount -> t_players d !! i = Some m -> player_to_domain m = Ok p0 ->
  Player.gain_exp p0 amount = (p, l) -> pl_level p <= 2 ^ (32 - 1) - 1 -> pl_exp p <= 2 ^ (64 - 1) - 1 ->
  t_players d' = <[i := with_growth m (pl_level p) (pl_exp p)]> (t_players d) ->
  grown i amount p l d d'.
Proof.
  intros Ham Hm Hd Eg Hl He Ht. pose proof (player_to_domain_range m p0 Hd) as Hr0.
  destruct (Player.gain_exp_spec _ _ _ _ Hr0 Ham Eg) as (Hp & [Hlu Heu] & _).
  exists m, p0. split_and!; try done.
  rewrite (growth_reads_back m p0) by done. by rewrite <- Hp.
Qed.

Lemma sea_gain_exp_spec (i : PlayerId) (amount : Z) (d d' : D)
  (r : result (option (Player * option Z)) RepoError)
  (Ham : is_u 64 amount) (Hx : sea_gain_exp i amount d = (r, d')) :
  t_accounts d' = t_accounts d /\
  match r with
  | Ok (Some (p, l)) => grown i amount p l d d'
  | Ok None => t_players d !! i = None /\ t_players d' = t_players d
  | Err e => is_storage e /\
             (t_players d' = t_players d \/ exists p l, grown i amount p l d d')
  end.
Proof.
  unfold sea_gain_exp in Hx.
  apply io_try_inv in Hx as [(c & d1 & Hb & Hx)|(e & Hb & ->)];
    apply db_inv in Hb as (rb & Hb & Hr); apply begin_txn_spec in Hb as (Ha1 & Hp1 & Hc).
  2: { destruct rb; [done|]. injection Hr as ->. auto using storage_error_is. }
  destruct rb as [c0|]; [|done]. injection Hr as <-. specialize (Hc c eq_refl) as [Hca Hcp].
  destruct (sel_player_by_id i c) as [rs c1] eqn:Es.
  apply sel_player_by_id_spec in Es as (Ha2 & Hp2 & Hsel).
  destruct rs as [[m|]|e]; [|apply io_ret_inv in Hx as [<- <-]|apply io_ret_inv in Hx as [<- <-]; by eauto using storage_error_is, player_to_domain_err, try_from_i_err].
  2: { specialize (Hsel _ eq_refl). rewrite Hcp in Hsel. done. }
  specialize (Hsel _ eq_refl). rewrite Hcp in Hsel.
  apply io_try_inv in Hx as [(p0 & d2 & Hd & Hx)|(e & Hd & ->)];
    unfold io_lift in Hd; apply io_ret_inv in Hd as [Hd <-]; [|by eauto using player_to_domain_err].
  destruct (Player.gain_exp p0 amount) as [p l] eqn:Eg.
  apply io_try_inv in Hx as [(lv & d3 & Hlv & Hx)|(e & Hlv & ->)];
    unfold io_lift in Hlv; apply io_ret_inv in Hlv as [Hlv <-]; [|by eauto using storage_error_is, player_to_domain_err, try_from_i_err].
  apply io_try_inv in Hx as [(ex & d4 & Hex & Hx)|(e & Hex & ->)];
    unfold io_lift in Hex; apply io_ret_inv in Hex as [Hex <-]; [|by eauto using storage_error_is, player_to_domain_err, try_from_i_err].
  apply try_from_i_ok in Hlv as [-> Hlb]. apply try_from_i_ok in Hex as [-> Heb].
  destruct (upd_growth i _ _ c1) as [ru c2] eqn:Eu. apply upd_growth_spec in Eu as [Ha3 Hu].
  destruct ru as [[]|e]; [|apply io_ret_inv in Hx as [<- <-]; by eauto using storage_error_is, player_to_domain_err, try_from_i_err].
  destruct Hu as (m' & Hm' & Hp3). rewrite Hp2, Hcp, <- Hsel in Hm'. injection Hm' as <-.
  assert (Hg : forall d', t_players d' = t_players c2 -> grown i amount p l d d').
  { intros d0 Hd0. apply (grown_intro i amount p l m p0); try done.
    by rewrite Hd0, Hp3, Hp2, Hcp. }
  apply io_try_inv in Hx as [([] & d5 & Hcm & Hx)|(e & Hcm & ->)];
    apply db_inv in Hcm as (rc & Hcm & Hr); apply commit_spec in Hcm; destruct rc; try done; injection Hr as Hr.
  - apply io_ret_inv in Hx as [<- <-]. destruct Hcm as [Hda Hdp]. split; [congruence|by apply Hg].
  - rewrite Hr. destruct Hcm as [[Hda Hdp]|(_ & Hda & Hdp)]; (split; [congruence|]);
      (split; [apply storage_error_is|]); [left; congruence|right; eauto].
Qed.

(** Granting experience in the database is one transaction: on success the locked
    row was read, the aggregate's result was written to its two growth columns and
    nothing else, and the row reads back as the player that is returned; a missing
    player changes nothing; with an error either nothing changes or, when the commit
    itself failed after it took effect, that same write happened, never a part of it and
    never one whose experience does not fit the signed column. *)
Theorem sql_gain_exp_is_transactional (i : PlayerId) (amount : Z) (d d' : D)
  (r : result (option (Player * option Z)) RepoError)
  (Ham : is_u 64 amount) (Hx : sea_gain_exp i amount d = (r, d')) :
  t_accounts d' = t_accounts d /\
  match r with
  | Ok (Some (p, l)) => grown i amount p l d d'
  | Ok None => t_players d !! i = None /\ t_players d' = t_players d
  | Err e => is_storage e /\
             (t_players d' = t_players d \/ exists p l, grown i amount p l d d')
  end.
Proof. by apply sea_gain_exp_spec. Qed.

End Repositories.

(* ------------------------------------------------------------------ *)
(** ** Two tables in memory, to run the repositories *)

Module SqlDemo.

Record Tables := mkTables { tb_accounts : gmap Z account_row; tb_players : gmap Z player_row }.
Definition duplicate : DbErr := mkDbErr (lit "duplicate key") true.
Definition missing : DbErr := mkDbErr (lit "record not updated") false.

Definition find_by {R} (f : R -> bool) (t : gmap Z R) : option R :=
  snd <$> list_find (fun r => f r = true) (snd <$> map_to_list t).

Lemma find_by_some {R} (f : R -> bool) t (r : R) :
  find_by f t = Some r -> f r = true /\ exists i, t !! i = Some r.
Proof.
  unfold find_by. destruct (list_find _ _) as [[k q]|] eqn:E; simpl; [|done]. intros [= <-].
  apply list_find_Some in E as (Hl & Hf & _). split; [done|].
  apply list_elem_of_lookup_2 in Hl. apply list_elem_of_fmap in Hl as ([i x] & -> & Hin).
  exists i. by apply elem_of_map_to_list.
Qed.

Lemma find_by_none {R} (f : R -> bool) t :
  find_by f t = None -> forall i (r : R), t !! i = Some r -> f r = false.
Proof.
  unfold find_by. destruct (list_find _ _) eqn:E; simpl; [done|]. intros _ i r Hr.
  apply list_find_None in E. rewrite Forall_forall in E.
  assert (Hn : f r <> true); [|by destruct (f r)].
  apply E, list_elem_of_fmap. exists (i, r). split; [done|]. by apply elem_of_map_to_list.
Qed.

Definition has_name (u : rstr) (m : account_row) : bool := 
  bool_decide (to_ascii_lowercase (ar_username m) = to_ascii_lowercase u).
Definition of_account (i : Z) (m : player_row) : bool := pr_account_id m =? i.

Definition t_ins_account (m : account_row) : io Tables (result unit DbErr) := fun t =>
  match tb_accounts t !! ar_id m, find_by (has_name (ar_username m)) (tb_accounts t) with
  | None, None =>
      (Ok tt, mkTables (<[ar_id m := stamp_account (fun x => x) m]> (tb_accounts t)) (tb_players t))
  | _, _ => (Err duplicate, t)
  end.
Definition orphan : DbErr := mkDbErr (lit "violates foreign key constraint") false.
Definition has_account (t : Tables) (m : player_row) : bool :=
  bool_decide (is_Some (tb_accounts t !! pr_account_id m)).

Definition t_ins_player (m : player_row) : io Tables (result unit DbErr) := fun t =>
  if negb (has_account t m) then (Err orphan, t) else
  match tb_players t !! pr_id m with
  | None => (Ok tt, mkTables (tb_accounts t) (<[pr_id m := stamp_player (fun x => x) m]> (tb_players t)))
  | Some _ => (Err duplicate, t)
  end.
Definition t_upd_account (m : account_row) : io Tables (result unit DbErr) := fun t =>
  match tb_accounts t !! ar_id m with
  | Some _ => (Ok tt, mkTables (<[ar_id m := stamp_account (fun x => x) m]> (tb_accounts t)) (tb_players t))
  | None => (Err missing, t)
  end.

Definition t_upd_player (m : player_row) : io Tables (result unit DbErr) := fun t =>
  if negb (has_account t m) then (Err orphan, t) else
  match tb_players t !! pr_id m with
  | Some _ => (Ok tt, mkTables (tb_accounts t) (<[pr_id m := stamp_player (fun x => x) m]> (tb_players t)))
  | None => (Err missing, t)
  end.

Definition t_upd_growth (i l e : Z) : io Tables (result unit DbErr) := fun t =>
  match tb_players t !! i with
  | Some m => (Ok tt, mkTables (tb_accounts t) (<[i := with_growth m l e]> (tb_players t)))
  | None => (Err missing, t)
  end.
Definition t_upd_last_login (i : Z) (at_ : DateTime) : io Tables (result (list player_row) DbErr) := fun t =>
  match tb_players t !! i with
  | Some m => (Ok [with_login m at_], mkTables (tb_accounts t) (<[i := with_login m at_]> (tb_players t)))
  | None => (Ok [], t)
  end.

#[program] Definition tables_db : Sql Tables := {|
  t_accounts := tb_accounts; t_players := tb_players; keep_time := fun x => x;
  same_name u v := to_ascii_lowercase u = to_ascii_lowercase v;
  sel_account_by_id i := fun t => (Ok (tb_accounts t !! i), t);
  sel_account_by_username u := fun t => (Ok (find_by (has_name u) (tb_accounts t)), t);
  ins_account := t_ins_account;
  upd_account := t_upd_account;
  sel_player_by_id i := fun t => (Ok (tb_players t !! i), t);
  sel_player_by_account i := fun t => (Ok (find_by (of_account i) (tb_players t)), t);
  ins_player := t_ins_player;
  upd_player := t_upd_player;
  upd_growth := t_upd_growth; upd_last_login := t_upd_last_login;
  begin_txn := fun t => (Ok t, t); commit c := fun _ => (Ok tt, c)
|}.
Next Obligation. done. Qed.
Next Obligation. by intros. Qed.
Next Obligation. intros i d r d' [= <- <-]. split_and!; try done. by intros o [= <-]. Qed.
Next Obligation.
  intros u d r d' [= <- <-]. split_and!; try done.
  - intros m [= H]. apply find_by_some in H as [Hf ?]. unfold has_name in Hf. b2p. eauto.
  - intros [= H] i m Hm. apply (find_by_none _ _ H) in Hm. unfold has_name in Hm. by b2p.
Qed.
Next Obligation. intros i d r d' [= <- <-]. split_and!; try done. by intros o [= <-]. Qed.
Next Obligation.
  intros i d r d' [= <- <-]. split_and!; try done.
  - intros m [= H]. apply find_by_some in H as [Hf ?]. unfold of_account in Hf. b2p. eauto.
  - intros [= H] j m Hm. apply (find_by_none _ _ H) in Hm. unfold of_account in Hm. by b2p.
Qed.
Next Obligation.
  intros m d r d'. unfold t_ins_account.
  destruct (tb_accounts d !! ar_id m) eqn:E1; [by intros [= <- <-]; cbn; auto|].
  destruct (find_by _ _) eqn:E2; intros [= <- <-]; [by cbn; auto|]. cbn. split_and!; try done.
  intros i n Hn. apply (find_by_none _ _ E2) in Hn. unfold has_name in Hn. by b2p.
Qed.
Next Obligation.
  intros m d r d'. unfold t_upd_account. destruct (tb_accounts d !! ar_id m) eqn:E; intros [= <- <-]; cbn; eauto.
Qed.
Next Obligation.
  intros m d r d'. unfold t_ins_player, has_account.
  case_bool_decide; cbn [negb]; [|intros [= <- <-]; cbn; auto].
  destruct (tb_players d !! pr_id m) eqn:E; intros [= <- <-]; cbn; auto.
Qed.
Next Obligation.
  intros m d r d'. unfold t_upd_player, has_account.
  case_bool_decide; cbn [negb]; [|intros [= <- <-]; cbn; auto].
  destruct (tb_players d !! pr_id m) eqn:E; intros [= <- <-]; cbn; eauto.
Qed.
Next Obligation.
  intros i l e d r d'. unfold t_upd_growth. destruct (tb_players d !! i) as [m|] eqn:E; intros [= <- <-]; cbn; eauto.
Qed.
Next Obligation.
  intros i a d r d'. unfold t_upd_last_login. by destruct (tb_players d !! i) as [m|] eqn:E; intros [= <- <-].
Qed.
Next Obligation. intros d r d' [= <- <-]. split_and!; try done. by intros c [= <-]. Qed.
Next Obligation. by intros c d r d' [= <- <-]. Qed.

#[local] Existing Instance tables_db.
#[local] Existing Instance hex_uuid.

Definition alice : Account :=
  Account.mkAccount 1 (Username.mk (lit "alice")) (PasswordHash.new (lit "h")) (Banned (lit "spam") (Some 99)) 5.
Definition alice_player : Player :=
  mkPlayer 2 1 (Nickname.mk (lit "爱丽丝")) 1 0 None 6.
Definition db1 : Tables := snd (sea_register alice alice_player (mkTables ∅ ∅)).
Definition db2 : Tables := snd (sea_gain_exp 2 350 db1).

Lemma sql_registration_is_atomic_witness :
  fst (sea_register alice alice_player db1) = Err (Conflict (lit "注册数据已存在")) /\
  t_players db1 = {[2 := player_to_active alice_player]}.
Proof.
  assert (H := sql_registration_is_atomic alice alice_player (mkTables ∅ ∅) db1 (Ok tt)).
  split; [vm_compute; reflexivity|].
  refine (proj2 (proj2 (proj2 (proj2 (H _))))). vm_compute. reflexivity.
Defined.

Lemma sql_gain_exp_is_transactional_witness :
  exists m p0, t_players db1 !! 2 = Some m /\ player_to_domain m = Ok p0 /\
    t_players db2 = <[2 := with_growth m 3 50]> (t_players db1).
Proof.
  destruct (sql_gain_exp_is_transactional 2 350 db1 db2
    (Ok (Some (mkPlayer 2 1 (Nickname.mk (lit "爱丽丝")) 3 50 None 6, Some 3)))) as [_ H].
  - unfold is_u, u_max. lia.
  - vm_compute. reflexivity.
  - destruct H as (m & p0 & Hm & Hp & _ & _ & _ & Ht & _). exists m, p0. split; [exact Hm|]. split; [exact Hp|exact Ht].
Defined.

Lemma rows_roundtrip_witness :
  account_to_domain (account_to_active alice) = Ok alice /\
  player_to_domain (player_to_active (Player.set_growth alice_player 1 (2 ^ 63))) =
    Ok (Player.set_growth alice_player 1 (2 ^ 63 - 1)).
Proof.
  destruct (rows_roundtrip alice (Player.set_growth alice_player 1 (2 ^ 63))) as (Ha & Hp & _).
  - split; [vm_compute; lia|]. repeat constructor; vm_compute; intuition discriminate.
  - split; [vm_compute; lia|]. split; [vm_compute; reflexivity|]. repeat constructor; reflexivity.
  - vm_compute. split; discriminate.
  - vm_compute. split; discriminate.
  - split; [exact Ha|exact Hp].
Defined.

End SqlDemo.
