(* ===== verification/SqlStore.v ===== *)
(** The SeaORM repositories of [SqlRepos] keep the contract of the ports: over any
    database that keeps the laws of [Sql] they are an instance of [Repositories], so what
    is proved of the use cases and of the gateway against the ports holds of them.

    A database is well-formed when every row is one the repositories wrote (the row of a
    valid aggregate, filed under its identifier) and every player's account exists. *)
From S2P Require Import Prelude Text Values Account Player App SqlRepos.
From Stdlib Require Import Strings.String.
Open Scope Z_scope.
Open Scope list_scope.
Open Scope rust_scope.
Abbreviation length := Datatypes.length.

Section SqlStore.
Context {D : Type} `{HD : Sql D} `{HU : UuidFmt}.

Definition ok_of {T E} (r : result T E) : option T := match r with Ok v => Some v | Err _ => None end.

Definition sql_accounts (d : D) : gmap Z Account := omap (fun m => ok_of (account_to_domain m)) (t_accounts d).
Definition sql_players (d : D) : gmap Z Player := omap (fun m => ok_of (player_to_domain m)) (t_players d).

(** Numbers a player's columns hold as they are. *)
Definition fits (p : Player) : Prop :=
  Nickname.valid (pl_nickname p) /\ 0 <= pl_level p <= 2 ^ 31 - 1 /\ 0 <= pl_exp p <= 2 ^ 63 - 1.
Definition account_of (i : Z) (m : account_row) : Prop :=
  exists a, m = account_to_active a /\ acc_id a = i /\ Username.valid (acc_username a).
Definition player_of (i : Z) (m : player_row) : Prop :=
  exists p, m = player_to_active p /\ pl_id p = i /\ fits p.

Record sql_wf (d : D) : Prop := mkSqlWf {
  sw_accounts : map_Forall account_of (t_accounts d);
  sw_players : map_Forall player_of (t_players d);
  sw_owner : forall i m, t_players d !! i = Some m -> is_Some (t_accounts d !! pr_account_id m)
}.

(* ------------------------------------------------------------------ *)
(** ** Rows as aggregates *)

Lemma fits_roundtrip p : fits p -> player_to_domain (player_to_active p) = Ok p.
Proof.
  intros (Hn & Hl & He). rewrite player_roundtrip; [|done|unfold is_u, u_max; lia|unfold is_u, u_max; lia].
  f_equal. unfold clamp, Player.set_growth. destruct p. cbn in *. f_equal; lia.
Qed.

Lemma account_of_domain i m : account_of i m ->
  exists a, m = account_to_active a /\ acc_id a = i /\ Username.valid (acc_username a) /\ account_to_domain m = Ok a.
Proof. intros (a & -> & Hi & Hv). exists a. by rewrite account_roundtrip. Qed.

Lemma player_of_domain i m : player_of i m ->
  exists p, m = player_to_active p /\ pl_id p = i /\ fits p /\ player_to_domain m = Ok p.
Proof. intros (p & -> & Hi & Hf). exists p. by rewrite fits_roundtrip. Qed.

Lemma sql_accounts_lookup d i a :
  sql_accounts d !! i = Some a <-> exists m, t_accounts d !! i = Some m /\ account_to_domain m = Ok a.
Proof.
  unfold sql_accounts. rewrite lookup_omap_Some. split.
  - intros (m & Hm & Hi). exists m. split; [done|]. destruct (account_to_domain m); [|done]. cbn in Hm. congruence.
  - intros (m & Hi & Hm). exists m. by rewrite Hm.
Qed.

Lemma sql_players_lookup d i p :
  sql_players d !! i = Some p <-> exists m, t_players d !! i = Some m /\ player_to_domain m = Ok p.
Proof.
  unfold sql_players. rewrite lookup_omap_Some. split.
  - intros (m & Hm & Hi). exists m. split; [done|]. destruct (player_to_domain m); [|done]. cbn in Hm. congruence.
  - intros (m & Hi & Hm). exists m. by rewrite Hm.
Qed.

Lemma sql_players_none d i : sql_wf d -> sql_players d !! i = None <-> t_players d !! i = None.
Proof.
  intros Hwf. unfold sql_players. rewrite lookup_omap. destruct (t_players d !! i) as [m|] eqn:Em; [|done]. cbn.
  destruct (player_of_domain i m) as (p & _ & _ & _ & ->); [|done]. by apply (sw_players _ Hwf).
Qed.

Lemma sql_accounts_none d i : sql_wf d -> sql_accounts d !! i = None <-> t_accounts d !! i = None.
Proof.
  intros Hwf. unfold sql_accounts. rewrite lookup_omap. destruct (t_accounts d !! i) as [m|] eqn:Em; [|done]. cbn.
  destruct (account_of_domain i m) as (a & _ & _ & _ & ->); [|done]. by apply (sw_accounts _ Hwf).
Qed.

(** A well-formed row, read from the table. *)
Lemma player_at d i m : sql_wf d -> t_players d !! i = Some m ->
  exists p, m = player_to_active p /\ pl_id p = i /\ fits p /\ player_to_domain m = Ok p /\
            sql_players d !! i = Some p.
Proof.
  intros Hwf Hm. destruct (player_of_domain i m) as (p & ? & ? & ? & ?); [by apply (sw_players _ Hwf)|].
  exists p. split_and!; try done. apply sql_players_lookup. eauto.
Qed.

Lemma account_at d i m : sql_wf d -> t_accounts d !! i = Some m ->
  exists a, m = account_to_active a /\ acc_id a = i /\ Username.valid (acc_username a) /\
            account_to_domain m = Ok a /\ sql_accounts d !! i = Some a.
Proof.
  intros Hwf Hm. destruct (account_of_domain i m) as (a & ? & ? & ? & ?); [by apply (sw_accounts _ Hwf)|].
  exists a. split_and!; try done. apply sql_accounts_lookup. eauto.
Qed.

(** Statements that leave the tables alone. *)
Lemma same_tables d d' : t_accounts d' = t_accounts d -> t_players d' = t_players d -> sql_wf d ->
  sql_wf d' /\ sql_accounts d' = sql_accounts d /\ sql_players d' = sql_players d.
Proof.
  intros Ha Hp [H1 H2 H3]. unfold sql_accounts, sql_players. rewrite Ha, Hp.
  split; [|done]. constructor; by rewrite ?Ha, ?Hp.
Qed.

(** Writing one player's row, of a player that fits and keeps its account. *)
Lemma write_player d d' i p0 p :
  sql_wf d -> sql_players d !! i = Some p0 -> pl_id p = i -> pl_account_id p = pl_account_id p0 -> fits p ->
  t_accounts d' = t_accounts d -> t_players d' = <[i := player_to_active p]> (t_players d) ->
  sql_wf d' /\ sql_accounts d' = sql_accounts d /\ sql_players d' = <[i := p]> (sql_players d).
Proof.
  intros Hwf Hp0 Hi Hacc Hf Ha Hp. destruct Hwf as [H1 H2 H3] eqn:Hw. split; [|split].
  - constructor; rewrite ?Ha, ?Hp; [done| |].
    + apply map_Forall_insert_2; [|done]. by exists p.
    + intros j m [[<- <-]|[_ Hm]]%lookup_insert_Some; [|by eapply H3].
      apply sql_players_lookup in Hp0 as (m0 & Hm0 & Hd).
      destruct (player_at d i m0 Hwf Hm0) as (q & -> & _ & _ & Hq & _). rewrite Hq in Hd. injection Hd as ->.
      cbn. rewrite Hacc. by apply (H3 _ _ Hm0).
  - unfold sql_accounts. by rewrite Ha.
  - unfold sql_players. rewrite Hp. rewrite (omap_insert_Some _ _ _ _ p); [done|]. by rewrite fits_roundtrip.
Qed.

(** Names of valid user names are equal in the column only if they are equal. *)
Lemma same_valid_name u v :
  Username.valid u -> Username.valid v -> same_name (Username.as_str u) (Username.as_str v) -> u = v.
Proof.
  intros Hu Hv Hs. apply Username.as_str_inj.
  assert (Hn : forall w, Username.valid w ->
    Forall (fun c => 0 <= c < 0x80) (Username.as_str w) /\
    to_ascii_lowercase (Username.as_str w) = Username.as_str w).
  { intros w [_ Hw]. split.
    - eapply Forall_impl; [exact Hw|]. intros c Hc. cbn beta.
      destruct (Username.normal_char_allowed c Hc) as [Hal _]. by apply Username.allowed_ascii in Hal as [? _].
    - unfold to_ascii_lowercase. rewrite <- (map_id (Username.as_str w)) at 2. apply map_ext_Forall.
      eapply Forall_impl; [exact Hw|]. intros c Hc. by destruct (Username.normal_char_allowed c Hc). }
  destruct (Hn u Hu) as [Hu1 Hu2]. destruct (Hn v Hv) as [Hv1 Hv2].
  pose proof (same_name_ascii _ _ Hu1 Hv1 Hs) as He. by rewrite Hu2, Hv2 in He.
Qed.

(* ------------------------------------------------------------------ *)
(** ** The operations *)

Lemma transpose_read {M A} (conv : M -> result A RepoError) (m : option M) o :
  transpose (conv <$> m) = Ok o -> match m with
                                   | Some row => exists a, o = Some a /\ conv row = Ok a
                                   | None => o = None
                                   end.
Proof. destruct m as [row|]; cbn; [destruct (conv row); [|done]|]; intros [= <-]; eauto. Qed.

(** A read that answers leaves the tables alone and converts the row it found. *)
Lemma read_inv {M A} (sel : io D (result (option M) DbErr)) (conv : M -> result A RepoError) d r d' :
  (await? m := db sel in io_ret (transpose (conv <$> m))) d = (r, d') ->
  exists rm, sel d = (rm, d') /\
    forall o, r = Ok o -> exists m, rm = Ok m /\ transpose (conv <$> m) = Ok o.
Proof.
  intros Hx. apply io_try_inv in Hx as [(m & d1 & Hs & Hx)|(e & Hs & ->)]; apply db_inv in Hs as (rm & Hs & Hr).
  - apply io_ret_inv in Hx as [<- <-]. exists rm. split; [done|]. intros o Ho. exists m.
    split; [by destruct rm; simplify_eq/=|done].
  - exists rm. split; [done|]. intros o [=].
Qed.

Lemma sea_find_account_spec i d r d' :
  sql_wf d -> sea_find_account i d = (r, d') ->
  sql_wf d' /\ sql_accounts d' = sql_accounts d /\ sql_players d' = sql_players d /\
  (forall o, r = Ok o -> o = sql_accounts d !! i).
Proof.
  intros Hwf (rm & Hs & Ho)%read_inv. apply sel_account_by_id_spec in Hs as (Ha & Hp & Hrow).
  destruct (same_tables d d') as (? & ? & ?); try done. split_and!; try done.
  intros o (m & -> & Hm)%Ho. specialize (Hrow m eq_refl). apply transpose_read in Hm. destruct m as [m|].
  - destruct Hm as (a & -> & Hm). symmetry. apply sql_accounts_lookup. eauto.
  - subst o. symmetry. by apply sql_accounts_none.
Qed.

Lemma sea_find_player_spec i d r d' :
  sql_wf d -> sea_find_player i d = (r, d') ->
  sql_wf d' /\ sql_accounts d' = sql_accounts d /\ sql_players d' = sql_players d /\
  (forall o, r = Ok o -> o = sql_players d !! i).
Proof.
  intros Hwf (rm & Hs & Ho)%read_inv. apply sel_player_by_id_spec in Hs as (Ha & Hp & Hrow).
  destruct (same_tables d d') as (? & ? & ?); try done. split_and!; try done.
  intros o (m & -> & Hm)%Ho. specialize (Hrow m eq_refl). apply transpose_read in Hm. destruct m as [m|].
  - destruct Hm as (p & -> & Hm). symmetry. apply sql_players_lookup. eauto.
  - subst o. symmetry. by apply sql_players_none.
Qed.

Lemma sea_find_by_username_spec u d r d' :
  sql_wf d -> Username.valid u -> sea_find_by_username (Username.as_str u) d = (r, d') ->
  sql_wf d' /\ sql_accounts d' = sql_accounts d /\ sql_players d' = sql_players d /\
  match r with
  | Ok (Some a) => acc_username a = u /\ sql_accounts d !! acc_id a = Some a
  | Ok None => forall i a, sql_accounts d !! i = Some a -> acc_username a <> u
  | Err _ => True
  end.
Proof.
  intros Hwf Hu (rm & Hs & Ho)%read_inv. apply sel_account_by_username_spec in Hs as (Ha & Hp & Hsome & Hnone).
  destruct (same_tables d d') as (? & ? & ?); try done. split_and!; try done.
  destruct r as [o|]; [|done]. destruct (Ho o eq_refl) as (m & -> & Hm). apply transpose_read in Hm.
  destruct m as [m|].
  - destruct Hm as (a & -> & Hm). destruct (Hsome m eq_refl) as [Hn (i & Hi)].
    destruct (account_at d i m Hwf Hi) as (b & -> & Hid & Hv & Hd & Hview). rewrite Hd in Hm. injection Hm as ->.
    rewrite Hid. split; [|done]. apply same_valid_name; [done|done|].
    revert Hn. unfold account_to_active. by destruct (acc_status a).
  - subst o. intros i a Hi Hn. apply sql_accounts_lookup in Hi as (m & Hi & Hd).
    destruct (account_at d i m Hwf Hi) as (b & -> & _ & _ & Hd' & _). rewrite Hd' in Hd. injection Hd as ->.
    apply (Hnone eq_refl i _ Hi). rewrite <- Hn. unfold account_to_active.
    destruct (acc_status a); apply same_name_refl.
Qed.

Lemma sea_find_by_account_spec i d r d' :
  sql_wf d -> sea_find_by_account i d = (r, d') ->
  sql_wf d' /\ sql_accounts d' = sql_accounts d /\ sql_players d' = sql_players d /\
  match r with
  | Ok (Some p) => pl_account_id p = i /\ sql_players d !! pl_id p = Some p
  | Ok None => forall j p, sql_players d !! j = Some p -> pl_account_id p <> i
  | Err _ => True
  end.
Proof.
  intros Hwf (rm & Hs & Ho)%read_inv. apply sel_player_by_account_spec in Hs as (Ha & Hp & Hsome & Hnone).
  destruct (same_tables d d') as (? & ? & ?); try done. split_and!; try done.
  destruct r as [o|]; [|done]. destruct (Ho o eq_refl) as (m & -> & Hm). apply transpose_read in Hm.
  destruct m as [m|].
  - destruct Hm as (p & -> & Hm). destruct (Hsome m eq_refl) as [Hn (j & Hj)].
    destruct (player_at d j m Hwf Hj) as (q & -> & Hid & Hf & Hd & Hview). rewrite Hd in Hm. injection Hm as ->.
    by rewrite Hid.
  - subst o. intros j p Hj. apply sql_players_lookup in Hj as (m & Hj & Hd).
    destruct (player_at d j m Hwf Hj) as (q & -> & _ & _ & Hd' & _). rewrite Hd' in Hd. injection Hd as ->.
    by apply (Hnone eq_refl j _ Hj).
Qed.

(** A row that grew is the row of the player that grew. *)
Lemma with_growth_active p l e :
  l <= 2 ^ 31 - 1 -> e <= 2 ^ 63 - 1 ->
  with_growth (player_to_active p) l e = player_to_active (Player.set_growth p l e).
Proof.
  intros Hl He. unfold with_growth, player_to_active, Player.set_growth. cbn.
  unfold try_from_i. rewrite !(proj2 (Z.leb_le _ _)) by done. done.
Qed.

Lemma grown_view i amount p l d d' :
  sql_wf d -> is_u 64 amount -> t_accounts d' = t_accounts d -> grown i amount p l d d' ->
  sql_wf d' /\ sql_accounts d' = sql_accounts d /\
  exists p0, sql_players d !! i = Some p0 /\ (p, l) = Player.gain_exp p0 amount /\
             sql_players d' = <[i := p]> (sql_players d).
Proof.
  intros Hwf Ham Ha (m & p0 & Hm & Hd & Hg & Hl & He & Hp & _).
  destruct (player_at d i m Hwf Hm) as (q & -> & Hid & (Hn & Hql & Hqe) & Hd' & Hview).
  rewrite Hd' in Hd. injection Hd as ->.
  destruct (Player.gain_exp_spec p0 amount p l) as (Hp' & [Hlu Heu] & _);
    [split; unfold is_u, u_max; lia|done|done|]. rewrite Hp' in Hp.
  rewrite with_growth_active in Hp by (by rewrite <- Hp'). rewrite <- Hp' in Hp.
  destruct (write_player d d' i p0 p) as (? & ? & ?); try done; try (by rewrite Hp').
  { unfold fits. split; [by rewrite Hp'|]. unfold is_u in *. lia. }
  split_and!; try done. by exists p0.
Qed.

Lemma sea_gain_view i amount d r d' :
  sql_wf d -> is_u 64 amount -> sea_gain_exp i amount d = (r, d') ->
  sql_wf d' /\ sql_accounts d' = sql_accounts d /\
  let done p l :=
    exists p0, sql_players d !! i = Some p0 /\ (p, l) = Player.gain_exp p0 amount /\
               sql_players d' = <[i := p]> (sql_players d) in
  match r with
  | Ok (Some (p, l)) => done p l
  | Ok None => sql_players d !! i = None /\ sql_players d' = sql_players d
  | Err e => sql_players d' = sql_players d \/ (exists text, e = RStorage text) /\ exists p l, done p l
  end.
Proof.
  intros Hwf Ham Hx. apply sea_gain_exp_spec in Hx as [Ha Hr]; [|done].
  assert (Hsame : t_players d' = t_players d ->
    sql_wf d' /\ sql_accounts d' = sql_accounts d /\ sql_players d' = sql_players d) by (intros; by apply same_tables).
  destruct r as [[[p l]|]|e]; cbv beta zeta iota.
  - by apply (grown_view i amount p l d d') in Hr.
  - destruct Hr as [Hn Hp]. destruct (Hsame Hp) as (? & ? & ?). split_and!; try done. by apply sql_players_none.
  - destruct Hr as [Hst [Hp|(p & l & Hg)]].
    + destruct (Hsame Hp) as (? & ? & ?). auto.
    + apply (grown_view i amount p l d d') in Hg as (? & ? & ?); try done. split_and!; try done. right. eauto.
Qed.

Lemma sea_record_login_spec i at_ d r d' :
  sql_wf d -> sea_record_login i at_ d = (r, d') ->
  sql_wf d' /\ sql_accounts d' = sql_accounts d /\
  let done p :=
    exists p0, sql_players d !! i = Some p0 /\ p = Player.record_login p0 (keep_time at_) /\
               sql_players d' = <[i := p]> (sql_players d) in
  match r with
  | Ok (Some p) => done p
  | Ok None => sql_players d !! i = None /\ sql_players d' = sql_players d
  | Err e => sql_players d' = sql_players d \/ (exists text, e = RStorage text) /\ exists p, done p
  end.
Proof.
  intros Hwf Hx. unfold sea_record_login in Hx.
  assert (Hwrite : forall m, t_players d !! i = Some m -> t_accounts d' = t_accounts d ->
    t_players d' = <[i := with_login m (keep_time at_)]> (t_players d) ->
    exists p0, sql_wf d' /\ sql_accounts d' = sql_accounts d /\ sql_players d !! i = Some p0 /\
      player_to_domain (with_login m (keep_time at_)) = Ok (Player.record_login p0 (keep_time at_)) /\
      sql_players d' = <[i := Player.record_login p0 (keep_time at_)]> (sql_players d)).
  { intros m Hm Ha Hp. destruct (player_at d i m Hwf Hm) as (p0 & -> & Hid & Hf & _ & Hview). exists p0.
    change (with_login (player_to_active p0) (keep_time at_))
      with (player_to_active (Player.record_login p0 (keep_time at_))) in *.
    destruct (write_player d d' i p0 (Player.record_login p0 (keep_time at_))) as (? & ? & ?); try done.
    split_and!; try done. by apply fits_roundtrip. }
  apply io_try_inv in Hx as [(rows & d1 & Hs & Hx)|(e & Hs & ->)]; apply db_inv in Hs as (rm & Hs & Hr);
    apply upd_last_login_spec in Hs as [Ha Hs].
  - apply io_ret_inv in Hx as [<- <-]. destruct rm as [rows'|]; [|done]. injection Hr as ->.
    destruct (t_players d !! i) as [m|] eqn:Em.
    + destruct Hs as [-> Hp]. destruct (Hwrite m eq_refl Ha Hp) as (p0 & ? & ? & ? & Hd & ?).
      cbn [head fmap option_fmap option_map transpose]. rewrite Hd. cbn. split_and!; try done. by exists p0.
    + destruct Hs as [-> Hp]. destruct (same_tables d d1) as (? & ? & ?); try done. cbn.
      split_and!; try done. by apply sql_players_none.
  - cbv beta zeta iota. destruct rm as [|e']; [done|]. injection Hr as ->. destruct (t_players d !! i) as [m|] eqn:Em.
    + destruct Hs as [Hp|Hp].
      * destruct (same_tables d d') as (? & ? & ?); try done. auto.
      * destruct (Hwrite m eq_refl Ha Hp) as (p0 & ? & ? & ? & _ & ?). split_and!; try done.
        right. split; [by eexists|]. eexists _, p0. done.
    + destruct (same_tables d d') as (? & ? & ?); try done. auto.
Qed.

Lemma registered_view a p d d' :
  sql_wf d -> registrable a p -> registered a p d d' ->
  sql_wf d' /\
  sql_accounts d !! acc_id a = None /\ sql_players d !! pl_id p = None /\
  (forall i b, sql_accounts d !! i = Some b -> acc_username b <> acc_username a) /\
  (forall i q, sql_players d !! i = Some q -> pl_account_id q <> pl_account_id p) /\
  sql_accounts d' = <[acc_id a := account_kept keep_time a]> (sql_accounts d) /\
  sql_players d' = <[pl_id p := player_kept keep_time p]> (sql_players d).
Proof.
  intros Hwf (Hv & Hst & Hn & Hown & Hl & He) (Hfa & Hfp & Hfu & Ha & Hp).
  assert (Hsa : stamp_account keep_time (account_to_active a) = account_to_active (account_kept keep_time a)).
  { unfold stamp_account, account_to_active, account_kept. cbn [acc_status]. by rewrite Hst. }
  rewrite Hsa in Ha. change (stamp_player keep_time (player_to_active p))
    with (player_to_active (player_kept keep_time p)) in Hp.
  assert (Hf : fits (player_kept keep_time p)) by done.
  destruct Hwf as [H1 H2 H3] eqn:Hw. split_and!.
  - constructor; rewrite ?Ha, ?Hp.
    + apply map_Forall_insert_2; [|done]. by exists (account_kept keep_time a).
    + apply map_Forall_insert_2; [|done]. by exists (player_kept keep_time p).
    + intros i m [[<- <-]|[_ Hm]]%lookup_insert_Some.
      * cbn. rewrite Hown, lookup_insert_eq. done.
      * apply lookup_insert_is_Some'. right. by eapply H3.
  - by apply sql_accounts_none.
  - by apply sql_players_none.
  - intros i b Hb Heq. apply sql_accounts_lookup in Hb as (m & Hm & Hd).
    destruct (account_at d i m Hwf Hm) as (c & -> & _ & _ & Hd' & _). rewrite Hd' in Hd. injection Hd as ->.
    apply (Hfu i _ Hm). rewrite <- Heq. unfold account_to_active. by destruct (acc_status b).
  - intros i q Hq Heq. apply sql_players_lookup in Hq as (m & Hm & Hd).
    destruct (player_at d i m Hwf Hm) as (c & -> & _ & _ & Hd' & _). rewrite Hd' in Hd. injection Hd as ->.
    apply H3 in Hm as [x Hx]. cbn in Hx. rewrite Heq, Hown in Hx. congruence.
  - unfold sql_accounts. rewrite Ha. apply omap_insert_Some. by rewrite account_roundtrip.
  - unfold sql_players. rewrite Hp. apply omap_insert_Some. by rewrite fits_roundtrip.
Qed.

Lemma sea_register_view a p d r d' :
  sql_wf d -> registrable a p -> sea_register a p d = (r, d') ->
  sql_wf d' /\
  let done :=
    sql_accounts d !! acc_id a = None /\ sql_players d !! pl_id p = None /\
    (forall i b, sql_accounts d !! i = Some b -> acc_username b <> acc_username a) /\
    (forall i q, sql_players d !! i = Some q -> pl_account_id q <> pl_account_id p) /\
    sql_accounts d' = <[acc_id a := account_kept keep_time a]> (sql_accounts d) /\
    sql_players d' = <[pl_id p := player_kept keep_time p]> (sql_players d) in
  match r with
  | Ok _ => done
  | Err e => sql_accounts d' = sql_accounts d /\ sql_players d' = sql_players d \/
             (exists text, e = Storage text) /\ done
  end.
Proof.
  intros Hwf Hreg Hx. apply sea_register_spec in Hx. destruct r as [[]|e]; cbv beta zeta iota.
  - by apply registered_view in Hx.
  - destruct Hx as [[[Ha Hp]|(Hst & _ & Hx)] _].
    + destruct (same_tables d d') as (? & ? & ?); try done. auto.
    + apply registered_view in Hx as [? Hx]; try done. auto.
Qed.

(** The repositories over PostgreSQL keep the contract of the ports. *)
#[program] Definition sql_repositories : Repositories D := {|
  accounts_view := sql_accounts; players_view := sql_players; kept_time := keep_time; repo_wf := sql_wf;
  find_account_by_id := sea_find_account; find_by_username := sea_find_by_username;
  save_account := sea_save_account; find_player_by_id := sea_find_player;
  find_by_account := sea_find_by_account; save_player := sea_save_player;
  repo_gain_exp := sea_gain_exp; repo_record_login := sea_record_login; store_register := sea_register;
  find_account_by_id_spec := sea_find_account_spec; find_by_username_spec := sea_find_by_username_spec;
  find_player_by_id_spec := sea_find_player_spec; find_by_account_spec := sea_find_by_account_spec;
  repo_gain_exp_spec := sea_gain_view; repo_record_login_spec := sea_record_login_spec;
  store_register_spec := sea_register_view
|}.
Next Obligation.
  intros d i a Hwf (m & Hm & Hd)%sql_accounts_lookup.
  destruct (account_at d i m Hwf Hm) as (b & -> & Hi & _ & Hd' & _). congruence.
Qed.
Next Obligation.
  intros d i p Hwf (m & Hm & Hd)%sql_players_lookup.
  destruct (player_at d i m Hwf Hm) as (b & -> & Hi & _ & Hd' & _). congruence.
Qed.

End SqlStore.
