(* ===== verification/Production.v ===== *)
(** The application as the server runs it ([server-bin/src/bootstrap.rs],
    [build_services]): the use cases over the SeaORM repositories, the Redis token store
    and the argon2 hasher, which keep the contracts of the ports. *)
From S2P Require Import Prelude Text Values Session Account Player App UseCases RedisTokens SqlRepos SqlStore.
From Stdlib Require Import Strings.String.
Open Scope Z_scope.
Open Scope list_scope.
Abbreviation length := Datatypes.length.

Section Production.
Context {D K H A E : Type} `{HD : Sql D} `{HK : RedisTokens.Redis K} `{HU : UuidFmt}
        `{HH : PasswordHasher H} `{HA : AuditLogger A} `{HE : EventPublisher E}.
Variable parse_error_text : rstr -> rstr.

#[local] Existing Instance sql_repositories.
#[local] Instance redis_store : SessionTokenStore K := RedisTokens.redis_token_store parse_error_text.

Abbreviation Server := (World D K H A E).

(** Empty tables, and none of the store's keys in Redis. *)
Definition fresh (c : Z) (w : Server) : Prop :=
  t_accounts (w_store w) = ∅ /\ t_players (w_store w) = ∅ /\ RedisTokens.pristine c (w_tokens w).

Lemma fresh_consistent c w : fresh c w -> consistent c w.
Proof.
  intros (Ha & Hp & Hk).
  assert (Hva : accounts_view (w_store w) = ∅) by (cbn; unfold sql_accounts; by rewrite Ha, omap_empty).
  assert (Hvp : players_view (w_store w) = ∅) by (cbn; unfold sql_players; by rewrite Hp, omap_empty).
  constructor; unfold ids_ok; rewrite ?Hva, ?Hvp; try (intros; simplify_map_eq; done).
  - constructor; rewrite ?Ha, ?Hp; [apply map_Forall_empty|apply map_Forall_empty|].
    intros i m Hm. simplify_map_eq.
  - exists [], ∅. by apply RedisTokens.sim_pristine.
  - intros t tok p Ht. cbn. unfold RedisTokens.live. rewrite Hk; eauto. done.
Qed.

(** The rows of a player: its account's, with a valid name and settled growth. *)
Definition sound_player (w : Server) (i : Z) (m : player_row) : Prop :=
  exists p, m = player_to_active p /\ pl_id p = i /\ growth_ok p /\
            is_Some (t_accounts (w_store w) !! pr_account_id m).

Lemma rows_accounts c (w : Server) : consistent c w ->
  forall i m, t_accounts (w_store w) !! i = Some m -> account_of i m /\
    exists! j, exists n, t_players (w_store w) !! j = Some n /\ pr_account_id n = i.
Proof.
  intros Hc i m Hm. pose proof (c_wf _ _ Hc) as Hwf. split; [by apply (sw_accounts _ Hwf)|].
  destruct (account_at _ i m Hwf Hm) as (a & _ & _ & _ & _ & Hview).
  destruct (c_player _ _ Hc i a Hview) as (j & p & Hj & Hp). exists j. split.
  - apply sql_players_lookup in Hj as (n & Hn & Hd). exists n. split; [done|].
    destruct (player_at _ j n Hwf Hn) as (q & -> & _ & _ & Hd' & _). rewrite Hd' in Hd. injection Hd as ->. done.
  - intros k (n & Hn & Hi). destruct (player_at _ k n Hwf Hn) as (q & -> & _ & _ & _ & Hq).
    apply (c_single _ _ Hc _ _ _ _ Hj Hq). cbn in Hi. congruence.
Qed.

Lemma rows_names c (w : Server) : consistent c w ->
  forall i j m n, t_accounts (w_store w) !! i = Some m -> t_accounts (w_store w) !! j = Some n ->
    ar_username m = ar_username n -> i = j.
Proof.
  intros Hc i j m n Hm Hn He. pose proof (c_wf _ _ Hc) as Hwf.
  destruct (account_at _ i m Hwf Hm) as (a & -> & _ & _ & _ & Ha).
  destruct (account_at _ j n Hwf Hn) as (b & -> & _ & _ & _ & Hb).
  apply (c_names _ _ Hc _ _ _ _ Ha Hb), Username.as_str_inj. revert He. unfold account_to_active.
  by destruct (acc_status a), (acc_status b).
Qed.

Lemma rows_players c (w : Server) i m : consistent c w -> t_players (w_store w) !! i = Some m -> sound_player w i m.
Proof.
  intros Hc Hm. pose proof (c_wf _ _ Hc) as Hwf.
  destruct (player_at _ i m Hwf Hm) as (p & -> & Hi & _ & _ & Hp). exists p. split_and!; try done.
  - exact (c_growth _ _ Hc i p Hp).
  - by apply (sw_owner _ Hwf i).
Qed.

(** C22: The server keeps its data in order.  Starting on an empty database and an empty
    Redis, after any registrations, logins, grants of experience and look-ups, each
    answered or failed at any statement, and whatever the hasher, the audit log and the
    event bus do: every row of the database is the row of a valid aggregate; every
    account has exactly one player and every player its account; no two accounts share a
    name; every player's level and experience are settled; and a token that Redis
    resolves belongs to a player whose row exists. *)
Theorem production_stays_consistent (c0 c : Z) (w0 w : Server)
  (Hfresh : fresh c0 w0) (Hrun : star app_step (c0, w0) (c, w)) :
  (forall i m, t_accounts (w_store w) !! i = Some m -> account_of i m /\
     exists! j, exists n, t_players (w_store w) !! j = Some n /\ pr_account_id n = i) /\
  (forall i j m n, t_accounts (w_store w) !! i = Some m -> t_accounts (w_store w) !! j = Some n ->
     ar_username m = ar_username n -> i = j) /\
  (forall i m, t_players (w_store w) !! i = Some m -> sound_player w i m) /\
  (forall now tok p, c <= now ->
     fst (RedisTokens.resolve parse_error_text now tok (w_tokens w)) = Ok (Some p) ->
     is_Some (t_players (w_store w) !! p)).
Proof.
  pose proof (consistent_run _ _ _ _ (fresh_consistent _ _ Hfresh) Hrun) as Hc. split; [|split; [|split]].
  - by apply (rows_accounts c).
  - by apply (rows_names c).
  - intros i m. by apply rows_players with c.
  - intros now tok p Ht Hr.
    destruct (tok_resolve now tok (w_tokens w)) as [r k] eqn:Er.
    assert (Hwf : tok_wf now (w_tokens w)) by (apply (tok_wf_later c); [done|apply Hc]).
    pose proof Er as Hl. apply tok_resolve_spec in Hl as [_ Hl]; [|done].
    change (fst (tok_resolve now tok (w_tokens w)) = Ok (Some p)) in Hr. rewrite Er in Hr. cbn in Hr. subst r.
    specialize (Hl _ eq_refl). symmetry in Hl.
    destruct (c_live _ _ Hc now tok p Ht Hl) as [q Hq].
    apply sql_players_lookup in Hq as (m & Hm & _). eauto.
Qed.

End Production.

(* ------------------------------------------------------------------ *)
(** ** A server on concrete tables and keys *)

Module ProdDemo.

Import SqlDemo RedisTokens.RedisDemo.
#[local] Existing Instance tables_db.
#[local] Existing Instance keys_redis.
#[local] Existing Instance hex_uuid.
#[local] Existing Instance plain_hasher.
#[local] Existing Instance log_audit.
#[local] Existing Instance log_events.
#[local] Existing Instance sql_repositories.
#[local] Instance redis_store : SessionTokenStore Keys := RedisTokens.redis_token_store no_text.

Definition DemoServer : Type := World Tables Keys unit (list (option Z * rstr * rstr)) (list DomainEvent).
Definition s0 : DemoServer := mkWorld (mkTables ∅ ∅) ∅ tt [] [].
Definition reg : RegisterCommand :=
  mkRegisterCommand (lit " Alice_01 ") (lit "super-secret") (lit "爱丽丝").
Definition s1 : DemoServer := snd (register_execute 10 20 1 2 reg s0).
Definition s2 : DemoServer :=
  snd (login_execute 60000000000 3 4 5 [7; 8] (mkLoginCommand (lit "ALICE_01") (lit "super-secret")) s1).

Lemma production_stays_consistent_witness :
  fst (RedisTokens.resolve no_text 100 (random_token [7; 8]) (w_tokens s2)) = Ok (Some 20) /\
  is_Some (t_players (w_store s2) !! 20).
Proof.
  assert (Hr : fst (RedisTokens.resolve no_text 100 (random_token [7; 8]) (w_tokens s2)) = Ok (Some 20))
    by (vm_compute; reflexivity).
  split; [exact Hr|].
  assert (Hrun : star app_step (0, s0) (5, s2)).
  { eapply star_snoc; [eapply star_snoc; [apply star_refl|]|].
    - apply (app_register 0 10 20 1 2 reg s0 (fst (register_execute 10 20 1 2 reg s0)) s1);
        [vm_compute; split; discriminate|apply surjective_pairing].
    - apply (app_login 0 60000000000 3 4 5 [7; 8] (mkLoginCommand (lit "ALICE_01") (lit "super-secret")) s1
               (fst (login_execute 60000000000 3 4 5 [7; 8] (mkLoginCommand (lit "ALICE_01") (lit "super-secret")) s1)) s2);
        [lia| |apply surjective_pairing].
      exists [], ∅. split; [|apply not_elem_of_nil]. apply RedisTokens.sim_pristine.
      intros t key _ _. reflexivity. }
  refine (proj2 (proj2 (proj2 (production_stays_consistent no_text 0 5 s0 s2 _ Hrun))) 100 _ 20 _ Hr).
  - split; [reflexivity|]. split; [reflexivity|]. intros t key _ _. reflexivity.
  - lia.
Defined.

End ProdDemo.
