(* ===== verification/Fakes.v ===== *)
(** The doubles on which the unit tests of the use cases run ([application/src/fakes.rs]),
    and how far they behave as the in-memory stores of the program.

    [FakeAccounts] files accounts by name and [FakePlayers] players by identifier; the two
    are one record here because [FakeRegistration] holds both.  [Instant]s are readings of
    a clock, passed as arguments, as is the identifier in a token. *)
From S2P Require Import Prelude Text Values Account Player Session App MemRepos TokenStore.
From Stdlib Require Import Strings.String.
Open Scope Z_scope.
Open Scope list_scope.
Abbreviation length := Datatypes.length.

Definition VALID_PASSWORD : rstr := lit "super-secret".

(** [fnv] of [deterministic_account_id]: FNV-1a with a seed. *)
Definition fnv (bytes : list Z) (seed : Z) : Z :=
  fold_left (fun hash byte => wrapping_mul 64 (Z.lxor hash byte) 0x100000001b3) bytes
            (Z.lxor 0xcbf29ce484222325 seed).

(** The two halves, most significant byte first. *)
Definition deterministic_account_id (username : rstr) : AccountId :=
  fnv (as_bytes username) 0x015f * 2 ^ 64 + fnv (as_bytes username) 0x9e37.

Lemma wrapping_mul_range a b : is_u 64 (wrapping_mul 64 a b).
Proof. unfold wrapping_mul, is_u, u_max. pose proof (Z.mod_pos_bound (a * b) (2 ^ 64) ltac:(lia)). lia. Qed.

Lemma fnv_range bytes seed : is_u 64 seed -> is_u 64 (fnv bytes seed).
Proof.
  intros Hs. unfold fnv. destruct bytes as [|b bytes] using rev_ind.
  - cbn [fold_left]. unfold is_u, u_max in *. split.
    + apply Z.lxor_nonneg. lia.
    + apply Z.lt_succ_r. change (Z.succ (2 ^ 64 - 1)) with (2 ^ 64).
      destruct (Z.eq_dec (Z.lxor 14695981039346656037 seed) 0) as [->|Hne]; [lia|].
      apply Z.log2_lt_pow2; [pose proof (proj2 (Z.lxor_nonneg 14695981039346656037 seed) ltac:(lia)); lia|].
      eapply Z.le_lt_trans; [apply Z.log2_lxor; lia|].
      apply Z.max_lub_lt; [vm_compute; reflexivity|].
      destruct (Z.eq_dec seed 0) as [->|]; [vm_compute; reflexivity|]. apply Z.log2_lt_pow2; lia.
  - rewrite fold_left_app. apply wrapping_mul_range.
Qed.

(** It is an identifier. *)
Lemma deterministic_account_id_uuid username : is_uuid (deterministic_account_id username).
Proof.
  unfold deterministic_account_id.
  pose proof (fnv_range (as_bytes username) 0x015f ltac:(unfold is_u, u_max; lia)).
  pose proof (fnv_range (as_bytes username) 0x9e37 ltac:(unfold is_u, u_max; lia)).
  unfold is_uuid, is_u, u_max in *. lia.
Qed.

(* ------------------------------------------------------------------ *)
(** ** Hashers and audit *)

Definition fake_hash (password : rstr) : rstr := lit "fake$$$" ++ password.

#[program] Definition fake_hasher : PasswordHasher unit := {|
  matches pw h := h = fake_hash pw;
  hash pw := io_ret (Ok (fake_hash pw));
  verify pw h := io_ret (Ok (bool_decide (h = fake_hash pw)))
|}.
Next Obligation. intros pw s h s' [[= <-] _]%io_ret_inv. done. Qed.
Next Obligation. intros pw h s b s' [[= <-] _]%io_ret_inv. apply bool_decide_eq_true. Qed.

Definition unavailable : AppError := Internal (lit "hasher unavailable").
#[program] Definition failing_hasher : PasswordHasher unit := {|
  matches pw h := False;
  hash pw := io_ret (Err unavailable);
  verify pw h := io_ret (Err unavailable)
|}.
Next Obligation. by intros pw s h s' [[=] _]%io_ret_inv. Qed.
Next Obligation. by intros pw h s b s' [[=] _]%io_ret_inv. Qed.

(** [FakeAudit]: the number of records, and the records. *)
Record FakeAudit := mkFakeAudit { fau_count : nat; fau_records : list (option PlayerId * rstr) }.
Definition fake_audit : AuditLogger FakeAudit := {|
  record p action detail := fun a =>
    (Ok tt, mkFakeAudit (S (fau_count a)) (fau_records a ++ [(p, action ++ lit ":" ++ detail)]))
|}.

(* ------------------------------------------------------------------ *)
(** ** Accounts and players *)

Record FakeStore := mkFakeStore { fk_accounts : gmap rstr Account; fk_players : gmap Z Player }.

(** The name an account is filed under. *)
Definition name_of (a : Account) : rstr := Username.as_str (acc_username a).

Definition fake_find_account (i : AccountId) : io FakeStore (result (option Account) RepoError) := fun s =>
  (Ok (snd <$> (snd <$> list_find (fun kv : rstr * Account => acc_id (snd kv) = i) (map_to_list (fk_accounts s)))), s).
Definition fake_find_by_username (u : rstr) : io FakeStore (result (option Account) RepoError) := fun s =>
  (Ok (fk_accounts s !! u), s).
Definition fake_save_account (a : Account) : io FakeStore (result unit RepoError) := fun s =>
  (Ok tt, mkFakeStore (<[name_of a := a]> (fk_accounts s)) (fk_players s)).

Definition fake_find_player (i : PlayerId) : io FakeStore (result (option Player) RepoError) := fun s =>
  (Ok (fk_players s !! i), s).
Definition fake_find_by_account (i : AccountId) : io FakeStore (result (option Player) RepoError) := fun s =>
  (Ok (Memory.find_value (fun p => pl_account_id p =? i) (fk_players s)), s).
Definition fake_save_player (p : Player) : io FakeStore (result unit RepoError) := fun s =>
  (Ok tt, mkFakeStore (fk_accounts s) (<[pl_id p := p]> (fk_players s))).
Definition fake_gain_exp (i : PlayerId) (amount : Z)
  : io FakeStore (result (option (Player * option Z)) RepoError) := fun s =>
  match fk_players s !! i with
  | None => (Ok None, s)
  | Some player =>
      let '(player', level) := Player.gain_exp player amount in
      (Ok (Some (player', level)), mkFakeStore (fk_accounts s) (<[i := player']> (fk_players s)))
  end.
Definition fake_record_login (i : PlayerId) (at_ : DateTime)
  : io FakeStore (result (option Player) RepoError) := fun s =>
  match fk_players s !! i with
  | None => (Ok None, s)
  | Some player =>
      let player' := Player.record_login player at_ in
      (Ok (Some player'), mkFakeStore (fk_accounts s) (<[i := player']> (fk_players s)))
  end.

(** [FakeRegistration::register] looks at the name only. *)
Definition fake_register (a : Account) (p : Player) : io FakeStore (result unit AppError) := fun s =>
  if bool_decide (is_Some (fk_accounts s !! name_of a))
  then (Err (Conflict (lit "用户名已被占用")), s)
  else (Ok tt, mkFakeStore (<[name_of a := a]> (fk_accounts s)) (<[pl_id p := p]> (fk_players s))).

(** [FakeAccounts::with_status] and [FakePlayers::for_account]; [None] is the panic on a
    name that is not valid. *)
Definition with_status (username : rstr) (status : AccountStatus) (now : DateTime) : option (gmap rstr Account) :=
  match Username.try_new username with
  | Err _ => None
  | Ok name =>
      let account := Account.reconstitute (deterministic_account_id username) name
                       (PasswordHash.new (fake_hash VALID_PASSWORD)) Active now in
      let account := match status with
                     | Active => account
                     | Suspended => Account.suspend account
                     | Banned reason until => Account.ban account reason until
                     end in
      Some {[username := account]}
  end.
Definition for_account (new_id : Z) (username : rstr) (now : DateTime) : option (gmap Z Player) :=
  match Nickname.try_new (lit "玩家_" ++ username) with
  | Err _ => None
  | Ok n => let player := Player.create new_id (deterministic_account_id username) n now in
            Some {[pl_id player := player]}
  end.

(* ------------------------------------------------------------------ *)
(** ** The doubles against the in-memory stores *)

Inductive repo_op :=
| OFindAccount (i : AccountId) | OFindUsername (u : rstr) | OSaveAccount (a : Account)
| OFindPlayer (i : PlayerId) | OFindByAccount (i : AccountId) | OSavePlayer (p : Player)
| OGainExp (i : PlayerId) (amount : Z) | ORecordLogin (i : PlayerId) (at_ : DateTime)
| ORegister (a : Account) (p : Player).

(** What a caller sees; of a registration, whether it was accepted (the texts differ). *)
Inductive answer :=
| AnAccount (r : result (option Account) RepoError)
| AnPlayer (r : result (option Player) RepoError)
| AnGrowth (r : result (option (Player * option Z)) RepoError)
| AnDone (r : result unit RepoError)
| AnRegistered (ok : bool).

Definition answering {W X} (f : X -> answer) (m : io W X) : io W answer := let* x := m in io_ret (f x).

Definition fake_exec (op : repo_op) : io FakeStore answer :=
  match op with
  | OFindAccount i => answering AnAccount (fake_find_account i)
  | OFindUsername u => answering AnAccount (fake_find_by_username u)
  | OSaveAccount a => answering AnDone (fake_save_account a)
  | OFindPlayer i => answering AnPlayer (fake_find_player i)
  | OFindByAccount i => answering AnPlayer (fake_find_by_account i)
  | OSavePlayer p => answering AnDone (fake_save_player p)
  | OGainExp i n => answering AnGrowth (fake_gain_exp i n)
  | ORecordLogin i t => answering AnPlayer (fake_record_login i t)
  | ORegister a p => answering (fun r => AnRegistered (is_ok r)) (fake_register a p)
  end.
Definition memory_exec (op : repo_op) : io Memory.Store answer :=
  match op with
  | OFindAccount i => answering AnAccount (Memory.find_account_by_id i)
  | OFindUsername u => answering AnAccount (Memory.find_by_username u)
  | OSaveAccount a => answering AnDone (Memory.save_account a)
  | OFindPlayer i => answering AnPlayer (Memory.find_player_by_id i)
  | OFindByAccount i => answering AnPlayer (Memory.find_by_account i)
  | OSavePlayer p => answering AnDone (Memory.save_player p)
  | OGainExp i n => answering AnGrowth (Memory.gain_exp i n)
  | ORecordLogin i t => answering AnPlayer (Memory.record_login i t)
  | ORegister a p => answering (fun r => AnRegistered (is_ok r)) (Memory.register a p)
  end.

(** What the doubles do not check: identifiers are fresh at a registration, and saving
    an account neither renames it nor takes another's name. *)
Definition admissible (m : Memory.Store) (op : repo_op) : Prop :=
  match op with
  | ORegister a p =>
      Memory.accounts m !! acc_id a = None /\ Memory.players m !! pl_id p = None /\
      map_Forall (fun _ q => pl_account_id q <> pl_account_id p) (Memory.players m)
  | OSaveAccount a =>
      match Memory.accounts m !! acc_id a with
      | Some b => name_of b = name_of a
      | None => map_Forall (fun _ b => name_of b <> name_of a) (Memory.accounts m)
      end
  | _ => True
  end.

Fixpoint run_ops {W} (exec : repo_op -> io W answer) (ops : list repo_op) : io W (list answer) :=
  match ops with
  | [] => io_ret []
  | op :: ops' => let* a := exec op in let* l := run_ops exec ops' in io_ret (a :: l)
  end.

Fixpoint admissible_run (ops : list repo_op) (m : Memory.Store) : Prop :=
  match ops with
  | [] => True
  | op :: ops' => admissible m op /\ admissible_run ops' (snd (memory_exec op m))
  end.

(** The same rows, filed by name and by identifier. *)
Definition twins (f : FakeStore) (m : Memory.Store) : Prop :=
  fk_players f = Memory.players m /\
  map_Forall (fun i a => acc_id a = i) (Memory.accounts m) /\
  forall u a, fk_accounts f !! u = Some a <-> name_of a = u /\ Memory.accounts m !! acc_id a = Some a.

Lemma twins_find_account f m i : twins f m -> fst (fake_find_account i f) = Ok (Memory.accounts m !! i).
Proof.
  intros (_ & Hid & Hn). unfold fake_find_account. cbn [fst]. f_equal.
  destruct (list_find _ _) as [[n [u a]]|] eqn:Ef; cbn [fmap option_fmap option_map snd].
  - apply list_find_Some in Ef as (Hl & Hi & _). cbn in Hi.
    apply list_elem_of_lookup_2, elem_of_map_to_list, Hn in Hl as [_ Ha]. by rewrite <- Hi.
  - apply list_find_None in Ef. rewrite Forall_forall in Ef.
    destruct (Memory.accounts m !! i) as [a|] eqn:Ea; [|done]. pose proof (Hid _ _ Ea) as Hi. cbn in Hi.
    exfalso. apply (Ef (name_of a, a)); [|done]. apply elem_of_map_to_list, Hn. by rewrite Hi.
Qed.

Lemma twins_find_username f m u :
  twins f m ->
  fk_accounts f !! u
  = Memory.find_value (fun a => bool_decide (Username.as_str (acc_username a) = u)) (Memory.accounts m).
Proof.
  intros (_ & Hid & Hn). destruct (Memory.find_value _ _) as [a|] eqn:Ef.
  - apply Memory.find_value_some in Ef as [Hu (i & Hi)]. b2p. apply Hn. split; [done|].
    by rewrite (Hid _ _ Hi).
  - destruct (fk_accounts f !! u) as [a|] eqn:Ea; [|done]. apply Hn in Ea as [Hu Ha].
    by eapply Memory.find_value_none in Ef as Hf; [b2p; destruct Hf|].
Qed.

(** Writing an account that keeps its place. *)
Lemma twins_insert f m a players :
  twins f m ->
  match Memory.accounts m !! acc_id a with
  | Some b => name_of b = name_of a
  | None => map_Forall (fun _ b => name_of b <> name_of a) (Memory.accounts m)
  end ->
  twins (mkFakeStore (<[name_of a := a]> (fk_accounts f)) players)
        (Memory.mkStore (<[acc_id a := a]> (Memory.accounts m)) players).
Proof.
  intros (_ & Hid & Hn) Hadm. unfold twins. cbn. split; [done|].
  split; [by apply map_Forall_insert_2|]. intros u b. split.
  - intros [[<- ->]|[Hu Hb]]%lookup_insert_Some; [by rewrite lookup_insert_eq|].
    apply Hn in Hb as [<- Hb]. split; [done|]. rewrite lookup_insert_ne; [done|]. intros Hi.
    rewrite Hi, Hb in Hadm. congruence.
  - intros [<- [[Hi ->]|[Hi Hb]]%lookup_insert_Some]; [by rewrite lookup_insert_eq|].
    rewrite lookup_insert_ne; [by apply Hn|]. intros Hu.
    destruct (Memory.accounts m !! acc_id a) as [c|] eqn:Ec.
    + assert (Hc : fk_accounts f !! name_of b = Some c).
      { apply Hn. pose proof (Hid _ _ Ec) as Hci. cbn in Hci. rewrite Hci. split; [congruence|done]. }
      assert (Hb' : fk_accounts f !! name_of b = Some b) by (by apply Hn).
      pose proof (Hid _ _ Ec). cbn in *. congruence.
    + rewrite map_Forall_lookup in Hadm. by apply (Hadm _ _ Hb).
Qed.

Lemma exec_twins f m op :
  twins f m -> admissible m op ->
  fst (fake_exec op f) = fst (memory_exec op m) /\ twins (snd (fake_exec op f)) (snd (memory_exec op m)).
Proof.
  intros Ht Ha. pose proof Ht as (Hp & Hid & Hn).
  destruct op as [i|u|a|i|i|p|i n|i t|a p]; cbn [fake_exec memory_exec]; unfold answering, io_bind, io_ret.
  - split; [|done]. pose proof (twins_find_account f m i Ht) as H. unfold fake_find_account in *. cbn in *.
    by rewrite H.
  - split; [|done]. cbn. by rewrite (twins_find_username f m u Ht).
  - split; [done|]. cbn [fake_save_account Memory.save_account snd]. rewrite Hp. by apply twins_insert.
  - split; [|done]. cbn. by rewrite Hp.
  - split; [|done]. cbn. by rewrite Hp.
  - split; [done|]. cbn. unfold twins. cbn. by rewrite Hp.
  - unfold fake_gain_exp, Memory.gain_exp. rewrite Hp. destruct (Memory.players m !! i); [|done].
    destruct (Player.gain_exp _ _). done.
  - unfold fake_record_login, Memory.record_login. rewrite Hp. by destruct (Memory.players m !! i).
  - destruct Ha as (Hai & Hpi & Hacc). unfold fake_register, Memory.register.
    assert (Hany : Memory.any_value (fun q => pl_account_id q =? pl_account_id p) (Memory.players m) = false).
    { apply existsb_Forall, Forall_forall. intros [k q] Hq%elem_of_map_to_list. cbn.
      apply Z.eqb_neq. exact (Hacc _ _ Hq). }
    rewrite Hai, Hpi, Hany.
    assert (Hname : Memory.any_value (fun s => bool_decide (acc_username s = acc_username a)) (Memory.accounts m)
                    = bool_decide (is_Some (fk_accounts f !! name_of a))).
    { destruct (fk_accounts f !! name_of a) as [c|] eqn:Ec.
      - apply Hn in Ec as [Hu Hc]. rewrite (bool_decide_true (is_Some (Some c))) by done.
        apply existsb_exists. exists (acc_id c, c). split; [by apply elem_of_map_to_list, list_elem_of_In in Hc|].
        apply bool_decide_eq_true. by apply Username.as_str_inj.
      - rewrite (bool_decide_false (is_Some None)) by (by intros [? ?]).
        apply existsb_Forall, Forall_forall. intros [k c] Hc%elem_of_map_to_list. cbn.
        apply bool_decide_eq_false. intros Heq. assert (fk_accounts f !! name_of a = Some c); [|congruence].
        apply Hn. unfold name_of. rewrite Heq. split; [done|]. by rewrite (Hid _ _ Hc). }
    rewrite Hname, !(bool_decide_false (is_Some None)) by (by intros [? ?]). cbn [orb].
    destruct (bool_decide _) eqn:Eb; cbn [orb fst snd is_ok].
    + split; done.
    + split; [done|]. rewrite Hp. apply twins_insert; [done|]. rewrite Hai. b2p.
      intros i c Hc Heq. apply Eb. exists c. apply Hn. split; [done|]. by rewrite (Hid _ _ Hc).
Qed.

(** A unit test cannot tell the doubles from the in-memory stores.  Whatever operations a
    use case performs on the accounts and players, in whatever order, the doubles answer
    exactly what the program's stores answer, as long as a registration brings fresh
    identifiers and a saved account keeps its name: look-ups by identifier, by name and by
    account, saving, growth, logins, and registrations, accepted or refused.  (The doubles
    do not check identifiers; the stores do.) *)
Theorem doubles_answer_alike (ops : list repo_op) (f f' : FakeStore) (m m' : Memory.Store) (l l' : list answer)
  (Ht : twins f m) (Ha : admissible_run ops m)
  (Hf : run_ops fake_exec ops f = (l, f')) (Hm : run_ops memory_exec ops m = (l', m')) :
  l = l' /\ twins f' m'.
Proof.
  revert f m l l' Ht Ha Hf Hm. induction ops as [|op ops IH]; intros f m l l' Ht Ha Hf Hm; cbn [run_ops] in *.
  - apply io_ret_inv in Hf as [<- <-]. by apply io_ret_inv in Hm as [<- <-].
  - destruct Ha as [Ha Hrest]. destruct (exec_twins f m op Ht Ha) as [He Ht'].
    apply io_bind_inv in Hf as (a & f1 & H1 & Hf). apply io_bind_inv in Hf as (la & f2 & H2 & Hf).
    apply io_ret_inv in Hf as [<- <-].
    apply io_bind_inv in Hm as (b & m1 & H3 & Hm). apply io_bind_inv in Hm as (lb & m2 & H4 & Hm).
    apply io_ret_inv in Hm as [<- <-]. rewrite H1, H3 in *. cbn [fst snd] in *. subst b.
    by destruct (IH f1 m1 la lb Ht' Hrest H2 H4) as [<- ?].
Qed.

(* ------------------------------------------------------------------ *)
(** ** Tokens *)

(** A token's player, the instant it was issued and its lifetime. *)
Record FakeTokenState := mkFakeTokens {
  ft_by_token : gmap rstr (PlayerId * Z * Z); ft_by_player : gmap Z (list rstr); ft_revoked : list PlayerId
}.

(** [if let Some(tokens) = by_player.remove(&p) { ... }], then the note of the revocation. *)
Definition fake_drop (p : PlayerId) (s : FakeTokenState) : FakeTokenState :=
  match ft_by_player s !! p with
  | None => mkFakeTokens (ft_by_token s) (ft_by_player s) (ft_revoked s ++ [p])
  | Some ts => mkFakeTokens (foldr delete (ft_by_token s) ts) (delete p (ft_by_player s)) (ft_revoked s ++ [p])
  end.

Definition fake_issue (token : rstr) (p : PlayerId) (now ttl : Z) (s : FakeTokenState) : FakeTokenState :=
  mkFakeTokens (<[token := (p, now, ttl)]> (ft_by_token s))
    (<[p := default [] (ft_by_player s !! p) ++ [token]]> (ft_by_player s)) (ft_revoked s).

(** [FakeTokens::seed]; the texts of the identifiers are the parameter [uuid_text]. *)
Definition fake_seed (uuid_text : Z -> rstr) (p : PlayerId) (now : Z) : io FakeTokenState unit := fun s =>
  (tt, fake_issue (lit "seeded-" ++ uuid_text p) p now 60000000000 s).

Definition fake_create (uuid_text : Z -> rstr) (now fresh : Z) (p : PlayerId) (ttl : Z)
  : io FakeTokenState (result rstr AppError) := fun s =>
  let token := lit "token-" ++ uuid_text fresh in
  (Ok token, fake_issue token p now ttl (fake_drop p s)).

(** A token still stands at the last instant of its lifetime. *)
Definition fake_resolve (now : Z) (token : rstr) : io FakeTokenState (result (option PlayerId) AppError) := fun s =>
  (Ok ('(player, issued, ttl) ← ft_by_token s !! token; if now - issued <=? ttl then Some player else None), s).

Definition fake_revoke_player (p : PlayerId) : io FakeTokenState (result unit AppError) := fun s =>
  (Ok tt, fake_drop p s).

Definition issued (s : FakeTokenState) : list rstr := (map_to_list (ft_by_token s)).*1.

(** The state as the in-memory token store would have it: a lifetime that counts its last
    instant is one nanosecond longer. *)
Definition as_entry (e : PlayerId * Z * Z) : MemTokens.Entry :=
  let '(p, issued, ttl) := e in MemTokens.mkEntry p (issued + ttl + 1).
Definition as_memory (s : FakeTokenState) : MemTokens.State :=
  MemTokens.mkState (as_entry <$> ft_by_token s) (ft_by_player s).

Lemma fmap_remove_all (m : gmap rstr (PlayerId * Z * Z)) ts :
  as_entry <$> foldr delete m ts = MemTokens.remove_all ts (as_entry <$> m).
Proof.
  induction ts as [|t ts IH]; [done|]. unfold MemTokens.remove_all in *. simpl.
  by rewrite fmap_delete, IH.
Qed.

(** The token double is the in-memory token store with lifetimes one nanosecond longer.
    In every state a look-up answers what the store answers, a revocation leaves what the
    store's revocation leaves, and creating a token revokes the player's older tokens and
    adds the new one exactly as the store does. *)
Theorem fake_tokens_are_memory_tokens (s : FakeTokenState) (now : Z) (p : PlayerId) (ttl fresh : Z)
  (token : rstr) (uuid_text : Z -> rstr) :
  fst (fake_resolve now token s) = fst (MemTokens.resolve now token (as_memory s)) /\
  as_memory (snd (fake_revoke_player p s)) = snd (MemTokens.revoke_player p (as_memory s)) /\
  let created := lit "token-" ++ uuid_text fresh in
  let s1 := MemTokens.drop_player p (as_memory s) in
  fst (fake_create uuid_text now fresh p ttl s) = Ok created /\
  as_memory (snd (fake_create uuid_text now fresh p ttl s))
  = MemTokens.mkState (<[created := MemTokens.mkEntry p (now + ttl + 1)]> (MemTokens.by_token s1))
                      (<[p := default [] (MemTokens.by_player s1 !! p) ++ [created]]> (MemTokens.by_player s1)).
Proof.
  assert (Hdrop : as_memory (fake_drop p s) = MemTokens.drop_player p (as_memory s)).
  { unfold fake_drop, MemTokens.drop_player, as_memory. cbn [MemTokens.by_player MemTokens.by_token].
    destruct (ft_by_player s !! p); [|done]. cbn [ft_by_token ft_by_player]. by rewrite fmap_remove_all. }
  split; [|split; [done|]].
  - unfold fake_resolve, MemTokens.resolve. cbn [fst]. f_equal. unfold as_memory. cbn [MemTokens.by_token].
    rewrite lookup_fmap. destruct (ft_by_token s !! token) as [[[q i] d]|]; [|done]. cbn.
    unfold MemTokens.is_live. cbn [MemTokens.expires_at MemTokens.player_id].
    destruct (Z.leb_spec (now - i) d); destruct (Z.gtb_spec (i + d + 1) now); (done || lia).
  - cbv zeta. split; [done|]. rewrite <- Hdrop. unfold fake_create, fake_issue, as_memory.
    cbn [snd ft_by_token ft_by_player MemTokens.by_token MemTokens.by_player]. by rewrite fmap_insert.
Qed.

Module FakesDemo.

Definition alice : Account :=
  Account.reconstitute 10 (Username.mk (lit "alice")) (PasswordHash.new (fake_hash VALID_PASSWORD)) Active 0.
Definition hero : Player := Player.create 20 10 (Nickname.mk (lit "hero")) 0.
Definition other : Account :=
  Account.reconstitute 11 (Username.mk (lit "alice")) (PasswordHash.new (lit "x")) Active 1.
Definition second : Player := Player.create 21 11 (Nickname.mk (lit "second")) 1.

(** A registration, one with the same name, growth and look-ups. *)
Definition script : list repo_op :=
  [ORegister alice hero; ORegister other second; OGainExp 20 150; OFindUsername (lit "alice"); OFindAccount 11;
   OFindByAccount 10].

Lemma doubles_answer_alike_witness :
  fst (run_ops fake_exec script (mkFakeStore ∅ ∅))
  = [AnRegistered true; AnRegistered false; AnGrowth (Ok (Some (Player.set_growth hero 2 50, Some 2)));
     AnAccount (Ok (Some alice)); AnAccount (Ok None); AnPlayer (Ok (Some (Player.set_growth hero 2 50)))].
Proof.
  assert (Hm : fst (run_ops memory_exec script Memory.empty_store)
    = [AnRegistered true; AnRegistered false; AnGrowth (Ok (Some (Player.set_growth hero 2 50, Some 2)));
       AnAccount (Ok (Some alice)); AnAccount (Ok None); AnPlayer (Ok (Some (Player.set_growth hero 2 50)))])
    by (vm_compute; reflexivity).
  rewrite <- Hm.
  refine (proj1 (doubles_answer_alike script (mkFakeStore ∅ ∅) _ Memory.empty_store _ _ _ _ _
    (surjective_pairing _) (surjective_pairing _))).
  - split; [reflexivity|]. split; [apply map_Forall_empty|]. intros u a. split; [done|by intros [_ ?]].
  - cbn [admissible_run script admissible]. repeat split; try (vm_compute; reflexivity).
    + apply map_Forall_empty.
    + apply (bool_decide_unpack _). vm_compute. exact I.
Defined.

End FakesDemo.
