(* ===== verification/Password.v ===== *)
(** The password hasher ([infrastructure/src/password.rs]): argon2id behind a bound on
    the number of hashings that run at once.

    The crate [argon2] is not part of the repository: [Argon2] states what its PHC
    strings promise.  A hashing runs on a blocking thread that keeps its permit until it
    ends, also when the request that asked for it is cancelled. *)
From S2P Require Import Prelude Text Tokio Values Config App.
From Stdlib Require Import Strings.String.
Open Scope Z_scope.
Open Scope list_scope.
Abbreviation length := Datatypes.length.

(** The outcome of parsing a PHC string and verifying a password against it. *)
Inductive verified := Matches | PasswordInvalid | BadPhc (err : rstr) | OtherError (err : rstr).

Class Argon2 := {
  Params : Type;
  params_new : Z -> Z -> Z -> result Params rstr;
  (** [hash_password] with the salt it draws *)
  hash_password : Params -> Z -> rstr -> result rstr rstr;
  verify_password : rstr -> rstr -> verified;
  verify_hashed ps salt pw h : hash_password ps salt pw = Ok h -> verify_password pw h = Matches
}.

Section Hasher.
Context `{HA : Argon2} {Sem : Type} `{HSem : Semaphore Sem}.

(** [Argon2PasswordHasher]; [ph_salts] are the salts the entropy source will give,
    [ph_panics] whether the worker of the next call panics. *)
Record Hasher := mkHasher {
  ph_params : Params; ph_permits : Sem; ph_salts : list Z; ph_panics : list bool
}.

(** [Argon2PasswordHasher::new] *)
Definition hasher_new (memory_kb iterations parallelism : Z) (max_concurrency : nat)
    (salts : list Z) (panics : list bool) : result Hasher AppError :=
  if (max_concurrency =? 0)%nat || (MAX_PERMITS <? Z.of_nat max_concurrency)
  then Err (Internal (lit "invalid password concurrency"))
  else
    let? params := map_err (fun err => Internal (lit "argon2 参数非法: " ++ err))
                           (params_new memory_kb iterations parallelism) in
    Ok (mkHasher params (sem_new max_concurrency) salts panics).

(** [Argon2PasswordHasher::run], from the permit to the end of the work. *)
Definition run_work {T} (work : Hasher -> result T AppError * list Z) : io Hasher (result T AppError) :=
  fun h =>
    match try_acquire (ph_permits h) with
    | None => (Err Busy, h)
    | Some permits =>
        let panics := match ph_panics h with b :: _ => b | [] => false end in
        let '(r, salts) := work h in
        let r := if panics then Err (Internal (lit "password worker failed")) else r in
        (r, mkHasher (ph_params h) (sem_release permits) salts (tail (ph_panics h)))
    end.

Definition hash_work (password : rstr) (h : Hasher) : result rstr AppError * list Z :=
  let salt := match ph_salts h with s :: _ => s | [] => 0 end in
  (map_err (fun err => Internal (lit "密码哈希失败: " ++ err))
           (hash_password (ph_params h) salt password), tail (ph_salts h)).

Definition verify_work (password hash : rstr) (h : Hasher) : result bool AppError * list Z :=
  (match verify_password password hash with
   | Matches => Ok true
   | PasswordInvalid => Ok false
   | BadPhc err => Err (Internal (lit "哈希串解析失败: " ++ err))
   | OtherError err => Err (Internal (lit "密码校验异常: " ++ err))
   end, ph_salts h).

Definition argon2_hash (password : rstr) : io Hasher (result rstr AppError) :=
  run_work (hash_work password).
Definition argon2_verify (password hash : rstr) : io Hasher (result bool AppError) :=
  run_work (verify_work password hash).

Lemma run_work_ok {T} (work : Hasher -> result T AppError * list Z) h v h' :
  run_work work h = (Ok v, h') -> fst (work h) = Ok v.
Proof.
  unfold run_work. destruct (try_acquire _); [|done]. destruct (work h) as [r salts].
  destruct (match ph_panics h with [] => _ | _ => _ end); [done|]. by intros [= <- _].
Qed.

(** The port of the application is implemented. *)
#[program] Definition argon2_hasher : PasswordHasher Hasher := {|
  matches pw h := verify_password pw h = Matches;
  hash := argon2_hash;
  verify := argon2_verify
|}.
Next Obligation.
  intros pw s h s' Hx%run_work_ok. cbn in Hx. apply map_err_ok in Hx. by eapply verify_hashed.
Qed.
Next Obligation.
  intros pw h s b s' Hx%run_work_ok. cbn in Hx |- *.
  destruct (verify_password pw h); cbn in Hx; try done; injection Hx as <-; split; congruence.
Qed.

(* ------------------------------------------------------------------ *)
(** ** Several requests at once *)

(** The permits, the hashings that run (by request), and the requests still waiting. *)
Record Jobs := mkJobs { jb_permits : Sem; jb_running : list Z; jb_waiting : list Z }.

(** A request for work: the permit is taken and the work moved to a blocking thread. *)
Definition job_request (r : Z) : io Jobs (result unit AppError) := fun j =>
  match try_acquire (jb_permits j) with
  | None => (Err Busy, j)
  | Some s => (Ok tt, mkJobs s (r :: jb_running j) (r :: jb_waiting j))
  end.

Inductive job_step : Jobs -> Jobs -> Prop :=
| job_start r j x j' : job_request r j = (x, j') -> job_step j j'
(** the request is cancelled: the thread goes on *)
| job_cancel s l w1 r w2 : job_step (mkJobs s l (w1 ++ r :: w2)) (mkJobs s l (w1 ++ w2))
(** the work ends, with a result, an error or a panic: the permit is dropped *)
| job_end s r1 r r2 w :
    job_step (mkJobs s (r1 ++ r :: r2) w) (mkJobs (sem_release s) (r1 ++ r2) (filter (.≠ r) w)).

Lemma job_request_busy r j :
  fst (job_request r j) = Err Busy <-> available (jb_permits j) = 0%nat.
Proof.
  unfold job_request. destruct (available (jb_permits j)) as [|m] eqn:Ea.
  - by rewrite try_acquire_none.
  - destruct (try_acquire_some _ m Ea) as (s & -> & _). done.
Qed.

(** Password work is bounded: with a concurrency of [n] the hashings running and the
    free permits always add up to [n], whatever requests are cancelled and however the
    work ends (a result, an error, a panic); a request is turned away as busy exactly
    when [n] hashings run. *)
Theorem password_work_is_bounded (n : nat) (j : Jobs)
  (Hrun : star job_step (mkJobs (sem_new n) [] []) j) :
  (available (jb_permits j) + length (jb_running j) = n)%nat /\
  forall r, fst (job_request r j) = Err Busy <-> length (jb_running j) = n.
Proof.
  assert (Hn : (available (jb_permits j) + length (jb_running j) = n)%nat).
  { apply (star_invariant job_step
      (fun j => (available (jb_permits j) + length (jb_running j) = n)%nat)) with (3 := Hrun).
    2: { cbn. rewrite sem_new_spec. lia. }
    intros a b Ha Hs. destruct Hs as [r j0 x j' Hx|s l w1 r w2|s r1 r r2 w]; cbn in *.
    - unfold job_request in Hx. destruct (try_acquire (jb_permits j0)) as [s|] eqn:Et;
        injection Hx as <- <-; [|done]. cbn.
      destruct (available (jb_permits j0)) as [|m] eqn:Ea; [by rewrite try_acquire_none in Et|].
      destruct (try_acquire_some _ m Ea) as (s' & Hs' & ?). simplify_eq. lia.
    - done.
    - rewrite length_app in *. cbn in *. rewrite sem_release_spec. lia. }
  split; [done|]. intros r. rewrite job_request_busy. lia.
Qed.

End Hasher.

Lemma password_work_is_bounded_witness :
  exists j : Jobs (Sem := nat), length (jb_running j) = 1%nat /\ jb_waiting j = [] /\
    fst (job_request 8 j) = Err Busy.
Proof.
  set (j := mkJobs 0%nat [7] []). exists j. split; [reflexivity|]. split; [reflexivity|].
  assert (Hrun : star job_step (mkJobs (sem_new 1) [] []) j).
  { eapply star_to; [eapply star_to; [apply star_refl|apply (job_start 7 _ (Ok tt)); reflexivity|reflexivity]
                    |apply (job_cancel 0%nat [7] [] 7 [])|reflexivity]. }
  apply (password_work_is_bounded 1 j Hrun). reflexivity.
Defined.

(** A hash that is the salt and the password. *)
#[program] Definition plain_argon2 : Argon2 := {|
  Params := unit;
  params_new memory iterations parallelism :=
    if iterations =? 0 then Err (lit "time cost is too small") else Ok tt;
  hash_password _ salt pw := Ok (salt :: pw);
  verify_password pw h :=
    match h with
    | _ :: p => if bool_decide (p = pw) then Matches else PasswordInvalid
    | [] => BadPhc (lit "empty")
    end
|}.
Next Obligation. intros ps salt pw h [= <-]. cbn. by rewrite bool_decide_true. Qed.
