(* ===== verification/Http.v ===== *)
(** The HTTP gateway ([gateway/src/http]): error responses ([error.rs]), bearer-token
    authentication ([auth_extractor.rs]), the routes ([routes.rs]) and the redirect to
    HTTPS ([server.rs]).

    Requests arrive parsed by axum: the [Authorization] header is its text, if it is
    text at all, and a body is the record it deserialises to.  A response is its status
    with the serialised record. *)
From S2P Require Import Prelude Text Values Account Player Session App MemRepos TokenStore UseCases.
From Stdlib Require Import Strings.String.
Open Scope Z_scope.
Open Scope list_scope.
Abbreviation length := Datatypes.length.

(* ------------------------------------------------------------------ *)
(** ** Errors ([error.rs]) *)

Definition OK_200 : Z := 200.
Definition CREATED : Z := 201.
Definition PERMANENT_REDIRECT : Z := 308.
Definition BAD_REQUEST : Z := 400.
Definition UNAUTHORIZED : Z := 401.
Definition FORBIDDEN : Z := 403.
Definition NOT_FOUND : Z := 404.
Definition CONFLICT : Z := 409.
Definition TOO_MANY_REQUESTS : Z := 429.
Definition INTERNAL_SERVER_ERROR : Z := 500.
Definition SERVICE_UNAVAILABLE : Z := 503.

Record ApiError := mkApiError { ae_status : Z; ae_message : rstr }.
#[global] Instance ApiError_eq_dec : EqDecision ApiError.
Proof. solve_decision. Defined.

(** [StatusCode::canonical_reason] for the statuses used here. *)
Definition canonical_reason (status : Z) : rstr :=
  if status =? BAD_REQUEST then lit "Bad Request"
  else if status =? UNAUTHORIZED then lit "Unauthorized"
  else if status =? FORBIDDEN then lit "Forbidden"
  else if status =? NOT_FOUND then lit "Not Found"
  else if status =? CONFLICT then lit "Conflict"
  else if status =? TOO_MANY_REQUESTS then lit "Too Many Requests"
  else if status =? INTERNAL_SERVER_ERROR then lit "Internal Server Error"
  else if status =? SERVICE_UNAVAILABLE then lit "Service Unavailable"
  else lit "error".

Record ErrorBody := mkErrorBody { eb_error : rstr; eb_message : rstr }.

(** [IntoResponse for ApiError] *)
Definition api_error_response (e : ApiError) : Z * ErrorBody :=
  (ae_status e, mkErrorBody (canonical_reason (ae_status e)) (ae_message e)).

(** [From<AppError> for ApiError] *)
Definition api_of_app (err : AppError) : ApiError :=
  let '(status, message) :=
    match err with
    | Validation msg => (BAD_REQUEST, msg)
    | Unauthorized msg => (UNAUTHORIZED, msg)
    | Forbidden msg => (FORBIDDEN, msg)
    | NotFound msg => (NOT_FOUND, msg)
    | Conflict msg => (CONFLICT, msg)
    | Busy => (SERVICE_UNAVAILABLE, lit "服务繁忙,请稍后重试")
    | RateLimited => (TOO_MANY_REQUESTS, lit "请求过于频繁")
    | PostCommit _ => (INTERNAL_SERVER_ERROR, lit "数据已提交,事件发布失败,请勿重试整个操作")
    | Storage _ | Internal _ => (INTERNAL_SERVER_ERROR, lit "服务器内部错误")
    end in
  mkApiError status message.

(* ------------------------------------------------------------------ *)
(** ** Requests and responses ([routes.rs]) *)

Record RegisterRequest := mkRegisterRequest { rq_username : rstr; rq_password : rstr; rq_nickname : rstr }.
Record RegisterResponse := mkRegisterResponse { rp_account_id : Z; rp_player_id : Z; rp_nickname : rstr }.
Record LoginRequest := mkLoginRequest { lq_username : rstr; lq_password : rstr }.
Record LoginResponse := mkLoginResponse {
  lp_token : rstr; lp_player_id : Z; lp_nickname : rstr; lp_expires_in_secs : Z }.
Record PlayerResponse := mkPlayerResponse {
  pp_player : Z; pp_nick : rstr; pp_lvl : Z; pp_experience : Z; pp_last_login : option DateTime }.

Section Http.
Context {S T H A E : Type} `{HS : Repositories S} `{HT : SessionTokenStore T}
        `{HH : PasswordHasher H} `{HA : AuditLogger A} `{HE : EventPublisher E}.

Abbreviation World := (@World S T H A E).

(** [?] on an application error. *)
Definition api {X} (m : io World (result X AppError)) : io World (result X ApiError) :=
  let* r := m in io_ret (map_err api_of_app r).

(** [AuthUser::from_request_parts] at the instant [now]. *)
Definition auth_user (now : Z) (header : option rstr) : io World (result PlayerId ApiError) :=
  await? header := io_lift (ok_or (mkApiError UNAUTHORIZED (lit "缺少 Authorization 头")) header) in
  await? token := io_lift (ok_or (mkApiError UNAUTHORIZED (lit "Authorization 必须为 Bearer token"))
                                 (strip_prefix (lit "Bearer ") header)) in
  let* r := on_tokens (tok_resolve now (trim token)) in
  io_ret (match r with
          | Ok (Some player_id) => Ok player_id
          | Ok None => Err (mkApiError UNAUTHORIZED (lit "token 无效或已过期"))
          | Err err => Err (api_of_app err)
          end).

Definition healthz : rstr := lit "ok".

Definition post_register (account_id player_id : Z) (now1 now2 : DateTime) (rq : RegisterRequest)
  : io World (result (Z * RegisterResponse) ApiError) :=
  await? r := api (register_execute account_id player_id now1 now2
                     (mkRegisterCommand (rq_username rq) (rq_password rq) (rq_nickname rq))) in
  io_ret (Ok (CREATED, mkRegisterResponse (rr_account_id r) (rr_player_id r) (rr_nickname r))).

Definition post_login (ttl : Z) (now1 now2 : DateTime) (instant : Z) (rnd : list Z) (rq : LoginRequest)
  : io World (result LoginResponse ApiError) :=
  await? r := api (login_execute ttl now1 now2 instant rnd
                     (mkLoginCommand (lq_username rq) (lq_password rq))) in
  io_ret (Ok (mkLoginResponse (lr_token r) (lr_player_id r) (lr_nickname r) (lr_expires_in_secs r))).

Definition get_me (now : Z) (header : option rstr) : io World (result PlayerResponse ApiError) :=
  await? player_id := auth_user now header in
  await? p := api (profile_execute player_id) in
  io_ret (Ok (mkPlayerResponse (pp_player_id p) (pp_nickname p) (pp_level p) (pp_exp p)
                               (pp_last_login_at p))).

(* ------------------------------------------------------------------ *)
(** ** The redirect ([server.rs]) *)

(** [Authority] of the crate [http]: its text, its host part and its port. *)
Record Authority := mkAuthority { au_text : rstr; au_host : rstr; au_port_u16 : option Z }.

Definition starts_with_colon (s : rstr) : bool := match s with c :: _ => c =? 58 | [] => false end.

(** The filter on the parsed [Host] header. *)
Definition host_acceptable (a : Authority) : bool :=
  let suffix := drop (length (au_host a)) (au_text a) in
  negb (existsb (fun c => c =? 64) (au_text a)) && negb (is_empty (au_host a)) &&
  (is_empty suffix ||
   (starts_with_colon suffix && match au_port_u16 a with Some _ => true | None => false end)).

(** [to_https]: the target of the redirect, or a refusal. *)
Definition to_https (parse_authority : rstr -> option Authority) (https_port : Z)
    (host_header path_and_query : option rstr) : result (Z * rstr) Z :=
  match (h ← host_header; a ← parse_authority h; if host_acceptable a then Some a else None) with
  | None => Err BAD_REQUEST
  | Some a =>
      let path := default (lit "/") path_and_query in
      let authority := if https_port =? 443 then au_host a
                       else au_host a ++ lit ":" ++ show_u https_port in
      Ok (PERMANENT_REDIRECT, lit "https://" ++ authority ++ path)
  end.

(** [hsts_middleware]: a response's headers with the fixed policy set. *)
Definition hsts_header : rstr * rstr :=
  (lit "strict-transport-security", lit "max-age=63072000; includeSubDomains").
Definition hsts_middleware (headers : list (rstr * rstr)) : list (rstr * rstr) :=
  filter (fun kv => fst kv ≠ fst hsts_header) headers ++ [hsts_header].

(* ------------------------------------------------------------------ *)
(** ** Who gets a profile *)

Implicit Types w : World.

Lemma auth_user_spec now header w r w' :
  tok_wf now (w_tokens w) -> auth_user now header w = (r, w') ->
  w_store w' = w_store w /\ w_tokens w' = w_tokens w /\
  match r with
  | Ok p => exists token, header = Some (lit "Bearer " ++ token) /\
              live (w_tokens w) now (trim token) = Some p
  | Err _ => True
  end.
Proof.
  intros Hwf Hx. unfold auth_user in Hx.
  apply io_try_inv in Hx as [(h & w1 & Hh & Hx)|(e & Hh & ->)];
    unfold io_lift in Hh; apply io_ret_inv in Hh as [Hh <-]; [|done].
  apply io_try_inv in Hx as [(tk & w1 & Ht & Hx)|(e & Ht & ->)];
    unfold io_lift in Ht; apply io_ret_inv in Ht as [Ht <-]; [|done].
  destruct header as [h'|]; [|done]. injection Hh as ->.
  destruct (strip_prefix (lit "Bearer ") h) as [t|] eqn:Es; [|done]. injection Ht as ->.
  apply strip_prefix_some in Es as ->.
  apply io_bind_inv in Hx as (o & w1 & Ho & Hx). apply io_ret_inv in Hx as [<- <-].
  apply on_tokens_inv in Ho as (s & Hs & ->). apply tok_resolve_spec in Hs as [-> Hl]; [|done].
  cbn. split_and!; try done. destruct o as [[p|]|err]; try done.
  exists tk. split; [done|]. by rewrite <- (Hl _ eq_refl).
Qed.

Definition me_response (p : Player) : PlayerResponse :=
  mkPlayerResponse (pl_id p) (Nickname.as_str (pl_nickname p)) (pl_level p) (pl_exp p)
                   (pl_last_login_at p).

(** C34: The profile route serves only the bearer of a live token, and only the profile of
    that token's player: a successful answer means that the request carried a bearer
    token which is live at that moment, and the answer is the current profile of its
    player.  The request changes neither players nor tokens. *)
Theorem me_needs_live_token (now : Z) (header : option rstr) (w w' : World)
  (r : result PlayerResponse ApiError)
  (Hwf : repo_wf (w_store w)) (Htok : tok_wf now (w_tokens w)) (Hx : get_me now header w = (r, w')) :
  w_tokens w' = w_tokens w /\ players_view (w_store w') = players_view (w_store w) /\
  forall resp, r = Ok resp ->
    exists token p pl, header = Some (lit "Bearer " ++ token) /\
      live (w_tokens w) now (trim token) = Some p /\ players_view (w_store w) !! p = Some pl /\
      resp = me_response pl.
Proof.
  unfold get_me in Hx.
  apply io_try_inv in Hx as [(p & w1 & Ha & Hx)|(e & Ha & ->)];
    apply auth_user_spec in Ha as (Hs & Ht & Hauth); try done; [|by rewrite Hs, Ht].
  destruct Hauth as (token & -> & Hl).
  assert (Hw1 : repo_wf (w_store w1)) by congruence.
  apply io_try_inv in Hx as [(prof & w2 & Hp & Hx)|(e & Hp & ->)];
    apply io_bind_inv in Hp as (o & w3 & Hp & Hr); apply io_ret_inv in Hr as [Hr <-];
    apply profile_spec in Hp as ((_ & Hv & Htk & _) & Hres); try done;
    unfold views in Hv; injection Hv as _ Hv.
  2: { by rewrite Htk, Hv, Hs, Ht. }
  apply io_ret_inv in Hx as [<- <-]. rewrite Htk, Hv, Hs, Ht. split_and!; try done.
  intros resp [= <-]. apply map_err_ok in Hr. destruct (Hres prof Hr) as (pl & Hpl & ->).
  exists token, p, pl. rewrite <- Hs. split_and!; try done.
Qed.

Lemma random_token_trim rnd : Forall (fun b => 0 <= b < 256) rnd -> trim (random_token rnd) = random_token rnd.
Proof.
  intros Hb. apply trim_no_ws. unfold random_token.
  induction Hb as [|b l Hb Hl IH]; [constructor|]. cbn [map]. simpl.
  apply (Forall_app _ (show_02x b)). split; [by apply show_02x_no_ws|done].
Qed.

(** What a successful login over HTTP leaves behind. *)
Definition logged_in (ttl : Z) (now2 : DateTime) (instant : Z) (rnd : list Z) w (resp : LoginResponse) w1
    (p : Player) : Prop :=
  repo_wf (w_store w1) /\ tok_wf instant (w_tokens w1) /\ lp_token resp = random_token rnd /\
  lp_player_id resp = pl_id p /\ players_view (w_store w) !! pl_id p = Some p /\
  players_view (w_store w1) !! pl_id p = Some (Player.record_login p (kept_time now2)) /\
  forall later, instant <= later < expiry instant ttl ->
    live (w_tokens w1) later (random_token rnd) = Some (pl_id p).

Lemma post_login_ok ttl now1 now2 instant rnd rq w resp w1 :
  repo_wf (w_store w) -> tok_wf instant (w_tokens w) -> ids_ok w ->
  unused instant (w_tokens w) (random_token rnd) ->
  post_login ttl now1 now2 instant rnd rq w = (Ok resp, w1) ->
  exists p, logged_in ttl now2 instant rnd w resp w1 p.
Proof.
  intros Hwf Htok Hids Hun Hlogin. unfold post_login in Hlogin.
  apply io_try_inv in Hlogin as [(lr & w2 & Hl & Hx)|(e & _ & ?)]; [|done].
  apply io_ret_inv in Hx as [[= <-] <-].
  apply io_bind_inv in Hl as (rl & w3 & Hl & Hr). apply io_ret_inv in Hr as [Hr <-].
  apply map_err_ok in Hr as ->.
  apply login_spec in Hl as (Hwf1 & Htok1 & _ & _ & Hpost); try done.
  destruct Hpost as (a & p & (_ & _ & _ & _ & Hp & _) & Hpv & -> & Hlive).
  exists p. unfold logged_in. cbn [lp_token lp_player_id lr_token lr_player_id].
  rewrite Hpv, lookup_insert_eq. split_and!; try done.
  intros later Hlater. rewrite Hlive, decide_True by (lia || done).
  by rewrite (proj2 (Z.ltb_lt later (expiry instant ttl))) by lia.
Qed.

(** C23: Logging in works end to end: after a login over HTTP has answered with a token,
    a request for the own profile with that token as bearer, made before the token
    expires and answered by both stores, returns the profile of the player who logged
    in, with the time of that login. *)
Theorem login_then_me (ttl : Z) (now1 now2 : DateTime) (instant later : Z) (rnd : list Z)
  (rq : LoginRequest) (w w1 : World) (resp : LoginResponse)
  (Hwf : repo_wf (w_store w)) (Htok : tok_wf instant (w_tokens w)) (Hids : ids_ok w)
  (Hun : unused instant (w_tokens w) (random_token rnd)) (Hrnd : Forall (fun b => 0 <= b < 256) rnd)
  (Hlogin : post_login ttl now1 now2 instant rnd rq w = (Ok resp, w1))
  (Hlater : instant <= later < expiry instant ttl)
  (Htokens : is_ok (fst (tok_resolve later (lp_token resp) (w_tokens w1))) = true)
  (Hplayers : is_ok (fst (find_player_by_id (lp_player_id resp) (w_store w1))) = true) :
  exists p, players_view (w_store w) !! lp_player_id resp = Some p /\
    fst (get_me later (Some (lit "Bearer " ++ lp_token resp)) w1)
    = Ok (me_response (Player.record_login p (kept_time now2))).
Proof.
  destruct (post_login_ok _ _ _ _ _ _ _ _ _ Hwf Htok Hids Hun Hlogin)
    as (p & Hwf1 & Htok1 & Ht & Hi & Hp & Hpv & Hlive).
  rewrite Ht, Hi in *. exists p. split; [done|].
  unfold get_me, auth_user, io_try, io_lift, io_ret, io_bind. cbn [ok_or].
  rewrite (proj2 (strip_prefix_some (lit "Bearer ") _ (random_token rnd)) eq_refl). cbn [ok_or].
  rewrite random_token_trim by done. unfold on_tokens.
  destruct (tok_resolve later (random_token rnd) (w_tokens w1)) as [o s] eqn:Er.
  destruct o as [o|]; [|done]. apply tok_resolve_spec in Er as [-> Ho]; [|apply (tok_wf_later instant); [lia|done]].
  rewrite (Ho o eq_refl), Hlive by lia.
  unfold api, profile_execute, profile_query, on_store, io_bind, io_ret. cbn [w_store].
  destruct (find_player_by_id (pl_id p) (w_store w1)) as [f s] eqn:Ef. destruct f as [f|]; [|done].
  apply find_player_by_id_spec in Ef as (_ & _ & _ & Hf); [|done].
  by rewrite (Hf f eq_refl), Hpv.
Qed.

End Http.

Module HttpDemo.

#[local] Existing Instance plain_hasher.
#[local] Existing Instance log_audit.
#[local] Existing Instance log_events.
Import UseCases.Demo.

Definition login_rq : LoginRequest := mkLoginRequest (lit "ALICE_01") (lit "super-secret").
Definition login_out : result LoginResponse ApiError * DemoWorld :=
  post_login 60000000000 3 4 5 [7; 8] login_rq w1.
Definition me_out : result PlayerResponse ApiError * DemoWorld :=
  get_me 100 (Some (lit "Bearer " ++ random_token [7; 8])) (snd login_out).

Lemma unused_demo : unused 5 (w_tokens w1) (random_token [7; 8]).
Proof. split; [vm_compute; reflexivity|]. intros p ts. vm_compute. discriminate. Qed.

Lemma login_then_me_witness :
  fst me_out = Ok (mkPlayerResponse 20 (lit "爱丽丝") 1 0 (Some 4)).
Proof.
  destruct (login_then_me 60000000000 3 4 5 100 [7; 8] login_rq w1 (snd login_out)
    (mkLoginResponse (random_token [7; 8]) 20 (lit "爱丽丝") 60)
    (c_wf _ _ w1_consistent) (tok_wf_later 0 5 _ ltac:(lia) (c_tok _ _ w1_consistent))
    (c_ids _ _ w1_consistent) unused_demo)
    as (p & Hp & Hme).
  - repeat constructor; lia.
  - vm_compute. reflexivity.
  - vm_compute. split; [discriminate|reflexivity].
  - vm_compute. reflexivity.
  - vm_compute. reflexivity.
  - assert (Hp' : p = Player.create 20 10 (Nickname.mk (lit "爱丽丝")) 2).
    { vm_compute in Hp. injection Hp as <-. vm_compute. reflexivity. }
    subst p. exact Hme.
Defined.

Lemma login_consistent : repo_wf (w_store (snd login_out)) /\ tok_wf 5 (w_tokens (snd login_out)).
Proof.
  replace (snd login_out) with w2 by (vm_compute; reflexivity).
  pose proof (consistent_login 0 60000000000 3 4 5 [7; 8] log_cmd w1
    (fst (login_execute 60000000000 3 4 5 [7; 8] log_cmd w1)) w2 w1_consistent ltac:(lia) unused_demo) as Hc.
  destruct Hc; [vm_compute; reflexivity|done].
Qed.

Lemma me_needs_live_token_witness :
  exists token p pl, Some (lit "Bearer " ++ random_token [7; 8]) = Some (lit "Bearer " ++ token) /\
    live (w_tokens (snd login_out)) 100 (trim token) = Some p /\
    players_view (w_store (snd login_out)) !! p = Some pl /\
    mkPlayerResponse 20 (lit "爱丽丝") 1 0 (Some 4) = me_response pl.
Proof.
  apply (me_needs_live_token 100 (Some (lit "Bearer " ++ random_token [7; 8])) (snd login_out) (snd me_out)
           (fst me_out) (proj1 login_consistent) (tok_wf_later 5 100 _ ltac:(lia) (proj2 login_consistent))).
  - apply surjective_pairing.
  - vm_compute. reflexivity.
Defined.

End HttpDemo.
