(* ===== verification/EndToEnd.v ===== *)
(** Components together: a player logs in over HTTP ([gateway/src/http]) and binds a TCP
    connection with the token ([gateway/src/tcp]), from the bytes the client sends to the
    frame it gets back.

    Both gateways hold the same repositories and the same token store
    ([server-bin/src/bootstrap.rs] hands [services.tokens] and [services.players] to
    both), so the login leaves the stores in which the connection's frame is admitted. *)
From S2P Require Import Prelude Text Tokio Values Account Player Room Session Frame Connection.
From S2P Require Import Protocol App MemRepos TokenStore UseCases RoomActor RoomService.
From S2P Require Import AuthGate RateLimit Gateway ConnLoop Http.
From Stdlib Require Import Strings.String.
Open Scope Z_scope.
Open Scope list_scope.
Abbreviation length := Datatypes.length.

Section EndToEnd.
Context {Q : Type -> Type} `{HQ : Mpsc Q} {S T H A E : Type} `{HS : Repositories S}
        `{HT : SessionTokenStore T} `{HH : PasswordHasher H} `{HA : AuditLogger A}
        `{HE : EventPublisher E} `{HP : Prost} `{HU : UuidFmt} {R : Type} `{HR : AsyncRead R}.
Variable rooms_config : RoomServiceConfig.

Abbreviation Gw := (@Gw Q S T E).
Abbreviation World := (World S T H A E).

Lemma hex_digit_char d : 0 <= d < 16 -> is_char (hex_digit d) /\ is_whitespace (hex_digit d) = false.
Proof.
  intros Hd. unfold hex_digit, is_char. destruct (d <? 10) eqn:Hten; b2p; (split; [lia|]);
    unfold is_whitespace; rewrite !orb_false_iff, !andb_false_iff, !Z.leb_gt, !Z.eqb_neq; lia.
Qed.

Lemma random_token_text rnd : Forall (fun b => 0 <= b < 256) rnd -> ok_str (random_token rnd).
Proof.
  unfold ok_str, random_token. induction 1 as [|b l Hb Hl IH]; [constructor|]. cbn [map].
  apply (Forall_app _ (show_02x b)). split; [|done]. unfold show_02x.
  apply Forall_cons_2; [|apply Forall_cons_2; [|apply Forall_nil_2]];
    apply hex_digit_char; Z.to_euclidean_division_equations; lia.
Qed.

Lemma random_token_nonempty rnd : rnd <> [] -> random_token rnd <> [].
Proof. by destruct rnd. Qed.

(** A frame on an unbound connection that is within its rate reaches [handle_bind]. *)
Lemma admit_bind ctx now f request bucket (g : Gw) :
  fst (rate_check now bucket) = true -> is_authenticated g = false ->
  codec_decode (Codec := GameCodec) f = Ok (Bind request) ->
  forall m g1, handle_bind ctx (Bind request) g = (Ok (Some m), g1) ->
    admit_frame rooms_config ctx now f (bucket, g)
    = (is_ok (fst (ctx_try_send m g1)), (snd (rate_check now bucket), snd (ctx_try_send m g1))).
Proof.
  intros Hrate Hun Hd m g1 Hb. unfold admit_frame.
  destruct (rate_check now bucket) as [ok b']. cbn [fst snd] in *. subst ok.
  unfold admit_message. rewrite Hd, Hun. cbn [in_opcode negb andb]. rewrite Z.eqb_refl. cbn [negb].
  unfold io_bind at 1. cbn [io_ret].
  assert (Hdisp : dispatch (build_router (Q := Q) (S := S) (T := T) (E := E) rooms_config) ctx (Bind request) g = (Ok (Some m), g1)).
  { destruct (router_route (Q := Q) (S := S) (T := T) (E := E) rooms_config (Bind request)) as (h & Hr & Hh); [done|].
    rewrite (dispatch_hit _ _ _ _ _ Hr), Hh. done. }
  unfold io_bind at 1. rewrite Hdisp. unfold io_bind, io_ret.
  by destruct (ctx_try_send m g1).
Qed.

(** [handle_bind] with a live token whose player exists, when both stores answer. *)
Lemma bind_live ctx request p (g : Gw) :
  repo_wf (gw_store g) -> tok_wf (env_instant (cx_env ctx)) (gw_tokens g) -> is_authenticated g = false ->
  trim (pb.bind_token request) <> [] ->
  live (gw_tokens g) (env_instant (cx_env ctx)) (trim (pb.bind_token request)) = Some (pl_id p) ->
  players_view (gw_store g) !! pl_id p = Some p ->
  is_ok (fst (tok_resolve (env_instant (cx_env ctx)) (trim (pb.bind_token request)) (gw_tokens g))) = true ->
  is_ok (fst (find_player_by_id (pl_id p) (gw_store g))) = true ->
  exists g1, handle_bind ctx (Bind request) g
    = (Ok (Some (bind_ok (uuid_to_string (pl_id p)) (Nickname.as_str (pl_nickname p)))), g1) /\
    gw_auth g1 = bound g (pl_id p) p (trim (pb.bind_token request)) /\ gw_out g1 = gw_out g.
Proof.
  intros Hwf Htw Hun Hne Hlive Hp Hres Hfind.
  assert (Hn : au_player (gw_auth g) = None).
  { unfold is_authenticated in Hun. by destruct (au_player (gw_auth g)). }
  destruct (handle_bind ctx (Bind request) g) as [r g1] eqn:Hb.
  pose proof (handle_bind_spec ctx request g r g1 Hwf Htw Hn Hb) as (_ & _ & Hout & _ & _ & Hpost).
  exists g1. unfold bind_post in Hpost. destruct r as [[m|]|e]; [|done|exfalso].
  - destruct Hpost as [(q & pl & _ & [Hl Hq] & Ha & ->)|[(_ & He & _)|(_ & Hl & _)]]; [|done|congruence].
    assert (q = pl_id p) as -> by congruence. assert (pl = p) as -> by congruence. done.
  - unfold handle_bind in Hb. rewrite Hun in Hb. cbv zeta in Hb.
    destruct (trim (pb.bind_token request)) as [|c tl] eqn:Et; [done|]. cbn [is_empty] in Hb.
    unfold io_bind, on_session_tokens in Hb.
    destruct (tok_resolve _ _ _) as [o t] eqn:Er in Hb. rewrite Er in Hres. destruct o as [o|]; [|done].
    apply tok_resolve_spec in Er as [-> Ho]; [|done]. rewrite (Ho o eq_refl), Hlive in Hb.
    unfold io_try, on_players, io_ret in Hb. cbn [gw_store gw_tokens gw_rooms gw_auth gw_out] in Hb.
    destruct (find_player_by_id (pl_id p) (gw_store g)) as [found s] eqn:Ef. destruct found as [found|]; [|done].
    apply find_player_by_id_spec in Ef as (_ & _ & _ & Hf); [|done].
    rewrite (Hf found eq_refl), Hp in Hb. cbn in Hb. done.
Qed.

(** C24: A player can go from the login form to a bound connection.  After [POST /login] has
    answered with a token, the bytes of the bind request with that token, as the client
    encodes them and with anything behind them, are read by the gateway as one frame;
    admitted on an unbound connection before the token expires, within the rate limit and
    while both stores answer, that frame binds the connection to the player who logged in,
    under its nickname and with that token; the answer is the bind result of that player,
    and the connection goes on exactly if the answer could be queued. *)
Theorem login_then_bind (ttl : Z) (now1 now2 : DateTime) (instant : Z) (rnd : list Z)
  (rq : LoginRequest) (w w1 : World) (resp : LoginResponse)
  (ctx : ConnContext) (g : Gw) (bucket : option TokenBucket) (rate_now max : Z)
  (f : Frame) (bs rest : list Z) (stream : R)
  (Hwf : repo_wf (w_store w)) (Htok : tok_wf instant (w_tokens w)) (Hids : ids_ok w)
  (Hun : unused instant (w_tokens w) (random_token rnd))
  (Hrnd : Forall (fun b => 0 <= b < 256) rnd) (Hne : rnd <> [])
  (Hlogin : post_login ttl now1 now2 instant rnd rq w = (Ok resp, w1))
  (Hstore : gw_store g = w_store w1) (Htokens : gw_tokens g = w_tokens w1)
  (Hunbound : is_authenticated g = false)
  (Hsent : codec_encode (Codec := ClientCodec) (Bind (pb.mkBindRequest (lp_token resp))) = Ok f)
  (Hmax : max <= u_max 32) (Hwire : encode_frame f max = Ok bs) (Hstream : pending stream = bs ++ rest)
  (Hrate : fst (rate_check rate_now bucket) = true)
  (Htime : instant <= env_instant (cx_env ctx) < expiry instant ttl)
  (Hresolve : is_ok (fst (tok_resolve (env_instant (cx_env ctx)) (lp_token resp) (gw_tokens g))) = true)
  (Hfind : is_ok (fst (find_player_by_id (lp_player_id resp) (gw_store g))) = true) :
  exists p stream' g1,
    players_view (w_store w) !! lp_player_id resp = Some p /\
    read_frame max stream = (Ok (Some f), stream') /\ pending stream' = rest /\
    let answer := bind_ok (uuid_to_string (pl_id p)) (Nickname.as_str (pl_nickname p)) in
    gw_out g1 = gw_out g /\
    admit_frame rooms_config ctx rate_now f (bucket, g)
    = (is_ok (fst (ctx_try_send answer g1)), (snd (rate_check rate_now bucket), snd (ctx_try_send answer g1))) /\
    gw_auth (snd (ctx_try_send answer g1)) = bound g (lp_player_id resp) p (lp_token resp).
Proof.
  destruct (post_login_ok _ _ _ _ _ _ _ _ _ Hwf Htok Hids Hun Hlogin)
    as (p & Hwf1 & Htok1 & Ht & Hi & Hp & Hpv & Hlive).
  rewrite Ht, Hi in *.
  assert (Hvalid : valid (Bind (pb.mkBindRequest (random_token rnd)))) by (by apply random_token_text).
  destruct (client_codec_roundtrip _ f Hvalid Hsent) as [Hok Hdec].
  destruct (read_frame_encoded max stream f bs rest Hok Hmax Hwire Hstream) as (stream' & Hread & Hrest & _).
  destruct (bind_live ctx (pb.mkBindRequest (random_token rnd)) (Player.record_login p (kept_time now2)) g)
    as (g1 & Hb & Hau & Hout); cbn [pb.bind_token]; rewrite ?random_token_trim, ?Hstore, ?Htokens by done; try done.
  { apply (tok_wf_later instant); [lia|done]. }
  { by apply random_token_nonempty. }
  { cbn [pl_id Player.record_login]. apply Hlive. lia. }
  { by rewrite <- Htokens. }
  { by rewrite <- Hstore. }
  exists p, stream', g1. split; [done|]. split; [done|]. split; [done|]. cbv zeta. split; [done|].
  split; [by apply (admit_bind ctx rate_now f (pb.mkBindRequest (random_token rnd)))|].
  destruct (ctx_try_send _ g1) as [x g2] eqn:Es. apply try_send_only_out in Es as (_ & _ & _ & Ha). cbn [snd].
  rewrite Ha, Hau. cbn [pb.bind_token]. by rewrite random_token_trim.
Qed.

End EndToEnd.

Module E2eDemo.

#[local] Existing Instance log_events.
#[local] Existing Instance plain_hasher.
#[local] Existing Instance log_audit.
#[local] Existing Instance simple_prost.
#[local] Existing Instance hex_uuid.
Import UseCases.Demo GwDemo HttpDemo.

(** The connection of [GwDemo] over the stores that the login of [HttpDemo] left. *)
Definition fresh_gw : @Gw queue Memory.Store MemTokens.State (list DomainEvent) :=
  mkGw (w_store (snd login_out)) (w_tokens (snd login_out)) (service_new [] sinks0) auth_default
       (outbound_new (chan 4)).
Definition bind_frame : Frame :=
  frame_new OP_C2S_BIND (encode_to_vec (pb.mkBindRequest (random_token [7; 8]))).
Definition bind_bytes : list Z :=
  match encode_frame bind_frame 4096 with Ok bs => bs | Err _ => [] end.
Definition client : byte_stream := mkStream (bind_bytes ++ [1; 2; 3]) None.

Lemma login_then_bind_witness :
  au_player (gw_auth (snd (snd (admit_frame rooms_cfg ctx 0 bind_frame (None, fresh_gw)))))
  = Some (mkAuthed 20 (lit "爱丽丝")).
Proof.
  destruct (login_then_bind (R := byte_stream) rooms_cfg 60000000000 3 4 5 [7; 8] login_rq w1 (snd login_out)
    (mkLoginResponse (random_token [7; 8]) 20 (lit "爱丽丝") 60) ctx fresh_gw None 0 4096 bind_frame bind_bytes
    [1; 2; 3] client
    (c_wf _ _ w1_consistent) (tok_wf_later 0 5 _ ltac:(lia) (c_tok _ _ w1_consistent))
    (c_ids _ _ w1_consistent) unused_demo)
    as (p & stream' & g1 & Hp & _ & _ & _ & Ha & Hau).
  - repeat constructor; lia.
  - done.
  - vm_compute. reflexivity.
  - reflexivity.
  - reflexivity.
  - reflexivity.
  - reflexivity.
  - unfold u_max. lia.
  - vm_compute. reflexivity.
  - reflexivity.
  - reflexivity.
  - vm_compute. split; [discriminate|reflexivity].
  - vm_compute. reflexivity.
  - vm_compute. reflexivity.
  - assert (Hp' : p = Player.create 20 10 (Nickname.mk (lit "爱丽丝")) 2).
    { vm_compute in Hp. injection Hp as <-. vm_compute. reflexivity. }
    subst p. rewrite Ha. cbn [snd]. rewrite Hau. reflexivity.
Defined.

End E2eDemo.
