(* ===== verification/Tls.v ===== *)
(** TLS and the listening socket ([net-kit/src/tls.rs], [net-kit/src/transport.rs]):
    loading the certificate and the private key, building a server configuration for
    TLS 1.3 only, binding the socket, accepting and configuring a connection and the
    handshake.

    [rustls], [socket2] and the operating system are not part of the repository: [Rustls]
    and [Net] state what their documentation promises.  Paths, [from_utf8_lossy] and the
    integer conversions are those of the Rust standard library.  [files] is the file
    system as [std::fs::read] sees it, [home] the variable [HOME], [debug_str] how [{:?}]
    escapes a text. *)
From S2P Require Import Prelude Text Tokio Frame.
From Stdlib Require Import Strings.String.
Open Scope Z_scope.
Open Scope list_scope.
Abbreviation length := Datatypes.length.

(* ------------------------------------------------------------------ *)
(** ** [String::from_utf8_lossy] *)

Definition REPLACEMENT : Z := 0xFFFD.

(** The byte after [b0] in a sequence of three or four bytes: no overlong form, no
    surrogate, nothing above U+10FFFF. *)
Definition second_ok (b0 b1 : Z) : bool :=
  is_cont b1 &&
  (if b0 =? 0xE0 then 0xA0 <=? b1
   else if b0 =? 0xED then b1 <? 0xA0
   else if b0 =? 0xF0 then 0x90 <=? b1
   else if b0 =? 0xF4 then b1 <? 0x90
   else true).

(** The first character of a non-empty text and the number of bytes it takes: a maximal
    piece that no valid sequence continues becomes one replacement character. *)
Definition lossy_step (b0 : Z) (t : list Z) : Z * nat :=
  let b k := default 0 (t !! k) in
  if b0 <? 0x80 then (b0, 1%nat)
  else if (0xC2 <=? b0) && (b0 <? 0xE0) then
    if is_cont (b 0%nat) then ((b0 - 0xC0) * 64 + (b 0%nat - 0x80), 2%nat) else (REPLACEMENT, 1%nat)
  else if (0xE0 <=? b0) && (b0 <? 0xF0) then
    if negb (second_ok b0 (b 0%nat)) then (REPLACEMENT, 1%nat)
    else if negb (is_cont (b 1%nat)) then (REPLACEMENT, 2%nat)
    else ((b0 - 0xE0) * 4096 + (b 0%nat - 0x80) * 64 + (b 1%nat - 0x80), 3%nat)
  else if (0xF0 <=? b0) && (b0 <? 0xF5) then
    if negb (second_ok b0 (b 0%nat)) then (REPLACEMENT, 1%nat)
    else if negb (is_cont (b 1%nat)) then (REPLACEMENT, 2%nat)
    else if negb (is_cont (b 2%nat)) then (REPLACEMENT, 3%nat)
    else ((b0 - 0xF0) * 262144 + (b 0%nat - 0x80) * 4096 + (b 1%nat - 0x80) * 64 + (b 2%nat - 0x80), 4%nat)
  else (REPLACEMENT, 1%nat).

(** Every step takes at least one byte, so as many steps as bytes are enough. *)
Fixpoint lossy_n (fuel : nat) (bs : list Z) : rstr :=
  match fuel, bs with
  | S n, b0 :: t => let '(c, k) := lossy_step b0 t in c :: lossy_n n (drop k bs)
  | _, _ => []
  end.
Definition from_utf8_lossy (bs : list Z) : rstr := lossy_n (length bs) bs.

Lemma lossy_step_pos b0 t : (1 <= snd (lossy_step b0 t))%nat.
Proof. unfold lossy_step. repeat case_match; simpl; lia. Qed.

(** More fuel than bytes changes nothing. *)
Lemma lossy_n_fuel n m bs : (length bs <= n)%nat -> (length bs <= m)%nat -> lossy_n n bs = lossy_n m bs.
Proof.
  revert m bs. induction n as [|n IH]; intros m [|b0 t] Hn Hm; simpl in *; try lia; try by destruct m.
  destruct m as [|m]; [lia|]. simpl.
  pose proof (lossy_step_pos b0 t) as Hk. destruct (lossy_step b0 t) as [c k]; simpl in Hk.
  f_equal. apply IH; rewrite length_drop; simpl; lia.
Qed.

(** One step undoes the encoding of a character, whatever follows. *)
Lemma lossy_step_encode c rest :
  is_char c ->
  exists b0 t, encode_char c = b0 :: t /\ lossy_step b0 (t ++ rest) = (c, S (length t)).
Proof.
  intros Hc. unfold encode_char, is_char in *.
  repeat case_match; b2p; eexists _, _; (split; [reflexivity|]);
    unfold lossy_step, second_ok, is_cont; cbn [app lookup list_lookup default from_option id length];
    repeat match goal with
    | H : (if ?b then _ else _) = _ |- _ => destruct b eqn:?; b2p
    | |- context [if ?b then _ else _] => destruct b eqn:?; b2p
    | H : (_ && _) = false |- _ => apply andb_false_iff in H as [?|?]; b2p
    end;
    try (exfalso; Z.to_euclidean_division_equations; lia);
    f_equal; Z.to_euclidean_division_equations; lia.
Qed.

(** A file that holds valid text is read as that text. *)
Lemma from_utf8_lossy_text s : is_rstr s -> from_utf8_lossy (as_bytes s) = s.
Proof.
  unfold from_utf8_lossy. induction 1 as [|c s Hc Hs IH]; [done|]. unfold as_bytes in *. cbn [flat_map].
  destruct (lossy_step_encode c (flat_map encode_char s) Hc) as (b0 & t & Hb & Hl). rewrite Hb.
  cbn [app length lossy_n]. rewrite Hl. f_equal.
  cbn [drop]. rewrite drop_app_length.
  rewrite (lossy_n_fuel _ (length (flat_map encode_char s))) by (rewrite ?length_app; lia). done.
Qed.

(* ------------------------------------------------------------------ *)
(** ** Paths *)

Definition slash : Z := 47.

(** The pieces between slashes. *)
Fixpoint segments (p : rstr) : list rstr :=
  match p with
  | [] => [[]]
  | c :: t =>
      if c =? slash then [] :: segments t
      else match segments t with
           | s :: rest => (c :: s) :: rest
           | [] => [[c]]
           end
  end.

(** Empty pieces and [.] are no components. *)
Definition no_component (s : rstr) : bool := bool_decide (s = [] \/ s = lit ".").

Fixpoint drop_blank (l : list rstr) : list rstr :=
  match l with
  | s :: rest => if no_component s then drop_blank rest else l
  | [] => []
  end.

Fixpoint join_segments (l : list rstr) : rstr :=
  match l with
  | [] => []
  | [s] => s
  | s :: rest => s ++ slash :: join_segments rest
  end.

(** [path.strip_prefix("~")]: the first component must be [~]; what is left is trimmed on
    both sides of what is no component. *)
Definition strip_tilde (path : rstr) : option rstr :=
  match segments path with
  | s :: rest =>
      if bool_decide (s = lit "~")
      then Some (join_segments (rev (drop_blank (rev (drop_blank rest)))))
      else None
  | [] => None
  end.

(** [Path::join] *)
Definition path_join (base rel : rstr) : rstr :=
  match rel with
  | c :: _ => if c =? slash then rel
              else if bool_decide (last base = Some slash) then base ++ rel else base ++ slash :: rel
  | [] => if bool_decide (last base = Some slash) then base else base ++ [slash]
  end.

Section Paths.
Variable home : option rstr.

Definition expand_home (path : rstr) : result rstr NetError :=
  match strip_tilde path with
  | None => Ok path
  | Some relative =>
      match home with
      | Some h => if is_empty h then Err (TlsConfig (lit "展开 ~/ 路径需要非空 HOME"))
                  else Ok (path_join h relative)
      | None => Err (TlsConfig (lit "展开 ~/ 路径需要非空 HOME"))
      end
  end.
End Paths.

Example expand_examples :
  expand_home (Some (lit "/root")) (lit "~/certs/a.crt") = Ok (lit "/root/certs/a.crt") /\
  expand_home (Some (lit "/root/")) (lit "~//./certs/a.crt/") = Ok (lit "/root/certs/a.crt") /\
  expand_home None (lit "./~/a") = Ok (lit "./~/a") /\
  expand_home None (lit "~x/a") = Ok (lit "~x/a") /\
  is_err (expand_home (Some []) (lit "~/a")) = true.
Proof. vm_compute. done. Qed.

(* ------------------------------------------------------------------ *)
(** ** The server configuration *)

Inductive TlsVersion := TLS12 | TLS13.
#[global] Instance TlsVersion_eq_dec : EqDecision TlsVersion.
Proof. solve_decision. Defined.

(** [rustls] and its PEM reader.  [pem_certs] are the items of [pem_slice_iter].
    [sc_*] observe a finished configuration. *)
Class Rustls := {
  Certificate : Type;
  PrivateKey : Type;
  ServerConfig : Type;
  pem_certs : list Z -> list (result Certificate rstr);
  pem_key : list Z -> result PrivateKey rstr;
  (** the builder: the versions, without client authentication, a certificate chain and its key *)
  with_protocol_versions : list TlsVersion -> result (list TlsVersion) rstr;
  with_single_cert : list TlsVersion -> list Certificate -> PrivateKey -> result ServerConfig rstr;
  sc_versions : ServerConfig -> list TlsVersion;
  sc_chain : ServerConfig -> list Certificate;
  sc_key : ServerConfig -> PrivateKey;
  key_fits : list Certificate -> PrivateKey -> Prop;
  with_protocol_versions_spec vs b : with_protocol_versions vs = Ok b -> b = vs;
  with_single_cert_spec vs certs key sc :
    with_single_cert vs certs key = Ok sc ->
    sc_versions sc = vs /\ sc_chain sc = certs /\ sc_key sc = key /\ key_fits certs key
}.

(** [Iterator::collect] into a [Result]: all values, or the first error. *)
Fixpoint collect {T E} (l : list (result T E)) : result (list T) E :=
  match l with
  | [] => Ok []
  | x :: rest => let? v := x in let? vs := collect rest in Ok (v :: vs)
  end.

Lemma collect_ok {T E} (l : list (result T E)) vs : collect l = Ok vs <-> l = Ok <$> vs.
Proof.
  revert vs. induction l as [|[v|e] l IH]; intros vs; simpl.
  - split; [by intros [= <-]|by destruct vs].
  - rewrite res_bind_ok. split.
    + intros (ws & Hw & [= <-]). apply IH in Hw as ->. done.
    + destruct vs as [|w ws]; simpl; [done|]. intros [= -> ->]. exists ws. split; [by apply IH|done].
  - split; [done|]. by destruct vs.
Qed.

Section Config.
Context `{HR : Rustls}.
Variables (home : option rstr) (files : rstr -> result (list Z) rstr) (debug_str : rstr -> rstr).

Definition build_config (certs : list Certificate) (key : PrivateKey) : result ServerConfig NetError :=
  let? versions := map_err (fun err => TlsConfig (lit "TLS 版本配置失败: " ++ err))
                           (with_protocol_versions [TLS13]) in
  map_err (fun err => TlsConfig (lit "证书与私钥不匹配: " ++ err)) (with_single_cert versions certs key).

Definition server_config_from_pem_bytes (cert_pem key_pem : rstr) : result ServerConfig NetError :=
  let? certs := map_err (fun err => TlsConfig (lit "解析证书失败: " ++ err))
                        (collect (pem_certs (as_bytes cert_pem))) in
  if match certs with [] => true | _ => false end
  then Err (TlsConfig (lit "证书文件中没有任何证书"))
  else
    let? key := map_err (fun err => TlsConfig (lit "解析私钥失败: " ++ err)) (pem_key (as_bytes key_pem)) in
    build_config certs key.

Definition server_config_from_files (cert_path key_path : rstr) : result ServerConfig NetError :=
  let? cert_path := expand_home home cert_path in
  let? key_path := expand_home home key_path in
  let? cert_pem := map_err (fun err => TlsConfig (lit "读取证书 " ++ debug_str cert_path ++ lit " 失败: " ++ err))
                           (files cert_path) in
  let? key_pem := map_err (fun err => TlsConfig (lit "读取私钥 " ++ debug_str key_path ++ lit " 失败: " ++ err))
                          (files key_path) in
  server_config_from_pem_bytes (from_utf8_lossy cert_pem) (from_utf8_lossy key_pem).

End Config.

(* ------------------------------------------------------------------ *)
(** ** Sockets ([transport.rs]) *)

Record SocketAddr := mkSocketAddr { sa_v6 : bool; sa_ip : Z; sa_port : Z }.
#[global] Instance SocketAddr_eq_dec : EqDecision SocketAddr.
Proof. solve_decision. Defined.

(** What the operating system keeps of a socket. *)
Record SockState := mkSockState {
  so_reuse : bool; so_nonblocking : bool; so_bound : option SocketAddr; so_backlog : option Z;
  so_nodelay : bool; so_keepalive : option Z
}.
Definition fresh_sock : SockState := mkSockState false false None None false None.
Definition with_reuse (s : SockState) (b : bool) :=
  mkSockState b (so_nonblocking s) (so_bound s) (so_backlog s) (so_nodelay s) (so_keepalive s).
Definition with_nonblocking (s : SockState) (b : bool) :=
  mkSockState (so_reuse s) b (so_bound s) (so_backlog s) (so_nodelay s) (so_keepalive s).
Definition with_bound (s : SockState) (a : SocketAddr) :=
  mkSockState (so_reuse s) (so_nonblocking s) (Some a) (so_backlog s) (so_nodelay s) (so_keepalive s).
Definition with_backlog (s : SockState) (n : Z) :=
  mkSockState (so_reuse s) (so_nonblocking s) (so_bound s) (Some n) (so_nodelay s) (so_keepalive s).
Definition with_nodelay (s : SockState) (b : bool) :=
  mkSockState (so_reuse s) (so_nonblocking s) (so_bound s) (so_backlog s) b (so_keepalive s).
Definition with_keepalive (s : SockState) (k : Z) :=
  mkSockState (so_reuse s) (so_nonblocking s) (so_bound s) (so_backlog s) (so_nodelay s) (Some k).

(** A call on a socket: its effect when it answers [Ok]. *)
Definition sets {W Sock} (state : W -> Sock -> SockState) (s : Sock) (f : SockState -> SockState)
    (r : result unit IoError) (w w' : W) : Prop :=
  r = Ok tt -> state w' s = f (state w s).

(** The sockets of a process: [sock_state] observes them, [negotiated] is the protocol
    version of a finished handshake. *)
Class Net `{HRu : Rustls} (W : Type) := {
  Sock : Type;
  Stream : Type;
  sock_state : W -> Sock -> SockState;
  local_addr : Sock -> W -> result SocketAddr IoError;
  negotiated : Stream -> TlsVersion;
  socket_of : Stream -> Sock;
  sock_new : bool -> io W (result Sock IoError);
  set_reuse_address : Sock -> bool -> io W (result unit IoError);
  set_nonblocking : Sock -> bool -> io W (result unit IoError);
  sock_bind : Sock -> SocketAddr -> io W (result unit IoError);
  sock_listen : Sock -> Z -> io W (result unit IoError);
  (** [TcpListener::from_std] *)
  from_std : Sock -> io W (result unit IoError);
  tcp_accept : Sock -> io W (result (Sock * SocketAddr) IoError);
  set_nodelay : Sock -> bool -> io W (result unit IoError);
  set_tcp_keepalive : Sock -> Z -> io W (result unit IoError);
  tls_accept : ServerConfig -> Sock -> io W (result Stream rstr);

  sock_new_spec v6 w s w' : sock_new v6 w = (Ok s, w') -> sock_state w' s = fresh_sock;
  set_reuse_address_spec s b w r w' :
    set_reuse_address s b w = (r, w') -> sets sock_state s (fun x => with_reuse x b) r w w';
  set_nonblocking_spec s b w r w' :
    set_nonblocking s b w = (r, w') -> sets sock_state s (fun x => with_nonblocking x b) r w w';
  sock_bind_spec s a w r w' :
    sock_bind s a w = (r, w') -> sets sock_state s (fun x => with_bound x a) r w w';
  sock_listen_spec s n w r w' :
    sock_listen s n w = (r, w') -> sets sock_state s (fun x => with_backlog x n) r w w';
  from_std_spec s w r w' : from_std s w = (r, w') -> sets sock_state s (fun x => x) r w w';
  set_nodelay_spec s b w r w' :
    set_nodelay s b w = (r, w') -> sets sock_state s (fun x => with_nodelay x b) r w w';
  set_tcp_keepalive_spec s k w r w' :
    set_tcp_keepalive s k w = (r, w') -> sets sock_state s (fun x => with_keepalive x k) r w w';
  (** a handshake agrees on a version the configuration allows *)
  tls_accept_spec sc s w st w' :
    tls_accept sc s w = (Ok st, w') ->
    negotiated st ∈ sc_versions sc /\ socket_of st = s /\ sock_state w' s = sock_state w s
}.

Section Transport.
Context `{HRu : Rustls} {W : Type} {HN : Net W}.

Record TcpTlsTransport := mkTransport {
  tr_listener : Sock; tr_acceptor : ServerConfig; tr_nodelay : bool; tr_keepalive : option Z
}.

(** [?] on an [io::Error], with [From<io::Error> for NetError] *)
Definition os {A} (m : io W (result A IoError)) : io W (result A NetError) :=
  let* r := m in io_ret (map_err Io r).

(** [i32::try_from(backlog).unwrap_or(i32::MAX)] *)
Definition listen_backlog (backlog : Z) : Z :=
  if backlog <=? 2 ^ 31 - 1 then backlog else 2 ^ 31 - 1.

(** [TcpTlsTransport::bind] *)
Definition bind (addr : SocketAddr) (acceptor : ServerConfig) (backlog : Z) (nodelay : bool)
    (keepalive : option Z) : io W (result TcpTlsTransport NetError) :=
  await? socket := os (sock_new (sa_v6 addr)) in
  await? _ := os (set_reuse_address socket true) in
  await? _ := os (set_nonblocking socket true) in
  await? _ := os (sock_bind socket addr) in
  await? _ := os (sock_listen socket (listen_backlog backlog)) in
  await? _ := os (from_std socket) in
  io_ret (Ok (mkTransport socket acceptor nodelay keepalive)).

Definition configure (t : TcpTlsTransport) (tcp : Sock) : io W (result unit NetError) :=
  await? _ := os (set_nodelay tcp (tr_nodelay t)) in
  match tr_keepalive t with
  | Some interval => os (set_tcp_keepalive tcp interval)
  | None => io_ret (Ok tt)
  end.

Definition accept_tcp (t : TcpTlsTransport) : io W (result (Sock * SocketAddr) NetError) :=
  await? (tcp, peer) := os (tcp_accept (tr_listener t)) in
  await? _ := configure t tcp in
  io_ret (Ok (tcp, peer)).

Definition handshake (t : TcpTlsTransport) (tcp : Sock) : io W (result Stream NetError) :=
  let* r := tls_accept (tr_acceptor t) tcp in io_ret (map_err Tls r).

Definition accept_tls (t : TcpTlsTransport) : io W (result (Stream * SocketAddr) NetError) :=
  await? (tcp, peer) := accept_tcp t in
  await? stream := handshake t tcp in
  io_ret (Ok (stream, peer)).

(** [io::Error::other(err.to_string())] *)
Definition as_io_error (e : NetError) : IoError := mkIoError OtherKind (NetError_to_string e).

(** [impl Transport for TcpTlsTransport], and [RawTcp] of the gateway
    ([gateway/src/tcp/server.rs]), which hands out the socket before the handshake. *)
Definition transport_accept (t : TcpTlsTransport) : io W (result (Stream * SocketAddr) IoError) :=
  let* r := accept_tls t in io_ret (map_err as_io_error r).
Definition raw_tcp_accept (t : TcpTlsTransport) : io W (result (Sock * SocketAddr) IoError) :=
  let* r := accept_tcp t in io_ret (map_err as_io_error r).

Lemma os_ok {A} (m : io W (result A IoError)) w v w' : os m w = (Ok v, w') <-> m w = (Ok v, w').
Proof.
  unfold os, io_bind, io_ret. destruct (m w) as [[x|e] w1]; simpl; split; intros [= <- <-] || done; done.
Qed.

(** One step of a function that answers [Ok]. *)
Lemma try_ok {A B E} (m : io W (result A E)) (k : A -> io W (result B E)) w v w' :
  io_try m k w = (Ok v, w') <-> exists a w1, m w = (Ok a, w1) /\ k a w1 = (Ok v, w').
Proof.
  unfold io_try. destruct (m w) as [[a|e] w1]; split; [by eauto|by intros (? & ? & [= <- <-] & ?)|done|].
  by intros (? & ? & [=] & ?).
Qed.

Lemma bind_ok addr sc backlog nodelay keepalive w t w' :
  bind addr sc backlog nodelay keepalive w = (Ok t, w') ->
  tr_acceptor t = sc /\ tr_nodelay t = nodelay /\ tr_keepalive t = keepalive /\
  sock_state w' (tr_listener t)
  = mkSockState true true (Some addr) (Some (Z.min backlog (2 ^ 31 - 1))) false None.
Proof.
  unfold bind. intros (s & w1 & H1%os_ok & H)%try_ok. apply sock_new_spec in H1.
  apply try_ok in H as ([] & w2 & H2%os_ok & H). apply set_reuse_address_spec in H2; specialize (H2 eq_refl).
  apply try_ok in H as ([] & w3 & H3%os_ok & H). apply set_nonblocking_spec in H3; specialize (H3 eq_refl).
  apply try_ok in H as ([] & w4 & H4%os_ok & H). apply sock_bind_spec in H4; specialize (H4 eq_refl).
  apply try_ok in H as ([] & w5 & H5%os_ok & H). apply sock_listen_spec in H5; specialize (H5 eq_refl).
  apply try_ok in H as ([] & w6 & H6%os_ok & H). apply from_std_spec in H6; specialize (H6 eq_refl).
  injection H as <- <-. do 3 (split; [done|]). cbn [tr_listener].
  rewrite H6, H5, H4, H3, H2, H1. unfold with_backlog.
  cbn [so_reuse so_nonblocking so_bound so_nodelay so_keepalive with_bound with_nonblocking with_reuse fresh_sock].
  do 2 f_equal. unfold listen_backlog. destruct (Z.leb_spec backlog (2 ^ 31 - 1)); lia.
Qed.

Lemma configure_ok t tcp w w' :
  configure t tcp w = (Ok tt, w') ->
  so_nodelay (sock_state w' tcp) = tr_nodelay t /\
  (forall k, tr_keepalive t = Some k -> so_keepalive (sock_state w' tcp) = Some k).
Proof.
  unfold configure. intros ([] & w1 & H1%os_ok & H)%try_ok.
  apply set_nodelay_spec in H1; specialize (H1 eq_refl).
  destruct (tr_keepalive t) as [k|].
  - apply os_ok in H. apply set_tcp_keepalive_spec in H; specialize (H eq_refl).
    rewrite H, H1. split; [done|]. by intros ? [= <-].
  - injection H as <-. rewrite H1. done.
Qed.

Lemma accept_tcp_ok t w tcp peer w' :
  accept_tcp t w = (Ok (tcp, peer), w') ->
  so_nodelay (sock_state w' tcp) = tr_nodelay t /\
  (forall k, tr_keepalive t = Some k -> so_keepalive (sock_state w' tcp) = Some k).
Proof.
  unfold accept_tcp. intros ([tcp' p'] & w0 & Hacc%os_ok & Ha)%try_ok. cbn beta iota in Ha.
  apply try_ok in Ha as ([] & w1 & Hc & Ha). injection Ha as -> -> ->. by apply configure_ok in Hc.
Qed.

Lemma raw_tcp_accept_ok t w c w' : raw_tcp_accept t w = (Ok c, w') -> accept_tcp t w = (Ok c, w').
Proof.
  unfold raw_tcp_accept, io_bind, io_ret. destruct (accept_tcp t w) as [[x|e] w1]; cbn; by intros [= <- <-].
Qed.

Lemma handshake_ok t tcp w st w' :
  handshake t tcp w = (Ok st, w') ->
  negotiated st ∈ sc_versions (tr_acceptor t) /\ socket_of st = tcp /\ sock_state w' tcp = sock_state w tcp.
Proof.
  unfold handshake, io_bind, io_ret. destruct (tls_accept (tr_acceptor t) tcp w) as [r w1] eqn:Et.
  intros [= Hr <-]. apply map_err_ok in Hr as ->. by apply tls_accept_spec in Et.
Qed.

(** A handshake that follows an accept at once. *)
Lemma accept_tls_ok t w st peer w' :
  accept_tls t w = (Ok (st, peer), w') ->
  exists w1, accept_tcp t w = (Ok (socket_of st, peer), w1) /\ handshake t (socket_of st) w1 = (Ok st, w').
Proof.
  unfold accept_tls. intros ([tcp p] & w1 & Ha & H)%try_ok. cbn beta iota in H.
  apply try_ok in H as (st' & w2 & Hh & H). injection H as <- <- <-.
  pose proof (handshake_ok _ _ _ _ _ Hh) as (_ & -> & _). by exists w1.
Qed.

End Transport.

(* ------------------------------------------------------------------ *)
(** ** Properties *)

Section Properties.
Context `{HRu : Rustls} {W : Type} {HN : Net W}.
Variables (home : option rstr) (files : rstr -> result (list Z) rstr) (debug_str : rstr -> rstr).

(** The configuration comes from the two files: the certificates of the one, not empty,
    with the key of the other that fits them, for TLS 1.3 only. *)
Definition loaded_from (cert_path key_path : rstr) (sc : ServerConfig) : Prop :=
  sc_versions sc = [TLS13] /\ sc_chain sc <> [] /\ key_fits (sc_chain sc) (sc_key sc) /\
  exists c k cert_pem key_pem,
    expand_home home cert_path = Ok c /\ expand_home home key_path = Ok k /\
    files c = Ok cert_pem /\ files k = Ok key_pem /\
    pem_certs (as_bytes (from_utf8_lossy cert_pem)) = Ok <$> sc_chain sc /\
    pem_key (as_bytes (from_utf8_lossy key_pem)) = Ok (sc_key sc).

Lemma server_config_ok cert_path key_path sc :
  server_config_from_files home files debug_str cert_path key_path = Ok sc ->
  loaded_from cert_path key_path sc.
Proof.
  unfold server_config_from_files, server_config_from_pem_bytes, build_config.
  intros (c & Hc & (k & Hk & (cp & Hcp%map_err_ok & (kp & Hkp%map_err_ok & H)%res_bind_ok)%res_bind_ok)
    %res_bind_ok)%res_bind_ok.
  apply res_bind_ok in H as (certs & Hcerts%map_err_ok%collect_ok & H).
  destruct certs as [|ce certs]; [done|].
  apply res_bind_ok in H as (key & Hkey%map_err_ok & H).
  apply res_bind_ok in H as (vs & Hvs%map_err_ok & Hsc%map_err_ok).
  apply with_protocol_versions_spec in Hvs as ->.
  apply with_single_cert_spec in Hsc as (Hv & Hch & Hke & Hfit).
  unfold loaded_from. rewrite Hv, Hch, Hke. split; [done|]. split; [done|]. split; [done|].
  by exists c, k, cp, kp.
Qed.

Lemma expand_home_err path e : expand_home home path = Err e -> exists m, e = TlsConfig m.
Proof. unfold expand_home. repeat case_match; try done; intros [= <-]; by eexists. Qed.

Lemma res_bind_err {T U E} (r : result T E) (k : T -> result U E) (P : E -> Prop) :
  (forall e, r = Err e -> P e) -> (forall v, r = Ok v -> forall e, k v = Err e -> P e) ->
  forall e, res_bind r k = Err e -> P e.
Proof. intros Hr Hk e. destruct r; simpl; eauto. intros [= <-]. by apply Hr. Qed.

Lemma map_err_err {T E F} (f : E -> F) (r : result T E) (P : F -> Prop) :
  (forall e, P (f e)) -> forall e, map_err f r = Err e -> P e.
Proof. intros Hf e. destruct r; simpl; [done|]. by intros [= <-]. Qed.

Lemma server_config_err cert_path key_path e :
  server_config_from_files home files debug_str cert_path key_path = Err e -> exists m, e = TlsConfig m.
Proof.
  revert e. apply res_bind_err; [apply expand_home_err|intros c _].
  apply res_bind_err; [apply expand_home_err|intros k _].
  apply res_bind_err; [apply map_err_err; by eexists|intros cp _].
  apply res_bind_err; [apply map_err_err; by eexists|intros kp _].
  apply res_bind_err; [apply map_err_err; by eexists|intros [|ce certs] _]; [intros ? [= <-]; by eexists|].
  apply res_bind_err; [apply map_err_err; by eexists|intros key _].
  apply res_bind_err; [apply map_err_err; by eexists|intros vs _].
  apply map_err_err; by eexists.
Qed.

(** C31: Every connection of the gateway is TLS 1.3.  If the server's configuration was
    loaded from the configured files and the socket bound with it, then the configuration
    allows nothing but TLS 1.3 and carries the certificates of the one file with the fitting
    key of the other; the listener is bound to the configured address and listens with the
    configured backlog, cut off at [i32::MAX].  The accept loop takes a socket with
    [accept_tcp], whatever happened before, and that socket has the configured
    [TCP_NODELAY] and keep-alive; its own task does the handshake in any later state, and if
    this succeeds the stream is that socket with TLS 1.3 negotiated and the options of the
    socket as they were.  Both in one call, [accept_tls], is the same at once.  Any fault of
    the files is a [TlsConfig] error. *)
Theorem every_connection_is_tls13 (cert_path key_path : rstr) (r : result ServerConfig NetError)
  (addr : SocketAddr) (backlog : Z) (nodelay : bool) (keepalive : option Z)
  (Hload : server_config_from_files home files debug_str cert_path key_path = r) :
  match r with
  | Err e => exists m, e = TlsConfig m
  | Ok sc =>
      loaded_from cert_path key_path sc /\
      forall t w0 w1, bind addr sc backlog nodelay keepalive w0 = (Ok t, w1) ->
        sock_state w1 (tr_listener t)
        = mkSockState true true (Some addr) (Some (Z.min backlog (2 ^ 31 - 1))) false None /\
        (forall w2 w3 tcp peer, raw_tcp_accept t w2 = (Ok (tcp, peer), w3) ->
           so_nodelay (sock_state w3 tcp) = nodelay /\
           (forall k, keepalive = Some k -> so_keepalive (sock_state w3 tcp) = Some k)) /\
        (forall tcp w4 w5 st, handshake t tcp w4 = (Ok st, w5) ->
           negotiated st = TLS13 /\ socket_of st = tcp /\ sock_state w5 tcp = sock_state w4 tcp) /\
        forall w2 w3 st peer, accept_tls t w2 = (Ok (st, peer), w3) ->
          negotiated st = TLS13 /\ so_nodelay (sock_state w3 (socket_of st)) = nodelay /\
          (forall k, keepalive = Some k -> so_keepalive (sock_state w3 (socket_of st)) = Some k)
  end.
Proof.
  destruct r as [sc|e]; [|by eapply server_config_err].
  apply server_config_ok in Hload. split; [done|]. intros t w0 w1 Hb.
  apply bind_ok in Hb as (Hsc & Hn & Hk & Hst). split; [done|].
  assert (Hshake : forall tcp w4 w5 st, handshake t tcp w4 = (Ok st, w5) ->
    negotiated st = TLS13 /\ socket_of st = tcp /\ sock_state w5 tcp = sock_state w4 tcp).
  { intros tcp w4 w5 st (Hneg & Hs)%handshake_ok. split; [|done].
    rewrite Hsc, (proj1 Hload) in Hneg. by apply list_elem_of_singleton in Hneg. }
  rewrite <- Hn, <- Hk. split; [|split; [exact Hshake|]].
  - intros w2 w3 tcp peer Ha%raw_tcp_accept_ok. by eapply accept_tcp_ok.
  - intros w2 w3 st peer (w' & Ha%accept_tcp_ok & Hh)%accept_tls_ok.
    apply Hshake in Hh as (Hv & _ & ->). done.
Qed.

End Properties.

(** Sockets next to other state. *)
Section Beside.
Context `{HRu : Rustls} {W R : Type} {HN : Net W}.

Definition beside {X} (m : io W X) : io (W * R) X := fun '(w, r) => let '(x, w') := m w in (x, (w', r)).

Lemma beside_inv {X} (m : io W X) w x w' : beside m w = (x, w') -> m w.1 = (x, w'.1).
Proof. destruct w as [w r]. unfold beside. simpl. destruct (m w) as [y w1]. by intros [= <- <-]. Qed.

#[program] Definition net_beside : Net (W * R) := {|
  Sock := Sock;
  Stream := Stream;
  sock_state w := sock_state w.1;
  local_addr s w := local_addr s w.1;
  negotiated := negotiated;
  socket_of := socket_of;
  sock_new v6 := beside (sock_new v6);
  set_reuse_address s b := beside (set_reuse_address s b);
  set_nonblocking s b := beside (set_nonblocking s b);
  sock_bind s a := beside (sock_bind s a);
  sock_listen s n := beside (sock_listen s n);
  from_std s := beside (from_std s);
  tcp_accept s := beside (tcp_accept s);
  set_nodelay s b := beside (set_nodelay s b);
  set_tcp_keepalive s k := beside (set_tcp_keepalive s k);
  tls_accept sc s := beside (tls_accept sc s)
|}.
Solve All Obligations with
  (intros; cbv beta in *;
   match goal with H : beside _ _ = _ |- _ => apply beside_inv in H end;
   first [ eapply sock_new_spec; eassumption | eapply set_reuse_address_spec; eassumption
         | eapply set_nonblocking_spec; eassumption | eapply sock_bind_spec; eassumption
         | eapply sock_listen_spec; eassumption | eapply from_std_spec; eassumption
         | eapply set_nodelay_spec; eassumption | eapply set_tcp_keepalive_spec; eassumption
         | eapply tls_accept_spec; eassumption ]).
End Beside.

(* ------------------------------------------------------------------ *)
(** ** A concrete configuration *)

Module TlsDemo.

(** Certificates and keys are their text; a key fits the chain that ends with it. *)
#[program] Definition demo_rustls : Rustls := {|
  Certificate := list Z;
  PrivateKey := list Z;
  ServerConfig := list TlsVersion * list (list Z) * list Z;
  pem_certs bs := if is_empty bs then [] else [Ok bs];
  pem_key bs := if is_empty bs then Err (lit "no key") else Ok bs;
  with_protocol_versions vs := Ok vs;
  with_single_cert vs certs key :=
    if bool_decide (last certs = Some key) then Ok (vs, certs, key) else Err (lit "mismatch");
  sc_versions sc := sc.1.1;
  sc_chain sc := sc.1.2;
  sc_key sc := sc.2;
  key_fits certs key := last certs = Some key
|}.
Next Obligation. by intros vs b [= ->]. Qed.
Next Obligation. intros vs certs key sc. cbn. case_bool_decide; [|done]. by intros [= <-]. Qed.
#[local] Existing Instance demo_rustls.

(** Sockets are numbered; a client is always waiting. *)
Definition change (s : nat) (f : SockState -> SockState) : io (list SockState) (result unit IoError) :=
  fun w => if decide (s < length w)%nat then (Ok tt, alter f s w) else (Err (mkIoError OtherKind []), w).
Definition at_sock (w : list SockState) (s : nat) : SockState := default fresh_sock (w !! s).

Lemma change_sets s f w r w' : change s f w = (r, w') -> sets at_sock s f r w w'.
Proof.
  unfold change, sets, at_sock. destruct (decide _) as [Hlt|]; intros [= <- <-]; [|done]. intros _.
  rewrite list_lookup_alter. destruct (decide (s = s)); [|done].
  destruct (lookup_lt_is_Some_2 w s Hlt) as [x ->]. done.
Qed.

#[program] Definition demo_net : Net (list SockState) := {|
  Sock := nat;
  Stream := nat;
  sock_state := at_sock;
  local_addr s w := ok_or (mkIoError OtherKind []) (so_bound (at_sock w s));
  negotiated _ := TLS13;
  socket_of st := st;
  sock_new v6 := fun w => (Ok (length w), w ++ [fresh_sock]);
  set_reuse_address s b := change s (fun x => with_reuse x b);
  set_nonblocking s b := change s (fun x => with_nonblocking x b);
  sock_bind s a := change s (fun x => with_bound x a);
  sock_listen s n := change s (fun x => with_backlog x n);
  from_std s := change s (fun x => x);
  tcp_accept s := fun w => (Ok (length w, mkSocketAddr false 7 1), w ++ [fresh_sock]);
  set_nodelay s b := change s (fun x => with_nodelay x b);
  set_tcp_keepalive s k := change s (fun x => with_keepalive x k);
  tls_accept sc s := fun w => (if bool_decide (TLS13 ∈ sc_versions sc) then Ok s else Err (lit "version"), w)
|}.
Next Obligation.
  intros v6 w s w' [= <- <-]. unfold at_sock. rewrite lookup_app_r by lia.
  by rewrite Nat.sub_diag.
Qed.
Next Obligation. intros s b. apply change_sets. Qed.
Next Obligation. intros s b. apply change_sets. Qed.
Next Obligation. intros s b. apply change_sets. Qed.
Next Obligation. intros s b. apply change_sets. Qed.
Next Obligation. intros s. apply change_sets. Qed.
Next Obligation. intros s b. apply change_sets. Qed.
Next Obligation. intros s b. apply change_sets. Qed.
Next Obligation. intros sc s w st w'. cbn. case_bool_decide; [|done]. by intros [= <- <-]. Qed.
#[local] Existing Instance demo_net.

Definition demo_files : rstr -> result (list Z) rstr := fun p =>
  if bool_decide (p = lit "/root/s.crt") then Ok [65; 66]
  else if bool_decide (p = lit "/s.key") then Ok [65; 66] else Err (lit "not found").
Definition demo_config : ServerConfig := ([TLS13], [[65; 66]], [65; 66]).
Definition listener : TcpTlsTransport (W := list SockState) := mkTransport 0%nat demo_config true (Some 30).
Definition bound : list SockState :=
  snd (bind (mkSocketAddr false 0 8080) demo_config 5000000000 true (Some 30) []).

(** Two clients are taken, and only then the first one is shaken hands with. *)
Definition accepted_one : list SockState := snd (raw_tcp_accept listener bound).
Definition accepted_two : list SockState := snd (raw_tcp_accept listener accepted_one).

Lemma every_connection_is_tls13_witness :
  fst (handshake listener 1%nat accepted_two) = Ok 1%nat /\
  negotiated (HRu := demo_rustls) 1%nat = TLS13 /\
  so_keepalive (at_sock accepted_one 1) = Some 30 /\
  at_sock (snd (handshake listener 1%nat accepted_two)) 1 = at_sock accepted_two 1.
Proof.
  destruct (every_connection_is_tls13 (W := list SockState) (Some (lit "/root")) demo_files id
    (lit "~/s.crt") (lit "/s.key") (Ok demo_config) (mkSocketAddr false 0 8080) 5000000000 true (Some 30)
    ltac:(vm_compute; reflexivity)) as [_ Hb].
  destruct (Hb listener [] bound) as (_ & Ha & Hh & _); [vm_compute; reflexivity|].
  destruct (Ha bound accepted_one 1%nat (mkSocketAddr false 7 1)) as [_ Hk]; [vm_compute; reflexivity|].
  destruct (Hh 1%nat accepted_two (snd (handshake listener 1%nat accepted_two)) 1%nat) as (Hv & _ & Hs);
    [vm_compute; reflexivity|].
  split; [vm_compute; reflexivity|]. split; [exact Hv|]. split; [exact (Hk 30 eq_refl)|exact Hs].
Defined.

End TlsDemo.
