(* ===== verification/Events.v ===== *)
(** The bypass channels of the application: the in-process event bus
    ([infrastructure/src/events.rs]) and the audit log
    ([persistence/repositories/audit_repo.rs]), each with the port of the application it
    implements.

    [tokio::sync::broadcast] is the class [Broadcast]: what a receiver has not been given
    yet, and what becomes of it when it lags behind the channel's capacity.  The audit
    log's insert and the JSON parser are parameters. *)
From S2P Require Import Prelude Text Values Session App SqlRepos.
From Stdlib Require Import Strings.String.
Open Scope Z_scope.
Open Scope list_scope.
Abbreviation length := Datatypes.length.

(* ------------------------------------------------------------------ *)
(** ** The broadcast channel *)

(** What a receive gives: a value, or the number of values overwritten meanwhile. *)
Inductive received (A : Type) := Value (a : A) | Lagged (n : nat).
Arguments Value {A}.
Arguments Lagged {A}.

(** [bc_unread b r]: what was sent since [r] subscribed and [r] was not given, the values
    overwritten in the meantime included.  The channel retains at least the capacity asked
    for (it is rounded up). *)
Class Broadcast (B : Type -> Type) := {
  bc_channel : forall {A}, nat -> B A;
  bc_capacity : forall {A}, B A -> nat;
  bc_receivers : forall {A}, B A -> gset nat;
  bc_unread : forall {A}, B A -> nat -> list A;
  bc_send : forall {A}, A -> io (B A) (result nat A);
  bc_subscribe : forall {A}, io (B A) nat;
  bc_try_recv : forall {A}, nat -> io (B A) (option (received A));
  bc_drop : forall {A}, nat -> B A -> B A;
  bc_channel_spec A n : bc_receivers (@bc_channel A n) = ∅ /\ (n <= bc_capacity (@bc_channel A n))%nat;
  bc_send_none A (a : A) b : bc_receivers b = ∅ -> bc_send a b = (Err a, b);
  bc_send_some A (a : A) b :
    bc_receivers b <> ∅ ->
    exists b', bc_send a b = (Ok (size (bc_receivers b)), b') /\
      bc_receivers b' = bc_receivers b /\ bc_capacity b' = bc_capacity b /\
      forall r, r ∈ bc_receivers b -> bc_unread b' r = bc_unread b r ++ [a];
  bc_subscribe_spec A (b : B A) r b' :
    bc_subscribe b = (r, b') ->
    r ∉ bc_receivers b /\ bc_receivers b' = {[r]} ∪ bc_receivers b /\
    bc_capacity b' = bc_capacity b /\ bc_unread b' r = [] /\
    forall r', r' ∈ bc_receivers b -> bc_unread b' r' = bc_unread b r';
  bc_try_recv_spec A (b : B A) r o b' :
    r ∈ bc_receivers b -> bc_try_recv r b = (o, b') ->
    bc_receivers b' = bc_receivers b /\ bc_capacity b' = bc_capacity b /\
    (forall r', r' <> r -> bc_unread b' r' = bc_unread b r') /\
    let behind := (length (bc_unread b r) - bc_capacity b)%nat in
    match bc_unread b r with
    | [] => o = None /\ bc_unread b' r = []
    | a :: rest =>
        if (behind =? 0)%nat then o = Some (Value a) /\ bc_unread b' r = rest
        else o = Some (Lagged behind) /\ bc_unread b' r = drop behind (a :: rest)
    end;
  bc_drop_spec A (b : B A) r :
    bc_receivers (bc_drop r b) = bc_receivers b ∖ {[r]} /\ bc_capacity (bc_drop r b) = bc_capacity b /\
    forall r', r' <> r -> bc_unread (bc_drop r b) r' = bc_unread b r'
}.

Section Bus.
Context {B : Type -> Type} `{HB : Broadcast B}.

(** [InMemoryEventPublisher]; [ep_published] records what was handed over. *)
Record InMemoryEventPublisher := mkPublisher { ep_tx : B DomainEvent; ep_published : list DomainEvent }.

(** [InMemoryEventPublisher::new] *)
Definition publisher_new (capacity : nat) : InMemoryEventPublisher :=
  mkPublisher (bc_channel (Nat.max capacity 1)) [].

Definition subscribe : io InMemoryEventPublisher nat := fun p =>
  let '(r, tx) := bc_subscribe (ep_tx p) in (r, mkPublisher tx (ep_published p)).

Definition subscriber_count (p : InMemoryEventPublisher) : nat := size (bc_receivers (ep_tx p)).

(** [publish]: an error means that nobody listens, and is ignored. *)
Definition bus_publish (event : DomainEvent) : io InMemoryEventPublisher (result unit AppError) := fun p =>
  let '(_, tx) := bc_send event (ep_tx p) in (Ok tt, mkPublisher tx (ep_published p ++ [event])).

(** The port of the application is implemented. *)
#[program] Definition bus_publisher : EventPublisher InMemoryEventPublisher := {|
  published := ep_published;
  publish := bus_publish
|}.
Next Obligation.
  intros e s r s'. unfold bus_publish. destruct (bc_send e (ep_tx s)) as [x tx]. by intros [= <- <-].
Qed.

(** What happens on the bus while the subscriber [r] listens: events are published, [r]
    receives, other subscribers come, receive and go. *)
Inductive bus_step (r : nat)
  : InMemoryEventPublisher * list (received DomainEvent) ->
    InMemoryEventPublisher * list (received DomainEvent) -> Prop :=
| bus_event e p p' got : bus_publish e p = (Ok tt, p') -> bus_step r (p, got) (p', got)
| bus_receive p tx x got :
    bc_try_recv r (ep_tx p) = (Some x, tx) ->
    bus_step r (p, got) (mkPublisher tx (ep_published p), got ++ [x])
| bus_join r' p p' got : subscribe p = (r', p') -> bus_step r (p, got) (p', got)
| bus_other r' o p tx got :
    r' <> r -> r' ∈ bc_receivers (ep_tx p) -> bc_try_recv r' (ep_tx p) = (o, tx) ->
    bus_step r (p, got) (mkPublisher tx (ep_published p), got)
| bus_leave r' p got :
    r' <> r -> bus_step r (p, got) (mkPublisher (bc_drop r' (ep_tx p)) (ep_published p), got).

(** What is left of [since] once the items [got] are taken from its front: a value must be
    the next one, [Lagged n] skips [n]. *)
Fixpoint consume (since : list DomainEvent) (got : list (received DomainEvent)) : option (list DomainEvent) :=
  match got with
  | [] => Some since
  | Value e :: got' =>
      match since with
      | x :: rest => if decide (x = e) then consume rest got' else None
      | [] => None
      end
  | Lagged n :: got' => if decide (n <= length since)%nat then consume (drop n since) got' else None
  end.

Lemma consume_app since got got' :
  consume since (got ++ got') = (rest ← consume since got; consume rest got').
Proof.
  revert since. induction got as [|[e|n] got IH]; intros since; simpl; [done|..].
  - destruct since as [|x rest]; [done|]. destruct (decide (x = e)); [apply IH|done].
  - destruct (decide _); [apply IH|done].
Qed.

Lemma consume_more since got rest e :
  consume since got = Some rest -> consume (since ++ [e]) got = Some (rest ++ [e]).
Proof.
  revert since. induction got as [|[x|n] got IH]; intros since; simpl; [by intros [= ->]|..].
  - destruct since as [|y l]; [done|]. simpl. destruct (decide (y = x)); [apply IH|done].
  - destruct (decide _) as [Hn|]; [|done]. intros Hc. rewrite decide_True by (rewrite length_app; lia).
    rewrite drop_app_le by done. by apply IH.
Qed.

Lemma consume_values since got rest :
  consume since got = Some rest -> (forall n, Lagged n ∉ got) ->
  exists es, got = Value <$> es /\ since = es ++ rest.
Proof.
  revert since. induction got as [|[x|n] got IH]; intros since; simpl.
  - intros [= ->] _. by exists [].
  - destruct since as [|y l]; [done|]. destruct (decide (y = x)) as [->|]; [|done]. intros Hc Hl.
    destruct (IH l Hc) as (es & -> & ->); [intros n Hn; apply (Hl n); by right|].
    by exists (x :: es).
  - intros _ Hl. destruct (Hl n). by left.
Qed.

(** The subscriber is registered and its books balance. *)
Definition bus_inv (capacity mark r : nat)
    (s : InMemoryEventPublisher * list (received DomainEvent)) : Prop :=
  let '(p, got) := s in
  r ∈ bc_receivers (ep_tx p) /\ (capacity <= bc_capacity (ep_tx p))%nat /\
  (mark <= length (ep_published p))%nat /\
  consume (drop mark (ep_published p)) got = Some (bc_unread (ep_tx p) r).

Lemma bus_step_inv capacity mark r s s' :
  bus_inv capacity mark r s -> bus_step r s s' -> bus_inv capacity mark r s'.
Proof.
  intros Hi Hs. destruct Hs as [e p p' got Hp|p tx x got Hx|r' p p' got Hp|r' o p tx got Hne Hin Hx|r' p got Hne];
    destruct Hi as (Hr & Hc & Hm & Hb); unfold bus_inv; cbn [ep_tx ep_published].
  - unfold bus_publish in Hp.
    destruct (bc_send_some _ e (ep_tx p)) as (b' & Hsend & Hrs & Hcap & Hun); [set_solver|].
    rewrite Hsend in Hp. injection Hp as <-. cbn [ep_tx ep_published].
    rewrite Hrs, Hcap, length_app. split_and!; try done; [simpl; lia|].
    rewrite drop_app_le, Hun by done. by apply consume_more.
  - apply bc_try_recv_spec in Hx as (Hrs & Hcap & _ & Hx); [|done]. rewrite Hrs, Hcap.
    split_and!; try done. rewrite consume_app, Hb. cbn [mbind option_bind] in *.
    destruct (bc_unread (ep_tx p) r) as [|a rest] eqn:Eu; [by destruct Hx|].
    destruct (_ =? 0)%nat eqn:Eb in Hx; destruct Hx as [[= ->] ->]; simpl.
    + by rewrite decide_True.
    + by rewrite decide_True by (simpl; lia).
  - unfold subscribe in Hp. destruct (bc_subscribe (ep_tx p)) as [r1 tx] eqn:Es. injection Hp as <- <-.
    apply bc_subscribe_spec in Es as (_ & Hrs & Hcap & _ & Hun). cbn [ep_tx ep_published].
    rewrite Hrs, Hcap, Hun by done. split_and!; try done. set_solver.
  - apply bc_try_recv_spec in Hx as (Hrs & Hcap & Hun & _); [|done]. by rewrite Hrs, Hcap, Hun.
  - destruct (bc_drop_spec _ (ep_tx p) r') as (Hrs & Hcap & Hun). rewrite Hrs, Hcap, Hun by done.
    split_and!; try done. set_solver.
Qed.

(** A subscriber of the event bus can account for every event.  However events are
    published, received and subscriptions made and dropped, taking what the subscriber
    received (values in order, and [Lagged n] for [n] missed events) from the front of
    what was published since it subscribed leaves exactly what it has not received yet;
    so without [Lagged] it has received the events in order and without a gap; and a gap
    is reported only when more events wait than the configured capacity, never for one
    event. *)
Theorem subscriber_accounts_for_events (capacity : nat) (p0 p1 : InMemoryEventPublisher) (r : nat)
  (p : InMemoryEventPublisher) (got : list (received DomainEvent))
  (Hcap : (Nat.max capacity 1 <= bc_capacity (ep_tx p0))%nat)
  (Hsub : subscribe p0 = (r, p1)) (Hrun : star (bus_step r) (p1, []) (p, got)) :
  let since := drop (length (ep_published p0)) (ep_published p) in
  consume since got = Some (bc_unread (ep_tx p) r) /\
  ((forall n, Lagged n ∉ got) ->
     exists es, got = Value <$> es /\ since = es ++ bc_unread (ep_tx p) r) /\
  (forall n, fst (bc_try_recv r (ep_tx p)) = Some (Lagged n) ->
     (Nat.max capacity 1 < length (bc_unread (ep_tx p) r))%nat).
Proof.
  assert (Hi : bus_inv (Nat.max capacity 1) (length (ep_published p0)) r (p, got)).
  { apply (star_invariant (bus_step r)) with (3 := Hrun); [intros a b; apply bus_step_inv|].
    unfold subscribe in Hsub. destruct (bc_subscribe (ep_tx p0)) as [r1 tx] eqn:Es. injection Hsub as <- <-.
    apply bc_subscribe_spec in Es as (_ & Hrs & Hc & Hun & _). unfold bus_inv. cbn [ep_tx ep_published].
    rewrite Hrs, Hc, Hun, drop_all. split_and!; try done. set_solver. }
  destruct Hi as (Hr & Hc & _ & Hb). cbv zeta. split; [done|]. split; [by apply consume_values|].
  intros n Hn. destruct (bc_try_recv r (ep_tx p)) as [o tx] eqn:Ex. simpl in Hn. subst o.
  apply bc_try_recv_spec in Ex as (_ & _ & _ & Hx); [|done]. cbv zeta in Hx.
  destruct (bc_unread (ep_tx p) r) as [|a rest]; [by destruct Hx|].
  destruct (_ =? 0)%nat eqn:Eb in Hx; destruct Hx as [[=] _]. apply Nat.eqb_neq in Eb. lia.
Qed.

End Bus.

(* ------------------------------------------------------------------ *)
(** ** The audit log *)

(** A row of [audit_logs] ([entities/audit_log.rs]), with the type of JSON values. *)
Record audit_row (Json : Type) := mkAuditRow {
  au_id : Z; au_player_id : option PlayerId; au_action : rstr; au_detail : option Json; au_created_at : DateTime
}.
Arguments mkAuditRow {Json}.
Arguments au_id {Json}.
Arguments au_created_at {Json}.
Arguments au_player_id {Json}.
Arguments au_action {Json}.
Arguments au_detail {Json}.

(** [serde_json] and the table; an insert takes place as a whole, or not at all. *)
Class AuditTable (D : Type) := {
  Json : Type;
  json_of_str : rstr -> option Json;
  json_string : rstr -> Json;
  (** whether a string of the value holds the character NUL *)
  json_has_nul : Json -> bool;
  audit_rows : D -> list (audit_row Json);
  ins_audit : audit_row Json -> io D (result unit DbErr);
  (** the next identifier ([Uuid::now_v7]) and the time *)
  audit_fresh : D -> Z * DateTime;
  (** a text without NUL gives a value with one only through an escape sequence *)
  json_plain s : 0 ∉ s -> 92 ∉ s -> json_has_nul (default (json_string s) (json_of_str s)) = false;
  ins_audit_spec m d r d' :
    ins_audit m d = (r, d') ->
    atomically r (audit_rows d' = audit_rows d ++ [m]) (audit_rows d' = audit_rows d)
}.

Section Audit.
Context {D : Type} `{HD : AuditTable D}.

(** [SeaAuditLogger::record] *)
Definition sea_record (player_id : option PlayerId) (action detail : rstr) : io D (result unit AppError) :=
  fun d =>
    let detail_json := default (json_string detail) (json_of_str detail) in
    let '(id, now) := audit_fresh d in
    let '(r, d') := ins_audit (mkAuditRow id player_id action (Some detail_json) now) d in
    (map_err (fun err => Storage (lit "审计写入失败: " ++ de_text err)) r, d').

Definition sea_audit : AuditLogger D := {| record := sea_record |}.

(** One audit record is one row, whatever the detail is.  A record that answers [Ok]
    adds exactly one row with the player, the action and the detail, as JSON if it
    parses and as a JSON string otherwise, and keeps all earlier rows; a record that
    fails is a storage error and leaves the log as it was, or, if the connection was lost
    after the insert, with that one row.  No detail is ever refused. *)
Theorem audit_records_one_row (player_id : option PlayerId) (action detail : rstr) (d d' : D)
  (r : result unit AppError) (Hx : sea_record player_id action detail d = (r, d')) :
  exists m, au_player_id m = player_id /\ au_action m = action /\
    au_detail m = Some (match json_of_str detail with Some v => v | None => json_string detail end) /\
    match r with
    | Ok _ => audit_rows d' = audit_rows d ++ [m]
    | Err e => (exists text, e = Storage text) /\
               (audit_rows d' = audit_rows d \/ audit_rows d' = audit_rows d ++ [m])
    end.
Proof.
  unfold sea_record in Hx. destruct (audit_fresh d) as [id now].
  destruct (ins_audit _ d) as [x d1] eqn:Ei. injection Hx as <- <-. apply ins_audit_spec in Ei.
  eexists (mkAuditRow id player_id action (Some (default (json_string detail) (json_of_str detail))) now).
  do 3 (split; [done || by destruct (json_of_str detail)|]).
  destruct x as [[]|e]; simpl in Ei |- *; [done|]. split; [by eexists|]. naive_solver.
Qed.
End Audit.

(* ------------------------------------------------------------------ *)
(** ** Concrete runs *)

Module EventsDemo.

Record bus (A : Type) := mkBus { bu_cap : nat; bu_next : nat; bu_rs : gmap nat (list A) }.
Arguments mkBus {A}.
Arguments bu_cap {A}.
Arguments bu_next {A}.
Arguments bu_rs {A}.

(** Identifiers of receivers are not used twice. *)
Definition bus_fresh {A} (b : bus A) : nat := fresh (dom (bu_rs b)).
Definition bus_unread {A} (b : bus A) (r : nat) : list A := default [] (bu_rs b !! r).
Definition bus_set {A} (b : bus A) (r : nat) (l : list A) : bus A :=
  mkBus (bu_cap b) (bu_next b) (<[r := l]> (bu_rs b)).
Definition bus_recv {A} (r : nat) : io (bus A) (option (received A)) := fun b =>
  let l := bus_unread b r in
  let behind := (length l - bu_cap b)%nat in
  match l with
  | [] => (None, b)
  | a :: rest => if (behind =? 0)%nat then (Some (Value a), bus_set b r rest)
                 else (Some (Lagged behind), bus_set b r (drop behind l))
  end.

#[program] Definition demo_broadcast : Broadcast bus := {|
  bc_channel A n := mkBus n 0 ∅;
  bc_capacity A b := bu_cap b;
  bc_receivers A b := dom (bu_rs b);
  bc_unread A b r := bus_unread b r;
  bc_send A a := fun b =>
    if decide (dom (bu_rs b) = ∅) then (Err a, b)
    else (Ok (size (dom (bu_rs b))), mkBus (bu_cap b) (bu_next b) ((fun l => l ++ [a]) <$> bu_rs b));
  bc_subscribe A := fun b => (bus_fresh b, bus_set b (bus_fresh b) []);
  bc_try_recv A r := bus_recv r;
  bc_drop A r b := mkBus (bu_cap b) (bu_next b) (delete r (bu_rs b))
|}.
Next Obligation. intros A n. simpl. split; [set_solver|lia]. Qed.
Next Obligation. intros A a b Hd. simpl in *. by rewrite decide_True. Qed.
Next Obligation.
  intros A a b Hd. simpl in *. rewrite decide_False by done. eexists. split; [done|]. simpl.
  rewrite dom_fmap_L. do 2 (split; [done|]). intros r [l Hl]%elem_of_dom.
  unfold bus_unread. simpl. by rewrite lookup_fmap, Hl.
Qed.
Next Obligation.
  intros A b r b' [= <- <-]. pose proof (is_fresh (dom (bu_rs b))) as Hf. fold (bus_fresh b) in Hf.
  simpl. rewrite dom_insert_L. split_and!; try done.
  - unfold bus_unread, bus_set. simpl. by rewrite lookup_insert_eq.
  - intros r' Hr. unfold bus_unread, bus_set. simpl. rewrite lookup_insert_ne; [done|]. intros <-. done.
Qed.
Next Obligation.
  intros A b r o b' Hr Hx. simpl in *. unfold bus_recv in Hx.
  assert (Hset : forall l, dom (<[r := l]> (bu_rs b)) = dom (bu_rs b)) by (intros l; rewrite dom_insert_L; set_solver).
  assert (Hr' : forall l, bus_unread (bus_set b r l) r = l)
    by (intros l; unfold bus_unread, bus_set; simpl; by rewrite lookup_insert_eq).
  assert (Hne : forall l r', r' <> r -> bus_unread (bus_set b r l) r' = bus_unread b r')
    by (intros l r' ?; unfold bus_unread, bus_set; simpl; by rewrite lookup_insert_ne).
  destruct (bus_unread b r) as [|a rest] eqn:Eu; [by injection Hx as <- <-|].
  destruct (_ =? 0)%nat eqn:Eb in Hx; injection Hx as <- <-; rewrite Eb; simpl;
    rewrite Hset, Hr'; split_and!; try done; apply Hne.
Qed.
Next Obligation.
  intros A b r. simpl. rewrite dom_delete_L. split_and!; try done. intros r' Hne.
  unfold bus_unread. simpl. by rewrite lookup_delete_ne.
Qed.
#[local] Existing Instance demo_broadcast.

Definition ev (n : Z) : DomainEvent := PlayerLeveledUp 1 n 0.
Definition p1 : InMemoryEventPublisher (B := bus) := snd (subscribe (publisher_new 2)).
Definition after (p : InMemoryEventPublisher (B := bus)) (e : DomainEvent) := snd (bus_publish e p).
(** Three events on a bus of two: the first is lost, and said to be. *)
Definition p4 : InMemoryEventPublisher (B := bus) := after (after (after p1 (ev 2)) (ev 3)) (ev 4).

Lemma subscriber_accounts_for_events_witness :
  consume [ev 2; ev 3; ev 4] [Lagged 1] = Some [ev 3; ev 4].
Proof.
  set (p5 := mkPublisher (B := bus) (snd (bc_try_recv 0 (ep_tx p4))) (ep_published p4)).
  assert (Hrun : star (bus_step 0) (p1, []) (p5, [Lagged 1%nat])).
  { apply (star_to _ _ (p4, []) (p5, [] ++ [Lagged 1%nat])); [|apply bus_receive; vm_compute; reflexivity|done].
    apply (star_to _ _ (after (after p1 (ev 2)) (ev 3), []) (p4, [])); [|by apply (bus_event 0 (ev 4))|done].
    apply (star_to _ _ (after p1 (ev 2), []) (after (after p1 (ev 2)) (ev 3), []));
      [|by apply (bus_event 0 (ev 3))|done].
    apply (star_to _ _ (p1, []) (after p1 (ev 2), [])); [apply star_refl|by apply (bus_event 0 (ev 2))|done]. }
  refine (proj1 (subscriber_accounts_for_events 2 (publisher_new 2) p1 0 p5 [Lagged 1%nat] _ _ Hrun)).
  - vm_compute. lia.
  - reflexivity.
Defined.

(** A JSON value is its text; only numbers parse. *)
#[program] Definition demo_audit : AuditTable (list (audit_row rstr)) := {|
  Json := rstr;
  json_of_str s := if bool_decide (is_Some (parse_u 64 s)) then Some s else None;
  json_string s := [34] ++ s ++ [34];
  json_has_nul v := bool_decide (0 ∈ v);
  audit_rows d := d;
  ins_audit m := fun d => (Ok tt, d ++ [m]);
  audit_fresh d := (Z.of_nat (length d), 0)
|}.
Next Obligation.
  intros s Hs _. apply bool_decide_eq_false. unfold default. case_bool_decide; cbn; [done|]. set_solver.
Qed.
Next Obligation. by intros m d r d' [= <- <-]. Qed.
#[local] Existing Instance demo_audit.

Lemma audit_records_one_row_witness :
  exists m : audit_row rstr, au_detail m = Some (lit "12") /\
    snd (sea_record (Some 7) (lit "login") (lit "12") []) = [m].
Proof.
  destruct (audit_records_one_row (D := list (audit_row rstr)) (Some 7) (lit "login") (lit "12") []
              _ _ (surjective_pairing _)) as (m & _ & _ & Hd & Hr).
  exists m. split; [exact Hd|exact Hr].
Defined.

End EventsDemo.
