(* ===== verification/Schema.v ===== *)
(** The database schema ([migration/src]): the three migrations as the statements they
    issue, in order, and the entities of SeaORM
    ([infrastructure/src/persistence/entities]) that must agree with it.

    The framework that carries out a migration and PostgreSQL are not part of the
    repository: [SchemaManager] states what the catalogue holds after a statement and
    when a statement cannot be refused, [Migrator] that the pending migrations run in the
    order listed until one fails. *)
From S2P Require Import Prelude Text Values Account Player App UseCases SqlRepos Events.
From stdpp Require Import strings.
From Stdlib Require Import Strings.String.
Open Scope string_scope.
Open Scope Z_scope.
Open Scope list_scope.
Abbreviation length := Datatypes.length.

(* ------------------------------------------------------------------ *)
(** ** Statements *)

Inductive column_type := Uuid | Citext | TextCol | SmallInteger | Integer | BigInteger | TimestampTz | JsonBinary.
Inductive default_expr := NoDefault | DefaultInt (n : Z) | DefaultExpr (e : string).
Inductive on_delete := Restrict | SetNull.

(** [ColumnDef] *)
Record Column := mkColumn {
  col_name : string; col_type : column_type; col_not_null : bool; col_default : default_expr;
  col_primary : bool; col_unique : bool
}.
Record ForeignKey := mkForeignKey {
  fk_name : string; fk_from : string; fk_to_table : string; fk_to : string; fk_on_delete : on_delete
}.
(** [Table::create()] *)
Record TableDef := mkTableDef { td_name : string; td_columns : list Column; td_foreign_keys : list ForeignKey }.
(** [Index::create()] *)
Record IndexDef := mkIndexDef { ix_name : string; ix_table : string; ix_columns : list string }.

#[global] Instance column_type_eq_dec : EqDecision column_type.
Proof. solve_decision. Defined.
#[global] Instance default_expr_eq_dec : EqDecision default_expr.
Proof. solve_decision. Defined.
#[global] Instance on_delete_eq_dec : EqDecision on_delete.
Proof. solve_decision. Defined.
#[global] Instance Column_eq_dec : EqDecision Column.
Proof. solve_decision. Defined.
#[global] Instance ForeignKey_eq_dec : EqDecision ForeignKey.
Proof. solve_decision. Defined.
#[global] Instance TableDef_eq_dec : EqDecision TableDef.
Proof. solve_decision. Defined.
#[global] Instance IndexDef_eq_dec : EqDecision IndexDef.
Proof. solve_decision. Defined.

(** What the database knows of its tables and of the indexes created by name. *)
Record Catalogue := mkCatalogue { ct_tables : gmap string TableDef; ct_indexes : gmap string IndexDef }.

Definition empty_catalogue : Catalogue := mkCatalogue ∅ ∅.

Definition columns_of (c : Catalogue) (t : string) : list Column :=
  match ct_tables c !! t with Some d => td_columns d | None => [] end.
Definition has_column (cols : list Column) (n : string) : Prop := n ∈ map col_name cols.
(** A column another table may refer to. *)
Definition is_key (c : Catalogue) (t n : string) : Prop :=
  Exists (fun x => col_name x = n /\ (col_primary x || col_unique x) = true) (columns_of c t).

#[global] Instance has_column_dec cols n : Decision (has_column cols n).
Proof. unfold has_column. apply _. Defined.
#[global] Instance is_key_dec c t n : Decision (is_key c t n).
Proof. unfold is_key. apply _. Defined.

(** When PostgreSQL accepts a statement. *)
Definition creatable (d : TableDef) (c : Catalogue) : Prop :=
  ct_tables c !! td_name d = None /\ NoDup (map col_name (td_columns d)) /\
  (length (filter (fun x => col_primary x = true) (td_columns d)) <= 1)%nat /\
  Forall (fun k => has_column (td_columns d) (fk_from k) /\ is_key c (fk_to_table k) (fk_to k))
         (td_foreign_keys d).
Definition indexable (x : IndexDef) (c : Catalogue) : Prop :=
  ct_indexes c !! ix_name x = None /\ Forall (has_column (columns_of c (ix_table x))) (ix_columns x).
(** No other table refers to it. *)
Definition droppable (t : string) (c : Catalogue) : Prop :=
  is_Some (ct_tables c !! t) /\
  Forall (fun kv => kv.1 = t \/ Forall (fun k => fk_to_table k <> t) (td_foreign_keys kv.2))
         (map_to_list (ct_tables c)).

(** The indexes of a dropped table go with it. *)
Definition without_table (t : string) (c : Catalogue) : Catalogue :=
  mkCatalogue (delete t (ct_tables c)) (filter (fun kv => ix_table kv.2 <> t) (ct_indexes c)).
Definition with_table (d : TableDef) (c : Catalogue) : Catalogue :=
  mkCatalogue (<[td_name d := d]> (ct_tables c)) (ct_indexes c).
Definition with_index (x : IndexDef) (c : Catalogue) : Catalogue :=
  mkCatalogue (ct_tables c) (<[ix_name x := x]> (ct_indexes c)).
Definition without_index (n : string) (c : Catalogue) : Catalogue :=
  mkCatalogue (ct_tables c) (delete n (ct_indexes c)).

(** What a statement does to the catalogue when it answers [Ok]; a statement whose
    condition holds is refused only for a reason outside the catalogue ([outside]: the
    connection, a missing privilege or extension). *)
Definition carries_out {M X E} (cat : M -> Catalogue) (outside : E -> Prop) (cond : Catalogue -> Prop)
    (effect : Catalogue -> Catalogue) (m : M) (r : result X E) (m' : M) : Prop :=
  match r with
  | Ok _ => cond (cat m) /\ cat m' = effect (cat m)
  | Err e => cond (cat m) -> outside e
  end.

Class SchemaManager (M : Type) := {
  catalogue : M -> Catalogue;
  outside : DbErr -> Prop;
  create_table : TableDef -> io M (result unit DbErr);
  create_index : IndexDef -> io M (result unit DbErr);
  drop_table : string -> io M (result unit DbErr);
  drop_index : string -> io M (result unit DbErr);
  create_table_spec d m r m' :
    create_table d m = (r, m') -> carries_out catalogue outside (creatable d) (with_table d) m r m';
  create_index_spec x m r m' :
    create_index x m = (r, m') -> carries_out catalogue outside (indexable x) (with_index x) m r m';
  drop_table_spec t m r m' :
    drop_table t m = (r, m') -> carries_out catalogue outside (droppable t) (without_table t) m r m';
  drop_index_spec n m r m' :
    drop_index n m = (r, m') ->
    carries_out catalogue outside (fun c => is_Some (ct_indexes c !! n)) (without_index n) m r m'
}.

(* ------------------------------------------------------------------ *)
(** ** The migrations *)

Definition id_column : Column := mkColumn "id" Uuid true (DefaultExpr "uuidv7()") true false.
Definition created_at_column : Column :=
  mkColumn "created_at" TimestampTz true (DefaultExpr "CURRENT_TIMESTAMP") false false.
Definition column (n : string) (t : column_type) (not_null : bool) : Column :=
  mkColumn n t not_null NoDefault false false.

Definition accounts_table : TableDef := mkTableDef "accounts"
  [id_column;
   mkColumn "username" Citext true NoDefault false true;
   column "password_hash" TextCol true;
   mkColumn "status" SmallInteger true (DefaultInt 0) false false;
   column "banned_reason" TextCol false;
   column "banned_until" TimestampTz false;
   created_at_column] [].

Definition players_table : TableDef := mkTableDef "players"
  [id_column;
   column "account_id" Uuid true;
   column "nickname" TextCol true;
   mkColumn "level" Integer true (DefaultInt 1) false false;
   mkColumn "exp" BigInteger true (DefaultInt 0) false false;
   column "last_login_at" TimestampTz false;
   created_at_column]
  [mkForeignKey "fk_players_account_id" "account_id" "accounts" "id" Restrict].

Definition audit_logs_table : TableDef := mkTableDef "audit_logs"
  [id_column;
   column "player_id" Uuid false;
   column "action" TextCol true;
   column "detail" JsonBinary false;
   created_at_column]
  [mkForeignKey "fk_audit_logs_player_id" "player_id" "players" "id" SetNull].

Definition idx_players : IndexDef := mkIndexDef "idx_players_account_id" "players" ["account_id"].
Definition idx_audit_logs : IndexDef :=
  mkIndexDef "idx_audit_logs_player_id_created_at" "audit_logs" ["player_id"; "created_at"].

(** [MigrationTrait] *)
Record Migration (M : Type) := mkMigration {
  mg_up : io M (result unit DbErr); mg_down : io M (result unit DbErr)
}.
Arguments mkMigration {M}.
Arguments mg_up {M}.
Arguments mg_down {M}.

Section Migrations.
Context {M : Type} `{HM : SchemaManager M}.

Definition create_accounts : Migration M :=
  mkMigration (create_table accounts_table) (drop_table "accounts").
Definition create_players : Migration M := mkMigration
  (await? _ := create_table players_table in create_index idx_players)
  (await? _ := drop_index "idx_players_account_id" in drop_table "players").
Definition create_audit_logs : Migration M := mkMigration
  (await? _ := create_table audit_logs_table in create_index idx_audit_logs)
  (await? _ := drop_index "idx_audit_logs_player_id_created_at" in drop_table "audit_logs").

(** [Migrator::migrations] *)
Definition migrations : list (Migration M) := [create_accounts; create_players; create_audit_logs].

(** One after the other until one fails. *)
Fixpoint in_sequence (l : list (io M (result unit DbErr))) : io M (result unit DbErr) :=
  match l with
  | [] => io_ret (Ok tt)
  | m :: rest => await? _ := m in in_sequence rest
  end.

(** [Migrator::up] and [down] with no number of steps: the migrations not yet recorded in
    the order listed, those recorded in the reverse order. *)
Class Migrator := {
  applied : M -> nat;
  migrate_up : list (Migration M) -> io M (result unit DbErr);
  migrate_down : list (Migration M) -> io M (result unit DbErr);
  migrate_up_spec l m m' :
    migrate_up l m = (Ok tt, m') ->
    applied m' = length l /\
    exists m1, in_sequence (map mg_up (drop (applied m) l)) m = (Ok tt, m1) /\ catalogue m' = catalogue m1;
  migrate_down_spec l m m' :
    migrate_down l m = (Ok tt, m') ->
    applied m' = 0%nat /\
    exists m1, in_sequence (map mg_down (rev (take (applied m) l))) m = (Ok tt, m1) /\
               catalogue m' = catalogue m1
}.

(** [run_migrations] *)
Definition run_migrations `{Migrator} : io M (result unit DbErr) := migrate_up migrations.

(** The schema after the first [k] migrations. *)
Definition schema (k : nat) : Catalogue :=
  match k with
  | O => empty_catalogue
  | 1%nat => with_table accounts_table empty_catalogue
  | 2%nat => with_index idx_players (with_table players_table (with_table accounts_table empty_catalogue))
  | _ => with_index idx_audit_logs (with_table audit_logs_table
           (with_index idx_players (with_table players_table (with_table accounts_table empty_catalogue))))
  end.

End Migrations.

(* ------------------------------------------------------------------ *)
(** ** Running the migrations *)

#[global] Instance creatable_dec d c : Decision (creatable d c).
Proof. unfold creatable. apply _. Defined.
#[global] Instance indexable_dec x c : Decision (indexable x c).
Proof. unfold indexable. apply _. Defined.
#[global] Instance droppable_dec t c : Decision (droppable t c).
Proof. unfold droppable. apply _. Defined.

Section Running.
Context {M : Type} `{HM : SchemaManager M}.

(** A statement at a known catalogue. *)
Lemma statement_at {X} (r : result X DbErr) (m m' : M) cond effect c :
  carries_out catalogue outside cond effect m r m' -> catalogue m = c -> cond c ->
  match r with Ok _ => catalogue m' = effect c | Err e => outside e end.
Proof. unfold carries_out. intros H <- Hc. destruct r; [by destruct H|by apply H]. Qed.

(** Running [m] takes the catalogue [c] to [c'] unless something outside intervenes. *)
Definition takes (m : io M (result unit DbErr)) (c c' : Catalogue) : Prop :=
  forall s r s', catalogue s = c -> m s = (r, s') ->
    match r with Ok _ => catalogue s' = c' | Err e => outside e end.

Lemma takes_then m k c c1 c2 : takes m c c1 -> takes k c1 c2 -> takes (await? _ := m in k) c c2.
Proof.
  intros Hm Hk s r s' Hs. unfold io_try. destruct (m s) as [[[]|e] s1] eqn:Em.
  - intros Hx. exact (Hk s1 r s' (Hm s _ s1 Hs Em) Hx).
  - intros [= <- <-]. exact (Hm s _ _ Hs Em).
Qed.

Lemma takes_create_table d c : bool_decide (creatable d c) = true -> takes (create_table d) c (with_table d c).
Proof.
  intros Hc%bool_decide_eq_true s r s' Hs Hx%create_table_spec.
  exact (statement_at r s s' _ _ c Hx Hs Hc).
Qed.
Lemma takes_create_index x c : bool_decide (indexable x c) = true -> takes (create_index x) c (with_index x c).
Proof.
  intros Hc%bool_decide_eq_true s r s' Hs Hx%create_index_spec.
  exact (statement_at r s s' _ _ c Hx Hs Hc).
Qed.
Lemma takes_drop_table t c : bool_decide (droppable t c) = true -> takes (drop_table t) c (without_table t c).
Proof.
  intros Hc%bool_decide_eq_true s r s' Hs Hx%drop_table_spec.
  exact (statement_at r s s' _ _ c Hx Hs Hc).
Qed.
Lemma takes_drop_index n c :
  bool_decide (is_Some (ct_indexes c !! n)) = true -> takes (drop_index n) c (without_index n c).
Proof.
  intros Hc%bool_decide_eq_true s r s' Hs Hx%drop_index_spec.
  exact (statement_at r s s' _ _ c Hx Hs Hc).
Qed.

(** Every migration leads from its schema to the next, and its undoing back. *)
Lemma migration_takes k mg :
  migrations !! k = Some mg ->
  takes (mg_up mg) (schema k) (schema (S k)) /\ takes (mg_down mg) (schema (S k)) (schema k).
Proof.
  intros Hk. destruct k as [|[|[|k]]]; [..|done]; injection Hk as <-; cbn [mg_up mg_down schema].
  - split; [by apply takes_create_table|].
    replace empty_catalogue with (without_table "accounts" (schema 1)) by (vm_compute; done).
    by apply takes_drop_table.
  - split; [eapply takes_then; [by apply takes_create_table|by apply takes_create_index]|].
    replace (with_table accounts_table empty_catalogue)
      with (without_table "players" (without_index "idx_players_account_id" (schema 2))) at 2
      by (vm_compute; done).
    eapply takes_then; [by apply takes_drop_index|by apply takes_drop_table].
  - split; [eapply takes_then; [by apply takes_create_table|by apply takes_create_index]|].
    change (with_index idx_players (with_table players_table (with_table accounts_table empty_catalogue)))
      with (schema 2).
    replace (schema 2)
      with (without_table "audit_logs" (without_index "idx_audit_logs_player_id_created_at" (schema 3))) at 4
      by (vm_compute; done).
    eapply takes_then; [by apply takes_drop_index|by apply takes_drop_table].
Qed.

Lemma takes_rest (l : list (io M (result unit DbErr))) c c' m m' :
  takes (in_sequence l) c c' -> catalogue m = c -> in_sequence l m = (Ok tt, m') -> catalogue m' = c'.
Proof. intros Ht Hc Hx. exact (Ht m _ m' Hc Hx). Qed.

Lemma takes_done c : takes (io_ret (Ok tt)) c c.
Proof. by intros s r s' Hs [= <- <-]. Qed.

Lemma rest_up k : (k <= 3)%nat -> takes (in_sequence (map mg_up (drop k migrations))) (schema k) (schema 3).
Proof.
  intros Hk. destruct k as [|[|[|[|k]]]]; [..|lia]; cbn [migrations drop map in_sequence];
    pose proof (proj1 (migration_takes 0 _ eq_refl)); pose proof (proj1 (migration_takes 1 _ eq_refl));
    pose proof (proj1 (migration_takes 2 _ eq_refl));
    repeat (eapply takes_then; [eassumption|]); apply takes_done.
Qed.
Lemma rest_down k :
  (k <= 3)%nat -> takes (in_sequence (map mg_down (rev (take k migrations)))) (schema k) empty_catalogue.
Proof.
  intros Hk. destruct k as [|[|[|[|k]]]]; [..|lia]; cbn [migrations take rev app map in_sequence];
    pose proof (proj2 (migration_takes 0 _ eq_refl)); pose proof (proj2 (migration_takes 1 _ eq_refl));
    pose proof (proj2 (migration_takes 2 _ eq_refl));
    repeat (eapply takes_then; [eassumption|]); apply takes_done.
Qed.
End Running.
Arguments takes_rest {M HM l c c' m m'}.

(* ------------------------------------------------------------------ *)
(** ** Entities: the rows against the columns *)

(** A value of a row, as SeaORM hands it to the driver. *)
Inductive value := VNull | VUuid (u : Z) | VText (s : rstr) | VInt (w n : Z) | VTime (t : DateTime)
| VJson (has_nul : bool).

Definition opt {A} (f : A -> value) (o : option A) : value := match o with Some a => f a | None => VNull end.

(** The fields of [entities/account.rs], [entities/player.rs] and [entities/audit_log.rs]:
    [i16], [i32], [i64] are sent as integers of their width. *)
Definition account_fields (m : account_row) : list (string * value) :=
  [("id", VUuid (ar_id m)); ("username", VText (ar_username m));
   ("password_hash", VText (ar_password_hash m)); ("status", VInt 16 (ar_status m));
   ("banned_reason", opt VText (ar_banned_reason m)); ("banned_until", opt VTime (ar_banned_until m));
   ("created_at", VTime (ar_created_at m))].
Definition player_fields (m : player_row) : list (string * value) :=
  [("id", VUuid (pr_id m)); ("account_id", VUuid (pr_account_id m)); ("nickname", VText (pr_nickname m));
   ("level", VInt 32 (pr_level m)); ("exp", VInt 64 (pr_exp m));
   ("last_login_at", opt VTime (pr_last_login_at m)); ("created_at", VTime (pr_created_at m))].

Definition audit_fields {D} `{AuditTable D} (m : audit_row Json) : list (string * value) :=
  [("id", VUuid (au_id m)); ("player_id", opt VUuid (au_player_id m)); ("action", VText (au_action m));
   ("detail", opt (fun v => VJson (json_has_nul v)) (au_detail m)); ("created_at", VTime (au_created_at m))].

(** A column takes a value of its type; neither a text nor a JSON value of PostgreSQL holds
    a NUL character. *)
Definition fits (c : Column) (f : string * value) : Prop :=
  col_name c = f.1 /\
  match f.2 with
  | VNull => col_not_null c = false
  | VUuid u => col_type c = Uuid /\ is_uuid u
  | VText s => col_type c ∈ [TextCol; Citext] /\ 0 ∉ s
  | VInt w n => col_type c = (if w =? 16 then SmallInteger else if w =? 32 then Integer else BigInteger) /\
                is_i w n
  | VTime _ => col_type c = TimestampTz
  | VJson has_nul => col_type c = JsonBinary /\ has_nul = false
  end.

Lemma username_no_nul u : Username.valid u -> 0 ∉ Username.as_str u.
Proof.
  intros [_ Hc] H0. rewrite Forall_forall in Hc. specialize (Hc 0 H0).
  unfold Username.normal_char in Hc. vm_compute in Hc. naive_solver.
Qed.
Lemma nickname_no_nul n : Nickname.valid n -> 0 ∉ Nickname.as_str n.
Proof. intros (_ & _ & Hc) H0. rewrite Forall_forall in Hc. by specialize (Hc 0 H0). Qed.

Lemma account_row_fits a :
  Username.valid (acc_username a) -> is_uuid (acc_id a) ->
  0 ∉ PasswordHash.expose (acc_password_hash a) ->
  (forall reason until, acc_status a = Banned reason until -> 0 ∉ reason) ->
  Forall2 fits (td_columns accounts_table) (account_fields (account_to_active a)).
Proof.
  intros Hu Hi Hh Hr. pose proof (username_no_nul _ Hu). unfold account_to_active.
  destruct (acc_status a) as [| |reason until] eqn:Es; [..|specialize (Hr reason until eq_refl)];
    try destruct until; repeat (apply Forall2_cons_2; [unfold fits; cbn; split_and!; try done; try set_solver|]);
    apply Forall2_nil_2.
Qed.

Lemma clamped_fits w n : w = 32 \/ w = 64 -> 0 <= n -> is_i w (default (2 ^ (w - 1) - 1) (try_from_i w n)).
Proof. intros Hw Hn. rewrite try_from_i_default. unfold is_i. destruct Hw as [-> | ->]; cbn; lia. Qed.

Lemma player_row_fits p :
  Nickname.valid (pl_nickname p) -> is_uuid (pl_id p) -> is_uuid (pl_account_id p) -> Player.in_range p ->
  Forall2 fits (td_columns players_table) (player_fields (player_to_active p)).
Proof.
  intros Hn Hi Ha [[Hl _] [He _]]. pose proof (nickname_no_nul _ Hn).
  pose proof (clamped_fits 32 (pl_level p) ltac:(auto) Hl).
  pose proof (clamped_fits 64 (pl_exp p) ltac:(auto) He).
  unfold player_to_active, player_fields.
  cbn [pr_id pr_account_id pr_nickname pr_level pr_exp pr_last_login_at pr_created_at].
  destruct (pl_last_login_at p);
    repeat (apply Forall2_cons_2; [unfold fits; cbn [fst snd opt]; split_and!; try done; try set_solver|]);
    apply Forall2_nil_2.
Qed.

(** The audit records of the use cases: the action and the detail of a login and of the
    registration of [u]. *)
Inductive audited (u : Username) : rstr -> rstr -> Prop :=
| AuditLogin : audited u (lit "login") (lit "{}")
| AuditRegister : audited u (lit "register") (username_json (Username.as_str u)).

Lemma audited_plain u action detail :
  Username.valid u -> audited u action detail -> 0 ∉ action /\ 0 ∉ detail /\ 92 ∉ detail.
Proof.
  intros [_ Hc] [|]; [split_and!; apply (bool_decide_unpack _); vm_compute; exact I|].
  split; [apply (bool_decide_unpack _); vm_compute; exact I|].
  assert (Hd : forall c, c ∈ [0; 92] -> c ∉ username_json (Username.as_str u)); [|split; apply Hd; set_solver].
  intros c Hin. unfold username_json. rewrite !not_elem_of_app.
  assert (Hu : c ∉ Username.as_str u).
  { intros Hc'. rewrite Forall_forall in Hc. specialize (Hc c Hc').
    assert (c = 0 \/ c = 92) as [-> | ->] by set_solver; vm_compute in Hc; naive_solver. }
  assert (c = 0 \/ c = 92) as [-> | ->] by set_solver;
    split_and!; try done; apply (bool_decide_unpack _); vm_compute; exact I.
Qed.

Lemma audit_row_fits {D} `{HA : AuditTable D} u player_id action detail (d d' : D) r m :
  Username.valid u -> audited u action detail -> is_uuid player_id -> is_uuid (fst (audit_fresh d)) ->
  sea_record (Some player_id) action detail d = (r, d') -> m ∈ audit_rows d' ->
  m ∈ audit_rows d \/ Forall2 fits (td_columns audit_logs_table) (audit_fields m).
Proof.
  intros Hu Ha Hp Hf Hx Hm. destruct (audited_plain _ _ _ Hu Ha) as (H1 & H2 & H3).
  unfold sea_record in Hx. destruct (audit_fresh d) as [id now]. cbn in Hf.
  destruct (ins_audit _ d) as [x d1] eqn:Ei. injection Hx as <- <-. apply ins_audit_spec in Ei.
  pose proof (json_plain detail H2 H3).
  assert (Hor : m ∈ audit_rows d \/
    m = mkAuditRow id (Some player_id) action (Some (default (json_string detail) (json_of_str detail))) now).
  { destruct x as [[]|e]; cbn in Ei; [rewrite Ei in Hm; set_solver|].
    destruct Ei as [Ei|[_ Ei]]; rewrite Ei in Hm; set_solver. }
  destruct Hor as [Hin | ->]; [by left|right]. unfold audit_fields, audit_logs_table. cbn.
  repeat (apply Forall2_cons_2; [unfold fits; cbn; split_and!; try done; try set_solver|]). apply Forall2_nil_2.
Qed.

Lemma try_from_u_id w n : is_u w n -> default 0 (try_from_u w n) = n.
Proof. intros Hn. rewrite <- (try_from_u_max w n Hn) at 2. rewrite Z.max_l; [done|]. apply Hn. Qed.

(** C32: The rows the program writes fit the tables the migrations create: for every
    well-formed account and player, banned or not, whatever its level and experience, and
    for every audit record of a login or a registration, each field of the entity has the
    name and the type of the column at its place, is null only where the column may be, and
    lies in the column's range.  It is assumed that the password hash, the reason of a ban
    and the experience are what they are elsewhere: without NUL, a [u64].  The account is
    read back from its row as it was, the player with level and experience cut off at the
    largest value of their columns; and every row of the players table, in range for its
    columns, that can be read gives a player whose level and experience are in range for
    the aggregate. *)
Theorem rows_fit_columns `{HU : UuidFmt} {D} `{HA : AuditTable D} (a : Account) (p : Player)
  (Hu : Username.valid (acc_username a)) (Hia : is_uuid (acc_id a))
  (Hh : 0 ∉ PasswordHash.expose (acc_password_hash a))
  (Hr : forall reason until, acc_status a = Banned reason until -> 0 ∉ reason)
  (Hn : Nickname.valid (pl_nickname p)) (Hip : is_uuid (pl_id p)) (Hip' : is_uuid (pl_account_id p))
  (Hp : Player.in_range p) :
  Forall2 fits (columns_of (schema 3) "accounts") (account_fields (account_to_active a)) /\
  Forall2 fits (columns_of (schema 3) "players") (player_fields (player_to_active p)) /\
  (forall action detail (d d' : D) r m, audited (acc_username a) action detail ->
     is_uuid (fst (audit_fresh d)) -> sea_record (Some (pl_id p)) action detail d = (r, d') ->
     m ∈ audit_rows d' ->
     m ∈ audit_rows d \/ Forall2 fits (columns_of (schema 3) "audit_logs") (audit_fields m)) /\
  account_to_domain (account_to_active a) = Ok a /\
  player_to_domain (player_to_active p) = Ok (clamp p) /\
  forall m q, Forall2 fits (columns_of (schema 3) "players") (player_fields m) ->
    player_to_domain m = Ok q ->
    Player.in_range q /\ pl_level q = Z.max (pr_level m) 0 /\ pl_exp q = Z.max (pr_exp m) 0.
Proof.
  change (columns_of (schema 3) "accounts") with (td_columns accounts_table).
  change (columns_of (schema 3) "players") with (td_columns players_table).
  change (columns_of (schema 3) "audit_logs") with (td_columns audit_logs_table).
  split; [by apply account_row_fits|]. split; [by apply player_row_fits|].
  split; [intros action detail d d' r m Ha; by apply (audit_row_fits (acc_username a))|]. split; [by apply account_roundtrip|].
  split; [destruct Hp; by apply player_roundtrip|].
  intros m q Hm Hq. split; [by eapply player_to_domain_range|].
  unfold player_fields, players_table in Hm. cbn [td_columns] in Hm.
  do 5 apply Forall2_cons_1 in Hm as [? Hm]. unfold fits in *. cbn [fst snd] in *. destruct_and?.
  unfold player_to_domain in Hq. apply res_bind_ok in Hq as (n & _ & [= <-]).
  unfold Player.reconstitute, is_i in *. cbn [pl_level pl_exp].
  split; apply try_from_u_id; mlia.
Qed.

(** The migrations build the schema the program relies on, and their undoing removes
    it.  From a database in which the first [k] migrations were applied, [run_migrations]
    leads to the full schema: the account's name is a unique, case-insensitive column, the
    identifiers are primary keys, a player refers to an account by a foreign key that
    forbids deleting it, an audit record to a player; the account of a player is not
    unique by itself.  No statement of any migration can be refused because of the tables
    it finds, only for a reason outside the catalogue; the migrations undone in reverse
    order leave an empty catalogue. *)
Theorem migrations_build_schema {M : Type} `{HM : SchemaManager M} `{HMi : !Migrator} (k : nat) (m : M)
  (Hk : (k <= 3)%nat) (Happ : applied m = k) (Hc : catalogue m = schema k) :
  (forall m', run_migrations m = (Ok tt, m') -> catalogue m' = schema 3) /\
  (forall m', migrate_down migrations m = (Ok tt, m') -> catalogue m' = empty_catalogue) /\
  (forall mg, migrations !! k = Some mg ->
     forall e m', mg_up mg m = (Err e, m') -> outside e) /\
  is_key (schema 3) "accounts" "id" /\ is_key (schema 3) "accounts" "username" /\
  is_key (schema 3) "players" "id" /\ ~ is_key (schema 3) "players" "account_id".
Proof.
  split; [|split; [|split]].
  - intros m' Hx. apply migrate_up_spec in Hx as (_ & m1 & Hs & ->). rewrite Happ in Hs.
    exact (takes_rest (rest_up k Hk) Hc Hs).
  - intros m' Hx. apply migrate_down_spec in Hx as (_ & m1 & Hs & ->). rewrite Happ in Hs.
    exact (takes_rest (rest_down k Hk) Hc Hs).
  - intros mg Hmg e m' Hx. destruct (migration_takes k mg Hmg) as [Hup _]. exact (Hup m _ m' Hc Hx).
  - split_and!; try (apply (bool_decide_unpack _); vm_compute; exact I).
Qed.

(* ------------------------------------------------------------------ *)
(** ** A database that keeps nothing but its catalogue *)

Module SchemaDemo.
Import EventsDemo.

(** The catalogue and the number of migrations applied. *)
Abbreviation Db := (Catalogue * nat)%type.

Definition exec (cond : Catalogue -> Prop) `{forall c, Decision (cond c)} (effect : Catalogue -> Catalogue)
  : io Db (result unit DbErr) := fun '(c, k) =>
  if decide (cond c) then (Ok tt, (effect c, k)) else (Err (mkDbErr (lit "refused") false), (c, k)).

Lemma exec_spec cond `{forall c, Decision (cond c)} effect m r m' :
  exec cond effect m = (r, m') -> carries_out fst (fun _ => False) cond effect m r m'.
Proof.
  destruct m as [c k]. unfold exec, carries_out. destruct (decide (cond c)); intros [= <- <-]; done.
Qed.

#[program] Definition demo_manager : SchemaManager Db := {|
  catalogue := fst;
  outside _ := False;
  create_table d := exec (creatable d) (with_table d);
  create_index x := exec (indexable x) (with_index x);
  drop_table t := exec (droppable t) (without_table t);
  drop_index n := exec (fun c => is_Some (ct_indexes c !! n)) (without_index n)
|}.
Next Obligation. intros d m r m'. apply exec_spec. Qed.
Next Obligation. intros d m r m'. apply exec_spec. Qed.
Next Obligation. intros d m r m'. apply exec_spec. Qed.
Next Obligation. intros d m r m'. apply exec_spec. Qed.
#[local] Existing Instance demo_manager.

Definition note (k : nat) (m : io Db (result unit DbErr)) : io Db (result unit DbErr) :=
  fun s => match m s with (Ok _, s') => (Ok tt, (s'.1, k)) | (Err e, s') => (Err e, s') end.

#[program] Definition demo_migrator : Migrator (M := Db) := {|
  applied := snd;
  migrate_up l := fun m => note (length l) (in_sequence (map mg_up (drop m.2 l))) m;
  migrate_down l := fun m => note 0 (in_sequence (map mg_down (rev (take m.2 l)))) m
|}.
Next Obligation.
  intros l m m'. unfold note. destruct (in_sequence _ m) as [[[]|e] m1] eqn:E; [|done].
  intros [= <-]. split; [done|]. by exists m1.
Qed.
Next Obligation.
  intros l m m'. unfold note. destruct (in_sequence _ m) as [[[]|e] m1] eqn:E; [|done].
  intros [= <-]. split; [done|]. by exists m1.
Qed.
#[local] Existing Instance demo_migrator.

(** A database left after the first migration is completed. *)
Definition half_way : Db := (schema 1, 1%nat).

Lemma migrations_build_schema_witness :
  fst (run_migrations (M := Db) half_way) = Ok tt /\
  catalogue (snd (run_migrations (M := Db) half_way)) = schema 3.
Proof.
  assert (Hr : fst (run_migrations (M := Db) half_way) = Ok tt) by (vm_compute; reflexivity).
  split; [exact Hr|].
  refine (proj1 (migrations_build_schema (M := Db) 1 half_way _ _ _) _ _); [lia|reflexivity|reflexivity|].
  apply injective_projections; [exact Hr|reflexivity].
Defined.

#[local] Existing Instance hex_uuid.

#[local] Existing Instance demo_audit.
Lemma rows_fit_columns_witness :
  let p := Player.set_growth (Player.create 1 2 (Nickname.mk (lit "x")) 0) 4000000000 (2 ^ 64 - 1) in
  let log := snd (sea_record (Some (pl_id p)) (lit "login") (lit "{}") []) in
  Forall2 fits (td_columns players_table) (player_fields (player_to_active p)) /\
  pr_level (player_to_active p) = 2 ^ 31 - 1 /\
  (length log = 1%nat /\ forall m, m ∈ log -> Forall2 fits (td_columns audit_logs_table) (audit_fields m)).
Proof.
  intros p log.
  destruct (rows_fit_columns (D := list (audit_row rstr))
    (Account.reconstitute 1 (Username.mk (lit "abc")) (PasswordHash.new (lit "h")) (Banned (lit "r") None) 0)
    p) as (_ & Hp & Ha & _).
  - split; [vm_compute; lia|]. apply (bool_decide_unpack _). vm_compute. exact I.
  - apply (bool_decide_unpack _). vm_compute. exact I.
  - apply (bool_decide_unpack _). vm_compute. exact I.
  - intros reason until [= <- _]. apply (bool_decide_unpack _). vm_compute. exact I.
  - split; [vm_compute; lia|]. split; [vm_compute; reflexivity|]. apply (bool_decide_unpack _). vm_compute. exact I.
  - apply (bool_decide_unpack _). vm_compute. exact I.
  - apply (bool_decide_unpack _). vm_compute. exact I.
  - split; apply (bool_decide_unpack _); vm_compute; exact I.
  - split; [exact Hp|]. split; [reflexivity|]. split; [vm_compute; reflexivity|]. intros m Hm.
    destruct (Ha (lit "login") (lit "{}") [] log (Ok tt) m) as [Hin|Hf]; [constructor| | |exact Hm| |exact Hf].
    + apply (bool_decide_unpack _). vm_compute. exact I.
    + vm_compute. reflexivity.
    + by apply not_elem_of_nil in Hin.
Defined.

End SchemaDemo.
