(* ===== verification/Bootstrap.v ===== *)
(** The composition root ([server-bin/src/bootstrap.rs], [main.rs], [shutdown.rs],
    [observability.rs]): from the configuration to the settings of every component, the
    start-up sequence with its first failure, and the graceful teardown.

    What the sequence calls outside the repository (the metrics recorder, the database
    driver, the migration framework, the Redis client, axum's server, signals) is the
    class [Host] over the sockets of [Tls.Net]; [log] records the steps as they are taken
    and is not part of the program. *)
From S2P Require Import Prelude Text Tokio Values Session App Frame Room RoomActor RoomService AuthGate RateLimit.
From S2P Require Import Connection Protocol Gateway Lifecycle Listener SqlRepos Password Tls Events.
From stdpp Require Import strings.
From Stdlib Require Import Strings.String.
From S2P Require Import Config.
Open Scope Z_scope.
Open Scope list_scope.
Abbreviation length := Datatypes.length.

(* ------------------------------------------------------------------ *)
(** ** Settings *)

(** [TcpGatewayConfig] ([gateway/src/tcp/config.rs]) *)
Record TcpGatewayConfig := mkTcpGatewayConfig {
  tg_shutdown_timeout : Z; tg_write_drain_timeout : Z; tg_bind_addr : SocketAddr; tg_max_frame_size : Z;
  tg_send_queue_capacity : Z; tg_room_event_capacity : nat; tg_unauth_timeout : Z;
  tg_heartbeat_timeout : Z; tg_rate : RateLimitSettings; tg_max_connections : Z; tg_backlog : Z;
  tg_accept_concurrency : Z; tg_nodelay : bool; tg_keepalive : Z
}.

Definition tcp_gateway_config (config : Config) (bind_addr : SocketAddr) : TcpGatewayConfig := {|
  tg_shutdown_timeout := from_secs (ac_shutdown_timeout_secs (app config));
  tg_write_drain_timeout := from_millis (nc_write_drain_timeout_ms (network config));
  tg_bind_addr := bind_addr;
  tg_max_frame_size := nc_max_frame_size (network config);
  tg_send_queue_capacity := nc_channel_per_conn (network config);
  tg_room_event_capacity := ROOM_EVENT_CAPACITY;
  tg_unauth_timeout := from_secs (nc_unauth_timeout_secs (network config));
  tg_heartbeat_timeout := from_secs (nc_heartbeat_timeout_secs (network config));
  tg_rate := mkRate (rc_enabled (rate_limit config)) (rc_per_conn (rate_limit config))
                    (rc_burst (rate_limit config));
  tg_max_connections := nc_max_connections (network config);
  tg_backlog := nc_backlog (network config);
  tg_accept_concurrency := nc_accept_concurrency (network config);
  tg_nodelay := nc_tcp_nodelay (network config);
  tg_keepalive := from_secs (nc_tcp_keepalive_secs (network config))
|}.

(** The accept loop and the handshake slots of [TcpGateway::run]. *)
Definition gateway_accept_config (c : TcpGatewayConfig) : AcceptLoopConfig :=
  mkAcceptConfig (tg_shutdown_timeout c) (Some (Z.to_nat (tg_max_connections c)))
                 (Z.to_nat (Z.max (tg_accept_concurrency c) 1)).
Definition handshake_slots (c : TcpGatewayConfig) : nat := Z.to_nat (Z.max (tg_accept_concurrency c) 1).

(** What becomes the capacity of a semaphore or a queue of [tokio]: the limit of the accept
    loop, the handshake slots, the hasher's permits, a connection's queue and its queue of
    room events, a room's queue of commands. *)
Inductive Bounded :=
  ConnectionLimit | HandshakeSlots | HasherPermits | SendQueue | EventQueue | CommandQueue.
Definition wanted_capacity (config : Config) (b : Bounded) : Z :=
  match b with
  | ConnectionLimit => nc_max_connections (network config)
  | HandshakeSlots => Z.max (nc_accept_concurrency (network config)) 1
  | HasherPermits => ac_password_max_concurrency (app config)
  | SendQueue => nc_channel_per_conn (network config)
  | EventQueue => Z.of_nat ROOM_EVENT_CAPACITY
  | CommandQueue => nc_channel_per_room (network config)
  end.

(** [Semaphore::new] panics over [MAX_PERMITS]; so does [mpsc::channel], which a semaphore
    bounds, and it panics at zero too. *)
Definition constructor_panics (config : Config) (b : Bounded) : bool :=
  match b with
  | ConnectionLimit | HandshakeSlots | HasherPermits => MAX_PERMITS <? wanted_capacity config b
  | SendQueue | EventQueue | CommandQueue => (wanted_capacity config b =? 0) || (MAX_PERMITS <? wanted_capacity config b)
  end.

(** The options of the connection pool ([connect_database]). *)
Record DbOptions := mkDbOptions {
  db_url : rstr; db_max_connections : Z; db_min_connections : Z; db_connect_timeout : Z;
  db_idle_timeout : Z; db_sqlx_logging : bool
}.
Definition db_options (cfg : DatabaseConfig) : DbOptions :=
  mkDbOptions (dc_url cfg) (dc_max_connections cfg) (dc_min_connections cfg)
    (from_secs (dc_connect_timeout_secs cfg)) (from_secs (dc_idle_timeout_secs cfg))
    (bool_decide (dc_sqlx_log_level cfg ∈ [lit "debug"; lit "trace"])).

(** [init_tracing]: the filter, [info] if the level is none, and whether lines are JSON. *)
Definition init_tracing (is_filter : rstr -> bool) (level format : rstr) : rstr * bool :=
  (if is_filter level then level else lit "info",
   bool_decide (to_ascii_lowercase format = lit "json")).

(* ------------------------------------------------------------------ *)
(** ** Errors of the start-up *)

(** [GatewayError] ([gateway/src/error.rs]) *)
Inductive GatewayError := GwNet (e : NetError) | GwAddr (m : rstr) | GwConfig (m : rstr).
Definition GatewayError_to_string (e : GatewayError) : rstr :=
  match e with
  | GwNet e => lit "网络错误: " ++ NetError_to_string e
  | GwAddr m => lit "地址解析失败: " ++ m
  | GwConfig m => lit "网关配置错误: " ++ m
  end.

(** The errors that [?] turns into a [Box<dyn Error>]. *)
Inductive StartError :=
| SeConfig (e : ConfigError)
| SeText (m : rstr)
| SeAddr
| SeDb (e : DbErr)
| SeApp (e : AppError)
| SeNet (e : NetError)
| SeGateway (e : GatewayError).

(** How [serve_https] learns of the bound address ([Handle::listening]), and how the
    connection to Redis ends. *)
Inductive https_start := HttpsListening (a : SocketAddr) | HttpsBindFailed | HttpsTaskGone.
Inductive redis_start := RedisConnected | RedisFailed (m : rstr) | RedisElapsed.

(** The steps, as the log has them. *)
Inductive Step :=
| StRecorder | StMetrics (a : SocketAddr) | StDatabase (o : DbOptions) | StMigrations | StRedis (url : rstr) (timeout : Z)
| StTcp (c : TcpGatewayConfig) | StAccept (c : AcceptLoopConfig) | StHttps (a : SocketAddr)
| StRedirect (a : SocketAddr) (https_port : Z) | StSignal
| StCloseRooms | StDrain (timeout : Z) | StCloseDb.

(** What the process asks of the outside; [host_rooms] are the rooms, which the
    connections' tasks change at the same time, [watch] is what the drain loop will
    observe: the starting time, and the connections and the time at each look. *)
Class Host `{HRu : Rustls} {Q : Type -> Type} {E : Type} (W : Type) := {
  host_net :: Net W;
  host_rooms : W -> @Rooms Q E;
  set_rooms : @Rooms Q E -> W -> W;
  install_recorder : io W (result unit rstr);
  spawn_metrics : SocketAddr -> io W unit;
  connect_db : DbOptions -> io W (result unit DbErr);
  host_migrations : io W (result unit DbErr);
  redis_open : rstr -> result unit rstr;
  redis_connection : Z -> io W redis_start;
  spawn_gateway : TcpGatewayConfig -> io W unit;
  https_listening : SocketAddr -> ServerConfig -> io W https_start;
  http_bind : SocketAddr -> io W (result unit IoError);
  http_local_addr : io W (result SocketAddr IoError);
  wait_signal : io W unit;
  watch : io W (Z * (nat -> nat * Z));
  close_db : io W (result unit DbErr);
  host_rooms_set rs w : host_rooms (set_rooms rs w) = rs;
  watch_spec w start obs w' :
    watch w = ((start, obs), w') -> forall i, start + POLL * Z.of_nat i <= snd (obs i)
}.

Section Bootstrap.
Context `{HRu : Rustls} {Q : Type -> Type} `{HQ : Mpsc Q} {B : Type -> Type} `{HB : Broadcast B}.
Context {Sem : Type} `{HSem : Semaphore Sem} `{HA : Argon2}.
Abbreviation E := (InMemoryEventPublisher (B := B)).
Context {W : Type} {HW : Host (Q := Q) (E := E) W}.
#[local] Existing Instance bus_publisher.
Variables (home : option rstr) (files : rstr -> result (list Z) rstr) (debug_str : rstr -> rstr)
  (parse_addr : rstr -> option SocketAddr) (addr_error : rstr)
  (salts : list Z) (panics : list bool).

Abbreviation Logged := (list Step * W)%type.

Definition step {X} (st : Step) (m : io W X) : io Logged X :=
  fun '(log, w) => let '(x, w') := m w in (x, (log ++ [st], w')).
Definition quietly {X} (m : io W X) : io Logged X :=
  fun '(log, w) => let '(x, w') := m w in (x, (log, w')).

(** [?] with a conversion of the error *)
Definition failing {X F} (f : F -> StartError) (m : io W (result X F)) : io W (result X StartError) :=
  let* r := m in io_ret (map_err f r).

(* ------------------------------------------------------------------ *)
(** ** The parts of the start-up *)

Definition load_config (lookup : Lookup) : result Config StartError :=
  let? config := map_err SeConfig (from_lookup debug_str lookup) in
  let? _ := map_err SeConfig (validate config) in
  Ok config.

(** [RedisTokenStore::connect] *)
Definition redis_connect (url : rstr) (timeout : Z) : io W (result unit AppError) :=
  match redis_open url with
  | Err err => io_ret (Err (Internal (lit "Redis URL 非法: " ++ err)))
  | Ok _ =>
      let* r := redis_connection timeout in
      io_ret (match r with
              | RedisConnected => Ok tt
              | RedisElapsed => Err (Internal (lit "Redis 连接超时"))
              | RedisFailed err => Err (Internal (lit "Redis 连接失败: " ++ err))
              end)
  end.

Definition connect_token_store (config : Config) : io W (result unit StartError) :=
  failing SeApp (redis_connect (rdc_url (redis config)) (from_secs (rdc_connect_timeout_secs (redis config)))).

(** What [build_services] assembles, apart from the stores it hands on. *)
Record Services := mkServices {
  sv_hasher : @Hasher HA Sem; sv_publisher : E; sv_room_config : RoomServiceConfig; sv_token_ttl : Z
}.
Definition build_services (config : Config) : result Services StartError :=
  let '(memory_kb, iterations, parallelism) := password_params (app config) in
  let? hasher := map_err SeApp (hasher_new memory_kb iterations parallelism
                   (Z.to_nat (ac_password_max_concurrency (app config))) salts panics) in
  Ok {| sv_hasher := hasher;
        sv_publisher := publisher_new 256;
        sv_room_config := mkServiceConfig (Z.to_nat (nc_channel_per_room (network config)))
                                          (ac_max_players_per_room (app config));
        sv_token_ttl := session_token_ttl (app config) |}.

Definition build_tls_config (tls : TlsConfig) : result ServerConfig StartError :=
  map_err SeNet (server_config_from_files home files debug_str (tc_cert_path tls) (tc_key_path tls)).

(** [TcpGateway::bind] and [TcpGateway::local_addr] *)
Record TcpGateway := mkTcpGateway { tcp_transport : TcpTlsTransport (W := W); tcp_config : TcpGatewayConfig }.
Definition gateway_bind (config : TcpGatewayConfig) (acceptor : ServerConfig)
  : io W (result TcpGateway GatewayError) :=
  let* t := bind (tg_bind_addr config) acceptor (tg_backlog config) (tg_nodelay config)
                 (Some (tg_keepalive config)) in
  io_ret (map_err GwNet (let? t := t in Ok (mkTcpGateway t config))).
Definition gateway_local_addr (g : TcpGateway) : io W (result SocketAddr GatewayError) := fun w =>
  (map_err (fun err => GwNet (Io err)) (local_addr (tr_listener (tcp_transport g)) w), w).

Definition start_tcp_gateway (config : Config) (tls_config : ServerConfig)
  : io Logged (result TcpGateway StartError) :=
  await? bind_addr := io_lift (ok_or (SeText (lit "SERVER_TCP_BIND_ADDR 非法: " ++ addr_error))
                                     (parse_addr (nc_tcp_bind_addr (network config)))) in
  let tcp_config := tcp_gateway_config config bind_addr in
  await? gateway := step (StTcp tcp_config) (failing SeGateway (gateway_bind tcp_config tls_config)) in
  await? _ := quietly (failing SeGateway (gateway_local_addr gateway)) in
  let* _ := step (StAccept (gateway_accept_config tcp_config)) (spawn_gateway tcp_config) in
  io_ret (Ok gateway).

(** [serve_https] and [serve_redirect] ([gateway/src/http/server.rs]) *)
Definition serve_https (addr : SocketAddr) (tls : ServerConfig) : io W (result SocketAddr GatewayError) :=
  let* r := https_listening addr tls in
  io_ret (match r with
          | HttpsListening a => Ok a
          | HttpsBindFailed => Err (GwConfig (lit "HTTPS 端口绑定失败"))
          | HttpsTaskGone => Err (GwConfig (lit "HTTPS 监听任务意外退出"))
          end).
Definition serve_redirect (addr : SocketAddr) : io W (result SocketAddr GatewayError) :=
  await? _ := (let* r := http_bind addr in io_ret (map_err (fun err => GwNet (Io err)) r)) in
  let* r := http_local_addr in io_ret (map_err (fun err => GwNet (Io err)) r).

Definition start_http_server (config : Config) (tls_config : ServerConfig)
  : io Logged (result unit StartError) :=
  await? bind_addr := io_lift (ok_or (SeText (lit "SERVER_HTTP_BIND_ADDR 非法: " ++ addr_error))
                                     (parse_addr (nc_http_bind_addr (network config)))) in
  await? bound := step (StHttps bind_addr) (failing SeGateway (serve_https bind_addr tls_config)) in
  match nc_http_redirect_addr (network config) with
  | Some redirect_addr =>
      await? addr := io_lift (ok_or (SeText (lit "SERVER_HTTP_REDIRECT_ADDR 非法: " ++ addr_error))
                                    (parse_addr redirect_addr)) in
      await? _ := step (StRedirect addr (sa_port bound)) (failing SeGateway (serve_redirect addr)) in
      io_ret (Ok tt)
  | None => io_ret (Ok tt)
  end.

(* ------------------------------------------------------------------ *)
(** ** Teardown *)

Definition close_rooms (reason : rstr) : io W (result unit AppError) := fun w =>
  let '(r, rs) := close_all reason (host_rooms w) in (r, set_rooms rs w).

(** [TcpGateway::wait_until_drained] on what the loop observes; as many looks as the
    deadline allows are enough ([drain_wait_terminates]). *)
Definition drain (timeout : Z) : io W bool :=
  let* (start, obs) := watch in
  io_ret (default false (wait_until_drained (start + timeout) (map obs (seq 0 (polls timeout))))).

(** [graceful_teardown]: a failure is logged and the next step taken all the same. *)
Definition graceful_teardown (config : Config) : io Logged unit :=
  let* _ := step StCloseRooms (close_rooms (lit "服务器即将停机")) in
  let timeout := from_secs (ac_shutdown_timeout_secs (app config)) in
  let* _ := step (StDrain timeout) (drain timeout) in
  let* _ := step StCloseDb close_db in
  io_ret tt.

(* ------------------------------------------------------------------ *)
(** ** The whole process *)

Definition run (lookup : Lookup) : io Logged (result unit StartError) :=
  await? config := io_lift (load_config lookup) in
  await? _ := step StRecorder (failing (fun err => SeText (lit "指标记录器初始化失败: " ++ err)) install_recorder) in
  await? metrics_addr := io_lift (ok_or SeAddr
                           (parse_addr (lit "0.0.0.0:" ++ show_u (lc_metrics_port (log config))))) in
  let* _ := step (StMetrics metrics_addr) (spawn_metrics metrics_addr) in
  await? _ := step (StDatabase (db_options (database config))) (failing SeDb (connect_db (db_options (database config)))) in
  await? _ := step StMigrations (failing SeDb host_migrations) in
  await? _ := step (StRedis (rdc_url (redis config)) (from_secs (rdc_connect_timeout_secs (redis config))))
                   (connect_token_store config) in
  await? services := io_lift (build_services config) in
  await? tls_config := io_lift (build_tls_config (tls config)) in
  await? tcp := start_tcp_gateway config tls_config in
  await? _ := start_http_server config tls_config in
  let* _ := step StSignal wait_signal in
  let* _ := graceful_teardown config in
  io_ret (Ok tt).

(** [main]: the exit status. *)
Definition main_status (r : result unit StartError) : Z := match r with Ok _ => 0 | Err _ => 1 end.

(* ------------------------------------------------------------------ *)
(** ** The order of the steps *)

Definition addr_of (s : rstr) : SocketAddr := default (mkSocketAddr false 0 0) (parse_addr s).

(** The steps of a start-up that meets no failure, and of the teardown. *)
Definition start_plan (config : Config) (https_port : Z) : list Step :=
  let tcp := tcp_gateway_config config (addr_of (nc_tcp_bind_addr (network config))) in
  [StRecorder;
   StMetrics (addr_of (lit "0.0.0.0:" ++ show_u (lc_metrics_port (log config))));
   StDatabase (db_options (database config));
   StMigrations;
   StRedis (rdc_url (redis config)) (from_secs (rdc_connect_timeout_secs (redis config)));
   StTcp tcp; StAccept (gateway_accept_config tcp);
   StHttps (addr_of (nc_http_bind_addr (network config)))]
  ++ match nc_http_redirect_addr (network config) with
     | Some a => [StRedirect (addr_of a) https_port]
     | None => []
     end.
(** The steps that let clients in: the gateway's socket and its accept loop, HTTPS and the
    redirect.  The metrics listener, on a plain socket of its own, is not one of them. *)
Definition serves (st : Step) : bool :=
  match st with StTcp _ | StAccept _ | StHttps _ | StRedirect _ _ => true | _ => false end.
Definition teardown_plan (config : Config) : list Step :=
  [StSignal; StCloseRooms; StDrain (from_secs (ac_shutdown_timeout_secs (app config))); StCloseDb].

(** [m] takes the steps [l] in this order, up to the first failure. *)
Definition follows {X} (m : io Logged (result X StartError)) (l : list Step) (P : X -> Prop) : Prop :=
  forall log w r log' w', m (log, w) = (r, (log', w')) ->
    match r with
    | Ok x => log' = log ++ l /\ P x
    | Err _ => exists k, log' = log ++ take k l
    end.

Lemma follows_step {X} st (m : io W (result X StartError)) : follows (step st m) [st] (fun _ => True).
Proof.
  intros log w r log' w'. unfold step. destruct (m w) as [x w1]. intros [= <- <- <-].
  destruct x; [done|]. by exists 1%nat.
Qed.

Lemma follows_lift {X} (r : result X StartError) : follows (io_lift r) [] (fun x => r = Ok x).
Proof.
  intros log w r' log' w' [= <- <- <-]. destruct r; [by rewrite app_nil_r|]. exists 0%nat. by rewrite app_nil_r.
Qed.

Lemma follows_quietly {X} (m : io W (result X StartError)) : follows (quietly m) [] (fun _ => True).
Proof.
  intros log w r log' w'. unfold quietly. destruct (m w) as [x w1]. intros [= <- <- <-].
  destruct x; [by rewrite app_nil_r|]. exists 0%nat. by rewrite app_nil_r.
Qed.

Lemma follows_try {X Y} (m : io Logged (result X StartError)) (k : X -> io Logged (result Y StartError))
    l1 l2 P R :
  follows m l1 P -> (forall x, P x -> follows (k x) l2 R) -> follows (io_try m k) (l1 ++ l2) R.
Proof.
  intros Hm Hk log w r log' w'. unfold io_try. destruct (m (log, w)) as [[x|e] [log1 w1]] eqn:Em.
  - intros Hx. destruct (Hm _ _ _ _ _ Em) as [-> HP]. specialize (Hk x HP _ _ _ _ _ Hx).
    destruct r; [by rewrite app_assoc|]. destruct Hk as [n ->]. exists (length l1 + n)%nat.
    rewrite take_app_add. by rewrite app_assoc.
  - intros [= <- <- <-]. destruct (Hm _ _ _ _ _ Em) as [n ->]. exists (Nat.min n (length l1)).
    rewrite take_app_le by lia. f_equal. destruct (decide (n <= length l1)%nat).
    + by rewrite Nat.min_l.
    + by rewrite Nat.min_r, !take_ge by lia.
Qed.

(** A step that cannot fail. *)
Lemma follows_bind {X Y} st (m : io W X) (k : X -> io Logged (result Y StartError)) l R :
  (forall x, follows (k x) l R) -> follows (io_bind (step st m) k) (st :: l) R.
Proof.
  intros Hk log w r log' w'. unfold io_bind, step. destruct (m w) as [x w1]. intros Hx.
  specialize (Hk x _ _ _ _ _ Hx). destruct r; [by rewrite <- app_assoc in Hk|].
  destruct Hk as [n ->]. exists (S n). by rewrite <- app_assoc.
Qed.

Lemma follows_ret {X} (x : X) : follows (io_ret (Ok x)) [] (fun _ => True).
Proof. intros log w r log' w' [= <- <- <-]. by rewrite app_nil_r. Qed.

Lemma follows_eq {X} (m : io Logged (result X StartError)) l l' P : follows m l P -> l = l' -> follows m l' P.
Proof. by intros ? <-. Qed.

Lemma ok_or_some {T F} (e : F) (o : option T) x : ok_or e o = Ok x -> o = Some x.
Proof. destruct o; by intros [= <-]. Qed.

Lemma tcp_follows config sc :
  let tcp := tcp_gateway_config config (addr_of (nc_tcp_bind_addr (network config))) in
  follows (start_tcp_gateway config sc) [StTcp tcp; StAccept (gateway_accept_config tcp)] (fun _ => True).
Proof.
  intros tcp. unfold start_tcp_gateway.
  eapply follows_eq.
  - eapply follows_try; [apply follows_lift|]. intros a Ha%ok_or_some.
    assert (tcp_gateway_config config a = tcp) as -> by (unfold tcp, addr_of; by rewrite Ha).
    eapply follows_try; [apply follows_step|]. intros g _.
    eapply follows_try; [apply follows_quietly|]. intros _ _.
    apply follows_bind. intros _. apply follows_ret.
  - done.
Qed.

(** The HTTPS server, and the redirect to the port it is bound to. *)
Lemma http_follows config sc log w r log' w' :
  start_http_server config sc (log, w) = (r, (log', w')) ->
  exists port,
    let l := StHttps (addr_of (nc_http_bind_addr (network config)))
             :: match nc_http_redirect_addr (network config) with
                | Some a => [StRedirect (addr_of a) port]
                | None => []
                end in
    match r with Ok _ => log' = log ++ l | Err _ => exists k, log' = log ++ take k l end.
Proof.
  unfold start_http_server. intros Hx.
  apply io_try_inv in Hx as [(a & s1 & Ha & Hx)|(e & He & ->)].
  2: { apply io_ret_inv in He as [_ [= <- <-]]. exists 0, 0%nat. by rewrite app_nil_r. }
  apply io_ret_inv in Ha as [Ha%ok_or_some <-].
  assert (addr_of (nc_http_bind_addr (network config)) = a) as -> by (unfold addr_of; by rewrite Ha).
  apply io_try_inv in Hx as [(bound & [log1 w1] & Hs & Hx)|(e & Hs & ->)];
    apply follows_step in Hs; cbn beta iota in Hs.
  2: { destruct Hs as [k ->]. exists 0, (Nat.min k 1). by destruct k as [|[|k]]. }
  destruct Hs as [-> _]. exists (sa_port bound). destruct (nc_http_redirect_addr (network config)) as [ra|].
  - assert (Hf : follows (await? addr := io_lift (ok_or (SeText (lit "SERVER_HTTP_REDIRECT_ADDR 非法: " ++ addr_error))
                                    (parse_addr ra)) in
        await? _ := step (StRedirect addr (sa_port bound)) (failing SeGateway (serve_redirect addr)) in
        io_ret (Ok tt)) [StRedirect (addr_of ra) (sa_port bound)] (fun _ => True)).
    { eapply follows_eq; [eapply follows_try; [apply follows_lift|]; intros x Hp%ok_or_some;
        assert (addr_of ra = x) as Hra by (unfold addr_of; by rewrite Hp); rewrite <- Hra;
        eapply follows_try; [apply follows_step|]; intros _ _; apply follows_ret|done]. }
    apply Hf in Hx. destruct r; [by destruct Hx as [-> _]; rewrite <- app_assoc|].
    destruct Hx as [k ->]. exists (S k). by rewrite <- app_assoc.
  - injection Hx as <- <- <-. done.
Qed.

(** The rest of the start-up: the steps [L port] up to the first failure, or all of them
    and then [T]; clients are let in only if [ready]. *)
Definition completes (m : io Logged (result unit StartError)) (L : Z -> list Step) (T : list Step)
    (ready : Prop) : Prop :=
  forall log w r log' w', m (log, w) = (r, (log', w')) ->
    exists port new, log' = log ++ new /\
      match r with
      | Ok _ => new = L port ++ T
      | Err _ => exists k, new = take k (L port)
      end /\ (forall st, st ∈ new -> serves st = true -> ready).

Lemma completes_try {X} (m : io Logged (result X StartError)) k l1 L T P ready :
  follows m l1 P -> Forall (fun st => serves st = false) l1 -> (forall x, P x -> completes (k x) L T ready) ->
  completes (io_try m k) (fun p => l1 ++ L p) T ready.
Proof.
  rewrite Forall_forall. intros Hm Hl Hk log w r log' w' Hx. apply io_try_inv in Hx as [(x & [log1 w1] & Em & Hx)|(e & Em & ->)];
    apply Hm in Em; cbn beta iota in Em.
  - destruct Em as [-> HP]. destruct (Hk x HP _ _ _ _ _ Hx) as (port & new & -> & Hr & Ht).
    exists port, (l1 ++ new). rewrite app_assoc. split; [done|]. split.
    + destruct r as [u|e]; [by rewrite Hr, app_assoc|]. destruct Hr as [n ->].
      exists (length l1 + n)%nat. by rewrite take_app_add.
    + intros st [H|H]%elem_of_app; [by rewrite (Hl _ H)|by apply (Ht st)].
  - destruct Em as [n ->]. exists 0, (take n l1). split; [done|]. split.
    + exists (Nat.min n (length l1)). rewrite take_app_le by lia. destruct (decide (n <= length l1)%nat).
      * by rewrite Nat.min_l.
      * by rewrite Nat.min_r, !take_ge by lia.
    + intros st H. apply elem_of_take in H as (j & Hj & _). apply list_elem_of_lookup_2 in Hj.
      by rewrite (Hl _ Hj).
Qed.

Lemma completes_bind {X} st (m : io W X) k L T ready :
  serves st = false -> (forall x, completes (k x) L T ready) ->
  completes (io_bind (step st m) k) (fun p => st :: L p) T ready.
Proof.
  intros Hst Hk log w r log' w'. unfold io_bind, step. destruct (m w) as [x w1]. intros Hx.
  destruct (Hk x _ _ _ _ _ Hx) as (port & new & -> & Hr & Ht).
  exists port, (st :: new). split; [by rewrite <- app_assoc|]. split.
  - destruct r as [u|e]; [by rewrite Hr|]. destruct Hr as [n ->]. by exists (S n).
  - intros st' [->|H]%elem_of_cons; [by rewrite Hst|by apply (Ht st')].
Qed.

Lemma completes_eq m L L' T ready :
  completes m L T ready -> (forall p, L p = L' p) -> completes m L' T ready.
Proof.
  intros Hm He log w r log' w' Hx. destruct (Hm _ _ _ _ _ Hx) as (port & new & H1 & H2 & H3).
  exists port, new. by rewrite <- He.
Qed.

(** Once the gateway is up, the servers, the signal and the teardown. *)
Lemma serving_completes config sc (ready : Prop) :
  ready ->
  completes
    (await? _ := start_tcp_gateway config sc in
     await? _ := start_http_server config sc in
     let* _ := step StSignal wait_signal in
     let* _ := graceful_teardown config in
     io_ret (Ok tt))
    (fun p => drop 5 (start_plan config p)) (teardown_plan config) ready.
Proof.
  intros Hready log w r log' w' Hx.
  apply io_try_inv in Hx as [(g & [log1 w1] & Et & Hx)|(e & Et & ->)];
    apply tcp_follows in Et; cbn beta iota in Et.
  2: { destruct Et as [k ->]. exists 0, (take (Nat.min k 2) (drop 5 (start_plan config 0))).
       split; [|split; [by eexists|done]]. f_equal. by destruct k as [|[|[|k]]]. }
  destruct Et as [-> _].
  apply io_try_inv in Hx as [([] & [log2 w2] & Eh & Hx)|(e & Eh & ->)];
    apply http_follows in Eh as (port & Eh); cbv zeta in Eh.
  - exists port, (drop 5 (start_plan config port) ++ teardown_plan config). rewrite Eh in Hx.
    unfold graceful_teardown, io_bind, step, io_ret in Hx.
    destruct (wait_signal w2) as [? w3], (close_rooms _ w3) as [? w4], (drain _ w4) as [? w5],
      (close_db w5) as [? w6].
    injection Hx as <- <- <-. split; [|done].
    unfold start_plan, teardown_plan. cbn [drop app]. by rewrite <- !app_assoc.
  - destruct Eh as [k ->]. exists port, (take (2 + k) (drop 5 (start_plan config port))).
    split; [by rewrite <- app_assoc|]. split; [by eexists|done].
Qed.

(** Whatever lets clients in comes after the migrations. *)
Lemma plan_migrates_first config port i st :
  (start_plan config port ++ teardown_plan config) !! i = Some st -> serves st = true ->
  (4 <= i)%nat.
Proof. destruct i as [|[|[|[|i]]]]; [..|lia]; cbn; by intros [= <-]. Qed.

Lemma plan_prefix_migrates config port log k :
  log = take k (start_plan config port ++ teardown_plan config) ->
  forall i st, log !! i = Some st -> serves st = true -> StMigrations ∈ take i log.
Proof.
  intros -> i st Hi Hs. apply lookup_take_Some in Hi as [Hi Hlt].
  pose proof (plan_migrates_first _ _ _ _ Hi Hs). apply elem_of_take. exists 3%nat.
  split; [|lia]. by rewrite lookup_take_lt by lia.
Qed.


(** The looks taken are enough: the answer is the loop's, however long it is let run. *)
Lemma drain_answers timeout w b w' :
  0 <= timeout -> drain timeout w = (b, w') ->
  exists start obs, watch w = ((start, obs), w') /\
    forall n, (polls timeout <= n)%nat ->
      wait_until_drained (start + timeout) (map obs (seq 0 n)) = Some b.
Proof.
  intros Ht. unfold drain, io_bind, io_ret. destruct (watch w) as [[start obs] w1] eqn:Ew.
  intros [= <- <-]. exists start, obs. split; [done|]. intros n Hn.
  pose proof (polls_enough start timeout obs Ht (watch_spec _ _ _ _ Ew)) as Hex.
  replace n with (polls timeout + (n - polls timeout))%nat by lia. rewrite seq_app, map_app.
  destruct (drained_decides _ _ (map obs (seq (0 + polls timeout) (n - polls timeout))) Hex) as (c & H1 & H2).
  by rewrite H1.
Qed.

Lemma load_config_ok lookup config :
  load_config lookup = Ok config -> from_lookup debug_str lookup = Ok config /\ validate config = Ok tt.
Proof.
  unfold load_config. intros (c & Hc%map_err_ok & ([] & Hv%map_err_ok & [= ->])%res_bind_ok)%res_bind_ok. done.
Qed.

(** Which capacities of an accepted configuration make a constructor panic. *)
Lemma panics_of (config : Config) :
  network_in_range (network config) ->
  1 <= nc_channel_per_conn (network config) -> 1 <= nc_channel_per_room (network config) ->
  ac_password_max_concurrency (app config) <= MAX_PERMITS ->
  forall b, constructor_panics config b = true <->
    match b with
    | ConnectionLimit | SendQueue | CommandQueue => MAX_PERMITS < wanted_capacity config b
    | HandshakeSlots | HasherPermits | EventQueue => False
    end.
Proof.
  intros [_ H32] Hc Hr Hp b. rewrite !Forall_cons in H32. destruct H32 as (_ & Ha & _).
  assert (Hm : MAX_PERMITS = 2 ^ 61 - 1) by (vm_compute; reflexivity).
  destruct b; cbn [constructor_panics wanted_capacity]; rewrite ?orb_true_iff, ?Z.eqb_eq, ?Z.ltb_lt, ?Hm in *.
  1,4,6: lia.
  - mlia.
  - lia.
  - split; [intros [H|H]; vm_compute in H; discriminate|done].
Qed.

(** C39: What a configuration the server accepts gives its components.  TLS is
    1.3; a connection's queue and a room's queue have room for at least one message and
    the hasher for at least one hashing; the accept loop has as many workers as handshake
    slots, at least one, and the configured connection limit; all numbers are in range for
    their types; the heartbeat timeout is at least twice the interval unless the interval
    is 2^63 seconds or more.  The constructors of the semaphores and queues accept these
    capacities but for three that the check at start-up does not bound: they panic exactly
    when the connection limit, the queue of a connection or that of a room is over
    [MAX_PERMITS].  Building the services can fail only because argon2 refuses
    its parameters, and then yields the empty room registry's settings, an event bus
    nobody listens to yet, and the configured token lifetime. *)
Theorem accepted_settings_are_usable (lookup : Lookup) (config : Config) (addr : SocketAddr)
  (Hload : load_config lookup = Ok config) :
  let t := tcp_gateway_config config addr in
  tc_min_version (tls config) = lit "TLSv1.3" /\
  1 <= tg_send_queue_capacity t <= u_max 64 /\ tg_room_event_capacity t = 64%nat /\
  al_accept_concurrency (gateway_accept_config t) = handshake_slots t /\ (1 <= handshake_slots t)%nat /\
  al_max_concurrent (gateway_accept_config t) = Some (Z.to_nat (nc_max_connections (network config))) /\
  is_u 64 (tg_max_frame_size t) /\ network_in_range (network config) /\ app_in_range (app config) /\
  (nc_heartbeat_interval_secs (network config) < 2 ^ 63 ->
   2 * from_secs (nc_heartbeat_interval_secs (network config)) <= tg_heartbeat_timeout t) /\
  (forall b, constructor_panics config b = true <->
     match b with
     | ConnectionLimit | SendQueue | CommandQueue => MAX_PERMITS < wanted_capacity config b
     | HandshakeSlots | HasherPermits | EventQueue => False
     end) /\
  match build_services config with
  | Ok s =>
      (1 <= command_capacity (sv_room_config s))%nat /\
      (1 <= available (ph_permits (sv_hasher s)))%nat /\
      Z.of_nat (available (ph_permits (sv_hasher s))) = ac_password_max_concurrency (app config) /\
      bc_receivers (ep_tx (sv_publisher s)) = ∅ /\ (256 <= bc_capacity (ep_tx (sv_publisher s)))%nat /\
      sv_token_ttl s = from_secs (ac_session_token_ttl_secs (app config))
  | Err e =>
      exists err, params_new (ac_password_memory_kb (app config)) (ac_password_iterations (app config))
                    (ac_password_parallelism (app config)) = Err err /\
                  e = SeApp (Internal (lit "argon2 参数非法: " ++ err))
  end.
Proof.
  intros t. apply load_config_ok in Hload as [Hl Hv].
  destruct (accepted_config_is_safe debug_str lookup config Hl Hv) as (Htls & Hn & Ha & Hc & Hr & Hp & Hh).
  pose proof Hn as [Hn64 _]. rewrite !Forall_cons in Hn64. destruct_and? Hn64.
  cbn [t tcp_gateway_config tg_send_queue_capacity tg_room_event_capacity tg_heartbeat_timeout tg_max_frame_size].
  split; [done|]. split; [mlia|]. do 2 (split; [done|]).
  split; [unfold handshake_slots; lia|]. do 4 (split; [done|]).
  split; [unfold from_secs; intros Hlt; specialize (Hh Hlt); lia|].
  split; [by apply panics_of; [..|apply Hp]|].
  unfold build_services, password_params, hasher_new.
  rewrite (proj2 (Nat.eqb_neq _ _)), (proj2 (Z.ltb_ge _ _)) by lia. cbn [orb].
  destruct (params_new _ _ _) as [ps|err]; cbn [map_err res_bind]; [|by exists err].
  cbn [sv_hasher sv_publisher sv_room_config sv_token_ttl command_capacity ph_permits publisher_new ep_tx].
  rewrite sem_new_spec. destruct (bc_channel_spec DomainEvent (Nat.max 256 1)) as [Hb Hcap].
  split_and!; try done; lia.
Qed.

End Bootstrap.

(* ------------------------------------------------------------------ *)
(** ** A host on which everything works *)

Module BootDemo.
Import TlsDemo EventsDemo.
#[local] Existing Instance demo_rustls.
#[local] Existing Instance demo_net.
#[local] Existing Instance demo_broadcast.
#[local] Existing Instance plain_argon2.
#[local] Existing Instance bus_publisher.

Abbreviation Bus := (InMemoryEventPublisher (B := bus)).
Abbreviation Machine := (list SockState * @Rooms queue Bus)%type.

Definition quiet {X} (x : X) : io Machine X := io_ret x.

#[program] Definition demo_host : Host (Q := queue) (E := Bus) Machine := {|
  host_net := net_beside;
  host_rooms w := w.2;
  set_rooms rs w := (w.1, rs);
  install_recorder := quiet (Ok tt);
  spawn_metrics _ := quiet tt;
  connect_db _ := quiet (Ok tt);
  host_migrations := quiet (Ok tt);
  redis_open _ := Ok tt;
  redis_connection _ := quiet RedisConnected;
  spawn_gateway _ := quiet tt;
  https_listening a _ := quiet (HttpsListening a);
  http_bind _ := quiet (Ok tt);
  http_local_addr := quiet (Ok (mkSocketAddr false 0 80));
  wait_signal := quiet tt;
  watch := quiet (0, fun i => (0%nat, POLL * Z.of_nat i));
  close_db := quiet (Err (mkDbErr (lit "gone") false))
|}.
Next Obligation. done. Qed.
Next Obligation. intros w start obs w' Hw i. injection Hw as <- <- _. cbn. lia. Qed.
#[local] Existing Instance demo_host.

Definition any_addr : rstr -> option SocketAddr := fun s => Some (mkSocketAddr false 0 (Z.of_nat (length s))).
Definition certs : rstr -> result (list Z) rstr := fun _ => Ok [65; 66].
Definition machine : Machine := ([], service_new (publisher_new 256) ∅).

Abbreviation boot := (run (Q := queue) (B := bus) (Sem := nat) None certs quote any_addr (lit "bad") [] []).


Lemma accepted_settings_are_usable_witness :
  exists config, load_config quote no_env = Ok config /\
    1 <= tg_send_queue_capacity (tcp_gateway_config config (mkSocketAddr false 0 1)) /\
    tg_send_queue_capacity (tcp_gateway_config config (mkSocketAddr false 0 1)) = 256.
Proof.
  assert (Hc : exists c, load_config quote no_env = Ok c /\ nc_channel_per_conn (network c) = 256)
    by (eexists; split; vm_compute; reflexivity).
  destruct Hc as (config & Hc & Hq). exists config. split; [exact Hc|]. split; [|exact Hq].
  destruct (accepted_settings_are_usable (B := bus) (Sem := nat) quote [] [] no_env config (mkSocketAddr false 0 1) Hc)
    as (_ & [H _] & _). exact H.
Defined.

(** An environment that asks for more connections than a semaphore can count. *)
Definition huge_env : Lookup :=
  fun n => if bool_decide (n = "SERVER_MAX_CONNECTIONS"%string) then Some (lit "18446744073709551615") else None.

(** The check at start-up bounds the hasher's permits by what [tokio]'s semaphore can
    hold, but not the connection limit, which becomes the permits of the accept loop. *)
Theorem connection_limit_is_not_checked :
  exists config, load_config quote huge_env = Ok config /\ constructor_panics config ConnectionLimit = true.
Proof. eexists. split; vm_compute; reflexivity. Qed.

End BootDemo.
