(* ===== verification/TurnEffects.v ===== *)
(** What one turn of a connection does to what it shares with the others: the accounts and
    players stay, and the rooms are changed only by the calls its bound player may make.

    [I] is any predicate on the rooms and what the connection keeps of its binding and its
    room.  [room_calls] states it for the calls of the room service a message leads to,
    with what the handler notes of their answer; every layer between the socket and the
    service then keeps it, so that a fact about the service becomes a fact about
    connections. *)
From S2P Require Import Prelude Text Tokio Values Account Player Room Session Frame Connection.
From S2P Require Import Protocol App MemRepos TokenStore UseCases RoomActor RoomService Speech.
From S2P Require Import AuthGate RateLimit Gateway ConnLoop.
From Stdlib Require Import Strings.String.
Open Scope Z_scope.
Open Scope list_scope.
Abbreviation length := Datatypes.length.

Section Effects.
Context {Q : Type -> Type} `{HQ : Mpsc Q} {S T E : Type} `{HS : Repositories S}
        `{HT : SessionTokenStore T} `{HE : EventPublisher E} `{HP : Prost} `{HU : UuidFmt}.
Variable rooms_config : RoomServiceConfig.

Abbreviation Rooms := (Rooms Q E).
Abbreviation Gw := (@Gw Q S T E).
Abbreviation Loop := (@Loop Q S T E).
Implicit Types g : Gw.

Variable I : Rooms -> AuthState -> Prop.
(** A connection that is not bound may become so. *)
Hypothesis I_bind : forall w a pl tok,
  au_player a = None -> I w a -> I w (mkAuthState (Some pl) (Some tok) (au_current_room a)).

(** The note that the connection is in room [r], or in none. *)
Definition entered (r : option RoomId) (a : AuthState) : AuthState :=
  mkAuthState (au_player a) (au_session_token a) r.

(** [I] after each call of the room service that message [m] of player [p] can lead to. *)
Definition room_calls (ctx : ConnContext) (m : InboundMessage) (p : AuthedPlayer) (w : Rooms) (a : AuthState)
    : Prop :=
  let env := cx_env ctx in
  match m with
  | JoinRoom _ => forall o r w', au_current_room a = None ->
      join_or_create rooms_config o (env_new_room env) (ap_player_id p) (ap_nickname p) (cx_room_tx ctx)
        (env_now env) (env_now2 env) w = (r, w') ->
      I w' (match r with Ok i => entered (Some i) a | Err _ => a end)
  | LeaveRoom _ =>
      (forall i r w', leave i (ap_player_id p) (lit "client leave") (env_now env) w = (r, w') ->
         I w' (if is_ok r && bool_decide (au_current_room a = Some i) then entered None a else a)) /\
      (forall r w', leave_all (ap_player_id p) (lit "client leave") (env_now env) w = (r, w') ->
         I w' (if is_ok r then entered None a else a))
  | InRoomChat rq => forall i r w', chat i (ap_player_id p) (pb.chat_text rq) w = (r, w') -> I w' a
  | _ => True
  end.

(** The data of the application is as before and the rooms satisfy [I]. *)
Record touched g g' : Prop := mkTouched {
  to_wf : repo_wf (gw_store g');
  to_accounts : accounts_view (gw_store g') = accounts_view (gw_store g);
  to_players : players_view (gw_store g') = players_view (gw_store g);
  to_rooms : I (gw_rooms g') (gw_auth g')
}.

Lemma touched_same g g' :
  repo_wf (gw_store g) -> I (gw_rooms g) (gw_auth g) -> gw_store g' = gw_store g -> gw_rooms g' = gw_rooms g ->
  gw_auth g' = gw_auth g -> touched g g'.
Proof. intros ? ? Hs Hr Ha. by constructor; rewrite ?Hs, ?Hr, ?Ha. Qed.

Lemma touched_out g g' : repo_wf (gw_store g) -> I (gw_rooms g) (gw_auth g) -> only_out g g' -> touched g g'.
Proof. intros ? ? (? & _ & ? & ?). by apply touched_same. Qed.

Lemma touched_trans g1 g2 g3 : touched g1 g2 -> touched g2 g3 -> touched g1 g3.
Proof. intros [] []. constructor; congruence. Qed.

(** A call of the room service, and then the note [b] of its answer. *)
Lemma on_rooms_touched {X} (m : io Rooms X) g r g1 g' (b : AuthState) :
  repo_wf (gw_store g) -> on_rooms m g = (r, g1) ->
  (m (gw_rooms g) = (r, gw_rooms g1) -> I (gw_rooms g1) b) ->
  gw_store g' = gw_store g1 -> gw_rooms g' = gw_rooms g1 -> gw_auth g' = b -> touched g g'.
Proof.
  intros Hwf Hx HI Hs Hr Ha. unfold on_rooms in Hx. destruct (m (gw_rooms g)) as [x w] eqn:Em.
  injection Hx as <- <-. cbn in *. constructor; rewrite ?Hs, ?Hr, ?Ha; auto.
Qed.

Lemma on_rooms_auth {X} (m : io Rooms X) g r g1 : on_rooms m g = (r, g1) -> gw_auth g1 = gw_auth g.
Proof. unfold on_rooms. destruct (m _). by intros [= _ <-]. Qed.

Lemma bind_touched ctx b g r g' :
  repo_wf (gw_store g) -> tok_wf (env_instant (cx_env ctx)) (gw_tokens g) -> I (gw_rooms g) (gw_auth g) ->
  handle_bind ctx (Bind b) g = (r, g') -> touched g g'.
Proof.
  intros Hwf Htw HI Hx. unfold handle_bind in Hx.
  destruct (is_authenticated g) eqn:Eau; [by injection Hx as _ <-; apply touched_same|]. cbv zeta in Hx.
  destruct (is_empty _); [by injection Hx as _ <-; apply touched_same|].
  apply io_bind_inv in Hx as (o & g1 & Hr & Hx). unfold on_session_tokens in Hr.
  destruct (tok_resolve _ _ _) as [o' t]. injection Hr as <- <-.
  destruct o' as [[p|]|err]; [|by injection Hx as _ <-; apply touched_same..].
  unfold io_try, io_bind, on_players, io_ret in Hx. cbn [gw_store gw_tokens gw_rooms gw_auth gw_out] in Hx.
  destruct (find_player_by_id p (gw_store g)) as [found s] eqn:Ef.
  apply find_player_by_id_spec in Ef as (Hwf' & Ha & Hpv & _); [|done].
  destruct found as [[pl|]|e]; cbn [map_err io_lift ok_or] in Hx;
    unfold set_authed, with_auth, reply, io_ret, io_lift, io_bind in Hx; injection Hx as _ <-; constructor; try done.
  cbn. apply I_bind; [|done]. unfold is_authenticated in Eau. by destruct (au_player _).
Qed.

Lemma join_touched ctx rq p g r g' :
  repo_wf (gw_store g) -> I (gw_rooms g) (gw_auth g) -> au_player (gw_auth g) = Some p ->
  room_calls ctx (JoinRoom rq) p (gw_rooms g) (gw_auth g) ->
  handle_join_room rooms_config ctx (JoinRoom rq) g = (r, g') -> touched g g'.
Proof.
  intros Hwf HI Hp Hc Hx. unfold handle_join_room in Hx.
  apply io_bind_inv in Hx as (a & g1 & Ha & Hx). unfold authed_player, with_auth in Ha.
  rewrite Hp in Ha. injection Ha as <- <-.
  destruct (parse_optional_room_id _) as [o|]; [|by injection Hx as _ <-; apply touched_same].
  apply io_bind_inv in Hx as (c & g2 & Ha & Hx). unfold current_room, with_auth in Ha. injection Ha as <- <-.
  destruct (au_current_room (gw_auth g)) eqn:Ecur; [case_bool_decide; by injection Hx as _ <-; apply touched_same|].
  apply io_bind_inv in Hx as (j & g3 & Hj & Hx). pose proof (on_rooms_auth _ _ _ _ Hj) as Hau. cbn in Hau.
  destruct j as [i|e].
  - apply io_bind_inv in Hx as (y & g4 & Hy & Hx). unfold set_current_room, with_auth in Hy.
    injection Hy as _ <-. injection Hx as _ <-.
    apply (on_rooms_touched _ _ _ _ _ (entered (Some i) (gw_auth g)) Hwf Hj); [|done..|cbn; by rewrite Hau].
    exact (Hc _ _ _ Ecur).
  - injection Hx as _ <-. apply (on_rooms_touched _ _ _ _ _ (gw_auth g) Hwf Hj); [|done..].
    exact (Hc _ _ _ Ecur).
Qed.

Lemma leave_touched ctx rq p g r g' :
  repo_wf (gw_store g) -> I (gw_rooms g) (gw_auth g) -> au_player (gw_auth g) = Some p ->
  room_calls ctx (LeaveRoom rq) p (gw_rooms g) (gw_auth g) ->
  handle_leave_room ctx (LeaveRoom rq) g = (r, g') -> touched g g'.
Proof.
  intros Hwf HI Hp [Hc Hca] Hx. unfold handle_leave_room in Hx.
  apply io_bind_inv in Hx as (a & g1 & Ha & Hx). unfold authed_player, with_auth in Ha.
  rewrite Hp in Ha. injection Ha as <- <-.
  destruct (parse_optional_room_id _) as [o|]; [|by injection Hx as _ <-; apply touched_same].
  apply io_bind_inv in Hx as (out & g2 & Ho & Hx).
  assert (Hg' : g' = g2) by (destruct out; by injection Hx as _ <-). subst g2. clear Hx.
  destruct o as [i|]; apply io_bind_inv in Ho as (res & g3 & Hl & Ho);
    pose proof (on_rooms_auth _ _ _ _ Hl) as Hau; cbn in Hau.
  - apply io_bind_inv in Ho as (c & g4 & Hcur & Ho). unfold current_room, with_auth in Hcur.
    injection Hcur as <- <-. apply io_bind_inv in Ho as (y & g5 & Hs & Ho). apply io_ret_inv in Ho as [_ <-].
    cbn in Hs. eapply on_rooms_touched; [exact Hwf|exact Hl|exact (Hc _ _ _)|..];
      rewrite Hau in Hs; unfold set_current_room, with_auth, io_ret in Hs;
      destruct (is_ok res && _); injection Hs as _ <-; cbn; rewrite ?Hau; done.
  - apply io_bind_inv in Ho as (y & g5 & Hs & Ho). apply io_ret_inv in Ho as [_ <-].
    eapply on_rooms_touched; [exact Hwf|exact Hl|exact (Hca _ _)|..];
      unfold set_current_room, with_auth, io_ret in Hs;
      destruct (is_ok res); injection Hs as _ <-; cbn; rewrite ?Hau; done.
Qed.

Lemma chat_touched ctx rq p g r g' :
  repo_wf (gw_store g) -> I (gw_rooms g) (gw_auth g) -> au_player (gw_auth g) = Some p ->
  room_calls ctx (InRoomChat rq) p (gw_rooms g) (gw_auth g) ->
  handle_room_chat ctx (InRoomChat rq) g = (r, g') -> touched g g'.
Proof.
  intros Hwf HI Hp Hc Hx. unfold handle_room_chat in Hx.
  apply io_bind_inv in Hx as (a & g1 & Ha & Hx). unfold authed_player, with_auth in Ha.
  rewrite Hp in Ha. injection Ha as <- <-.
  apply io_bind_inv in Hx as (c & g2 & Ha & Hx). unfold current_room, with_auth in Ha. injection Ha as <- <-.
  cbn [gw_auth au_current_room] in Hx.
  destruct (au_current_room _); [|by injection Hx as _ <-; apply touched_same].
  apply io_bind_inv in Hx as (j & g3 & Hj & Hx).
  pose proof (on_rooms_auth _ _ _ _ Hj) as Hau. cbn in Hau.
  assert (Hg : g3 = g') by (destruct j; by injection Hx as _ <-). subst g3.
  eapply on_rooms_touched; [exact Hwf|exact Hj|exact (Hc _ _ _)|done..].
Qed.

Lemma profile_touched ctx rq g r g' :
  repo_wf (gw_store g) -> I (gw_rooms g) (gw_auth g) -> handle_get_profile ctx (GetProfile rq) g = (r, g') -> touched g g'.
Proof.
  intros Hwf HI Hx. unfold handle_get_profile in Hx.
  apply io_bind_inv in Hx as (a & g1 & Ha & Hx). unfold authed_player, with_auth in Ha. injection Ha as <- <-.
  destruct (au_player _) as [p|]; [|by injection Hx as _ <-; apply touched_same].
  apply io_bind_inv in Hx as (o & g2 & Hq & Hx). unfold on_players in Hq.
  cbn [gw_store gw_tokens gw_rooms gw_auth gw_out] in Hq.
  destruct (profile_query _ _) as [q s] eqn:Eq. injection Hq as <- <-.
  apply profile_query_spec in Eq as (? & ? & ? & _); [|done].
  destruct q; injection Hx as _ <-; by constructor.
Qed.

Lemma served_touched ctx m g r g' :
  repo_wf (gw_store g) -> tok_wf (env_instant (cx_env ctx)) (gw_tokens g) -> I (gw_rooms g) (gw_auth g) ->
  (forall p, au_player (gw_auth g) = Some p -> room_calls ctx m p (gw_rooms g) (gw_auth g)) ->
  served rooms_config ctx m g = (r, g') -> touched g g'.
Proof.
  intros Hwf Htw HI Hc Hx.
  destruct (au_player (gw_auth g)) as [p|] eqn:Hp.
  - specialize (Hc p eq_refl). destruct m; cbn [served] in Hx.
    + by eapply bind_touched.
    + injection Hx as _ <-. by apply touched_same.
    + by eapply join_touched.
    + by eapply leave_touched.
    + by eapply chat_touched.
    + by eapply profile_touched.
    + injection Hx as _ <-. by apply touched_same.
  - assert ((exists b, m = Bind b) \/ forall b, m <> Bind b) as [[b ->]|Hb]
      by (destruct m; [left; eauto|right; done..]).
    + by eapply bind_touched.
    + apply served_unbound in Hx as ->; [|done|done]. by apply touched_same.
Qed.

(** What a frame may lead to: the calls of the message it carries, made for the player of
    a live session. *)
Definition frame_calls (ctx : ConnContext) (f : Frame) g : Prop :=
  forall m p, codec_decode (Codec := GameCodec) f = Ok m -> au_player (gw_auth g) = Some p ->
    session_live ctx g -> room_calls ctx m p (gw_rooms g) (gw_auth g).

Lemma admit_message_touched ctx f g go g' :
  repo_wf (gw_store g) -> tok_wf (env_instant (cx_env ctx)) (gw_tokens g) -> I (gw_rooms g) (gw_auth g) ->
  frame_calls ctx f g -> admit_message rooms_config ctx f g = (go, g') -> touched g g'.
Proof.
  intros Hwf Htw HI Hc Hx. unfold admit_message in Hx.
  assert (Hnote : forall code text b g0 b' g1, touched g g0 -> notify code text b g0 = (b', g1) -> touched g g1).
  { intros code text b g0 b' g1 Ht [_ (Hs & _ & Hr & Ha)]%notify_only_out. destruct Ht.
    by constructor; rewrite ?Hs, ?Hr, ?Ha. }
  pose proof (touched_same g g Hwf HI eq_refl eq_refl eq_refl) as H0.
  destruct (codec_decode f) as [m|err] eqn:Hd; [|by eapply Hnote].
  cbv zeta in Hx. destruct (negb (is_authenticated g) && _); [by eapply Hnote|].
  apply io_bind_inv in Hx as (valid & g1 & Hv & Hx).
  assert (Hg1 : g1 = g /\ (is_authenticated g && negb valid = false -> is_authenticated g = true ->
                           session_live ctx g)).
  { destruct (is_authenticated g).
    - apply validate_session_spec in Hv as ((Hs & Ht & Hr & Ha) & Ho & Hl); [|done].
      split; [destruct g, g1; cbn in *; congruence|]. destruct valid; [auto|done].
    - apply io_ret_inv in Hv as [_ <-]. done. }
  destruct Hg1 as [-> Hlive]. destruct (is_authenticated g && negb valid) eqn:Ev; [by eapply Hnote|].
  destruct (is_authenticated g && (in_opcode m =? OP_C2S_BIND)); [by eapply Hnote|].
  apply io_bind_inv in Hx as (o & g2 & Hserved & Hx).
  rewrite (dispatch_served _ ctx f m) in Hserved by done.
  apply served_touched in Hserved; [|done|done|done|].
  - apply send_outcome_only_out in Hx as (Hs & _ & Hr & Ha). destruct Hserved. by constructor; rewrite ?Hs, ?Hr, ?Ha.
  - intros p Hp. apply Hc; [done|done|]. apply Hlive; [done|]. unfold is_authenticated. by rewrite Hp.
Qed.

Lemma admit_frame_touched ctx now f bucket g go bucket' g' :
  repo_wf (gw_store g) -> tok_wf (env_instant (cx_env ctx)) (gw_tokens g) -> I (gw_rooms g) (gw_auth g) ->
  frame_calls ctx f g -> admit_frame rooms_config ctx now f (bucket, g) = (go, (bucket', g')) -> touched g g'.
Proof.
  intros Hwf Htw HI Hc Hx. unfold admit_frame in Hx. destruct (rate_check now bucket) as [[] bk].
  - destruct (admit_message rooms_config ctx f g) as [b g1] eqn:Em. injection Hx as _ _ <-.
    by eapply admit_message_touched.
  - destruct (notify _ _ _ g) as [b g1] eqn:En. injection Hx as _ _ <-.
    apply notify_only_out in En as [_ Ho]. by apply touched_out.
Qed.

(* ------------------------------------------------------------------ *)
(** ** A whole turn *)

Section Turn.
Variables (conn_id ip sink : Z) (heartbeat_timeout admission_deadline : Z).
Abbreviation turn := (read_turn rooms_config conn_id ip sink heartbeat_timeout admission_deadline).

(** The identity after the turn: kept, or that of a token that was live. *)
Definition identity_kept (ctx : ConnContext) g g' : Prop :=
  (au_player (gw_auth g') = au_player (gw_auth g) /\
   au_session_token (gw_auth g') = au_session_token (gw_auth g)) \/
  (au_player (gw_auth g) = None /\ newly_bound ctx g g').

Definition permit_after (st : loop_status) (l l' : Loop) : Prop :=
  match st with
  | LContinue =>
      lp_permit l' = (if is_authenticated (lp_gw l') then None else Some ip) /\
      lp_gate l' = (if is_authenticated (lp_gw l) then lp_gate l
                    else if is_authenticated (lp_gw l') then snd (release ip (lp_gate l))
                    else lp_gate l)
  | _ => lp_permit l' = lp_permit l /\ lp_gate l' = lp_gate l
  end.

Record turn_effect (t : Turn) (l : Loop) (st : loop_status) (l' : Loop) : Prop := mkTurnEffect {
  te_touched : touched (lp_gw l) (lp_gw l');
  te_tokens : gw_tokens (lp_gw l') = gw_tokens (lp_gw l);
  te_identity : identity_kept (turn_ctx conn_id ip sink t) (lp_gw l) (lp_gw l');
  te_permit : permit_after st l l'
}.

Lemma identity_kept_out ctx g g' : only_out g g' -> identity_kept ctx g g'.
Proof. intros (_ & _ & _ & Ha). left. by rewrite Ha. Qed.

Lemma effect_out t l st l' :
  repo_wf (gw_store (lp_gw l)) -> I (gw_rooms (lp_gw l)) (gw_auth (lp_gw l)) -> only_out (lp_gw l) (lp_gw l') ->
  lp_permit l' = lp_permit l -> lp_gate l' = lp_gate l -> st <> LContinue -> turn_effect t l st l'.
Proof.
  intros Hwf HI Ho Hp Hg Hst. constructor.
  - by apply touched_out.
  - apply Ho.
  - by apply identity_kept_out.
  - by destruct st.
Qed.

Lemma say_effect t m l st l' :
  repo_wf (gw_store (lp_gw l)) -> I (gw_rooms (lp_gw l)) (gw_auth (lp_gw l)) -> say_and_return m l = (st, l') ->
  turn_effect t l st l'.
Proof.
  unfold say_and_return. intros Hwf HI [= <- <-]. destruct (ctx_try_send m (lp_gw l)) as [x g] eqn:Es.
  apply try_send_only_out in Es. by apply effect_out.
Qed.

(** The steps before the dispatch change nothing that the effect speaks of. *)
Lemma effect_from t l1 l st l' :
  lp_gw l1 = lp_gw l -> lp_permit l1 = lp_permit l -> lp_gate l1 = lp_gate l ->
  turn_effect t l1 st l' -> turn_effect t l st l'.
Proof.
  intros Hg Hp Hgt []. constructor; rewrite <- ?Hg; try done.
  unfold permit_after in *. rewrite <- Hg, <- Hp, <- Hgt. done.
Qed.

Lemma guarded_identity ctx go g g' : guarded ctx go g g' -> identity_kept ctx g g'.
Proof.
  intros []. unfold identity_kept, is_authenticated in *. destruct (au_player (gw_auth g)) as [p|] eqn:Ep.
  - left. by apply gd_identity.
  - destruct (gd_bound eq_refl) as [->|Hb]; [left; by rewrite Ep|by right].
Qed.

Lemma turn_admits t f l go bucket g' :
  repo_wf (gw_store (lp_gw l)) -> tok_wf (env_instant (tn_env t)) (gw_tokens (lp_gw l)) ->
  I (gw_rooms (lp_gw l)) (gw_auth (lp_gw l)) -> frame_calls (turn_ctx conn_id ip sink t) f (lp_gw l) ->
  admit_frame rooms_config (turn_ctx conn_id ip sink t) (tn_rate_now t) f (lp_bucket l, lp_gw l)
    = (go, (bucket, g')) ->
  touched (lp_gw l) g' /\ gw_tokens g' = gw_tokens (lp_gw l) /\
  identity_kept (turn_ctx conn_id ip sink t) (lp_gw l) g'.
Proof.
  intros Hwf Htw HI Hc Hx. pose proof Hx as Ht. apply admit_frame_touched in Ht; [|done..].
  apply admit_frame_spec in Hx as [Hg _]; [|done..]. split; [done|]. split; [apply Hg|].
  by eapply guarded_identity.
Qed.

Lemma on_frame_effect t f l st l' :
  loop_inv ip l -> tok_wf (env_instant (tn_env t)) (gw_tokens (lp_gw l)) -> I (gw_rooms (lp_gw l)) (gw_auth (lp_gw l)) ->
  frame_calls (turn_ctx conn_id ip sink t) f (lp_gw l) ->
  on_frame rooms_config conn_id ip sink heartbeat_timeout admission_deadline t f l = (st, l') ->
  (st = LContinue -> permit_after st l l') -> turn_effect t l st l'.
Proof.
  intros [Hwf _] Htw HI Hc Hx Hcont. unfold on_frame in Hx.
  destruct (_ <=? _); [eapply effect_from; [| | |eapply say_effect; [| |exact Hx]]; done|].
  destruct (_ && _); [eapply effect_from; [| | |eapply say_effect; [| |exact Hx]]; done|].
  cbn [lp_gw lp_session lp_bucket lp_permit lp_gate] in Hx.
  destruct (admit_frame _ _ _ _ _) as [go [bk g']] eqn:Ea.
  apply turn_admits in Ea as (Ht & Htok & Hid); [|done..].
  destruct go; injection Hx as <- <-; [|constructor; [done..|by split]].
  constructor; try (by apply Hcont);
    destruct (is_authenticated g'); unfold take_permit; cbn [lp_permit];
    try destruct (lp_permit l); cbn [lp_gw]; done.
Qed.

Lemma read_turn_effect t l st l' :
  loop_inv ip l -> tok_wf (env_instant (tn_env t)) (gw_tokens (lp_gw l)) -> I (gw_rooms (lp_gw l)) (gw_auth (lp_gw l)) ->
  (forall f, tn_frame t = Some (Ok (Some f)) -> frame_calls (turn_ctx conn_id ip sink t) f (lp_gw l)) ->
  turn t l = (st, l') -> turn_effect t l st l'.
Proof.
  intros Hinv Htw HI Hc Hx. pose proof Hinv as [Hwf _].
  assert (Hcont : st = LContinue -> permit_after st l l').
  { intros ->. apply turn_continues in Hx as ((_ & Hp) & _ & Hg); [|done..]. split; [done|].
    exact Hg. }
  unfold read_turn in Hx. destruct (ob_is_closed _).
  { injection Hx as <- <-. by apply effect_out. }
  destruct (sink_failed _ _). { injection Hx as <- <-. by apply effect_out. }
  destruct (tn_shutdown t); [by eapply say_effect|].
  destruct (tn_frame t) as [[[f|]|e]|].
  - by eapply on_frame_effect; eauto.
  - injection Hx as <- <-. by apply effect_out.
  - destruct (is_disconnect e); [|by eapply say_effect]. injection Hx as <- <-. by apply effect_out.
  - destruct (_ <=? _); [by eapply say_effect|]. injection Hx as <- <-. by apply effect_out.
Qed.

End Turn.
End Effects.
