(* ===== verification/System.v ===== *)
(** The running server as one system: all TCP connections, the rooms and the HTTP side
    over the stores and services they share ([server-bin/src/bootstrap.rs] hands the same
    [Arc]s to every one of them).

    The components are those of the other files, unchanged.  What is shared is kept once:
    each component runs on its view of the system and its result is put back, so a
    connection's registered sender is the sender its own tasks use, and the token store a
    login writes is the one every frame's session check reads.  One [Action] is one round of
    one task: a round of a read loop up to its next wait for input, one event relayed, one
    frame written, a clean-up, a request.  The clean-up that the guard of an aborted task
    detaches ([tokio::spawn] in [Drop for ConnectionGuard]) is a task of its own, and its
    connection stays until it has run.  The actions of all tasks interleave freely; a
    round is taken as a whole, also where it waits for the stores or a room's answer inside.

    [sy_clock] is the latest reading of the token store's clock and not part of the
    program. *)
From S2P Require Import Bootstrap.
From S2P Require Import Prelude Text Tokio Values Account Player Room Session Frame Connection.
From S2P Require Import Protocol App MemRepos TokenStore UseCases RoomActor RoomService Speech.
From S2P Require Import AuthGate RateLimit Gateway ConnLoop Lifecycle Http.
From Stdlib Require Import Strings.String.
Open Scope Z_scope.
Open Scope list_scope.
Abbreviation length := Datatypes.length.

Section System.
Context {Q : Type -> Type} `{HQ : Mpsc Q} {S T H A E K : Type} `{HS : Repositories S}
        `{HT : SessionTokenStore T} `{HH : PasswordHasher H} `{HA : AuditLogger A}
        `{HE : EventPublisher E} `{HP : Prost} `{HU : UuidFmt} `{HK : AsyncWrite K}.
Variables (config : TcpGatewayConfig) (rooms_config : RoomServiceConfig) (token_ttl : Z).

Abbreviation World := (World S T H A E).
Abbreviation Rooms := (Rooms Q E).
Abbreviation OutboundSender := (OutboundSender Q).
Abbreviation Srv := (@Srv Q E).
Abbreviation Gw := (@Gw Q S T E).
Abbreviation Loop := (@Loop Q S T E).

(* ------------------------------------------------------------------ *)
(** ** The state *)

(** Where the task of a connection is in [handle_admitted_connection]: in the read loop,
    past it, or past the clean-up and waiting for the writer.  [Detached]: the task was
    aborted before its clean-up, and the task that its guard spawned is still to run. *)
Inductive stage := Reading | Returned | Draining | Detached.
#[global] Instance stage_eq_dec : EqDecision stage.
Proof. solve_decision. Defined.

(** A connection whose handshake succeeded: what its tasks own. *)
Record Peer := mkPeer {
  pe_ip : IpAddr; pe_deadline : Z; pe_permit : option IpAddr;
  pe_auth : AuthState; pe_out : OutboundSender; pe_session : Session.Session;
  pe_bucket : option TokenBucket; pe_sock : K; pe_stage : stage
}.

(** [sy_registry]: whether the registry still holds the sender of a connection.  The sink
    of a connection is filed under the connection's identifier. *)
Record Sys := mkSys {
  sy_store : S; sy_tokens : T; sy_hasher : H; sy_audit : A; sy_rooms : Rooms;
  sy_gate : AuthGate; sy_gauge : Z; sy_registry : gmap Z bool;
  sy_handshakes : gmap Z (IpAddr * Admission); sy_peers : gmap Z Peer; sy_clock : Z
}.

Definition with_peers (f : gmap Z Peer -> gmap Z Peer) (s : Sys) : Sys :=
  mkSys (sy_store s) (sy_tokens s) (sy_hasher s) (sy_audit s) (sy_rooms s) (sy_gate s) (sy_gauge s)
        (sy_registry s) (sy_handshakes s) (f (sy_peers s)) (sy_clock s).
Definition with_handshakes (f : gmap Z (IpAddr * Admission) -> gmap Z (IpAddr * Admission)) (s : Sys) : Sys :=
  mkSys (sy_store s) (sy_tokens s) (sy_hasher s) (sy_audit s) (sy_rooms s) (sy_gate s) (sy_gauge s)
        (sy_registry s) (f (sy_handshakes s)) (sy_peers s) (sy_clock s).
Definition with_rooms (f : Rooms -> Rooms) (s : Sys) : Sys :=
  mkSys (sy_store s) (sy_tokens s) (sy_hasher s) (sy_audit s) (f (sy_rooms s)) (sy_gate s) (sy_gauge s)
        (sy_registry s) (sy_handshakes s) (sy_peers s) (sy_clock s).
Definition with_clock (c : Z) (s : Sys) : Sys :=
  mkSys (sy_store s) (sy_tokens s) (sy_hasher s) (sy_audit s) (sy_rooms s) (sy_gate s) (sy_gauge s)
        (sy_registry s) (sy_handshakes s) (sy_peers s) c.

Definition set_out (o : OutboundSender) (p : Peer) : Peer :=
  mkPeer (pe_ip p) (pe_deadline p) (pe_permit p) (pe_auth p) o (pe_session p) (pe_bucket p) (pe_sock p)
         (pe_stage p).
Definition set_stage (st : stage) (p : Peer) : Peer :=
  mkPeer (pe_ip p) (pe_deadline p) (pe_permit p) (pe_auth p) (pe_out p) (pe_session p) (pe_bucket p)
         (pe_sock p) st.

(** The sinks of the room service. *)
Definition with_sinks (f : gmap Z (Sink Q) -> gmap Z (Sink Q)) (w : Rooms) : Rooms :=
  mkRooms (registry w) (tasks w) (f (sinks w)) (publisher w).
(** A receiver of room events is dropped. *)
Definition sink_drop_rx (s : Sink Q) : Sink Q := mkSink (drop_rx (sk_tx s)) (sk_failed s).

(* ------------------------------------------------------------------ *)
(** ** The components' views *)

(** HTTP: the use cases' world; the events go to the room service's publisher. *)
Definition app_view (s : Sys) : World :=
  mkWorld (sy_store s) (sy_tokens s) (sy_hasher s) (sy_audit s) (publisher (sy_rooms s)).
Definition put_app (w : World) (s : Sys) : Sys :=
  mkSys (w_store w) (w_tokens w) (w_hasher w) (w_audit w)
        (mkRooms (registry (sy_rooms s)) (tasks (sy_rooms s)) (sinks (sy_rooms s)) (w_events w))
        (sy_gate s) (sy_gauge s) (sy_registry s) (sy_handshakes s) (sy_peers s) (sy_clock s).

(** The tasks of one connection. *)
Definition gw_view (p : Peer) (s : Sys) : Gw :=
  mkGw (sy_store s) (sy_tokens s) (sy_rooms s) (pe_auth p) (pe_out p).
Definition loop_view (p : Peer) (s : Sys) : Loop :=
  mkLoop (gw_view p s) (pe_session p) (pe_bucket p) (pe_permit p) (sy_gate s).
Definition peer_after (p : Peer) (l : Loop) (st : stage) : Peer :=
  mkPeer (pe_ip p) (pe_deadline p) (lp_permit l) (gw_auth (lp_gw l)) (gw_out (lp_gw l)) (lp_session l)
         (lp_bucket l) (pe_sock p) st.
Definition put_loop (k : Z) (p : Peer) (st : stage) (l : Loop) (s : Sys) : Sys :=
  mkSys (gw_store (lp_gw l)) (gw_tokens (lp_gw l)) (sy_hasher s) (sy_audit s) (gw_rooms (lp_gw l))
        (lp_gate l) (sy_gauge s) (sy_registry s) (sy_handshakes s)
        (<[k := peer_after p l st]> (sy_peers s)) (sy_clock s).

(** The registry of senders, the gate and the gauge. *)
Definition senders (s : Sys) : gmap Z (option OutboundSender) :=
  map_imap (fun k (live : bool) => Some (if live then pe_out <$> sy_peers s !! k else None)) (sy_registry s).
Definition srv_view (s : Sys) : Srv := mkSrv (sy_rooms s) (senders s) (sy_gate s) (sy_gauge s).
Definition resend (conns : gmap Z (option OutboundSender)) (k : Z) (p : Peer) : Peer :=
  match conns !! k with Some (Some o) => set_out o p | _ => p end.
Definition put_srv (v : Srv) (s : Sys) : Sys :=
  mkSys (sy_store s) (sy_tokens s) (sy_hasher s) (sy_audit s) (sv_rooms v) (sv_gate v) (sv_gauge v)
        ((fun o => match o with Some _ => true | None => false end) <$> sv_conns v) (sy_handshakes s)
        (map_imap (fun k p => Some (resend (sv_conns v) k p)) (sy_peers s)) (sy_clock s).
Definition on_srv {X} (m : io Srv X) : io Sys X := fun s =>
  let '(x, v) := m (srv_view s) in (x, put_srv v s).

(* ------------------------------------------------------------------ *)
(** ** What the tasks do *)

(** [Admission::acquire] for an accepted socket. *)
Definition take_socket (k : Z) (ip : IpAddr) (now : Z) (s : Sys) : option Sys :=
  let '(o, s1) := on_srv (admission_acquire ip now (tg_unauth_timeout config)) s in
  Some (match o with Some a => with_handshakes (insert k (ip, a)) s1 | None => s1 end).

(** No handshake slot is free, or the handshake fails, times out or is cut short by the
    shutdown: the admission is dropped. *)
Definition handshake_fails (k : Z) (s : Sys) : option Sys :=
  match sy_handshakes s !! k with
  | None => None
  | Some (_, a) => Some (snd (on_srv (drop_admission a) (with_handshakes (delete k) s)))
  end.

(** [handle_admitted_connection] up to the read loop. *)
Definition open_connection (k : Z) (sock : K) (session_id : SessionId) (now : DateTime) (instant : Z)
    (s : Sys) : option Sys :=
  match sy_handshakes s !! k with
  | None => None
  | Some (ip, a) =>
      let out := outbound_new (chan (Z.to_nat (tg_send_queue_capacity config))) in
      let p := mkPeer ip (ad_deadline a) (ad_permit a) auth_default out (Session.new session_id now)
                      (bucket_new instant (tg_rate config)) sock Reading in
      let s1 := with_rooms (with_sinks (insert k (sink_new (chan (tg_room_event_capacity config)))))
                  (with_peers (insert k p) (with_handshakes (delete k) s)) in
      Some (snd (on_srv (connection_open k out) s1))
  end.

(** One round of the read loop of connection [k]. *)
Definition read_round (k : Z) (t : Turn) (s : Sys) : option Sys :=
  match sy_peers s !! k with
  | Some p =>
      if decide (pe_stage p = Reading) then
        match read_turn rooms_config k (pe_ip p) k (tg_heartbeat_timeout config) (pe_deadline p) t
                (loop_view p s) with
        | (LPending, _) => None
        | (LContinue, l) => Some (put_loop k p Reading l s)
        | (LReturn, l) => Some (put_loop k p Returned l s)
        end
      else None
  | None => None
  end.

(** The relay of connection [k] receives one event; when it ends, so does the connection. *)
Definition relay (k : Z) (env : Env) (s : Sys) : option Sys :=
  match sy_peers s !! k, sinks (sy_rooms s) !! k with
  | Some p, Some sk =>
      if decide (pe_stage p = Reading) then
        match pop (sk_tx sk) with
        | None => None
        | Some (event, tx) =>
            let s1 := with_rooms (with_sinks (insert k (mkSink tx (sk_failed sk)))) s in
            let '(go, g) := translate (mkCtx k (pe_ip p) k env) event (gw_view p s1) in
            let l := mkLoop g (pe_session p) (pe_bucket p) (pe_permit p) (sy_gate s1) in
            Some (if go then put_loop k p Reading l s1
                  else with_rooms (with_sinks (alter sink_drop_rx k)) (put_loop k p Returned l s1))
        end
      else None
  | _, _ => None
  end.

(** The writer of connection [k] takes one frame. *)
Definition write_one (k : Z) (s : Sys) : option Sys :=
  match sy_peers s !! k with
  | None => None
  | Some p =>
      match write_iter (tg_max_frame_size config) (ob_tx (pe_out p), pe_sock p) with
      | (WtIdle, _) => None
      | (_, (rx, sock)) =>
          Some (with_peers (insert k (mkPeer (pe_ip p) (pe_deadline p) (pe_permit p) (pe_auth p)
                  (mkOutbound rx (ob_disconnected (pe_out p))) (pe_session p) (pe_bucket p) sock (pe_stage p))) s)
      end
  end.

(** The writer is dropped: on the disconnect flag, or with the drain deadline. *)
Definition writer_stops (k : Z) (s : Sys) : option Sys :=
  match sy_peers s !! k with
  | None => None
  | Some p =>
      if ob_disconnected (pe_out p) || bool_decide (pe_stage p = Draining)
      then Some (with_peers (insert k (set_out (mkOutbound (drop_rx (ob_tx (pe_out p)))
                   (ob_disconnected (pe_out p))) p)) s)
      else None
  end.

Definition peer_guard (k : Z) (p : Peer) : ConnectionGuard :=
  mkGuard k (pe_auth p) (bool_decide (pe_stage p = Draining)).
Definition peer_admission (p : Peer) : Admission := mkAdmission (pe_deadline p) (pe_permit p).

(** The clean-up after the read loop: rooms, registry, relay, admission. *)
Definition leaving (rounds : nat) (now : DateTime) (g : ConnectionGuard) (a : Admission)
  : io Srv ConnectionGuard :=
  let* g' := guard_cleanup rounds now g in
  let* _ := on_conns (begin_drain (cg_conn_id g)) in
  let* _ := drop_admission a in
  io_ret g'.

Definition clean_up (k : Z) (rounds : nat) (now : DateTime) (s : Sys) : option Sys :=
  match sy_peers s !! k with
  | Some p =>
      if decide (pe_stage p = Returned) then
        let s1 := snd (on_srv (leaving rounds now (peer_guard k p) (peer_admission p)) s) in
        let p1 := mkPeer (pe_ip p) (pe_deadline p) None (pe_auth p) (pe_out p) (pe_session p)
                         (pe_bucket p) (pe_sock p) Draining in
        Some (with_rooms (with_sinks (alter sink_drop_rx k)) (with_peers (insert k p1) s1))
      else None
  | None => None
  end.

(** The guard is dropped at the end of the task. *)
Definition finish_connection (k : Z) (s : Sys) : option Sys :=
  match sy_peers s !! k with
  | Some p =>
      if decide (pe_stage p = Draining) then
        Some (with_peers (delete k) (snd (on_srv (guard_drop (peer_guard k p)) s)))
      else None
  | None => None
  end.

(** What the spawned clean-up still holds of a connection: its identity and the entry in
    the registry.  The writer is aborted and the permit dropped. *)
Definition detached (p : Peer) : Peer :=
  mkPeer (pe_ip p) (pe_deadline p) None (pe_auth p)
         (mkOutbound (drop_rx (ob_tx (pe_out p))) (ob_disconnected (pe_out p)))
         (pe_session p) (pe_bucket p) (pe_sock p) Detached.

(** The task is aborted before its clean-up. *)
Definition abort (k : Z) (s : Sys) : option Sys :=
  match sy_peers s !! k with
  | Some p =>
      if decide (pe_stage p = Reading \/ pe_stage p = Returned) then
        let '(spawned, s1) := on_srv (connection_abort (peer_guard k p) (peer_admission p)) s in
        Some (with_rooms (with_sinks (alter sink_drop_rx k))
               (with_peers (if spawned : bool then insert k (detached p) else delete k) s1))
      else None
  | None => None
  end.

(** The clean-up that an aborted task left runs. *)
Definition run_spawned (k : Z) (rounds : nat) (now : DateTime) (s : Sys) : option Sys :=
  match sy_peers s !! k with
  | Some p =>
      if decide (pe_stage p = Detached) then
        Some (with_peers (delete k) (snd (on_srv (spawned_cleanup rounds now (peer_guard k p)) s)))
      else None
  | None => None
  end.

(** Requests over HTTP, with what their handlers draw from their surroundings. *)
Inductive HttpRequest :=
| HttpRegister (account_id player_id : Z) (now1 now2 : DateTime) (rq : RegisterRequest)
| HttpLogin (now1 now2 : DateTime) (instant : Z) (rnd : list Z) (rq : LoginRequest)
| HttpMe (now : Z) (header : option rstr).

Inductive HttpAnswer :=
| RegisterAnswer (r : result (Z * RegisterResponse) ApiError)
| LoginAnswer (r : result LoginResponse ApiError)
| MeAnswer (r : result PlayerResponse ApiError).

Definition http (rq : HttpRequest) : io World HttpAnswer :=
  match rq with
  | HttpRegister aid pid now1 now2 rq =>
      let* r := post_register aid pid now1 now2 rq in io_ret (RegisterAnswer r)
  | HttpLogin now1 now2 instant rnd rq =>
      let* r := post_login token_ttl now1 now2 instant rnd rq in io_ret (LoginAnswer r)
  | HttpMe now header => let* r := get_me now header in io_ret (MeAnswer r)
  end.

Definition serve_http (rq : HttpRequest) (s : Sys) : option Sys :=
  Some (put_app (snd (http rq (app_view s))) s).

(* ------------------------------------------------------------------ *)
(** ** The system *)

Inductive Action :=
| Admit (k : Z) (ip : IpAddr) (now : Z)
| HandshakeFails (k : Z)
| Open (k : Z) (sock : K) (session_id : SessionId) (now : DateTime) (instant : Z)
| ReadRound (k : Z) (t : Turn)
| Relay (k : Z) (env : Env)
| WriteOne (k : Z)
| WriterStops (k : Z)
| CleanUp (k : Z) (rounds : nat) (now : DateTime)
| Finish (k : Z)
| Abort (k : Z)
| RunSpawned (k : Z) (rounds : nat) (now : DateTime)
| RunActor (r : RoomId)
| Request (rq : HttpRequest)
| Notice (message : rstr)
| CloseRooms (reason : rstr).

(** [None]: the action is not possible in this state. *)
Definition act (a : Action) (s : Sys) : option Sys :=
  match a with
  | Admit k ip now => take_socket k ip now s
  | HandshakeFails k => handshake_fails k s
  | Open k sock i now instant => open_connection k sock i now instant s
  | ReadRound k t => read_round k t s
  | Relay k env => relay k env s
  | WriteOne k => write_one k s
  | WriterStops k => writer_stops k s
  | CleanUp k rounds now => clean_up k rounds now s
  | Finish k => finish_connection k s
  | Abort k => abort k s
  | RunSpawned k rounds now => run_spawned k rounds now s
  | RunActor r => Some (with_rooms (fun w => snd (actor_turn r w)) s)
  | Request rq => serve_http rq s
  | Notice message => Some (snd (on_srv (on_conns (broadcast_shutdown message)) s))
  | CloseRooms reason => Some (with_rooms (fun w => snd (close_all reason w)) s)
  end.

(** The reading of the token store's clock an action makes. *)
Definition reading (a : Action) : option Z :=
  match a with
  | ReadRound _ t => Some (env_instant (tn_env t))
  | Relay _ env => Some (env_instant env)
  | Request (HttpLogin _ _ instant _ _) => Some instant
  | Request (HttpMe now _) => Some now
  | _ => None
  end.

(** What the surroundings owe the server: identifiers that were not used before, random
    tokens that were not issued before, and a clock that does not go back. *)
Definition permitted (a : Action) (s : Sys) : Prop :=
  (forall c, reading a = Some c -> sy_clock s <= c) /\
  match a with
  | Admit k _ _ =>
      sy_handshakes s !! k = None /\ sy_peers s !! k = None /\ sinks (sy_rooms s) !! k = None
  | ReadRound _ t => tasks (sy_rooms s) !! env_new_room (tn_env t) = None
  | Request (HttpRegister _ pid _ _ _) => is_uuid pid
  | Request (HttpLogin _ _ instant rnd _) => unused instant (sy_tokens s) (random_token rnd)
  | _ => True
  end.

(** A run with its history: the state before each action, and the action. *)
Inductive run (s0 : Sys) : list (Sys * Action) -> Sys -> Prop :=
| run_start : run s0 [] s0
| run_act h s a s1 :
    run s0 h s -> permitted a s -> act a s = Some s1 ->
    run s0 (h ++ [(s, a)]) (with_clock (default (sy_clock s) (reading a)) s1).

(** The server as it starts: nobody is connected. *)
Definition start (store : S) (tokens : T) (hasher : H) (audit : A) (events : E) (max_per_ip : nat) (clock : Z)
  : Sys :=
  mkSys store tokens hasher audit (service_new events ∅) (gate_new max_per_ip) 0 ∅ ∅ ∅ clock.

(** *** Runs from a list of actions *)

Definition act_after (s : Sys) (a : Action) : Sys :=
  with_clock (default (sy_clock s) (reading a)) (default s (act a s)).
(** The actions of [l] from [s] on are possible and permitted. *)
Fixpoint acts_possible (s : Sys) (l : list Action) : Prop :=
  match l with
  | [] => True
  | a :: l => permitted a s /\ is_Some (act a s) /\ acts_possible (act_after s a) l
  end.
Fixpoint acts_history (s : Sys) (l : list Action) : list (Sys * Action) :=
  match l with [] => [] | a :: l => (s, a) :: acts_history (act_after s a) l end.

Lemma acts_run s0 l : forall h s,
  run s0 h s -> acts_possible s l -> run s0 (h ++ acts_history s l) (foldl act_after s l).
Proof.
  induction l as [|a l IH]; intros h s Hrun Hp; [by rewrite app_nil_r|].
  destruct Hp as (Hperm & [s1 Hact] & Hp). cbn [acts_history foldl].
  change ((s, a) :: acts_history (act_after s a) l) with ([(s, a)] ++ acts_history (act_after s a) l). rewrite app_assoc.
  apply IH; [|exact Hp]. unfold act_after. rewrite Hact. cbn [default from_option id]. by apply run_act.
Qed.

End System.
