(* ===== verification/SystemProofs.v ===== *)
(** The invariants of the running server ([System.v]).

    [books] are the counters: the gate's permits, the registry, the gauge.  [owned] says
    whose the room sinks are.  Each is kept by every action, and with the history of a run
    so is where identities and chat lines come from. *)
From S2P Require Import Bootstrap.
From S2P Require Import Prelude Text Tokio Values Account Player Room Session Frame Connection.
From S2P Require Import Protocol App MemRepos TokenStore UseCases RoomActor RoomService Speech.
From S2P Require Import AuthGate RateLimit Gateway ConnLoop Lifecycle Http TurnEffects System.
From Stdlib Require Import Strings.String.
Open Scope Z_scope.
Open Scope list_scope.
Abbreviation length := Datatypes.length.

(* ------------------------------------------------------------------ *)
(** ** Counting what the entries of a map hold *)

Definition held_by {V} (f : V -> option Z) (m : gmap Z V) : list Z :=
  omap (fun kv => f (snd kv)) (map_to_list m).

Lemma omap_perm {A B} (f : A -> option B) (l l' : list A) : l ≡ₚ l' -> omap f l ≡ₚ omap f l'.
Proof. intros Hp. by rewrite Hp. Qed.

Lemma held_insert {V} (f : V -> option Z) (m : gmap Z V) k v :
  m !! k = None -> held_by f (<[k := v]> m) ≡ₚ option_list (f v) ++ held_by f m.
Proof.
  intros Hk. unfold held_by. rewrite (omap_perm _ _ _ (map_to_list_insert m k v Hk)). cbn.
  by destruct (f v).
Qed.

Lemma held_delete {V} (f : V -> option Z) (m : gmap Z V) k v :
  m !! k = Some v -> held_by f m ≡ₚ option_list (f v) ++ held_by f (delete k m).
Proof.
  intros Hk. rewrite <- (held_insert f (delete k m) k v) by apply lookup_delete_eq.
  by rewrite insert_delete_id.
Qed.

Lemma held_update {V} (f : V -> option Z) (m : gmap Z V) k v v' :
  m !! k = Some v -> option_list (f v) ++ held_by f (<[k := v']> m) ≡ₚ option_list (f v') ++ held_by f m.
Proof.
  intros Hk. rewrite <- insert_delete_eq, held_insert by apply lookup_delete_eq.
  rewrite (held_delete f m k v Hk). apply Permutation_app_swap_app.
Qed.

Lemma held_fmap {V W} (f : W -> option Z) (g : V -> W) (m : gmap Z V) :
  held_by f (g <$> m) ≡ₚ held_by (fun v => f (g v)) m.
Proof.
  unfold held_by. rewrite map_to_list_fmap.
  induction (map_to_list m) as [|[k v] l IH]; [done|]. cbn. destruct (f (g v)); by rewrite IH.
Qed.

(** The gate's invariant is about the number of permits. *)
Lemma gate_inv_perm max g l l' : l ≡ₚ l' -> gate_inv max (mkGated g l) -> gate_inv max (mkGated g l').
Proof.
  intros Hp (Hm & Hc & Hle & Hz). unfold gate_inv. cbn [gd_gate gd_alive] in *.
  assert (He : forall ip, alive l' ip = alive l ip).
  { intros ip. unfold alive. symmetry. by apply Permutation_count_occ. }
  split_and!; try done; intros; rewrite He; auto.
Qed.

Lemma held_same {V W} (f : V -> option Z) (g : W -> option Z) (m : gmap Z V) (m' : gmap Z W) :
  f <$> m = g <$> m' -> held_by f m ≡ₚ held_by g m'.
Proof.
  intros He. pose proof (held_fmap (fun o : option Z => o) f m) as H1.
  pose proof (held_fmap (fun o : option Z => o) g m') as H2. rewrite He in H1. by rewrite <- H1, <- H2.
Qed.

Section Proofs.
Context {Q : Type -> Type} `{HQ : Mpsc Q} {S T H A E K : Type} `{HS : Repositories S}
        `{HT : SessionTokenStore T} `{HH : PasswordHasher H} `{HA : AuditLogger A}
        `{HE : EventPublisher E} `{HP : Prost} `{HU : UuidFmt} `{HK : AsyncWrite K}.
Variables (config : TcpGatewayConfig) (rooms_config : RoomServiceConfig) (token_ttl : Z).

Abbreviation Sys := (@Sys Q S T H A E K).
Abbreviation Peer := (@Peer Q K).
Abbreviation Action := (@Action K).
Abbreviation act := (@act Q HQ S T H A E K HS HT HH HA HE HP HU HK config rooms_config token_ttl).
Implicit Types (s : Sys) (p : Peer).

(* ------------------------------------------------------------------ *)
(** ** The part of a connection that its queue and socket are not *)

Definition core p := (pe_ip p, pe_deadline p, pe_permit p, pe_auth p, pe_stage p).

Definition same_cores (m m' : gmap Z Peer) : Prop := core <$> m' = core <$> m.

Lemma same_cores_refl m : same_cores m m.
Proof. done. Qed.

Lemma same_cores_lookup m m' k p' :
  same_cores m m' -> m' !! k = Some p' -> exists p, m !! k = Some p /\ core p' = core p.
Proof.
  intros Hc Hk. assert (He : (core <$> m) !! k = Some (core p')) by (rewrite <- Hc, lookup_fmap, Hk; done).
  rewrite lookup_fmap in He. destruct (m !! k) as [p|]; [|done]. exists p. split; [done|]. cbn in He. congruence.
Qed.

Lemma same_cores_sym m m' : same_cores m m' -> same_cores m' m.
Proof. by unfold same_cores. Qed.

Lemma same_cores_held (f : Peer -> option Z) m m' :
  (forall p p', core p = core p' -> f p = f p') -> same_cores m m' -> held_by f m' ≡ₚ held_by f m.
Proof.
  intros Hf Hc. apply held_same. apply map_eq. intros k. rewrite !lookup_fmap.
  destruct (m' !! k) as [p'|] eqn:E'.
  - destruct (same_cores_lookup _ _ _ _ Hc E') as (p & -> & He). cbn. by rewrite (Hf _ _ He).
  - destruct (m !! k) as [p|] eqn:Ek; [|done].
    destruct (same_cores_lookup _ _ _ _ (same_cores_sym _ _ Hc) Ek) as (p' & ? & _). congruence.
Qed.

Lemma same_cores_update m k p p' :
  m !! k = Some p -> core p' = core p -> same_cores m (<[k := p']> m).
Proof.
  intros Hk Hc. apply map_eq. intros i. rewrite !lookup_fmap. destruct (decide (i = k)) as [->|Hne].
  - rewrite lookup_insert_eq, Hk. cbn. by rewrite Hc.
  - by rewrite lookup_insert_ne.
Qed.

Lemma same_cores_dom m m' : same_cores m m' -> dom m' = dom m.
Proof. intros Hc. by rewrite <- (dom_fmap_L core m), <- Hc, dom_fmap_L. Qed.

(* ------------------------------------------------------------------ *)
(** ** The registry's view *)

Lemma senders_lookup s k :
  senders s !! k = (fun live : bool => if live then pe_out <$> sy_peers s !! k else None) <$> sy_registry s !! k.
Proof. unfold senders. rewrite map_lookup_imap. by destruct (sy_registry s !! k). Qed.

Lemma put_srv_cores v s : same_cores (sy_peers s) (sy_peers (put_srv v s)).
Proof.
  apply map_eq. intros k. cbn. rewrite !lookup_fmap, map_lookup_imap.
  destruct (sy_peers s !! k); [|done]. cbn. unfold resend. by repeat case_match.
Qed.

(** Senders put back as they were taken. *)
Lemma put_srv_peers v s :
  (forall k o p, sv_conns v !! k = Some (Some o) -> sy_peers s !! k = Some p -> pe_out p = o) ->
  sy_peers (put_srv v s) = sy_peers s.
Proof.
  intros Hv. apply map_eq. intros k. cbn. rewrite map_lookup_imap.
  destruct (sy_peers s !! k) as [p|] eqn:Ek; [|done]. cbn. unfold resend.
  destruct (sv_conns v !! k) as [[o|]|] eqn:Ec; try done. rewrite <- (Hv k o p Ec Ek). by destruct p.
Qed.

Lemma senders_out s k o p : senders s !! k = Some (Some o) -> sy_peers s !! k = Some p -> pe_out p = o.
Proof.
  rewrite senders_lookup. intros Hs Hk. rewrite Hk in Hs.
  destruct (sy_registry s !! k) as [[]|]; [|done..]. by injection Hs.
Qed.

(** A registered sender belongs to a connection. *)
Definition reg_ok s : Prop := forall k, sy_registry s !! k = Some true -> is_Some (sy_peers s !! k).

Definition flag (o : option (OutboundSender Q)) : bool := match o with Some _ => true | None => false end.

Lemma senders_flag s : reg_ok s -> flag <$> senders s = sy_registry s.
Proof.
  intros Hr. apply map_eq. intros k. rewrite lookup_fmap, senders_lookup.
  destruct (sy_registry s !! k) as [[]|] eqn:Ek; cbn; [|done..].
  destruct (Hr k Ek) as [p ->]. done.
Qed.

(** An operation that leaves the registry alone. *)
Lemma put_srv_same v s :
  reg_ok s -> sv_conns v = senders s ->
  sy_registry (put_srv v s) = sy_registry s /\ sy_peers (put_srv v s) = sy_peers s.
Proof.
  intros Hr Hc. split.
  - cbn. rewrite Hc. by apply senders_flag.
  - apply put_srv_peers. rewrite Hc. apply senders_out.
Qed.

Definition with_srv (r : Rooms Q E) (g : AuthGate) (u : Z) (reg : gmap Z bool) s : Sys :=
  mkSys (sy_store s) (sy_tokens s) (sy_hasher s) (sy_audit s) r g u reg (sy_handshakes s) (sy_peers s) (sy_clock s).

Lemma put_srv_eq v s reg :
  flag <$> sv_conns v = reg ->
  (forall k o p, sv_conns v !! k = Some (Some o) -> sy_peers s !! k = Some p -> pe_out p = o) ->
  put_srv v s = with_srv (sv_rooms v) (sv_gate v) (sv_gauge v) reg s.
Proof. intros <- Hp. unfold with_srv. rewrite <- (put_srv_peers v s Hp). done. Qed.

(** [Admission::acquire] asks the gate. *)
Lemma acquire_eq ip now timeout s :
  reg_ok s ->
  on_srv (admission_acquire ip now timeout) s =
  ((fun q => mkAdmission (now + timeout) (Some q)) <$> fst (permit ip (sy_gate s)),
   with_srv (sy_rooms s) (snd (permit ip (sy_gate s))) (sy_gauge s) (sy_registry s) s).
Proof.
  intros Hr. unfold on_srv, admission_acquire, io_bind, on_gate. cbn [srv_view sv_gate].
  destruct (permit ip (sy_gate s)) as [o g]. cbn [fst snd io_ret].
  rewrite (put_srv_eq _ _ (sy_registry s)); cbn; [by destruct o|by apply senders_flag|apply senders_out].
Qed.

Definition given_back (a : Admission) (g : AuthGate) : AuthGate :=
  match ad_permit a with Some ip => snd (release ip g) | None => g end.

Lemma drop_admission_eq a s :
  reg_ok s ->
  snd (on_srv (drop_admission a) s) =
  with_srv (sy_rooms s) (given_back a (sy_gate s)) (sy_gauge s) (sy_registry s) s.
Proof.
  intros Hr. unfold on_srv. destruct (drop_admission a (srv_view s)) as [x v] eqn:Ed.
  apply drop_admission_spec in Ed as (Hrm & Hc & Hu & Hg). cbn [snd].
  rewrite (put_srv_eq _ _ (sy_registry s)), Hrm, Hu, Hg; [done|rewrite Hc; by apply senders_flag|].
  rewrite Hc. apply senders_out.
Qed.

Lemma connection_open_eq k out p s :
  reg_ok s -> sy_peers s !! k = Some p -> pe_out p = out ->
  snd (on_srv (connection_open k out) s) =
  with_srv (sy_rooms s) (sy_gate s) (sy_gauge s + 1) (<[k := true]> (sy_registry s)) s.
Proof.
  intros Hr Hk <-. unfold on_srv, connection_open, io_bind, gauge_add, on_conns, Lifecycle.register.
  cbn [srv_view sv_rooms sv_conns sv_gate sv_gauge snd].
  apply put_srv_eq; cbn [sv_conns].
  - rewrite fmap_insert, senders_flag by done. done.
  - intros i o q [[<- [= <-]]|[_ Hi]]%lookup_insert_Some Hq; [congruence|by eapply senders_out].
Qed.

Lemma broadcast_same m s n s1 :
  reg_ok s -> on_srv (on_conns (broadcast_all m)) s = (n, s1) ->
  sy_store s1 = sy_store s /\ sy_tokens s1 = sy_tokens s /\ sy_rooms s1 = sy_rooms s /\
  sy_gate s1 = sy_gate s /\ sy_gauge s1 = sy_gauge s /\ sy_registry s1 = sy_registry s /\
  sy_handshakes s1 = sy_handshakes s /\ same_cores (sy_peers s) (sy_peers s1) /\ sy_clock s1 = sy_clock s.
Proof.
  intros Hr. unfold on_srv. destruct (on_conns _ _) as [x v] eqn:Eb. intros [= <- <-].
  pose proof (put_srv_cores v s) as Hc. unfold on_conns, broadcast_all in Eb.
  destruct (codec_encode m) as [frame|e]; injection Eb as _ <-; cbn [srv_view sv_conns] in *;
    (split_and!; try done); cbn; [|by apply senders_flag].
  rewrite <- map_fmap_compose, <- (senders_flag s Hr). apply map_fmap_ext. intros i o _. by destruct o.
Qed.

(* ------------------------------------------------------------------ *)
(** ** What the end of a connection does to the rooms *)

(** [J] is kept by the clean-up of a connection. *)
Definition clean_ok (J : Rooms Q E -> Prop) : Prop := forall rounds q now,
  preserves J (let* hs := live_handles in leave_each (take rounds hs) q (lit "connection closed") now).

Lemma cleanup_rooms J auth rounds now (v : Srv) x v' :
  clean_ok J -> J (sv_rooms v) -> cleanup_room auth rounds now v = (x, v') ->
  J (sv_rooms v') /\ sv_conns v' = sv_conns v /\ sv_gate v' = sv_gate v /\ sv_gauge v' = sv_gauge v.
Proof.
  intros HJ Hv Hx. unfold cleanup_room in Hx. destruct (au_player auth) as [pl|].
  2: { by apply io_ret_inv in Hx as [_ <-]. }
  apply io_bind_inv in Hx as (res & v1 & Hr & Hx). apply io_ret_inv in Hx as [_ <-].
  unfold on_srv_rooms in Hr. destruct (io_bind _ _ _) as [res' w'] eqn:Eb. injection Hr as _ <-.
  split_and!; [|done..]. cbn. by eapply HJ.
Qed.

Lemma clean_ok_inv owner : clean_ok (rooms_inv owner).
Proof.
  intros rounds q now w r w' Hw Hx. apply io_bind_inv in Hx as (hs & w1 & Hl & Hx).
  unfold live_handles in Hl. injection Hl as <- <-.
  apply (leave_each_spec owner) in Hx as (? & _); [done|].
  eapply rooms_inv_frame; [done|done|]. cbn. set_solver.
Qed.

Lemma clean_ok_true named said D : clean_ok (rooms_true named said D).
Proof.
  intros rounds q now. apply preserves_bind; [apply live_handles_true|intros hs; apply leave_each_true].
Qed.

(** [J] holds of the rooms after the clean-up of [p]. *)
Definition cleaned (J : Rooms Q E -> Prop) p rounds now s : Prop :=
  forall x v, cleanup_room (pe_auth p) rounds now (srv_view s) = (x, v) -> J (sv_rooms v).

Lemma clean_ok_cleaned J p rounds now s : clean_ok J -> J (sy_rooms s) -> cleaned J p rounds now s.
Proof. intros HJ Hj x v Hx. by apply (cleanup_rooms J) in Hx as (? & _). Qed.

Lemma cleanup_same auth rounds now (v : @Srv Q E) x v' :
  cleanup_room auth rounds now v = (x, v') ->
  sv_conns v' = sv_conns v /\ sv_gate v' = sv_gate v /\ sv_gauge v' = sv_gauge v.
Proof. intros Hx. by apply (cleanup_rooms (fun _ => True)) in Hx as (_ & ?). Qed.

Lemma leaving_eq J k p rounds now s :
  cleaned J p rounds now s -> reg_ok s ->
  exists r, J r /\
    snd (on_srv (leaving rounds now (peer_guard k p) (peer_admission p)) s) =
    with_srv r (given_back (peer_admission p) (sy_gate s)) (sy_gauge s)
             (alter (fun _ => false) k (sy_registry s)) s.
Proof.
  intros HJ Hr. unfold on_srv. destruct (leaving _ _ _ _ _) as [x v] eqn:El. unfold leaving in El.
  apply io_bind_inv in El as (g1 & v1 & Hc & El). unfold guard_cleanup in Hc.
  apply io_bind_inv in Hc as (y & v2 & Hc & Hg). apply io_ret_inv in Hg as [_ ->].
  cbn [cg_auth peer_guard] in Hc. pose proof (HJ _ _ Hc) as Hj1. apply cleanup_same in Hc as (Hc1 & Hg1 & Hu1).
  apply io_bind_inv in El as (z & v3 & Hb & El). unfold on_conns, begin_drain in Hb. injection Hb as _ <-.
  apply io_bind_inv in El as (u & v4 & Hd & El). apply io_ret_inv in El as [_ <-].
  apply drop_admission_spec in Hd as (Hrm & Hc4 & Hu4 & Hg4).
  cbn [sv_rooms sv_conns sv_gate sv_gauge srv_view cg_conn_id peer_guard] in *.
  exists (sv_rooms v4). split; [by rewrite Hrm|]. cbn [snd].
  rewrite (put_srv_eq v4 s (alter (fun _ => false) k (sy_registry s))), Hu4, Hg4, Hu1, Hg1; [done| |].
  - rewrite Hc4, Hc1, <- (senders_flag s Hr). apply map_eq. intros i.
    destruct (decide (i = k)) as [->|Hne];
      rewrite ?lookup_fmap, ?lookup_alter_eq, ?lookup_alter_ne, ?lookup_fmap by done; [|done].
    by destruct (senders s !! k).
  - rewrite Hc4, Hc1. intros i o q.
    intros [(-> & o' & _ & [=])|[_ Hi]]%lookup_alter_Some Hq. by eapply senders_out.
Qed.

(** A connection is taken off the registry. *)
Lemma released_eq k p s v x v' :
  reg_ok s -> sv_conns v = senders s -> guard_release (peer_guard k p) v = (x, v') ->
  put_srv v' s = with_srv (sv_rooms v) (sv_gate v) (sv_gauge v - 1) (delete k (sy_registry s)) s.
Proof.
  intros Hr Hv (Hrm & Hc & Hg & Hu)%guard_release_spec. cbn [cg_conn_id peer_guard] in Hc. rewrite Hv in Hc.
  rewrite (put_srv_eq v' s (delete k (sy_registry s))), Hrm, Hg, Hu; [done| |]; rewrite Hc.
  - by rewrite fmap_delete, senders_flag.
  - intros i o q [_ Hi]%lookup_delete_Some. by apply senders_out.
Qed.

(** The guard dropped after the clean-up. *)
Lemma guard_drop_eq k p s :
  pe_stage p = Draining -> reg_ok s ->
  snd (on_srv (guard_drop (peer_guard k p)) s) =
  with_srv (sy_rooms s) (sy_gate s) (sy_gauge s - 1) (delete k (sy_registry s)) s.
Proof.
  intros Hst Hr. unfold on_srv. destruct (guard_drop _ _) as [x v] eqn:Ed.
  apply guard_drop_spec in Ed as [-> Ed]. unfold leaves_cleanup in Ed. cbn [cg_cleaned peer_guard] in Ed.
  rewrite bool_decide_true in Ed by done. cbn [negb andb] in Ed. cbn [snd].
  by rewrite (released_eq k p s (srv_view s) _ _ Hr eq_refl Ed).
Qed.

(** The connection is bound. *)
Definition bound p : bool := bool_decide (is_Some (au_player (pe_auth p))).

(** The task aborted before the clean-up: of a bound connection the registry entry stays. *)
Lemma abort_eq k p s :
  pe_stage p <> Draining -> reg_ok s ->
  on_srv (connection_abort (peer_guard k p) (peer_admission p)) s =
  (bound p,
   with_srv (sy_rooms s) (given_back (peer_admission p) (sy_gate s))
     (if bound p then sy_gauge s else sy_gauge s - 1)
     (if bound p then sy_registry s else delete k (sy_registry s)) s).
Proof.
  intros Hst Hr. unfold on_srv. destruct (connection_abort _ _ _) as [x v] eqn:Ea.
  unfold connection_abort in Ea. apply io_bind_inv in Ea as (y & v1 & Hg & Ea).
  apply io_bind_inv in Ea as (z & v2 & Hd & Ea). apply io_ret_inv in Ea as [<- <-].
  apply drop_admission_spec in Hd as (Hrm & Hc & Hu & Hgt).
  apply guard_drop_spec in Hg as [Hy Hg]. unfold leaves_cleanup in Hy. cbn [cg_cleaned cg_auth peer_guard] in Hy.
  rewrite bool_decide_false in Hy by done. cbn [negb andb] in Hy. fold (bound p) in Hy. subst y. f_equal.
  assert (Hv1 : sv_rooms v1 = sy_rooms s /\ sv_gate v1 = sy_gate s /\
    sv_gauge v1 = (if bound p then sy_gauge s else sy_gauge s - 1) /\
    sv_conns v1 = (if bound p then senders s else delete k (senders s))).
  { destruct (bound p); [by subst v1|]. apply guard_release_spec in Hg as (? & ? & ? & ?). done. }
  destruct Hv1 as (Hr1 & Hg1 & Hu1 & Hc1). rewrite Hc1 in Hc. rewrite Hg1 in Hgt.
  rewrite (put_srv_eq v2 s (if bound p then sy_registry s else delete k (sy_registry s))), Hrm, Hgt, Hu, Hr1, Hu1;
    [done| |]; rewrite Hc.
  - destruct (bound p); [by apply senders_flag|by rewrite fmap_delete, senders_flag].
  - intros i o q Hi. apply senders_out. destruct (bound p); [done|]. by apply lookup_delete_Some in Hi as [_ ?].
Qed.

(** The clean-up it leaves. *)
Lemma spawned_eq J k p rounds now s :
  cleaned J p rounds now s -> reg_ok s ->
  exists r, J r /\
    snd (on_srv (spawned_cleanup rounds now (peer_guard k p)) s) =
    with_srv r (sy_gate s) (sy_gauge s - 1) (delete k (sy_registry s)) s.
Proof.
  intros HJ Hr. unfold on_srv. destruct (spawned_cleanup _ _ _ _) as [x v] eqn:Es.
  unfold spawned_cleanup in Es. apply io_bind_inv in Es as (y & v1 & Hc & Es).
  cbn [cg_auth peer_guard] in Hc. pose proof (HJ _ _ Hc) as Hj1. apply cleanup_same in Hc as (Hc1 & Hg1 & Hu1).
  exists (sv_rooms v1). split; [done|]. cbn [snd].
  by rewrite (released_eq k p s v1 _ _ Hr Hc1 Es), Hg1, Hu1.
Qed.

(* ------------------------------------------------------------------ *)
(** ** What holds of the rooms

    [ow]: the player a connection is or was bound to, for connections that ever were. *)

Definition agrees (ow : gmap Z PlayerId) (owner : Z -> PlayerId) : Prop :=
  forall k q, ow !! k = Some q -> owner k = q.

Definition rooms_good (ow : gmap Z PlayerId) (named said : PlayerId -> rstr -> Prop) (D : gset Z)
    (w : Rooms Q E) : Prop :=
  (forall owner, agrees ow owner -> rooms_inv owner w) /\ rooms_true named said D w.

Lemma agrees_insert ow owner k q : ow !! k = None -> agrees (<[k := q]> ow) owner -> agrees ow owner.
Proof.
  intros Hk Ha i r Hi. apply Ha. rewrite lookup_insert_ne; [done|]. intros ->. congruence.
Qed.

Lemma rooms_good_weaken ow ow' named named' said said' D w :
  (forall owner, agrees ow' owner -> agrees ow owner) ->
  (forall q n, named q n -> named' q n) -> (forall q t, said q t -> said' q t) ->
  rooms_good ow named said D w -> rooms_good ow' named' said' D w.
Proof.
  intros Ho Hn Hs [Hi Ht]. split; [auto|]. destruct Ht as [Htasks [Hd Hsinks]]. constructor; [|split; [done|]].
  - intros r t Hr. destruct (Htasks r t Hr) as [Hm Hc]. split.
    + intros q m Hq. by apply Hn, Hm.
    + eapply Forall_impl; [exact Hc|]. intros []; cbn; auto.
  - intros k sk Hk. eapply Forall_impl; [by eapply Hsinks|]. intros []; cbn; naive_solver.
Qed.

Lemma clean_ok_good ow named said D : clean_ok (rooms_good ow named said D).
Proof.
  intros rounds q now w r w' [Hi Ht] Hx. split.
  - intros owner Ha. by eapply clean_ok_inv; [apply Hi|].
  - by eapply clean_ok_true.
Qed.

Lemma actor_turn_inv owner r w o w' :
  rooms_inv owner w -> actor_turn r w = (o, w') -> rooms_inv owner (w' : Rooms Q E).
Proof.
  intros Hi Hx. destruct (tasks w !! r) as [t|] eqn:Et.
  - destruct (at_stopped t) eqn:Es.
    + unfold actor_turn in Hx. rewrite Et, Es in Hx. by injection Hx as _ <-.
    + by eapply actor_turn_spec in Hx as (? & _).
  - unfold actor_turn in Hx. rewrite Et in Hx. by injection Hx as _ <-.
Qed.

Lemma actor_turn_good ow named said D r w :
  rooms_good ow named said D w -> rooms_good ow named said D (snd (actor_turn r w)).
Proof.
  intros [Hi Ht]. destruct (actor_turn r w) as [o w'] eqn:Ex. cbn. split.
  - intros owner Ha. eapply actor_turn_inv; [by apply Hi|done].
  - by eapply actor_turn_true.
Qed.

Lemma close_all_inv owner reason w x w' :
  rooms_inv owner w -> close_all reason w = (x, w') -> rooms_inv owner (w' : Rooms Q E).
Proof.
  intros Hi Hx. unfold close_all in Hx. apply io_bind_inv in Hx as (y & w1 & Hc & Hx).
  apply io_ret_inv in Hx as [_ <-]. apply (close_each_spec owner) in Hc as (? & _); [done| | |].
  - constructor; cbn; [apply Hi|set_solver].
  - apply NoDup_elements.
  - intros r Hr%elem_of_elements. by apply Hi.
Qed.

Lemma close_all_good ow named said D reason w :
  rooms_good ow named said D w -> rooms_good ow named said D (snd (close_all reason w)).
Proof.
  intros [Hi Ht]. destruct (close_all reason w) as [o w'] eqn:Ex. cbn. split.
  - intros owner Ha. eapply close_all_inv; [by apply Hi|done].
  - by eapply close_all_true.
Qed.

Lemma chat_inv owner i q text w r w' :
  rooms_inv owner w -> chat i q text w = (r, w') -> rooms_inv owner (w' : Rooms Q E).
Proof.
  intros Hi Hx. unfold chat in Hx. cbv zeta in Hx.
  destruct (is_empty _); [by apply io_ret_inv in Hx as [_ <-]|].
  destruct (_ <? _)%nat; [by apply io_ret_inv in Hx as [_ <-]|].
  apply io_bind_inv in Hx as (o & w1 & Hf & Hx). apply handle_for_spec with (1 := Hi) in Hf as (Hi1 & _ & _ & _ & Ho).
  destruct o as [h|]; cbn [ok_or] in Hx.
  2: { apply io_try_inv in Hx as [(h & w2 & Hh & _)|(e & Hh & _)]; [done|]. by injection Hh as _ <-. }
  apply io_try_inv in Hx as [(h' & w2 & Hh & Hx)|(e & Hh & _)]; [|done]. injection Hh as <- <-.
  destruct Ho as (-> & -> & _ & t & Ht & _).
  by eapply handle_try_send_spec in Hx as (? & _).
Qed.

Lemma join_or_create_inv owner o i q n k now1 now2 w r w' :
  rooms_inv owner w -> owner k = q -> tasks w !! i = None -> (1 <= command_capacity rooms_config)%nat ->
  join_or_create rooms_config o i q n k now1 now2 w = (r, w') -> rooms_inv owner (w' : Rooms Q E).
Proof.
  intros Hi Ho Hfree Hcap Hx. unfold join_or_create in Hx. destruct o as [id|].
  - apply io_try_inv in Hx as [(y & w1 & Hj & Hx)|(e & Hj & _)];
      apply (join_spec owner) in Hj as (? & _); try done. by apply io_ret_inv in Hx as [_ <-].
  - by apply (create_and_join_spec owner) in Hx as (? & _).
Qed.

(** The calls of a connection bound to [pl] that spoke the truth. *)
Lemma room_calls_good ow named said D ctx m pl w :
  rooms_good ow named said D w -> ow !! cx_room_tx ctx = Some (ap_player_id pl) ->
  tasks w !! env_new_room (cx_env ctx) = None -> (1 <= command_capacity rooms_config)%nat ->
  named (ap_player_id pl) (ap_nickname pl) ->
  (forall rq, m = InRoomChat rq -> said (ap_player_id pl) (trim (pb.chat_text rq))) ->
  forall a, room_calls rooms_config (fun w' _ => rooms_good ow named said D w') ctx m pl w a.
Proof.
  intros [Hi Ht] Hk Hfree Hcap Hn Hs a. destruct m as [b|b|rq|rq|rq|b|op]; cbn [room_calls]; try done.
  - intros o r w' _ Hx. split.
    + intros owner Ha. eapply join_or_create_inv; [by apply Hi| |done..]. by apply Ha.
    + by eapply join_or_create_true.
  - split; [intros i r w' Hx|intros r w' Hx]; split.
    + intros owner Ha. by eapply leave_spec in Hx as (? & _); [|by apply Hi].
    + by eapply leave_true.
    + intros owner Ha. by eapply leave_all_spec in Hx as (? & _); [|by apply Hi].
    + by eapply leave_all_true.
  - intros i r w' Hx. split.
    + intros owner Ha. eapply chat_inv; [by apply Hi|done].
    + eapply chat_true; [by apply Hs| |done]. done.
Qed.

(** Sinks come and go without the rooms noticing. *)
Lemma rooms_good_sinks ow named said D D' w f :
  rooms_good ow named said D w -> sinks_true named said D' (f (sinks w)) ->
  rooms_good ow named said D' (with_sinks f w).
Proof.
  intros [Hi [Ht _]] Hs. split; [|by constructor]. intros owner Ha. destruct (Hi owner Ha). by constructor.
Qed.

(* ------------------------------------------------------------------ *)
(** ** The books *)

(** The addresses whose permits are out: of handshakes and of connections. *)
Definition permits s : list Z :=
  held_by (fun x => ad_permit (snd x)) (sy_handshakes s) ++ held_by pe_permit (sy_peers s).

Definition peer_ok p : Prop :=
  match pe_stage p with
  | Reading =>
      pe_permit p = match au_player (pe_auth p) with Some _ => None | None => Some (pe_ip p) end
  | Returned => pe_permit p = None \/ pe_permit p = Some (pe_ip p)
  | Draining | Detached => pe_permit p = None
  end.

Definition registered p : bool := negb (bool_decide (pe_stage p = Draining)).

Record books (max : nat) s : Prop := mkBooks {
  bk_gate : gate_inv max (mkGated (sy_gate s) (permits s));
  bk_handshakes : forall k ip a, sy_handshakes s !! k = Some (ip, a) ->
    ad_permit a = Some ip /\ sy_peers s !! k = None /\ sinks (sy_rooms s) !! k = None;
  bk_peers : forall k p, sy_peers s !! k = Some p -> peer_ok p /\ is_Some (sinks (sy_rooms s) !! k);
  bk_registry : forall k, sy_registry s !! k = registered <$> sy_peers s !! k;
  bk_gauge : sy_gauge s = Z.of_nat (size (sy_peers s))
}.

Lemma books_reg_ok max s : books max s -> reg_ok s.
Proof. intros Hb k Hk. rewrite (bk_registry _ _ Hb) in Hk. by destruct (sy_peers s !! k). Qed.

Lemma peer_ok_core p p' : core p = core p' -> peer_ok p -> peer_ok p'.
Proof. unfold core, peer_ok. by intros [= -> _ -> -> ->]. Qed.

Lemma registered_core p p' : core p = core p' -> registered p = registered p'.
Proof. unfold core, registered. by intros [= _ _ _ _ ->]. Qed.

(** Sockets, queues, rooms and stores do not matter. *)
Lemma books_same max s s' :
  books max s -> sy_gate s' = sy_gate s -> sy_gauge s' = sy_gauge s -> sy_registry s' = sy_registry s ->
  sy_handshakes s' = sy_handshakes s -> same_cores (sy_peers s) (sy_peers s') ->
  dom (sinks (sy_rooms s')) = dom (sinks (sy_rooms s)) -> books max s'.
Proof.
  intros [] Hg Hu Hr Hh Hc Hd.
  assert (Hsink : forall k, is_Some (sinks (sy_rooms s') !! k) <-> is_Some (sinks (sy_rooms s) !! k))
    by (intros k; by rewrite <- !elem_of_dom, Hd).
  constructor; rewrite ?Hg, ?Hu, ?Hh, ?Hr.
  - eapply gate_inv_perm; [|exact bk_gate0]. unfold permits. rewrite Hh. f_equiv. symmetry.
    apply same_cores_held; [|done]. by intros ? ? [= _ _ -> _ _].
  - intros k ip a Hk. destruct (bk_handshakes0 k ip a Hk) as (? & Hp & Hs). split; [done|]. split.
    + destruct (sy_peers s' !! k) as [p'|] eqn:E'; [|done].
      destruct (same_cores_lookup _ _ _ _ Hc E') as (p & ? & _). congruence.
    + apply eq_None_not_Some. rewrite Hsink. by rewrite Hs; intros [].
  - intros k p' Hk. destruct (same_cores_lookup _ _ _ _ Hc Hk) as (p & Hp & He).
    destruct (bk_peers0 k p Hp). split; [by eapply peer_ok_core|by apply Hsink].
  - intros k. rewrite bk_registry0. destruct (sy_peers s' !! k) as [p'|] eqn:E'.
    + destruct (same_cores_lookup _ _ _ _ Hc E') as (p & -> & He). cbn. by rewrite (registered_core _ _ He).
    + destruct (sy_peers s !! k) as [p|] eqn:Ek; [|done].
      destruct (same_cores_lookup _ _ _ _ (same_cores_sym _ _ Hc) Ek) as (p' & ? & _). congruence.
  - rewrite bk_gauge0, <- !size_dom, (same_cores_dom _ _ Hc). done.
Qed.

Lemma gate_inv_given_back max g a l :
  gate_inv max (mkGated g (option_list (ad_permit a) ++ l)) -> gate_inv max (mkGated (given_back a g) l).
Proof.
  unfold given_back. destruct (ad_permit a) as [ip|]; [|done]. cbn. intros Hg.
  apply (gate_step_inv max _ _ Hg). by apply (gate_drop g [] ip l).
Qed.

Lemma books_admit max k ip now s s1 :
  books max s -> sy_handshakes s !! k = None -> sy_peers s !! k = None -> sinks (sy_rooms s) !! k = None ->
  take_socket config k ip now s = Some s1 -> books max s1.
Proof.
  intros Hb Hh Hp Hs Hx. unfold take_socket in Hx. rewrite acquire_eq in Hx by (by eapply books_reg_ok).
  destruct Hb. destruct (permit ip (sy_gate s)) as [o g] eqn:Ep. cbn [fst snd] in Hx. injection Hx as <-.
  destruct o as [q|]; cbn [fmap option_fmap option_map].
  - assert (q = ip) as -> by (apply permit_spec in Ep as [_ [(? & _)|(? & _)]]; congruence).
    constructor; cbn; try done.
    + eapply gate_inv_perm; [|apply (gate_step_inv max _ _ bk_gate0), (gate_admit _ _ ip g Ep)].
      unfold permits. cbn. by rewrite held_insert.
    + intros i ip' a [[<- [= <- <-]]|[_ Hi]]%lookup_insert_Some; [done|by eapply bk_handshakes0].
  - constructor; cbn; try done. apply (gate_step_inv max _ _ bk_gate0). by apply (gate_refuse _ _ ip g).
Qed.

Lemma books_handshake_fails max k s s1 :
  books max s -> handshake_fails k s = Some s1 -> books max s1.
Proof.
  intros Hb Hx. unfold handshake_fails in Hx. destruct (sy_handshakes s !! k) as [[ip a]|] eqn:Eh; [|done].
  injection Hx as <-. rewrite drop_admission_eq by (exact (books_reg_ok _ _ Hb)). destruct Hb.
  constructor; cbn; try done.
  - apply gate_inv_given_back. eapply gate_inv_perm; [|exact bk_gate0]. unfold permits. cbn.
    rewrite (held_delete _ _ _ _ Eh). cbn [snd]. by rewrite app_assoc.
  - intros i ip' a' [_ Hi]%lookup_delete_Some. by eapply bk_handshakes0.
Qed.

Lemma books_open max k sock i now instant s s1 :
  books max s -> open_connection config k sock i now instant s = Some s1 -> books max s1.
Proof.
  intros Hb Hx. unfold open_connection in Hx.
  destruct (sy_handshakes s !! k) as [[ip a]|] eqn:Eh; [|done]. cbv zeta in Hx.
  pose proof (books_reg_ok _ _ Hb) as Hr. destruct Hb. destruct (bk_handshakes0 _ _ _ Eh) as (Hpm & Hp & Hs).
  set (p := mkPeer ip _ _ _ _ _ _ _ _) in Hx. set (s2 := with_rooms _ _) in Hx.
  assert (Hr2 : reg_ok s2).
  { intros j Hj%Hr. cbn. apply lookup_insert_is_Some'. by right. }
  rewrite (connection_open_eq k _ p s2) in Hx by (done || apply lookup_insert_eq). injection Hx as <-.
  constructor; cbn.
  - eapply gate_inv_perm; [|exact bk_gate0]. unfold permits. cbn.
    rewrite (held_delete _ _ _ _ Eh), held_insert by done. cbn. rewrite Hpm. cbn. by rewrite Permutation_middle.
  - intros j ip' a' [Hne Hj]%lookup_delete_Some. rewrite !lookup_insert_ne by done. by eapply bk_handshakes0.
  - intros j q [[<- <-]|[Hne Hj]]%lookup_insert_Some.
    + split; [done|]. by rewrite lookup_insert_eq.
    + rewrite lookup_insert_ne by done. by apply bk_peers0.
  - intros j. destruct (decide (j = k)) as [->|Hne].
    + by rewrite !lookup_insert_eq.
    + by rewrite !lookup_insert_ne.
  - rewrite map_size_insert_None by done. lia.
Qed.

(** One connection moves on, as [peer_ok] says, and its permit with the gate. *)
Lemma books_update max k p p' g reg s s' :
  books max s -> sy_peers s !! k = Some p -> peer_ok p' ->
  sy_peers s' = <[k := p']> (sy_peers s) -> sy_handshakes s' = sy_handshakes s ->
  sy_gauge s' = sy_gauge s -> sy_gate s' = g -> sy_registry s' = reg ->
  reg = <[k := registered p']> (sy_registry s) ->
  dom (sinks (sy_rooms s')) = dom (sinks (sy_rooms s)) ->
  (g = sy_gate s /\ pe_permit p' = pe_permit p \/
   g = given_back (mkAdmission 0 (pe_permit p)) (sy_gate s) /\ pe_permit p' = None) ->
  books max s'.
Proof.
  intros [] Hk Hok Hp Hh Hu Hg Hr -> Hd Hperm.
  assert (Hsink : forall k, is_Some (sinks (sy_rooms s') !! k) <-> is_Some (sinks (sy_rooms s) !! k))
    by (intros j; by rewrite <- !elem_of_dom, Hd).
  constructor; rewrite ?Hp, ?Hh, ?Hu, ?Hg, ?Hr.
  - destruct Hperm as [[-> He]|[-> He]].
    + eapply gate_inv_perm; [|exact bk_gate0]. unfold permits. rewrite Hp, Hh. f_equiv.
      pose proof (held_update pe_permit (sy_peers s) k p p' Hk) as Hup. rewrite He in Hup.
      apply Permutation_app_inv_l in Hup. by symmetry.
    + apply gate_inv_given_back. eapply gate_inv_perm; [|exact bk_gate0]. unfold permits. rewrite Hp, Hh.
      pose proof (held_update pe_permit (sy_peers s) k p p' Hk) as Hup. rewrite He in Hup. cbn in *.
      rewrite <- Hup. apply Permutation_app_swap_app.
  - intros j ip a Hj. destruct (bk_handshakes0 j ip a Hj) as (? & Hn & Hs). split; [done|]. split.
    + rewrite lookup_insert_ne; [done|]. intros ->. congruence.
    + apply eq_None_not_Some. rewrite Hsink. by rewrite Hs; intros [].
  - intros j q [[<- <-]|[_ Hj]]%lookup_insert_Some.
    + split; [done|]. apply Hsink. by eapply bk_peers0.
    + destruct (bk_peers0 j q Hj). split; [done|]. by apply Hsink.
  - intros j. destruct (decide (j = k)) as [->|Hne].
    + by rewrite !lookup_insert_eq.
    + by rewrite !lookup_insert_ne.
  - rewrite map_size_insert_Some by eauto. done.
Qed.

(** One connection ends, and its permit goes back. *)
Lemma books_remove max k p s s' :
  books max s -> sy_peers s !! k = Some p ->
  sy_peers s' = delete k (sy_peers s) -> sy_handshakes s' = sy_handshakes s ->
  sy_gauge s' = sy_gauge s - 1 -> sy_gate s' = given_back (peer_admission p) (sy_gate s) ->
  sy_registry s' = delete k (sy_registry s) ->
  dom (sinks (sy_rooms s')) = dom (sinks (sy_rooms s)) ->
  books max s'.
Proof.
  intros [] Hk Hp Hh Hu Hg Hr Hd.
  assert (Hsink : forall k, is_Some (sinks (sy_rooms s') !! k) <-> is_Some (sinks (sy_rooms s) !! k))
    by (intros j; by rewrite <- !elem_of_dom, Hd).
  constructor; rewrite ?Hp, ?Hh, ?Hu, ?Hg, ?Hr.
  - apply gate_inv_given_back. eapply gate_inv_perm; [|exact bk_gate0]. unfold permits. rewrite Hp, Hh.
    rewrite (held_delete _ _ _ _ Hk). cbn [ad_permit peer_admission]. apply Permutation_app_swap_app.
  - intros j ip a Hj. destruct (bk_handshakes0 j ip a Hj) as (? & Hn & Hs). split; [done|]. split.
    + by rewrite lookup_delete_None; right.
    + apply eq_None_not_Some. rewrite Hsink. by rewrite Hs; intros [].
  - intros j q [_ Hj]%lookup_delete_Some. destruct (bk_peers0 j q Hj). split; [done|]. by apply Hsink.
  - intros j. destruct (decide (j = k)) as [->|Hne].
    + by rewrite !lookup_delete_eq.
    + by rewrite !lookup_delete_ne.
  - rewrite bk_gauge0, map_size_delete_Some by eauto.
    assert (size (sy_peers s) <> 0%nat) by (intros Hz%map_size_empty_inv; rewrite Hz in Hk; by rewrite lookup_empty in Hk).
    lia.
Qed.

(* ------------------------------------------------------------------ *)
(** ** Where identities and chat lines come from *)

Abbreviation history := (list (Sys * Action)).
Implicit Types (h : history).

(** In [h], connection [k] sent a chat line of player [q] while its session was live. *)
Inductive spoken h (q : PlayerId) (text : rstr) : Prop :=
| spoken_in s k t p pl tok f rq :
    (s, ReadRound k t) ∈ h -> sy_peers s !! k = Some p ->
    au_player (pe_auth p) = Some pl -> ap_player_id pl = q -> au_session_token (pe_auth p) = Some tok ->
    live (sy_tokens s) (env_instant (tn_env t)) tok = Some q ->
    tn_frame t = Some (Ok (Some f)) -> codec_decode (Codec := GameCodec) f = Ok (InRoomChat rq) ->
    text = trim (pb.chat_text rq) -> spoken h q text.

(** In [h], somebody logged in as the account of player [q], by its name and password, and
    the token drawn was [tok]; or the token was live when the server started. *)
Inductive vouched (s0 : Sys) h (tok : rstr) (q : PlayerId) : Prop :=
| vouched_login s now1 now2 instant rnd rq a row :
    (s, Request (HttpLogin now1 now2 instant rnd rq)) ∈ h ->
    login_accepts now1 (mkLoginCommand (lq_username rq) (lq_password rq)) (app_view s) a row ->
    pl_id row = q -> tok = random_token rnd -> vouched s0 h tok q
| vouched_before t : sy_clock s0 <= t -> live (sy_tokens s0) t tok = Some q -> vouched s0 h tok q.

Lemma spoken_mono h h' q text : h ⊆ h' -> spoken h q text -> spoken h' q text.
Proof. intros Hh []. econstructor; eauto. Qed.

Lemma vouched_mono s0 h h' tok q : h ⊆ h' -> vouched s0 h tok q -> vouched s0 h' tok q.
Proof. intros Hh []; [eapply vouched_login|eapply vouched_before]; eauto. Qed.

(** The nickname a player is registered with. *)
Definition nick (players : gmap Z Player) (q : PlayerId) (n : rstr) : Prop :=
  exists row, players !! q = Some row /\ Nickname.as_str (pl_nickname row) = n.

Definition players s := players_view (sy_store s).

(** The identity of a connection is that of a player who logged in. *)
Definition identified (s0 : Sys) h s p : Prop :=
  forall pl, au_player (pe_auth p) = Some pl ->
    nick (players s) (ap_player_id pl) (ap_nickname pl) /\
    exists tok, au_session_token (pe_auth p) = Some tok /\ vouched s0 h tok (ap_player_id pl).

(** [ow] knows every connection: what it is bound to now, or was when it ended. *)
Record owned (ow : gmap Z PlayerId) s : Prop := mkOwned {
  ow_peer : forall k p, sy_peers s !! k = Some p ->
    ow !! k = ap_player_id <$> au_player (pe_auth p);
  ow_sinks : dom ow ⊆ dom (sinks (sy_rooms s))
}.

Record sys_inv (s0 : Sys) (max : nat) h s : Prop := mkSysInv {
  si_app : consistent (sy_clock s) (app_view s);
  si_books : books max s;
  si_rooms : exists ow, owned ow s /\
    rooms_good ow (nick (players s)) (spoken h) (dom (sinks (sy_rooms s))) (sy_rooms s);
  si_live : forall t tok q, sy_clock s <= t -> live (sy_tokens s) t tok = Some q -> vouched s0 h tok q;
  si_peers : forall k p, sy_peers s !! k = Some p -> identified s0 h s p
}.

(** An action that leaves the application's data alone. *)
Lemma inv_quiet s0 max h s x s1 c ow :
  sys_inv s0 max h s -> sy_clock s <= c -> repo_wf (sy_store s1) -> sy_tokens s1 = sy_tokens s ->
  accounts_view (sy_store s1) = accounts_view (sy_store s) -> players s1 = players s ->
  books max s1 -> owned ow s1 ->
  rooms_good ow (nick (players s)) (spoken (h ++ [x])) (dom (sinks (sy_rooms s1))) (sy_rooms s1) ->
  (forall k p, sy_peers s1 !! k = Some p -> identified s0 (h ++ [x]) s p) ->
  sys_inv s0 max (h ++ [x]) (with_clock c s1).
Proof.
  intros [] Hc Hwf Ht Ha Hp Hb Ho Hr Hi. constructor.
  - apply (consistent_same (sy_clock s) c (app_view s)); try done.
    unfold views. cbn. unfold players in Hp. by rewrite Ha, Hp.
  - destruct Hb. by constructor.
  - exists ow. split; [by destruct Ho; constructor|]. change (players (with_clock c s1)) with (players s1).
    rewrite Hp. exact Hr.
  - cbn. intros t tok q Hle Hl. rewrite Ht in Hl. eapply vouched_mono; [apply sublist_subseteq, sublist_inserts_r; reflexivity|].
    apply (si_live0 t); [lia|done].
  - intros k p Hk pl Hpl. destruct (Hi k p Hk pl Hpl) as [Hn Htok].
    change (players (with_clock c s1)) with (players s1). by rewrite Hp.
Qed.

Lemma history_app h (x : Sys * Action) : h ⊆ h ++ [x].
Proof. intros y Hy. apply elem_of_app. by left. Qed.

Lemma identified_core s0 h x s p p' :
  core p' = core p -> identified s0 h s p -> identified s0 (h ++ [x]) s p'.
Proof.
  unfold core. intros [= _ _ _ Ha _] Hi pl. rewrite Ha. intros Hpl.
  destruct (Hi pl Hpl) as (Hn & tok & ? & Hv). split; [done|]. exists tok. split; [done|].
  eapply vouched_mono; [apply history_app|exact Hv].
Qed.

Lemma rooms_good_later ow named h x D w :
  rooms_good ow named (spoken h) D w -> rooms_good ow named (spoken (h ++ [x])) D w.
Proof. apply rooms_good_weaken; try done. intros q t. apply spoken_mono, history_app. Qed.

Lemma owned_cores ow s s' :
  owned ow s -> same_cores (sy_peers s) (sy_peers s') ->
  dom (sinks (sy_rooms s')) = dom (sinks (sy_rooms s)) -> owned ow s'.
Proof.
  intros [Hp Hs] Hc Hd. constructor; [|by rewrite Hd]. intros k p' Hk.
  destruct (same_cores_lookup _ _ _ _ Hc Hk) as (p & Hk' & He). rewrite (Hp k p Hk').
  by assert (pe_auth p' = pe_auth p) as -> by (unfold core in He; congruence).
Qed.

(** Nothing but sockets, queues and the books moves. *)
Lemma inv_idle s0 max h s x s1 c :
  sys_inv s0 max h s -> sy_clock s <= c -> sy_store s1 = sy_store s -> sy_tokens s1 = sy_tokens s ->
  sy_rooms s1 = sy_rooms s -> same_cores (sy_peers s) (sy_peers s1) -> books max s1 ->
  sys_inv s0 max (h ++ [x]) (with_clock c s1).
Proof.
  intros Hinv Hc Hs Ht Hr Hp Hb. pose proof Hinv as [Happ _ (ow & Ho & Hg) _ Hi].
  apply (inv_quiet s0 max h s x s1 c ow); try done; unfold players; rewrite ?Hs, ?Hr; try done.
  - apply Happ.
  - by eapply owned_cores; [| |rewrite Hr].
  - by apply rooms_good_later.
  - intros k p' Hk. destruct (same_cores_lookup _ _ _ _ Hp Hk) as (p & Hk' & He).
    by eapply identified_core; [|eapply Hi].
Qed.

Lemma inv_admit s0 max h s k ip now c s1 :
  sys_inv s0 max h s -> sy_clock s <= c -> permitted (Admit k ip now) s -> take_socket config k ip now s = Some s1 ->
  sys_inv s0 max (h ++ [(s, Admit k ip now)]) (with_clock c s1).
Proof.
  intros Hinv Hc (_ & Hh & Hp & Hs) Hx. pose proof (si_books _ _ _ _ Hinv) as Hb.
  pose proof (books_admit _ _ _ _ _ _ Hb Hh Hp Hs Hx) as Hb1. unfold take_socket in Hx.
  rewrite acquire_eq in Hx by (by eapply books_reg_ok).
  destruct (fst (permit ip (sy_gate s))); injection Hx as <-; by apply inv_idle with s.
Qed.

Lemma inv_handshake_fails s0 max h s k c s1 :
  sys_inv s0 max h s -> sy_clock s <= c -> handshake_fails k s = Some s1 ->
  sys_inv s0 max (h ++ [(s, HandshakeFails k)]) (with_clock c s1).
Proof.
  intros Hinv Hc Hx. pose proof (si_books _ _ _ _ Hinv) as Hb.
  pose proof (books_handshake_fails _ _ _ _ Hb Hx) as Hb1. unfold handshake_fails in Hx.
  destruct (sy_handshakes s !! k) as [[ip a]|]; [|done].
  rewrite drop_admission_eq in Hx by (exact (books_reg_ok _ _ Hb)). injection Hx as <-.
  by apply inv_idle with s.
Qed.

Lemma books_cores max s m :
  books max s -> same_cores (sy_peers s) m -> books max (with_peers (fun _ => m) s).
Proof. intros Hb Hc. by apply (books_same max s). Qed.

Lemma inv_write s0 max h s k c s1 :
  sys_inv s0 max h s -> sy_clock s <= c -> write_one config k s = Some s1 ->
  sys_inv s0 max (h ++ [(s, WriteOne k)]) (with_clock c s1).
Proof.
  intros Hinv Hc Hx. pose proof (si_books _ _ _ _ Hinv) as Hb. unfold write_one in Hx.
  destruct (sy_peers s !! k) as [p|] eqn:Ek; [|done].
  destruct (write_iter _ _) as [st [rx sock]]. set (p' := mkPeer _ _ _ _ _ _ _ _ _) in Hx.
  assert (Hs1 : s1 = with_peers (insert k p') s) by (destruct st; congruence).
  subst s1. assert (Hsc : same_cores (sy_peers s) (<[k := p']> (sy_peers s))) by (by eapply same_cores_update).
  apply inv_idle with s; try done. by apply (books_cores max s (<[k := p']> (sy_peers s))).
Qed.

Lemma inv_writer_stops s0 max h s k c s1 :
  sys_inv s0 max h s -> sy_clock s <= c -> writer_stops k s = Some s1 ->
  sys_inv s0 max (h ++ [(s, WriterStops k)]) (with_clock c s1).
Proof.
  intros Hinv Hc Hx. pose proof (si_books _ _ _ _ Hinv) as Hb. unfold writer_stops in Hx.
  destruct (sy_peers s !! k) as [p|] eqn:Ek; [|done]. set (p' := set_out _ p) in Hx.
  destruct (_ || _); [|done]. injection Hx as <-.
  assert (Hsc : same_cores (sy_peers s) (<[k := p']> (sy_peers s))) by (by eapply same_cores_update).
  apply inv_idle with s; try done. by apply (books_cores max s (<[k := p']> (sy_peers s))).
Qed.

Lemma inv_notice s0 max h s m c :
  sys_inv s0 max h s -> sy_clock s <= c ->
  sys_inv s0 max (h ++ [(s, Notice m)]) (with_clock c (snd (on_srv (on_conns (broadcast_shutdown m)) s))).
Proof.
  intros Hinv Hc. pose proof (si_books _ _ _ _ Hinv) as Hb. unfold broadcast_shutdown.
  destruct (on_srv _ s) as [n s1] eqn:Eb.
  apply broadcast_same in Eb as (Hs & Ht & Hr & Hg & Hu & Hreg & Hh & Hp & _); [|by eapply books_reg_ok].
  apply inv_idle with s; try done. cbn [snd]. apply (books_same max s); try done. by rewrite Hr.
Qed.

(** The rooms work on their own. *)
Lemma inv_rooms s0 max h s x f c :
  sys_inv s0 max h s -> sy_clock s <= c ->
  (forall ow named said D w, rooms_good ow named said D w -> rooms_good ow named said D (f w)) ->
  sys_inv s0 max (h ++ [x]) (with_clock c (with_rooms f s)).
Proof.
  intros Hinv Hc Hf. pose proof Hinv as [Happ Hb (ow & Ho & Hg) _ Hi].
  pose proof (Hf _ _ _ _ _ Hg) as Hg'. pose proof (proj2 Hg') as [_ [Hd _]].
  apply (inv_quiet s0 max h s x (with_rooms f s) c ow); try done; try apply Happ.
  - by apply (books_same max s).
  - by apply (owned_cores ow s).
  - cbn. rewrite Hd. by apply rooms_good_later.
  - intros k p Hk. by eapply identified_core; [|eapply Hi].
Qed.

(** A new connection, not yet bound. *)
Lemma inv_open s0 max h s k sock i now instant c s1 :
  sys_inv s0 max h s -> sy_clock s <= c -> open_connection config k sock i now instant s = Some s1 ->
  sys_inv s0 max (h ++ [(s, Open k sock i now instant)]) (with_clock c s1).
Proof.
  intros Hinv Hc Hx. pose proof Hinv as [Happ Hb (ow & [Hop Hos] & Hg) _ Hi].
  pose proof (books_open _ _ _ _ _ _ _ _ Hb Hx) as Hb1. unfold open_connection in Hx.
  destruct (sy_handshakes s !! k) as [[ip a]|] eqn:Eh; [|done]. cbv zeta in Hx.
  destruct (bk_handshakes _ _ Hb _ _ _ Eh) as (_ & Hp & Hs).
  set (p := mkPeer ip _ _ _ _ _ _ _ _) in Hx. set (s2 := with_rooms _ _) in Hx.
  assert (Hr2 : reg_ok s2).
  { intros j Hj%(books_reg_ok _ _ Hb). cbn. apply lookup_insert_is_Some'. by right. }
  rewrite (connection_open_eq k _ p s2) in Hx by (done || apply lookup_insert_eq). injection Hx as <-.
  apply (inv_quiet s0 max h s _ _ c ow); try done; try apply Happ.
  - constructor; cbn.
    + intros j q [[<- <-]|[_ Hj]]%lookup_insert_Some; [|by apply Hop].
      cbn. apply not_elem_of_dom. intros Hin%Hos. apply elem_of_dom in Hin as [? ?]. congruence.
    + rewrite dom_insert_L. set_solver.
  - cbn. apply rooms_good_later. eapply rooms_good_sinks; [exact Hg|]. split; [done|].
    intros j sk [[<- <-]|[_ Hj]]%lookup_insert_Some.
    + cbn. destruct (chan_spec (Q := Q) RoomEvent (tg_room_event_capacity config)) as [-> _]. constructor.
    + by eapply (proj2 (rt_sinks _ _ _ _ (proj2 Hg))).
  - intros j q Hj. cbn in Hj. apply lookup_insert_Some in Hj as [[<- <-]|[_ Hj]]; [by intros pl|].
    by eapply identified_core; [|eapply Hi].
Qed.

(* ------------------------------------------------------------------ *)
(** ** A connection takes its turn *)

Hypothesis Hcap : (1 <= command_capacity rooms_config)%nat.

(** The receiving side of the sinks. *)
Lemma inv_sinks s0 max h s f :
  sys_inv s0 max h s ->
  (forall named said D, sinks_true named said D (sinks (sy_rooms s)) ->
     sinks_true named said D (f (sinks (sy_rooms s)))) ->
  sys_inv s0 max h (with_rooms (with_sinks f) s).
Proof.
  intros [Happ Hb (ow & Ho & Hg) Hl Hi] Hf.
  pose proof (Hf _ _ _ (rt_sinks _ _ _ _ (proj2 Hg))) as Hs. pose proof (proj1 Hs) as Hd.
  constructor; try done.
  - by apply (books_same max s).
  - exists ow. split; [by apply (owned_cores ow s)|]. cbn. rewrite Hd. by eapply rooms_good_sinks.
Qed.

Lemma sinks_true_insert named said D (ss : gmap Z (Sink Q)) k sk sk' :
  sinks_true named said D ss -> ss !! k = Some sk -> items (sk_tx sk') ⊆ items (sk_tx sk) ->
  sinks_true named said D (<[k := sk']> ss).
Proof.
  intros [Hd Hs] Hk Hsub. split.
  - rewrite dom_insert_L. apply elem_of_dom_2 in Hk. set_solver.
  - intros i sk2 [[<- <-]|[_ Hi]]%lookup_insert_Some; [|by eapply Hs].
    apply Forall_forall. intros e He. eapply Forall_forall; [by eapply Hs|]. by apply Hsub.
Qed.

Lemma sinks_true_drop named said D (ss : gmap Z (Sink Q)) k :
  sinks_true named said D ss -> sinks_true named said D (alter sink_drop_rx k ss).
Proof.
  intros [Hd Hs]. split; [by rewrite dom_alter_L|]. intros i sk Hi.
  apply lookup_alter_Some in Hi as [(-> & sk0 & Hi & ->)|[_ Hi]]; [|by eapply Hs].
  cbn. destruct (drop_rx_spec _ (sk_tx sk0)) as [-> _]. constructor.
Qed.

Lemma reading_loop_inv max s k p :
  books max s -> repo_wf (sy_store s) -> sy_peers s !! k = Some p -> pe_stage p = Reading ->
  loop_inv (pe_ip p) (loop_view p s).
Proof.
  intros Hb Hwf Hk Hst. split; [done|]. destruct (bk_peers _ _ Hb k p Hk) as [Hok _].
  unfold peer_ok in Hok. rewrite Hst in Hok. cbn. rewrite Hok. unfold is_authenticated. cbn.
  by destruct (au_player (pe_auth p)).
Qed.

Definition stage_after (st : loop_status) : stage := match st with LReturn => Returned | _ => Reading end.

(** The books after a turn. *)
Lemma books_turn max s k p t J st l' :
  books max s -> repo_wf (sy_store s) -> sy_peers s !! k = Some p -> pe_stage p = Reading ->
  st <> LPending -> turn_effect J k (pe_ip p) k t (loop_view p s) st l' ->
  dom (sinks (gw_rooms (lp_gw l'))) = dom (sinks (sy_rooms s)) ->
  books max (put_loop k p (stage_after st) l' s).
Proof.
  intros Hb Hwf Hk Hst Hne [_ _ Hid Hpm] Hd. pose proof (bk_peers _ _ Hb k p Hk) as [Hok _].
  destruct (reading_loop_inv max s k p Hb Hwf Hk Hst) as [_ Hp]. cbn in Hp.
  eapply (books_update max k p (peer_after p l' (stage_after st))); try done.
  - unfold peer_ok, peer_after. cbn. destruct st; [|cbn in Hpm; rewrite (proj1 Hpm)|done]; cbn.
    + destruct Hpm as [-> _]. unfold is_authenticated. by destruct (au_player _).
    + unfold peer_ok in Hok. rewrite Hst in Hok. rewrite Hok. destruct (au_player _); auto.
  - cbn. rewrite insert_id; [done|]. rewrite (bk_registry _ _ Hb), Hk. cbn. unfold registered. rewrite Hst.
    by destruct st.
  - cbn. destruct st; [|left; apply and_comm; exact Hpm|done].
    destruct Hpm as [Hp' Hg']. cbn in Hg'. rewrite Hg', Hp', Hp.
    destruct (is_authenticated (gw_view p s)) eqn:Ea; destruct (is_authenticated (lp_gw l')) eqn:Ea'; auto.
    exfalso. unfold is_authenticated in Ea, Ea'. cbn in Hid.
    destruct Hid as [[Heq _]|[Heq _]]; cbn in Heq, Ea; [rewrite Heq in Ea'|rewrite Heq in Ea]; congruence.
Qed.

(** What a turn of connection [k] brings about for the whole system. *)
Lemma inv_turn s0 max h s x c k p t ow st l' :
  sys_inv s0 max h s -> sy_clock s <= c -> sy_clock s <= env_instant (tn_env t) ->
  sy_peers s !! k = Some p -> pe_stage p = Reading -> st <> LPending -> owned ow s ->
  turn_effect (fun w _ => rooms_good ow (nick (players s)) (spoken (h ++ [x])) (dom (sinks (sy_rooms s))) w)
    k (pe_ip p) k t (loop_view p s) st l' ->
  sys_inv s0 max (h ++ [x]) (with_clock c (put_loop k p (stage_after st) l' s)).
Proof.
  intros Hinv Hc Hct Hk Hst Hne Ho Heff. pose proof Hinv as [Happ Hb _ Hl Hi].
  pose proof Heff as [[Hwf Ha Hp Hg] Htok Hid _]. cbn in Hwf, Ha, Hp, Hg, Htok, Hid.
  pose proof (proj1 (rt_sinks _ _ _ _ (proj2 Hg))) as Hd.
  pose proof (books_turn max s k p t _ st l' Hb (c_wf _ _ Happ) Hk Hst Hne Heff Hd) as Hb1.
  pose proof Ho as [Hop Hos]. destruct Hid as [[Hpl Htk]|[Hnone (tok & q & row & [Hlive Hrow] & Hau)]].
  - apply (inv_quiet s0 max h s x _ c ow); try done.
    + constructor; cbn; [|by rewrite Hd]. intros j r [[<- <-]|[_ Hj]]%lookup_insert_Some; [|by apply Hop].
      cbn. rewrite Hpl. by apply Hop.
    + cbn. by rewrite Hd.
    + intros j r Hj. cbn in Hj. apply lookup_insert_Some in Hj as [[<- <-]|[_ Hj]];
        [|by eapply identified_core; [|eapply Hi]].
      intros pl. cbn. rewrite Hpl, Htk. by eapply (identified_core s0 h x s p p); [|eapply Hi].
  - cbn in Hnone, Hlive, Hrow, Hau.
    assert (Hkow : ow !! k = None) by (rewrite (Hop k p Hk), Hnone; done).
    apply (inv_quiet s0 max h s x _ c (<[k := q]> ow)); try done.
    + constructor; cbn.
      * intros j r [[<- <-]|[Hj Hr]]%lookup_insert_Some; [|rewrite lookup_insert_ne by done; by apply Hop].
        rewrite lookup_insert_eq. cbn. by rewrite Hau.
      * rewrite dom_insert_L, Hd. destruct (bk_peers _ _ Hb k p Hk) as [_ Hsk%elem_of_dom]. set_solver.
    + cbn. rewrite Hd. eapply rooms_good_weaken; [|done|done|exact Hg].
      intros owner. by apply agrees_insert.
    + intros j r Hj. cbn in Hj. apply lookup_insert_Some in Hj as [[<- <-]|[_ Hj]];
        [|by eapply identified_core; [|eapply Hi]].
      intros pl. cbn. rewrite Hau. cbn. intros [= <-]. cbn. split; [by exists row|].
      exists tok. split; [done|]. eapply vouched_mono; [apply history_app|]. by eapply Hl.
Qed.

Lemma tok_wf_reading s0 max h s c :
  sys_inv s0 max h s -> sy_clock s <= c -> tok_wf c (sy_tokens s).
Proof. intros Hinv Hc. eapply tok_wf_later; [exact Hc|]. apply (c_tok _ _ (si_app _ _ _ _ Hinv)). Qed.

Lemma inv_read s0 max h s k t s1 :
  sys_inv s0 max h s -> permitted (ReadRound k t) s -> read_round config rooms_config k t s = Some s1 ->
  sys_inv s0 max (h ++ [(s, ReadRound k t)]) (with_clock (env_instant (tn_env t)) s1).
Proof.
  intros Hinv [Hclock Hfree] Hx. specialize (Hclock _ eq_refl). unfold read_round in Hx.
  destruct (sy_peers s !! k) as [p|] eqn:Hk; [|done]. case_decide as Hst; [|done].
  destruct (read_turn _ _ _ _ _ _ _ _) as [st l'] eqn:Et.
  pose proof Hinv as [Happ Hb (ow & Ho & Hg) _ Hi].
  apply (rooms_good_later _ _ _ (s, ReadRound k t)) in Hg as Hg'.
  apply (read_turn_effect rooms_config
           (fun w _ => rooms_good ow (nick (players s)) (spoken (h ++ [(s, ReadRound k t)])) (dom (sinks (sy_rooms s))) w)) in Et.
  - assert (Hs1 : st <> LPending /\ s1 = put_loop k p (stage_after st) l' s) by (by destruct st; simplify_eq).
    destruct Hs1 as [Hne ->]. by eapply inv_turn.
  - done.
  - eapply reading_loop_inv; [done|apply (c_wf _ _ Happ)|done|done].
  - by eapply tok_wf_reading.
  - exact Hg'.
  - intros f Hf m pl Hd Hpl (pl' & tok & Hpl' & Htok & Hlive). cbn in Hpl, Hpl', Htok, Hlive.
    assert (pl' = pl) as -> by congruence. apply room_calls_good; try done.
    + cbn. by rewrite (ow_peer _ _ Ho k p Hk), Hpl.
    + destruct (Hi k p Hk pl Hpl) as [Hn _]. exact Hn.
    + intros rq ->. eapply (spoken_in _ _ _ s k t p pl tok f rq); try done.
      apply elem_of_app. right. by apply list_elem_of_singleton.
Qed.

Lemma inv_relay s0 max h s k env s1 :
  sys_inv s0 max h s -> permitted (Relay k env) s -> relay k env s = Some s1 ->
  sys_inv s0 max (h ++ [(s, Relay k env)]) (with_clock (env_instant env) s1).
Proof.
  intros Hinv [Hclock _] Hx. specialize (Hclock _ eq_refl). unfold relay in Hx.
  destruct (sy_peers s !! k) as [p|] eqn:Hk; [|done].
  destruct (sinks (sy_rooms s) !! k) as [sk|] eqn:Esk; [|done]. case_decide as Hst; [|done].
  destruct (pop (sk_tx sk)) as [[event tx]|] eqn:Ep; [|done]. cbv zeta in Hx.
  set (s2 := with_rooms _ s) in Hx. destruct (translate _ event _) as [go g] eqn:Et.
  assert (Hinv2 : sys_inv s0 max h s2).
  { apply inv_sinks; [done|]. intros named said D Hs. eapply sinks_true_insert; [done|done|]. cbn.
    apply pop_cases in Ep as [[? _]|(e & l & tx' & [= -> ->] & -> & -> & _)]; [done|]. set_solver. }
  pose proof Hinv2 as [Happ Hb (ow & Ho & Hg) _ _].
  apply translate_spec in Et as [Hout _]; [|by apply (tok_wf_reading s0 max h s2)].
  set (l := mkLoop g _ _ _ _) in Hx. set (x := (s, Relay k env)).
  assert (Heff : turn_effect (fun w _ => rooms_good ow (nick (players s2)) (spoken (h ++ [x])) (dom (sinks (sy_rooms s2))) w)
    k (pe_ip p) k (mkTurn 0 0 false None false 0 env) (loop_view p s2) (if go then LContinue else LReturn) l).
  { assert (Hidle : turn_effect (fun w _ => rooms_good ow (nick (players s2)) (spoken (h ++ [x])) (dom (sinks (sy_rooms s2))) w)
      k (pe_ip p) k (mkTurn 0 0 false None false 0 env) (loop_view p s2) LReturn l).
    { apply effect_out; try done; [apply (c_wf _ _ Happ)|by apply rooms_good_later]. }
    destruct go; [|exact Hidle]. destruct Hidle as [? ? ? _]. constructor; try done.
    destruct (reading_loop_inv max s2 k p Hb (c_wf _ _ Happ) Hk Hst) as [_ Hpm]. destruct Hout as (_ & _ & _ & Hau).
    unfold permit_after, l, is_authenticated in *. cbn in *. rewrite Hau. split; [exact Hpm|].
    by destruct (au_player (pe_auth p)). }
  assert (Hturn : sys_inv s0 max (h ++ [x]) (with_clock (env_instant env)
    (put_loop k p (stage_after (if go then LContinue else LReturn)) l s2))).
  { eapply (inv_turn s0 max h s2 x (env_instant env) k p (mkTurn 0 0 false None false 0 env) ow); try done.
    by destruct go. }
  destruct go; injection Hx as <-; [exact Hturn|].
  apply (inv_sinks s0 max (h ++ [x]) (with_clock (env_instant env) (put_loop k p Returned l s2)) (alter sink_drop_rx k)).
  - exact Hturn.
  - intros named said D. apply sinks_true_drop.
Qed.

End Proofs.
