(* ===== verification/SystemRun.v ===== *)
(** Runs of the server ([System.v]): the end of a connection, the HTTP requests, and what
    holds in every state a run reaches. *)
From S2P Require Import Bootstrap.
From S2P Require Import Prelude Text Tokio Values Account Player Room Session Frame Connection.
From S2P Require Import Protocol App MemRepos TokenStore UseCases RoomActor RoomService Speech.
From S2P Require Import AuthGate RateLimit Gateway ConnLoop Lifecycle Tls Http TurnEffects System SystemProofs.
From Stdlib Require Import Strings.String.
Open Scope Z_scope.
Open Scope list_scope.
Abbreviation length := Datatypes.length.

(** Counting the entries that hold [x]. *)
Lemma count_held {V} (f : V -> option Z) (m : gmap Z V) x :
  count_occ Z.eq_dec (held_by f m) x = size (filter (fun kv => f (snd kv) = Some x) m).
Proof.
  induction m as [|k v m Hk IH] using map_ind; [done|].
  rewrite (proj1 (Permutation_count_occ Z.eq_dec _ _) (held_insert f m k v Hk)), count_occ_app, IH.
  destruct (decide (f v = Some x)) as [He|Hne].
  - rewrite map_filter_insert_True by done. rewrite map_size_insert_None; [|by apply map_lookup_filter_None; left].
    rewrite He. cbn. by destruct (Z.eq_dec x x).
  - rewrite map_filter_insert_False, delete_id by done. destruct (f v) as [y|]; [|done]. cbn.
    destruct (Z.eq_dec y x); [congruence|done].
Qed.

Section Runs.
Context {Q : Type -> Type} `{HQ : Mpsc Q} {S T H A E K : Type} `{HS : Repositories S}
        `{HT : SessionTokenStore T} `{HH : PasswordHasher H} `{HA : AuditLogger A}
        `{HE : EventPublisher E} `{HP : Prost} `{HU : UuidFmt} `{HK : AsyncWrite K}.
Variables (config : TcpGatewayConfig) (rooms_config : RoomServiceConfig) (token_ttl : Z).
Hypothesis Hcap : (1 <= command_capacity rooms_config)%nat.

Abbreviation Sys := (@Sys Q S T H A E K).
Abbreviation Peer := (@Peer Q K).
Abbreviation Action := (@Action K).
Abbreviation act := (@act Q HQ S T H A E K HS HT HH HA HE HP HU HK config rooms_config token_ttl).
Abbreviation history := (list (Sys * Action)).
Implicit Types (s : Sys) (p : Peer) (h : history).

(* ------------------------------------------------------------------ *)
(** ** The end of a connection *)

Lemma alter_insert_const {V} (x : V) (m : gmap Z V) k v :
  m !! k = Some x -> alter (fun _ => v) k m = <[k := v]> m.
Proof.
  intros Hk. apply map_eq. intros i. destruct (decide (i = k)) as [->|Hne].
  - by rewrite lookup_alter_eq, lookup_insert_eq, Hk.
  - by rewrite lookup_alter_ne, lookup_insert_ne.
Qed.

(** Nothing of the application moves when connections end. *)
Lemma inv_ending s0 max h s x s1 c ow :
  sys_inv s0 max h s -> sy_clock s <= c -> sy_store s1 = sy_store s -> sy_tokens s1 = sy_tokens s ->
  books max s1 -> owned ow s ->
  (forall k p, sy_peers s1 !! k = Some p -> exists p0, sy_peers s !! k = Some p0 /\ pe_auth p = pe_auth p0) ->
  rooms_good ow (nick (players s)) (spoken h) (dom (sinks (sy_rooms s))) (sy_rooms s1) ->
  sys_inv s0 max (h ++ [x]) (with_clock c s1).
Proof.
  intros Hinv Hc Hs Ht Hb [Hop Hos] Hp Hg. pose proof Hinv as [Happ _ _ _ Hi].
  pose proof (proj1 (rt_sinks _ _ _ _ (proj2 Hg))) as Hd.
  apply (inv_quiet s0 max h s x s1 c ow); unfold players; rewrite ?Hs, ?Hd; try done.
  - apply (c_wf _ _ Happ).
  - constructor; [|by rewrite Hd]. intros k p (p0 & Hk & ->)%Hp. by apply Hop.
  - by apply rooms_good_later.
  - intros k p (p0 & Hk & Ha)%Hp pl. rewrite Ha. intros Hpl.
    destruct (Hi k p0 Hk pl Hpl) as (Hn & tok & Htok & Hv). split; [done|]. exists tok. split; [done|].
    eapply vouched_mono; [apply history_app|exact Hv].
Qed.

Lemma inv_clean_up s0 max h s k rounds now c s1 :
  sys_inv s0 max h s -> sy_clock s <= c -> clean_up k rounds now s = Some s1 ->
  sys_inv s0 max (h ++ [(s, CleanUp k rounds now)]) (with_clock c s1).
Proof.
  intros Hinv Hc Hx. pose proof Hinv as [Happ Hb (ow & Ho & Hg) _ _]. unfold clean_up in Hx.
  destruct (sy_peers s !! k) as [p|] eqn:Hk; [|done]. case_decide as Hst; [|done]. cbv zeta in Hx.
  destruct (leaving_eq _ k p rounds now s
              (clean_ok_cleaned _ p rounds now s (clean_ok_good ow (nick (players s)) (spoken h) (dom (sinks (sy_rooms s)))) Hg)
              (books_reg_ok _ _ Hb)) as (r & Hr & He).
  rewrite He in Hx. set (p1 := mkPeer _ _ _ _ _ _ _ _ _) in Hx. set (s2 := with_peers _ _) in Hx.
  injection Hx as <-.
  apply (inv_sinks s0 max _ (with_clock c s2) (alter sink_drop_rx k)); [|intros ???; apply sinks_true_drop].
  apply (inv_ending s0 max h s _ s2 c ow); try done.
  - eapply (books_update max k p p1 _ _ s s2); try done.
    + cbn. apply (alter_insert_const true). by rewrite (bk_registry _ _ Hb k), Hk; cbn; unfold registered; rewrite Hst.
    + cbn. apply (proj1 (rt_sinks _ _ _ _ (proj2 Hr))).
    + cbn. by right.
  - intros i q Hi. cbn in Hi. apply lookup_insert_Some in Hi as [[<- <-]|[_ Hi]]; eauto.
Qed.

Lemma inv_finish s0 max h s k c s1 :
  sys_inv s0 max h s -> sy_clock s <= c -> finish_connection k s = Some s1 ->
  sys_inv s0 max (h ++ [(s, Finish k)]) (with_clock c s1).
Proof.
  intros Hinv Hc Hx. pose proof Hinv as [Happ Hb (ow & Ho & Hg) _ _]. unfold finish_connection in Hx.
  destruct (sy_peers s !! k) as [p|] eqn:Hk; [|done]. case_decide as Hst; [|done].
  rewrite guard_drop_eq in Hx by (done || by eapply books_reg_ok). injection Hx as <-.
  apply (inv_ending s0 max h s _ _ c ow); try done.
  - eapply (books_remove max k p s); try done. destruct (bk_peers _ _ Hb k p Hk) as [Hok _].
    unfold peer_ok in Hok. rewrite Hst in Hok. unfold given_back, peer_admission. cbn. by rewrite Hok.
  - intros i q Hi. cbn in Hi. apply lookup_delete_Some in Hi as [_ Hi]. eauto.
Qed.

(** The state an abort leaves. *)
Lemma abort_inv max k s s1 :
  books max s -> abort k s = Some s1 ->
  exists p, sy_peers s !! k = Some p /\ (pe_stage p = Reading \/ pe_stage p = Returned) /\
    s1 = with_rooms (with_sinks (alter sink_drop_rx k))
           (with_peers (if bound p then insert k (detached p) else delete k)
             (with_srv (sy_rooms s) (given_back (peer_admission p) (sy_gate s))
                (if bound p then sy_gauge s else sy_gauge s - 1)
                (if bound p then sy_registry s else delete k (sy_registry s)) s)).
Proof.
  intros Hb Hx. unfold abort in Hx. destruct (sy_peers s !! k) as [p|] eqn:Hk; [|done].
  case_decide as Hst; [|done]. exists p. split; [done|]. split; [done|].
  rewrite abort_eq in Hx; [by injection Hx as <-| |by eapply books_reg_ok].
  destruct Hst as [-> | ->]; done.
Qed.

Lemma inv_abort s0 max h s k c s1 :
  sys_inv s0 max h s -> sy_clock s <= c -> abort k s = Some s1 ->
  sys_inv s0 max (h ++ [(s, Abort k)]) (with_clock c s1).
Proof.
  intros Hinv Hc Hx. pose proof Hinv as [Happ Hb (ow & Ho & Hg) _ _].
  apply (abort_inv max) in Hx as (p & Hk & Hst & ->); [|done]. set (s2 := with_peers _ _).
  assert (Hreg : registered p = true) by (unfold registered; by destruct Hst as [-> | ->]).
  apply (inv_sinks s0 max _ (with_clock c s2) (alter sink_drop_rx k)); [|intros ???; apply sinks_true_drop].
  apply (inv_ending s0 max h s _ s2 c ow); try done; unfold s2; destruct (bound p) eqn:Ebd.
  - eapply (books_update max k p (detached p)); try done.
    + cbn. rewrite insert_id; [done|]. by rewrite (bk_registry _ _ Hb k), Hk; cbn; rewrite Hreg.
    + cbn. by right.
  - by eapply (books_remove max k p s).
  - intros i q Hi. cbn in Hi. apply lookup_insert_Some in Hi as [[<- <-]|[_ Hi]]; eauto.
  - intros i q Hi. cbn in Hi. apply lookup_delete_Some in Hi as [_ Hi]. eauto.
Qed.

Lemma inv_spawned s0 max h s k rounds now c s1 :
  sys_inv s0 max h s -> sy_clock s <= c -> run_spawned k rounds now s = Some s1 ->
  sys_inv s0 max (h ++ [(s, RunSpawned k rounds now)]) (with_clock c s1).
Proof.
  intros Hinv Hc Hx. pose proof Hinv as [Happ Hb (ow & Ho & Hg) _ _]. unfold run_spawned in Hx.
  destruct (sy_peers s !! k) as [p|] eqn:Hk; [|done]. case_decide as Hst; [|done].
  destruct (spawned_eq _ k p rounds now s
              (clean_ok_cleaned _ p rounds now s (clean_ok_good ow (nick (players s)) (spoken h) (dom (sinks (sy_rooms s)))) Hg)
              (books_reg_ok _ _ Hb)) as (r & Hr & He).
  rewrite He in Hx. injection Hx as <-.
  apply (inv_ending s0 max h s _ _ c ow); try done.
  - eapply (books_remove max k p s); try done; [|apply Hr].
    destruct (bk_peers _ _ Hb k p Hk) as [Hok _]. unfold peer_ok in Hok. rewrite Hst in Hok.
    unfold given_back, peer_admission. cbn. by rewrite Hok.
  - intros i q Hi. cbn in Hi. apply lookup_delete_Some in Hi as [_ Hi]. eauto.
Qed.

(* ------------------------------------------------------------------ *)
(** ** HTTP requests *)

Abbreviation World := (World S T H A E).

(** Nicknames stay. *)
Definition nicks_kept (m m' : gmap Z Player) : Prop := forall q n, nick m q n -> nick m' q n.

Lemma nicks_login (m : gmap Z Player) i (p0 : Player) t :
  m !! i = Some p0 -> nicks_kept m (<[i := Player.record_login p0 t]> m).
Proof.
  intros Hi q n (row & Hq & Hn). destruct (decide (q = i)) as [->|Hne].
  - exists (Player.record_login p0 t). rewrite lookup_insert_eq. split; [done|].
    assert (row = p0) as -> by congruence. done.
  - exists row. by rewrite lookup_insert_ne.
Qed.

Lemma nicks_added (m : gmap Z Player) i (p : Player) : m !! i = None -> nicks_kept m (<[i := p]> m).
Proof.
  intros Hi q n (row & Hq & Hn). exists row. rewrite lookup_insert_ne; [done|]. intros ->. congruence.
Qed.

(** What a request does to the application. *)
Record request_effect (c : Z) (rq : HttpRequest) (w w' : World) : Prop := mkRequestEffect {
  re_consistent : consistent c w';
  re_nicks : nicks_kept (players_view (w_store w)) (players_view (w_store w'));
  re_live : forall t tok q, c <= t -> live (w_tokens w') t tok = Some q ->
    live (w_tokens w) t tok = Some q \/
    exists now1 now2 instant rnd lrq a row,
      rq = HttpLogin now1 now2 instant rnd lrq /\
      login_accepts now1 (mkLoginCommand (lq_username lrq) (lq_password lrq)) w a row /\
      pl_id row = q /\ tok = random_token rnd
}.

Lemma api_try {X Y} (m : io World (result X AppError)) (f : X -> io World (result Y ApiError)) w r w' :
  (forall x w0, snd (f x w0) = w0) ->
  io_try (api m) f w = (r, w') -> w' = snd (m w).
Proof.
  intros Hf Hx. unfold io_try, api, io_bind, io_ret in Hx. destruct (m w) as [[x|e] w1]; cbn in Hx.
  - pose proof (Hf x w1) as He. by rewrite Hx in He.
  - by injection Hx as _ <-.
Qed.

Lemma register_effect c aid pid now1 now2 rq w :
  consistent c w -> is_uuid pid ->
  request_effect c (HttpRegister aid pid now1 now2 rq) w (snd (post_register aid pid now1 now2 rq w)).
Proof.
  intros Hc Hpid. destruct (post_register aid pid now1 now2 rq w) as [r w'] eqn:Hx.
  apply api_try in Hx as ->; [|done]. set (cmd := mkRegisterCommand _ _ _).
  destruct (register_execute aid pid now1 now2 cmd w) as [res w'] eqn:Er. cbn [snd].
  pose proof Er as Hr. apply register_spec in Hr as (_ & Htk & _ & Hpost); [|apply Hc].
  assert (Hadd : forall u n, UseCases.registered aid pid now1 now2 cmd w u n w' ->
    nicks_kept (players_view (w_store w)) (players_view (w_store w'))).
  { intros u n (hash & _ & _ & _ & _ & _ & _ & Hfree & _ & _ & ->). by apply nicks_added. }
  constructor.
  - by eapply consistent_register.
  - destruct res as [rr|e]; [destruct Hpost as (u & n & Hreg & _); eauto|].
    destruct Hpost as [Hv|(_ & u & n & Hreg)]; [|eauto]. unfold views in Hv. injection Hv as _ ->. by intros ?.
  - intros t tok q _. rewrite Htk. by left.
Qed.

Lemma login_effect c now1 now2 instant rnd rq w :
  consistent c w -> c <= instant -> unused instant (w_tokens w) (random_token rnd) ->
  request_effect instant (HttpLogin now1 now2 instant rnd rq) w
    (snd (post_login token_ttl now1 now2 instant rnd rq w)).
Proof.
  intros Hc Hle Hun. destruct (post_login token_ttl now1 now2 instant rnd rq w) as [r w'] eqn:Hx.
  apply api_try in Hx as ->; [|done]. set (cmd := mkLoginCommand _ _).
  destruct (login_execute token_ttl now1 now2 instant rnd cmd w) as [res w'] eqn:El. cbn [snd].
  pose proof El as Hl. apply login_spec in Hl as (_ & _ & _ & _ & Hpost);
    [|apply Hc|apply (tok_wf_later c); [done|apply Hc]|done|apply Hc].
  assert (Hrec : forall a (p : Player), login_accepts now1 cmd w a p ->
    nicks_kept (players_view (w_store w)) (<[pl_id p := Player.record_login p (kept_time now2)]> (players_view (w_store w)))).
  { intros a p (_ & _ & _ & _ & Hp & _). by apply nicks_login. }
  constructor; [by eapply consistent_login| |]; destruct res as [lr|e].
  - destruct Hpost as (a & p & Ha & -> & _). eauto.
  - destruct Hpost as [[_ ->]|(a & p & Ha & -> & _)]; [by intros ?|eauto].
  - destruct Hpost as (a & p & Ha & _ & -> & Hlive). intros t tok q Ht. rewrite Hlive by done. cbn [lr_token].
    case_decide as Htok.
    + destruct (_ <? _); [|done]. intros [= <-]. right. by exists now1, now2, instant, rnd, rq, a, p.
    + case_decide; [done|]. by left.
  - destruct Hpost as [[-> _]|(a & p & Ha & _ & Hlive)]; [by left|].
    intros t tok q Ht Hq. destruct (Hlive t tok Ht) as [He|[[_ He]|[Hb He]]].
    + left. by rewrite <- He.
    + congruence.
    + right. apply bool_decide_eq_true in Hb. assert (q = pl_id p) as -> by congruence.
      by exists now1, now2, instant, rnd, rq, a, p.
Qed.

Lemma me_effect c now header w :
  consistent c w -> c <= now -> request_effect now (HttpMe now header) w (snd (get_me now header w)).
Proof.
  intros Hc Hle. destruct (get_me now header w) as [r w'] eqn:Hx. cbn [snd].
  assert (Hq : repo_wf (w_store w') /\ views w' = views w /\ w_tokens w' = w_tokens w).
  { unfold get_me in Hx.
    assert (Htk : tok_wf now (w_tokens w)) by (apply (tok_wf_later c); [done|apply Hc]).
    pose proof (c_wf _ _ Hc) as Hwf. unfold views.
    apply io_try_inv in Hx as [(p & w1 & Ha & Hx)|(e & Ha & ->)];
      apply auth_user_spec in Ha as (Hs & Ht & _); try done; [|by rewrite Hs, Ht].
    apply api_try in Hx as ->; [|done]. destruct (profile_execute p w1) as [o w2] eqn:Ep.
    apply profile_spec in Ep as ((? & Hv & Htk2 & _) & _); [|by rewrite Hs]. unfold views in Hv. cbn [snd].
    by rewrite Hv, Htk2, Hs, Ht. }
  destruct Hq as (Hwf & Hv & Ht). constructor.
  - by apply (consistent_same c now w).
  - unfold views in Hv. injection Hv as _ ->. by intros ?.
  - intros t tok q _. rewrite Ht. by left.
Qed.

Lemma inv_request s0 max h s rq s1 :
  sys_inv s0 max h s -> permitted (Request (K := K) rq) s -> serve_http token_ttl rq s = Some s1 ->
  sys_inv s0 max (h ++ [(s, Request rq)])
    (with_clock (default (sy_clock s) (reading (Request (K := K) rq))) s1).
Proof.
  intros Hinv [Hclock Hperm] Hx. injection Hx as <-. pose proof Hinv as [Happ Hb (ow & Ho & Hg) Hl Hi].
  set (c := default _ _). set (w := app_view s) in *.
  assert (Hc : sy_clock s <= c).
  { unfold c. destruct (reading (Request rq)) as [c1|]; [by apply Hclock|reflexivity]. }
  assert (Heff : request_effect c rq w (snd (http token_ttl rq w))).
  { unfold http, io_bind, io_ret. unfold c in *. destruct rq as [aid pid now1 now2 rq|now1 now2 instant rnd rq|now header]; cbn in *.
    - pose proof (register_effect _ aid pid now1 now2 rq w Happ Hperm) as He. by destruct (post_register _ _ _ _ _ _).
    - pose proof (login_effect _ now1 now2 instant rnd rq w Happ Hc Hperm) as He. by destruct (post_login _ _ _ _ _ _ _).
    - pose proof (me_effect _ now header w Happ Hc) as He. by destruct (get_me _ _ _). }
  destruct (http token_ttl rq w) as [r w']. cbn [snd] in *. destruct Heff as [Hcons Hn Hlive].
  constructor.
  - destruct Hcons. by constructor.
  - apply (books_same max s); try done; apply Hb.
  - exists ow. split; [by destruct Ho; constructor|]. destruct Hg as [Hgi Hgt].
    apply rooms_good_later. eapply (rooms_good_weaken ow ow (nick (players s))); [done|exact Hn|done|].
    split; [|by destruct Hgt; constructor]. intros owner Ha. destruct (Hgi owner Ha). by constructor.
  - intros t tok q Ht Hq. destruct (Hlive t tok q Ht Hq) as [Hold|(now1 & now2 & instant & rnd & lrq & a & row & -> & Hacc & Hid & Htok)].
    + eapply vouched_mono; [apply history_app|]. apply (Hl t); [|done]. cbn in Ht. by transitivity c.
    + eapply vouched_login; [|exact Hacc|done|done]. apply elem_of_app. right. by apply list_elem_of_singleton.
  - intros k p Hk pl Hpl. destruct (Hi k p Hk pl Hpl) as (Hnick & tok & Htok & Hv). split; [by apply Hn|].
    exists tok. split; [done|]. eapply vouched_mono; [apply history_app|exact Hv].
Qed.

(* ------------------------------------------------------------------ *)
(** ** Every reachable state *)

Abbreviation run := (@System.run Q HQ S T H A E K HS HT HH HA HE HP HU HK config rooms_config token_ttl).

Lemma inv_act s0 max h s a s1 :
  sys_inv s0 max h s -> permitted a s -> act a s = Some s1 ->
  sys_inv s0 max (h ++ [(s, a)]) (with_clock (default (sy_clock s) (reading a)) s1).
Proof.
  intros Hinv Hp Hx. assert (Hle : sy_clock s <= sy_clock s) by reflexivity.
  destruct a; cbn [System.act] in Hx; try injection Hx as <-; cbn [reading default from_option id].
  - by eapply inv_admit.
  - by eapply inv_handshake_fails.
  - by eapply inv_open.
  - by eapply inv_read.
  - by eapply inv_relay.
  - by eapply inv_write.
  - by eapply inv_writer_stops.
  - by eapply inv_clean_up.
  - by eapply inv_finish.
  - by eapply inv_abort.
  - by eapply inv_spawned.
  - apply inv_rooms; [done|done|]. intros. by apply actor_turn_good.
  - by eapply inv_request.
  - by apply inv_notice.
  - apply inv_rooms; [done|done|]. intros. by apply close_all_good.
Qed.

Lemma inv_start (store : S) (tokens : T) (hasher : H) (audit : A) (events : E) max clock :
  consistent clock (mkWorld store tokens hasher audit events) ->
  let s0 : Sys := start store tokens hasher audit events max clock in sys_inv s0 max [] s0.
Proof.
  intros Happ s0. constructor.
  - exact Happ.
  - constructor; cbn; try done. apply gate_init_inv.
  - exists ∅. split; [by constructor|]. split; [intros owner _; by constructor|].
    constructor; [done|]. split; [reflexivity|done].
  - intros t tok q Ht Hq. by apply (vouched_before s0 _ tok q t).
  - done.
Qed.

Lemma inv_run s0 max h s : sys_inv s0 max [] s0 -> run s0 h s -> sys_inv s0 max h s.
Proof. intros H0. induction 1; [done|]. by apply inv_act. Qed.

(** The state before an action of the history was reached by what came before. *)
Lemma run_before s0 h s s1 a :
  run s0 h s -> (s1, a) ∈ h -> exists h1, run s0 h1 s1 /\ permitted a s1 /\ h1 ⊆ h.
Proof.
  induction 1 as [|h s b s2 Hrun IH Hperm Hact]; [by intros Hin%not_elem_of_nil|].
  intros [Hin|Heq%list_elem_of_singleton]%elem_of_app.
  - destruct (IH Hin) as (h1 & ? & ? & Hs). exists h1. split_and!; try done.
    etransitivity; [exact Hs|apply history_app].
  - injection Heq as -> ->. exists h. split_and!; try done. apply history_app.
Qed.

Section Server.
Variables (store : S) (tokens : T) (hasher : H) (audit : A) (events : E) (max : nat) (clock : Z).
Abbreviation s0 := (@start Q S T H A E K store tokens hasher audit events max clock).
Hypothesis Happ : consistent clock (mkWorld store tokens hasher audit events).

(** Handshakes under way from an address, and connections that hold its permit. *)
Definition handshakes_from (ip : IpAddr) s : nat := size (filter (fun kv => fst (snd kv) = ip) (sy_handshakes s)).
Definition unbound_from (ip : IpAddr) s : nat :=
  size (filter (fun kv => pe_permit (snd kv) = Some ip) (sy_peers s)).

(** C3: The counters of the running server are exact.  In every state a run reaches
    from the start, the gate's count of an address is the number of its handshakes under
    way and of its connections that still hold its permit, and never above the limit; a
    connection in its read loop holds the permit of its address exactly while it is not
    bound; the registry lists exactly the open connections, with a live sender until they
    drain, and those whose task was aborted until the clean-up it left has run; and the
    gauge is their number. *)
Theorem server_books_balance h s (Hrun : run s0 h s) :
  (forall ip, unauth_count (sy_gate s) ip = (handshakes_from ip s + unbound_from ip s)%nat /\
              (unauth_count (sy_gate s) ip <= max)%nat) /\
  (forall k p, sy_peers s !! k = Some p -> pe_stage p = Reading ->
     pe_permit p = match au_player (pe_auth p) with Some _ => None | None => Some (pe_ip p) end) /\
  (forall k, sy_registry s !! k = (fun p => negb (bool_decide (pe_stage p = Draining))) <$> sy_peers s !! k) /\
  sy_gauge s = Z.of_nat (size (sy_peers s)).
Proof.
  destruct (si_books _ _ _ _ (inv_run _ _ _ _ (inv_start _ _ _ _ _ max _ Happ) Hrun)) as [(_ & Hc & Hle & _) Hh Hp Hr Hg].
  cbn in Hc, Hle. split; [|split; [|by split]].
  - intros ip. rewrite Hc. split; [|apply Hle]. unfold alive, permits. rewrite count_occ_app, !count_held. f_equal.
    unfold handshakes_from. f_equal. apply map_filter_ext. intros k [ip' a] Hk. cbn.
    destruct (Hh k ip' a Hk) as [-> _]. split; congruence.
  - intros k p Hk Hst. destruct (Hp k p Hk) as [Hok _]. unfold peer_ok in Hok. by rewrite Hst in Hok.
Qed.

(** C4: Only players who logged in act.  In every state a run reaches, a connection
    bound to a player carries that player's registered nickname and a token for which the
    history holds an accepted login, by name and password, to the account of that player
    (or the token was live when the server started). *)
Theorem identities_come_from_logins h s k p pl (Hrun : run s0 h s)
  (Hk : sy_peers s !! k = Some p) (Hpl : au_player (pe_auth p) = Some pl) :
  (exists row, players_view (sy_store s) !! ap_player_id pl = Some row /\
     Nickname.as_str (pl_nickname row) = ap_nickname pl) /\
  exists tok, au_session_token (pe_auth p) = Some tok /\ vouched s0 h tok (ap_player_id pl).
Proof.
  exact (si_peers _ _ _ _ (inv_run _ _ _ _ (inv_start _ _ _ _ _ max _ Happ) Hrun) k p Hk pl Hpl).
Qed.

(** In [h], a chat line of player [q] was read from a connection bound to [q] under the
    live token [tok]. *)
Definition chat_sent h (q : PlayerId) (text : rstr) (tok : rstr) : Prop :=
  exists s1 k t p pl f rq,
    (s1, ReadRound k t) ∈ h /\ sy_peers s1 !! k = Some p /\ au_player (pe_auth p) = Some pl /\
    ap_player_id pl = q /\ au_session_token (pe_auth p) = Some tok /\
    live (sy_tokens s1) (env_instant (tn_env t)) tok = Some q /\
    tn_frame t = Some (Ok (Some f)) /\ codec_decode (Codec := GameCodec) f = Ok (InRoomChat rq) /\
    text = trim (pb.chat_text rq).

Lemma spoken_vouched h s q text :
  run s0 h s -> spoken h q text -> exists tok, chat_sent h q text tok /\ vouched s0 h tok q.
Proof.
  intros Hrun [s1 k t p pl tok f rq Hin Hk Hpl <- Htok Hlive Hf Hd ->]. exists tok. split.
  - by exists s1, k, t, p, pl, f, rq.
  - destruct (run_before _ _ _ _ _ Hrun Hin) as (h1 & Hrun1 & _ & Hsub).
    eapply vouched_mono; [exact Hsub|].
    destruct (si_peers _ _ _ _ (inv_run _ _ _ _ (inv_start _ _ _ _ _ max _ Happ) Hrun1) k p Hk pl Hpl)
      as (_ & tok' & Htok' & Hv). congruence.
Qed.

(** C2: Nobody is misquoted.  In every state a run reaches, each chat line waiting in
    the queue of any connection names its author by the registered nickname and is the
    trimmed text of a request that was read from a connection bound to the author, at a
    moment when the token of that connection was live; and that token was vouched for by a
    login as the author.  An announced member is named by the registered nickname too. *)
Theorem nobody_is_misquoted h s k sk e (Hrun : run s0 h s)
  (Hk : sinks (sy_rooms s) !! k = Some sk) (He : e ∈ items (sk_tx sk)) :
  match e with
  | MemberJoined _ q n => nick (players_view (sy_store s)) q n
  | EvChat _ q n text =>
      nick (players_view (sy_store s)) q n /\ exists tok, chat_sent h q text tok /\ vouched s0 h tok q
  | _ => True
  end.
Proof.
  destruct (si_rooms _ _ _ _ (inv_run _ _ _ _ (inv_start _ _ _ _ _ max _ Happ) Hrun)) as (ow & _ & _ & Htrue).
  destruct (rt_sinks _ _ _ _ Htrue) as [_ Hs]. pose proof (Hs k sk Hk) as Hall.
  rewrite Forall_forall in Hall. specialize (Hall e He). destruct e; try done.
  destruct Hall as [Hn Hsp]. split; [done|]. by eapply spoken_vouched.
Qed.

(** C5: Rooms belong to their members.  In every state a run reaches, each room has
    distinct members within its capacity and its actor's table lists the same players; a
    member goes by its registered nickname; and the connection whose queue receives the
    events of a member is bound to that member as long as it is open. *)
Theorem rooms_belong_to_their_members h s r t (Hrun : run s0 h s)
  (Hr : tasks (sy_rooms s) !! r = Some t) :
  Room.wf (ac_room (at_actor t)) /\ rm_id (ac_room (at_actor t)) = r /\
  (forall q, is_Some (ac_members (at_actor t) !! q) <-> q ∈ rm_members (ac_room (at_actor t))) /\
  forall q m, ac_members (at_actor t) !! q = Some m ->
    nick (players_view (sy_store s)) q (mb_nickname m) /\
    forall p, sy_peers s !! mb_sink m = Some p ->
      exists pl, au_player (pe_auth p) = Some pl /\ ap_player_id pl = q.
Proof.
  destruct (si_rooms _ _ _ _ (inv_run _ _ _ _ (inv_start _ _ _ _ _ max _ Happ) Hrun)) as (ow & Ho & Hinv & Htrue).
  assert (Htask : forall d, task_ok (fun k => default d (ow !! k)) r t).
  { intros d. apply Hinv; [|done]. intros k q Hk. by rewrite Hk. }
  split; [apply (tk_actor _ _ _ (Htask 0))|]. split; [apply (Htask 0)|].
  split; [apply (tk_actor _ _ _ (Htask 0))|]. intros q m Hm.
  split; [exact (proj1 (rt_tasks _ _ _ _ Htrue r t Hr) q m Hm)|]. intros p Hp.
  pose proof (ai_owner _ _ (tk_actor _ _ _ (Htask (q + 1))) q m Hm) as Hq. cbn in Hq.
  rewrite (ow_peer _ _ Ho _ _ Hp) in Hq. destruct (au_player (pe_auth p)) as [pl|]; cbn in Hq; [eauto|lia].
Qed.

(* ------------------------------------------------------------------ *)
(** ** Shutdown *)

(** The steps that the shutdown signal leaves to a connection. *)
Definition stage_weight (st : stage) : nat := match st with Reading => 3 | Returned => 2 | Draining | Detached => 1 end.
Definition peers_work (m : gmap Z Peer) : nat :=
  map_fold (fun _ p n => stage_weight (pe_stage p) + n)%nat 0%nat m.
Definition open_work s : nat := (size (sy_handshakes s) + peers_work (sy_peers s))%nat.

Lemma work_delete m k p : m !! k = Some p -> peers_work m = (stage_weight (pe_stage p) + peers_work (delete k m))%nat.
Proof. intros Hk. unfold peers_work. by rewrite (map_fold_delete_L _ _ k p) by (intros; lia || done). Qed.

Lemma work_update m k p p' :
  m !! k = Some p ->
  (peers_work (<[k := p']> m) + stage_weight (pe_stage p) = stage_weight (pe_stage p') + peers_work m)%nat.
Proof.
  intros Hk. rewrite (work_delete m k p Hk), (work_delete (<[k := p']> m) k p') by apply lookup_insert_eq.
  rewrite delete_insert_eq. lia.
Qed.

Lemma work_bound m : (peers_work m <= 3 * size m)%nat.
Proof.
  induction m as [|k p m Hk IH] using map_ind; [done|].
  rewrite map_size_insert_None by done. rewrite (work_delete _ k p) by apply lookup_insert_eq.
  rewrite delete_insert_id by done. destruct (pe_stage p); cbn; lia.
Qed.

(** A round of the read loop that finds the shutdown signal. *)
Definition shutdown_turn s : Turn :=
  mkTurn 0 0 true None false 0 (mkEnv 0 0 (sy_clock s) (fresh (dom (tasks (sy_rooms s)))) true).

(** The next step of an orderly shutdown. *)
Definition drain_action s : option Action :=
  match map_to_list (sy_handshakes s), map_to_list (sy_peers s) with
  | (k, _) :: _, _ => Some (HandshakeFails k)
  | [], (k, p) :: _ =>
      Some (match pe_stage p with
            | Reading => ReadRound k (shutdown_turn s)
            | Returned => CleanUp k 0 0
            | Draining => Finish k
            | Detached => RunSpawned k 0 0
            end)
  | [], [] => None
  end.

Lemma drain_step h s a :
  sys_inv s0 max h s -> drain_action s = Some a ->
  permitted a s /\ exists s1, act a s = Some s1 /\ (open_work s1 < open_work s)%nat.
Proof.
  intros Hinv Ha. pose proof (books_reg_ok _ _ (si_books _ _ _ _ Hinv)) as Hr. unfold drain_action in Ha.
  destruct (map_to_list (sy_handshakes s)) as [|[k x] l] eqn:Eh.
  2: { injection Ha as <-. split; [by split|].
       assert (Hk : sy_handshakes s !! k = Some x) by (apply elem_of_map_to_list; rewrite Eh; left).
       destruct x as [ip ad]. eexists. cbn [System.act]. unfold handshake_fails. rewrite Hk. split; [reflexivity|].
       rewrite drop_admission_eq by done. unfold open_work. cbn.
       rewrite map_size_delete_Some by done.
       assert (size (sy_handshakes s) <> 0%nat); [|lia].
       intros Hz%map_size_empty_inv. rewrite Hz in Hk. by rewrite lookup_empty in Hk. }
  destruct (map_to_list (sy_peers s)) as [|[k p] l] eqn:Ep; [done|]. injection Ha as <-.
  assert (Hk : sy_peers s !! k = Some p) by (apply elem_of_map_to_list; rewrite Ep; left). clear Eh Ep.
  destruct (pe_stage p) eqn:Est.
  - split; [split; [by intros c [= <-]|]|].
    { apply not_elem_of_dom. apply is_fresh. }
    cbn [System.act]. unfold read_round. rewrite Hk, decide_True by done.
    destruct (read_turn _ _ _ _ _ _ _ _) as [st l'] eqn:Et.
    assert (st = LReturn) as ->.
    { unfold read_turn in Et. destruct (ob_is_closed _); [congruence|]. destruct (sink_failed _ _); [congruence|].
      cbn in Et. unfold say_and_return in Et. destruct (ctx_try_send _ _). congruence. }
    eexists. split; [reflexivity|]. unfold open_work. cbn.
    pose proof (work_update (sy_peers s) k p (peer_after p l' Returned) Hk) as Hw. rewrite Est in Hw. cbn in Hw. lia.
  - split; [by split|]. cbn [System.act]. unfold clean_up. rewrite Hk, decide_True by done.
    eexists. split; [reflexivity|].
    destruct (leaving_eq (fun _ => True) k p 0 0 s) as (r & _ & He); try done. rewrite He.
    unfold open_work. cbn.
    match goal with |- context [<[k := ?p1]> (sy_peers s)] => pose proof (work_update (sy_peers s) k p p1 Hk) as Hw end.
    rewrite Est in Hw. cbn in Hw. lia.
  - split; [by split|]. cbn [System.act]. unfold finish_connection. rewrite Hk, decide_True by done.
    eexists. split; [reflexivity|]. rewrite guard_drop_eq by done. unfold open_work. cbn.
    rewrite (work_delete _ k p Hk), Est. cbn. lia.
  - split; [by split|]. cbn [System.act]. unfold run_spawned. rewrite Hk, decide_True by done.
    eexists. split; [reflexivity|].
    destruct (spawned_eq (fun _ => True) k p 0 0 s) as (r & _ & He); try done. rewrite He.
    unfold open_work. cbn. rewrite (work_delete _ k p Hk), Est. cbn. lia.
Qed.

(** Draining one action after the other. *)
Lemma drain_all : forall n h s,
  sys_inv s0 max h s -> (open_work s <= n)%nat -> run s0 h s ->
  exists h' s', run s0 (h ++ h') s' /\ (length h' <= n)%nat /\ drain_action s' = None /\
    Forall (fun x => drain_action (fst x) = Some (snd x)) h'.
Proof.
  induction n as [|n IH]; intros h s Hinv Hn Hrun; destruct (drain_action s) as [a|] eqn:Ea.
  - destruct (drain_step h s a Hinv Ea) as (_ & s1 & _ & Hlt). lia.
  - exists [], s. rewrite app_nil_r. by split_and!.
  - destruct (drain_step h s a Hinv Ea) as (Hp & s1 & Hact & Hlt).
    pose proof (run_act config rooms_config token_ttl s0 h s a s1 Hrun Hp Hact) as Hrun1.
    destruct (IH _ _ (inv_act _ _ _ _ _ _ Hinv Hp Hact)) as (h' & s' & Hr' & Hl & Hd & Hall); [|exact Hrun1|].
    + unfold open_work in *. cbn. lia.
    + exists ((s, a) :: h'), s'. rewrite <- app_assoc in Hr'. split_and!; [exact Hr'|cbn; lia|done|]. by constructor.
  - exists [], s. rewrite app_nil_r. split_and!; [done|cbn; lia|done|done].
Qed.

(** The server can always be shut down in order.  From every state a run reaches,
    the steps the shutdown leaves to the tasks (a handshake is dropped; a read loop finds
    the signal; a connection cleans up; it ends; a clean-up that an aborted task left runs)
    are possible one after the other until nothing is left, at most one for a handshake and
    three for a connection; then the registry is empty, the gauge is zero and the gate has
    no permit out. *)
Theorem shutdown_drains_the_server h s (Hrun : run s0 h s) :
  exists h' s', run s0 (h ++ h') s' /\ (length h' <= size (sy_handshakes s) + 3 * size (sy_peers s))%nat /\
    Forall (fun x => drain_action (fst x) = Some (snd x)) h' /\
    sy_handshakes s' = ∅ /\ sy_peers s' = ∅ /\ sy_registry s' = ∅ /\ sy_gauge s' = 0 /\
    forall ip, unauth_count (sy_gate s') ip = 0%nat.
Proof.
  pose proof (inv_run _ _ _ _ (inv_start _ _ _ _ _ max _ Happ) Hrun) as Hinv.
  destruct (drain_all (open_work s) h s Hinv ltac:(lia) Hrun) as (h' & s' & Hrun' & Hl & Hd & Hall).
  pose proof (si_books _ _ _ _ (inv_run _ _ _ _ (inv_start _ _ _ _ _ max _ Happ) Hrun')) as [(_ & Hc & _) _ _ Hr Hg].
  unfold drain_action in Hd. destruct (map_to_list (sy_handshakes s')) as [|[? ?] ?] eqn:Eh; [|done].
  destruct (map_to_list (sy_peers s')) as [|[? ?] ?] eqn:Ep; [|done].
  apply map_to_list_empty_iff in Eh, Ep. exists h', s'. split_and!; try done.
  - unfold open_work in Hl. pose proof (work_bound (sy_peers s)). lia.
  - apply map_eq. intros k. by rewrite Hr, Ep, !lookup_empty.
  - by rewrite Hg, Ep.
  - intros ip. cbn in Hc. rewrite Hc. unfold permits. by rewrite Eh, Ep.
Qed.

End Server.
End Runs.

(* ------------------------------------------------------------------ *)
(** ** A running server *)

Module SystemDemo.

#[local] Existing Instance log_events.
#[local] Existing Instance plain_hasher.
#[local] Existing Instance log_audit.
#[local] Existing Instance simple_prost.
#[local] Existing Instance hex_uuid.
Import UseCases.Demo GwDemo HttpDemo LoopDemo.

Definition DemoSys : Type :=
  @Sys queue Memory.Store MemTokens.State unit (list (option Z * rstr * rstr)) (list DomainEvent) (list Z).
Definition DemoAction : Type := @Action (list Z).
Definition demo_config : TcpGatewayConfig :=
  mkTcpGatewayConfig 0 0 (mkSocketAddr false 0 1) 4096 4 4 1000 1000 (mkRate true 100 10) 10 10 1 true 0.
Abbreviation demo_act := (act (K := list Z) (HA := log_audit) demo_config rooms_cfg 60000000000).
Abbreviation demo_run := (System.run (K := list Z) demo_config rooms_cfg 60000000000).

Definition d0 : DemoSys := System.start Memory.empty_store MemTokens.new tt [] [] 2 0.

Definition chat_turn : Turn :=
  mkTurn 10 20 false (Some (Ok (Some (frame_of (InRoomChat (pb.mkRoomChatRequest (lit " hello "))))))) false 15
         (mkEnv 20 21 22 301 true).
(** Alice registers and logs in over HTTP, connects, binds, joins a room and chats. *)
Definition script : list DemoAction :=
  [Request (HttpRegister 10 20 1 2 (mkRegisterRequest (lit " Alice_01 ") (lit "super-secret") (lit "爱丽丝")));
   Request (HttpLogin 3 4 5 [7; 8] login_rq);
   Admit 77 1 6;
   Open 77 [] 5 7 8;
   ReadRound 77 (turn_of bind_frame);
   ReadRound 77 (turn_of join_frame);
   RunActor 300;
   ReadRound 77 chat_turn;
   RunActor 300].

Abbreviation after := (act_after (K := list Z) (HA := log_audit) demo_config rooms_cfg 60000000000).
Abbreviation playable := (acts_possible (K := list Z) (HA := log_audit) demo_config rooms_cfg 60000000000).
Abbreviation steps := (acts_history (K := list Z) (HA := log_audit) demo_config rooms_cfg 60000000000).
Abbreviation play := (acts_run (K := list Z) (HA := log_audit) demo_config rooms_cfg 60000000000 d0).

Local Ltac clocked := split; [intros ? [= <-]; vm_compute; discriminate|].

Lemma script_playable : playable d0 script.
Proof.
  assert (Hsome : forall (a : DemoAction) (s : DemoSys), bool_decide (is_Some (demo_act a s)) = true -> is_Some (demo_act a s))
    by (intros a s; apply bool_decide_eq_true_1).
  unfold script. cbn [acts_possible].
  split_and!; try exact I; try (apply Hsome; vm_compute; reflexivity).
  - split; [done|]. vm_compute. split; discriminate.
  - clocked. split; [vm_compute; reflexivity|]. intros p ts. vm_compute. discriminate.
  - split; [done|]. split_and!; vm_compute; reflexivity.
  - split; done.
  - clocked. vm_compute. reflexivity.
  - clocked. vm_compute. reflexivity.
  - split; done.
  - clocked. vm_compute. reflexivity.
  - split; done.
Qed.

Definition history9 : list (DemoSys * DemoAction) := steps d0 script.
Definition state9 : DemoSys := foldl after d0 script.

Lemma demo_runs : demo_run d0 history9 state9.
Proof. exact (play script [] d0 (run_start _ _ _ d0) script_playable). Qed.

Lemma demo_capacity : (1 <= command_capacity rooms_cfg)%nat.
Proof. cbn. lia. Qed.

Definition sink9 : Sink queue := default (sink_new (chan 0)) (sinks (sy_rooms state9) !! 77).
Definition peer9 : option (@Peer queue (list Z)) := sy_peers state9 !! 77.

(** Alice is bound: the gate's permit is back, she is registered and counted. *)
Lemma server_books_balance_witness :
  (unauth_count (sy_gate state9) 1 <= 2)%nat /\ unauth_count (sy_gate (foldl after d0 (take 4 script))) 1 = 1%nat /\
  unauth_count (sy_gate state9) 1 = 0%nat /\ sy_gauge state9 = 1.
Proof.
  destruct (server_books_balance demo_config rooms_cfg 60000000000 demo_capacity Memory.empty_store MemTokens.new
    tt [] [] 2 0 UseCases.Demo.start_consistent history9 state9 demo_runs) as (Hgate & _).
  split; [exact (proj2 (Hgate 1))|]. split_and!; vm_compute; reflexivity.
Defined.

Lemma identities_come_from_logins_witness :
  exists tok, vouched d0 history9 tok 20.
Proof.
  assert (Hp : exists p pl, sy_peers state9 !! 77 = Some p /\ au_player (pe_auth p) = Some pl /\ ap_player_id pl = 20)
    by (vm_compute; eexists _, _; split_and!; reflexivity).
  destruct Hp as (p & pl & Hk & Hpl & <-).
  destruct (identities_come_from_logins demo_config rooms_cfg 60000000000 demo_capacity Memory.empty_store MemTokens.new
    tt [] [] 2 0 UseCases.Demo.start_consistent history9 state9 77 p pl demo_runs Hk Hpl) as (_ & tok & _ & Hv).
  exists tok. exact Hv.
Defined.

(** Her line was read from her own connection after her login. *)
Lemma nobody_is_misquoted_witness :
  exists tok, chat_sent history9 20 (lit "hello") tok /\ vouched d0 history9 tok 20.
Proof.
  assert (Hk : exists sk, sinks (sy_rooms state9) !! 77 = Some sk /\
    items (sk_tx sk) = [MemberJoined 300 20 (lit "爱丽丝"); EvChat 300 20 (lit "爱丽丝") (lit "hello")])
    by (vm_compute; eexists; split; reflexivity).
  destruct Hk as (sk & Hk & Hi).
  assert (He : EvChat 300 20 (lit "爱丽丝") (lit "hello") ∈ items (sk_tx sk)) by (rewrite Hi; right; left).
  exact (proj2 (nobody_is_misquoted demo_config rooms_cfg 60000000000 demo_capacity Memory.empty_store MemTokens.new
    tt [] [] 2 0 UseCases.Demo.start_consistent history9 state9 77 sk _ demo_runs Hk He)).
Defined.

Lemma rooms_belong_to_their_members_witness :
  exists t, tasks (sy_rooms state9) !! 300 = Some t /\ Room.wf (ac_room (at_actor t)) /\
    20 ∈ rm_members (ac_room (at_actor t)).
Proof.
  assert (Hr : exists t, tasks (sy_rooms state9) !! 300 = Some t /\ rm_members (ac_room (at_actor t)) = [20])
    by (vm_compute; eexists; split; reflexivity).
  destruct Hr as (t & Hr & Hm). exists t. split; [exact Hr|].
  split; [|rewrite Hm; left].
  exact (proj1 (rooms_belong_to_their_members demo_config rooms_cfg 60000000000 demo_capacity Memory.empty_store
    MemTokens.new tt [] [] 2 0 UseCases.Demo.start_consistent history9 state9 300 t demo_runs Hr)).
Defined.

Lemma shutdown_drains_the_server_witness :
  exists h' s', demo_run d0 (history9 ++ h') s' /\ (length h' <= 3)%nat /\ sy_peers s' = ∅ /\ sy_gauge s' = 0.
Proof.
  destruct (shutdown_drains_the_server demo_config rooms_cfg 60000000000 demo_capacity Memory.empty_store MemTokens.new
    tt [] [] 2 0 UseCases.Demo.start_consistent history9 state9 demo_runs)
    as (h' & s' & Hrun & Hl & _ & _ & Hp & _ & Hg & _).
  exists h', s'. split_and!; [exact Hrun|vm_compute in Hl; exact Hl|exact Hp|exact Hg].
Defined.

(** ** Two connections of one player

    Alice's token binds a second connection, 78, which is in no room; then it is closed. *)
Definition round_at (t : Z) (frame : option Frame) : Turn :=
  mkTurn t t false (Some (Ok frame)) false t (mkEnv t t t 302 true).
Definition second_connection : list DemoAction :=
  [Admit 78 2 30; Open 78 [] 31 9 31; ReadRound 78 (round_at 40 (Some bind_frame)); ReadRound 78 (round_at 41 None);
   CleanUp 78 3 50; RunActor 300].
Definition evicted : DemoSys := foldl after state9 second_connection.
Definition room_members (s : DemoSys) (r : RoomId) : option (list PlayerId) :=
  (fun t => rm_members (ac_room (at_actor t))) <$> tasks (sy_rooms s) !! r.
Definition current_of (s : DemoSys) (k : Z) : option RoomId := sy_peers s !! k ≫= fun p => au_current_room (pe_auth p).

Definition last_frame_of (s : DemoSys) (k : Z) : option Frame :=
  sy_peers s !! k ≫= fun p => last (items (ob_tx (pe_out p))).
Definition frame_for (m : OutboundMessage) : option Frame :=
  match encode_outbound m with Ok (opcode, payload) => Some (frame_new opcode payload) | Err _ => None end.

Lemma second_connection_playable : playable state9 second_connection.
Proof.
  assert (Hsome : forall (a : DemoAction) (s : DemoSys), bool_decide (is_Some (demo_act a s)) = true -> is_Some (demo_act a s))
    by (intros a s; apply bool_decide_eq_true_1).
  unfold second_connection. cbn [acts_possible].
  split_and!; try exact I; try (apply Hsome; vm_compute; reflexivity).
  all: split; [intros ? Hc; vm_compute in Hc; vm_compute; first [discriminate Hc|injection Hc as <-; discriminate]|].
  all: try exact I; vm_compute; try split_and!; reflexivity.
Qed.

(** The clean-up of a connection makes its player leave every room, those that another of
    the player's connections is in as well: connection 77 still holds room 300 as its own,
    the room has lost its member, and the join of another room is refused to 77 until it
    leaves one that it is no longer in. *)
Lemma closing_a_connection_evicts_the_others :
  demo_run d0 (history9 ++ steps state9 second_connection) evicted /\
  room_members state9 300 = Some [20] /\ current_of state9 77 = Some 300 /\
  room_members evicted 300 = Some [] /\ current_of evicted 77 = Some 300 /\
  last_frame_of (after evicted (ReadRound 77 (round_at 60 (Some join_frame)))) 77 =
    frame_for (error_notification ERR_CONFLICT (lit "请先离开当前房间")).
Proof.
  split; [exact (play _ _ _ demo_runs second_connection_playable)|].
  split_and!; vm_compute; reflexivity.
Qed.

End SystemDemo.
