(* ===== verification/SystemPresence.v ===== *)
(** Who is in the rooms of the running server ([System.v]).

    A member of an open room is a player at a connection that is open, bound to that player
    and in that room as far as it knows.  For this the clean-ups of connections must have
    had the time to leave all rooms ([unhurried]); one that meets its deadline leaves
    members behind. *)
From S2P Require Import Bootstrap.
From S2P Require Import Prelude Text Tokio Values Account Player Room Session Frame Connection.
From S2P Require Import Protocol App MemRepos TokenStore UseCases RoomActor RoomService Speech Presence.
From S2P Require Import AuthGate RateLimit Gateway ConnLoop Lifecycle Tls Http TurnEffects System SystemProofs SystemRun.
From Stdlib Require Import Strings.String.
Open Scope Z_scope.
Open Scope list_scope.
Abbreviation length := Datatypes.length.

Section Presence.
Context {Q : Type -> Type} `{HQ : Mpsc Q} {S T H A E K : Type} `{HS : Repositories S}
        `{HT : SessionTokenStore T} `{HH : PasswordHasher H} `{HA : AuditLogger A}
        `{HE : EventPublisher E} `{HP : Prost} `{HU : UuidFmt} `{HK : AsyncWrite K}.
Variables (config : TcpGatewayConfig) (rooms_config : RoomServiceConfig) (token_ttl : Z).
Hypothesis Hcap : (1 <= command_capacity rooms_config)%nat.

Abbreviation Sys := (@Sys Q S T H A E K).
Abbreviation Peer := (@Peer Q K).
Abbreviation Action := (@Action K).
Abbreviation act := (@act Q HQ S T H A E K HS HT HH HA HE HP HU HK config rooms_config token_ttl).
Abbreviation run := (@System.run Q HQ S T H A E K HS HT HH HA HE HP HU HK config rooms_config token_ttl).
Abbreviation history := (list (Sys * Action)).
Implicit Types (s : Sys) (p : Peer) (h : history) (w : Rooms Q E) (a : AuthState).

(* ------------------------------------------------------------------ *)
(** ** Where members sit *)

(** A connection with the state [a] is bound to [q] and in room [r]. *)
Definition seat a (r : RoomId) (q : PlayerId) : Prop :=
  exists pl, au_player a = Some pl /\ ap_player_id pl = q /\ au_current_room a = Some r.

(** Connection [k] is open and has that seat. *)
Definition attached s (r : RoomId) (q : PlayerId) (k : Z) : Prop :=
  exists p, sy_peers s !! k = Some p /\ pe_stage p <> Draining /\ seat (pe_auth p) r q.

Definition housed s : Prop := present (attached s) (sy_rooms s).

(** The seats when connection [k] has the state [a]. *)
Definition seated s (k : Z) a (r : RoomId) (q : PlayerId) (i : Z) : Prop :=
  if decide (i = k) then seat a r q else attached s r q i.

(** The rooms of before, or with fewer members, and no connection lost its seat. *)
Lemma housed_step s s' :
  tasks (sy_rooms s') = tasks (sy_rooms s) -> registry (sy_rooms s') ⊆ registry (sy_rooms s) ->
  (forall r q k, attached s r q k -> attached s' r q k) -> housed s -> housed s'.
Proof. intros Ht Hr Ha Hs. eapply present_sub; [exact Ht|exact Hr|]. by eapply present_mono. Qed.

Lemma attached_cores s s' r q k :
  same_cores (sy_peers s) (sy_peers s') -> attached s r q k -> attached s' r q k.
Proof.
  intros Hc (p & Hk & Hst & Hseat).
  destruct (same_cores_lookup _ _ _ _ (same_cores_sym _ _ Hc) Hk) as (p' & Hk' & He).
  unfold core in He. injection He as _ _ _ Ha Hs. exists p'. by rewrite <- Ha, <- Hs.
Qed.

(** Members that are gone from a room need no seat. *)
Lemma vacate L L' owner w :
  rooms_inv owner w -> present L w -> (forall r q k, L r q k -> L' r q k \/ ~ in_room w r q) -> present L' w.
Proof.
  intros Hinv Hw HL r Hr t Ht Hst. destruct (Hw r Hr t Ht Hst) as [Hm Hc]. split; [|done].
  intros q m Hq. destruct (HL r q (mb_sink m) (Hm q m Hq)) as [|Hout]; [done|]. exfalso. apply Hout.
  split; [done|]. exists t. split; [done|]. apply (ai_members _ _ (tk_actor _ _ _ (ri_tasks _ _ Hinv r t Ht))). eauto.
Qed.

Lemma seated_start s k p :
  sy_peers s !! k = Some p -> present (attached s) (sy_rooms s) -> present (seated s k (pe_auth p)) (sy_rooms s).
Proof.
  intros Hk. apply present_mono. intros r q i Ha. unfold seated. case_decide as Hi; [|done]. subst i.
  destruct Ha as (p' & Hp' & _ & Hseat). congruence.
Qed.

(* ------------------------------------------------------------------ *)
(** ** A round of a read loop *)

Section Round.
Variables (s : Sys) (k : Z) (owner : Z -> PlayerId).

Definition round_inv w a : Prop := rooms_inv owner w /\ present (seated s k a) w.

Lemma round_bind w a pl tok :
  au_player a = None -> round_inv w a -> round_inv w (mkAuthState (Some pl) (Some tok) (au_current_room a)).
Proof.
  intros Hn [Hi Hw]. split; [done|]. eapply present_mono; [|exact Hw]. intros r q i. unfold seated.
  case_decide; [|done]. intros (pl' & Hpl & _). congruence.
Qed.

(** The player of the connection has left its room. *)
Lemma round_vacated w a pl :
  rooms_inv owner w -> present (seated s k a) w -> au_player a = Some pl ->
  (forall r, au_current_room a = Some r -> ~ in_room w r (ap_player_id pl)) -> round_inv w (entered None a).
Proof.
  intros Hi Hw Hpl Hout. split; [done|]. eapply vacate; [exact Hi|exact Hw|]. intros r q i. unfold seated.
  case_decide; [|by left]. intros (pl' & Hpl' & <- & Hcur). right. assert (pl' = pl) as -> by congruence. by apply Hout.
Qed.

Lemma round_calls t m pl a w ip :
  round_inv w a -> au_player a = Some pl -> owner k = ap_player_id pl ->
  tasks w !! env_new_room (tn_env t) = None -> room_calls rooms_config round_inv (turn_ctx k ip k t) m pl w a.
Proof.
  intros [Hi Hw] Hpl Ho Hfree. destruct m as [b|b|rq|rq|rq|b|op]; cbn [room_calls]; try done.
  - intros o res w' Hcur Hx. split; [by eapply join_or_create_inv|]. destruct res as [j|e].
    + eapply join_or_create_present; [|exact Hx|].
      * eapply present_mono; [|exact Hw]. intros r q i. unfold seated. case_decide; [|done].
        intros (pl' & _ & _ & ?). congruence.
      * intros j' [= <-]. unfold seated. rewrite decide_True by done. exists pl. by split_and!.
    + by eapply join_or_create_present; [exact Hw|exact Hx|].
  - split.
    + intros i res w' Hx. pose proof (leave_present _ _ _ _ _ _ _ _ Hw Hx) as Hw'.
      apply (leave_spec owner) in Hx as (Hi' & -> & _ & Hout); [|done]. cbn [is_ok andb].
      case_bool_decide as Hcur; [|by split]. eapply round_vacated; [done..|]. intros r Hr. congruence.
    + intros res w' Hx. pose proof (leave_all_present _ _ _ _ _ _ _ Hw Hx) as Hw'.
      apply (leave_all_spec owner) in Hx as (Hi' & -> & _ & Hout); [|done]. cbn [is_ok].
      eapply round_vacated; [done..|]. intros r _. apply Hout.
  - intros i res w' Hx. split; [by eapply chat_inv|by eapply chat_present].
Qed.

(** What a round or an event leaves of the connection and the rooms. *)
Lemma round_housed p st l :
  st <> Draining -> round_inv (gw_rooms (lp_gw l)) (gw_auth (lp_gw l)) -> housed (put_loop k p st l s).
Proof.
  intros Hst [_ Hw]. eapply present_mono; [|exact Hw]. intros r q i. unfold seated, attached. cbn.
  case_decide as Hi; [subst i|].
  - intros Hseat. rewrite lookup_insert_eq. by exists (peer_after p l st).
  - intros (p' & Hp' & ?). rewrite lookup_insert_ne by done. by exists p'.
Qed.

End Round.

Lemma owner_exists s0 max h s :
  sys_inv s0 max h s -> exists owner, rooms_inv owner (sy_rooms s) /\
    forall k p pl, sy_peers s !! k = Some p -> au_player (pe_auth p) = Some pl -> owner k = ap_player_id pl.
Proof.
  intros [_ _ (ow & Ho & Hg & _) _ _]. exists (fun k => default 0 (ow !! k)). split.
  - apply Hg. intros k q Hk. by rewrite Hk.
  - intros k p pl Hk Hpl. by rewrite (ow_peer _ _ Ho k p Hk), Hpl.
Qed.

Lemma housed_read s0 max h s k t s1 :
  sys_inv s0 max h s -> permitted (ReadRound k t) s -> read_round config rooms_config k t s = Some s1 ->
  housed s -> housed s1.
Proof.
  intros Hinv [Hclock Hfree] Hx Hs. specialize (Hclock _ eq_refl). unfold read_round in Hx.
  destruct (sy_peers s !! k) as [p|] eqn:Hk; [|done]. case_decide as Hst; [|done].
  destruct (read_turn _ _ _ _ _ _ _ _) as [st l'] eqn:Et.
  pose proof Hinv as [Happ Hb _ _ _]. destruct (owner_exists _ _ _ _ Hinv) as (owner & Ho & Hown).
  pose proof (conj Ho (seated_start s k p Hk Hs) : round_inv s k owner (sy_rooms s) (pe_auth p)) as Hround.
  apply (read_turn_effect rooms_config (round_inv s k owner) (round_bind s k owner)) in Et as [[_ _ _ Hr] _ _ _].
  - destruct st; simplify_eq; by eapply round_housed.
  - eapply reading_loop_inv; [done|apply (c_wf _ _ Happ)|done|done].
  - by eapply tok_wf_reading.
  - exact Hround.
  - intros f Hf m pl Hd Hpl _. apply round_calls; [exact Hround|exact Hpl|by eapply Hown|exact Hfree].
Qed.

Lemma housed_relay s0 max h s k env s1 :
  sys_inv s0 max h s -> permitted (Relay k env) s -> relay k env s = Some s1 -> housed s -> housed s1.
Proof.
  intros Hinv [Hclock _] Hx Hs. specialize (Hclock _ eq_refl). unfold relay in Hx.
  destruct (sy_peers s !! k) as [p|] eqn:Hk; [|done].
  destruct (sinks (sy_rooms s) !! k) as [sk|]; [|done]. case_decide as Hst; [|done].
  destruct (pop (sk_tx sk)) as [[event tx]|]; [|done]. cbv zeta in Hx.
  destruct (translate _ event _) as [go g] eqn:Et.
  apply translate_spec in Et as [(_ & _ & Hr & Ha) _]; [|by apply (tok_wf_reading s0 max h s)].
  cbn [gw_rooms gw_view] in Hr. cbn [gw_auth gw_view] in Ha.
  assert (Hput : forall st l s2, st <> Draining -> lp_gw l = g -> sy_peers s2 = sy_peers s ->
            housed (put_loop k p st l s2)).
  { intros st l s2 Hd Hl Hp2. apply (housed_step s); cbn; rewrite ?Hl, ?Hr; [done|done| |done].
    intros r q i (p' & Hp' & ? & Hseat). unfold attached. cbn. rewrite Hp2.
    destruct (decide (i = k)) as [->|Hne].
    - rewrite lookup_insert_eq. assert (p' = p) as -> by congruence. exists (peer_after p l st).
      split_and!; [done|done|]. cbn. by rewrite Hl, Ha.
    - rewrite lookup_insert_ne by done. by exists p'. }
  destruct go; injection Hx as <-; [by apply Hput|].
  match goal with |- housed (with_rooms _ ?x) => assert (Hh : housed x) by (by apply Hput) end.
  by eapply housed_step; [..|exact Hh].
Qed.

(* ------------------------------------------------------------------ *)
(** ** The end of a connection *)

(** The clean-up of connection [k] had time for every room. *)
Definition unhurried (x : Sys * Action) : Prop :=
  match snd x with
  | CleanUp _ rounds _ | RunSpawned _ rounds _ => (size (registry (sy_rooms (fst x))) <= rounds)%nat
  | _ => True
  end.

(** The rooms when the player of [p] has left all of them. *)
Definition left_by owner s p w : Prop :=
  rooms_inv owner w /\ present (attached s) w /\
  forall pl, au_player (pe_auth p) = Some pl -> forall r, ~ in_room w r (ap_player_id pl).

Lemma cleaned_left owner s p rounds now :
  rooms_inv owner (sy_rooms s) -> housed s -> (size (registry (sy_rooms s)) <= rounds)%nat ->
  cleaned (left_by owner s p) p rounds now s.
Proof.
  intros Hi Hs Hsz x v Hx. pose proof Hx as Hc.
  apply (cleanup_rooms (present (attached s))) in Hc as (Hw & _); [| |exact Hs].
  - apply (cleanup_room_spec owner) in Hx as (Hi' & _ & _ & _ & Hout); [|exact Hi].
    split_and!; [done|done|]. intros pl Hpl. by apply Hout.
  - intros n q t. apply preserves_bind; [apply live_handles_present|intros hs; apply leave_each_present].
Qed.

Lemma left_housed owner s k p w s1 :
  left_by owner s p w -> sy_peers s !! k = Some p ->
  tasks (sy_rooms s1) = tasks w -> registry (sy_rooms s1) = registry w ->
  (forall i q, i <> k -> sy_peers s !! i = Some q -> sy_peers s1 !! i = Some q) -> housed s1.
Proof.
  intros (Hi & Hw & Hout) Hk Ht Hr Hp. unfold housed.
  apply (present_sub _ w); [done|by rewrite Hr|]. eapply vacate; [exact Hi|exact Hw|].
  intros r q i (p' & Hp' & Hst & pl & Hpl & <- & Hcur). destruct (decide (i = k)) as [->|Hne].
  - right. assert (p' = p) as -> by congruence. by apply Hout.
  - left. exists p'. split_and!; [by apply Hp|done|]. by exists pl.
Qed.

Lemma housed_clean_up s0 max h s k rounds now s1 :
  sys_inv s0 max h s -> unhurried (s, CleanUp k rounds now) -> clean_up k rounds now s = Some s1 ->
  housed s -> housed s1.
Proof.
  intros Hinv Hsz Hx Hs. pose proof Hinv as [_ Hb _ _ _]. destruct (owner_exists _ _ _ _ Hinv) as (owner & Ho & _).
  unfold clean_up in Hx. destruct (sy_peers s !! k) as [p|] eqn:Hk; [|done]. case_decide; [|done]. cbv zeta in Hx.
  destruct (leaving_eq _ k p rounds now s (cleaned_left owner s p rounds now Ho Hs Hsz) (books_reg_ok _ _ Hb))
    as (r & Hr & He).
  rewrite He in Hx. injection Hx as <-. eapply left_housed; [exact Hr|exact Hk|done..|]. cbn.
  intros i q Hne Hi. by rewrite lookup_insert_ne.
Qed.

Lemma housed_spawned s0 max h s k rounds now s1 :
  sys_inv s0 max h s -> unhurried (s, RunSpawned k rounds now) -> run_spawned k rounds now s = Some s1 ->
  housed s -> housed s1.
Proof.
  intros Hinv Hsz Hx Hs. pose proof Hinv as [_ Hb _ _ _]. destruct (owner_exists _ _ _ _ Hinv) as (owner & Ho & _).
  unfold run_spawned in Hx. destruct (sy_peers s !! k) as [p|] eqn:Hk; [|done]. case_decide as Hst; [|done].
  destruct (spawned_eq _ k p rounds now s (cleaned_left owner s p rounds now Ho Hs Hsz) (books_reg_ok _ _ Hb))
    as (r & Hr & He).
  rewrite He in Hx. injection Hx as <-. eapply left_housed; [exact Hr|exact Hk|done..|]. cbn.
  intros i q Hne Hi. by rewrite lookup_delete_ne.
Qed.

(** An abort moves nobody: a bound connection keeps its seat until the clean-up it left. *)
Lemma housed_abort s0 max h s k s1 :
  sys_inv s0 max h s -> abort k s = Some s1 -> housed s -> housed s1.
Proof.
  intros [_ Hb _ _ _] Hx Hs. apply (abort_inv max) in Hx as (p & Hk & Hst & ->); [|done].
  apply (housed_step s); try done. intros r q i (p' & Hp' & Hd & Hseat). unfold attached. cbn.
  destruct (bound p) eqn:Ebd; cbn; destruct (decide (i = k)) as [->|Hne].
  - rewrite lookup_insert_eq. assert (p' = p) as -> by congruence. by exists (detached p).
  - rewrite lookup_insert_ne by done. by exists p'.
  - assert (p' = p) as -> by congruence. destruct Hseat as (pl & Hpl & _). unfold bound in Ebd.
    apply bool_decide_eq_false in Ebd. destruct Ebd. eauto.
  - rewrite lookup_delete_ne by done. by exists p'.
Qed.

Lemma housed_finish s0 max h s k s1 :
  sys_inv s0 max h s -> finish_connection k s = Some s1 -> housed s -> housed s1.
Proof.
  intros [_ Hb _ _ _] Hx Hs. unfold finish_connection in Hx.
  destruct (sy_peers s !! k) as [p|] eqn:Hk; [|done]. case_decide as Hst; [|done].
  rewrite guard_drop_eq in Hx by (done || by eapply books_reg_ok). injection Hx as <-.
  apply (housed_step s); try done. intros r q i (p' & Hp' & Hd & Hseat). exists p'. cbn. split_and!; [|done|done].
  rewrite lookup_delete_ne; [done|]. intros ->. congruence.
Qed.

(* ------------------------------------------------------------------ *)
(** ** Every action *)

Lemma housed_idle s s1 :
  sy_rooms s1 = sy_rooms s -> same_cores (sy_peers s) (sy_peers s1) -> housed s -> housed s1.
Proof. intros Hr Hp. apply housed_step; rewrite ?Hr; [done..|]. intros r q k. by apply attached_cores. Qed.

Lemma housed_open s0 max h s k sock i now instant s1 :
  sys_inv s0 max h s -> open_connection config k sock i now instant s = Some s1 -> housed s -> housed s1.
Proof.
  intros [_ Hb _ _ _] Hx. unfold open_connection in Hx.
  destruct (sy_handshakes s !! k) as [[ip a]|] eqn:Eh; [|done]. cbv zeta in Hx.
  destruct (bk_handshakes _ _ Hb _ _ _ Eh) as (_ & Hp & _).
  set (p := mkPeer ip _ _ _ _ _ _ _ _) in Hx. set (s2 := with_rooms _ _) in Hx.
  assert (Hr2 : reg_ok s2).
  { intros j Hj%(books_reg_ok _ _ Hb). cbn. apply lookup_insert_is_Some'. by right. }
  rewrite (connection_open_eq k _ p s2) in Hx by (done || apply lookup_insert_eq). injection Hx as <-.
  apply housed_step; [done|done|]. intros r q j (p' & Hp' & ?). exists p'. cbn.
  rewrite lookup_insert_ne; [done|]. intros ->. congruence.
Qed.

Lemma housed_act s0 max h s (a : Action) s1 :
  sys_inv s0 max h s -> permitted a s -> unhurried (s, a) -> act a s = Some s1 -> housed s -> housed s1.
Proof.
  intros Hinv Hperm Hu Hx Hs. pose proof Hinv as [_ Hb _ _ _]. pose proof (books_reg_ok _ _ Hb) as Hreg.
  destruct a; cbn [System.act] in Hx.
  - unfold take_socket in Hx. rewrite acquire_eq in Hx by done.
    destruct (fst (permit ip (sy_gate s))); injection Hx as <-; by apply (housed_idle s).
  - unfold handshake_fails in Hx. destruct (sy_handshakes s !! k) as [[ip a]|]; [|done].
    rewrite drop_admission_eq in Hx by done. injection Hx as <-. by apply (housed_idle s).
  - by eapply housed_open.
  - by eapply housed_read.
  - by eapply housed_relay.
  - unfold write_one in Hx. destruct (sy_peers s !! k) as [p|] eqn:Ek; [|done].
    destruct (write_iter _ _) as [st [rx sock]].
    assert (Hs1 : exists p', core p' = core p /\ s1 = with_peers (insert k p') s)
      by (destruct st; simplify_eq; (eexists; split; [|reflexivity]; done)).
    destruct Hs1 as (p' & Hc & ->). apply (housed_idle s); [done| |done]. by eapply same_cores_update.
  - unfold writer_stops in Hx. destruct (sy_peers s !! k) as [p|] eqn:Ek; [|done].
    destruct (_ || _); [|done]. injection Hx as <-. apply (housed_idle s); [done| |done]. by eapply same_cores_update.
  - by eapply housed_clean_up.
  - by eapply housed_finish.
  - by eapply housed_abort.
  - by eapply housed_spawned.
  - injection Hx as <-. destruct (actor_turn r (sy_rooms s)) as [o w'] eqn:Ea.
    unfold housed. cbn. rewrite Ea.
    exact (actor_turn_present (attached s) _ _ _ _ Hs Ea).
  - injection Hx as <-. by apply (housed_step s).
  - unfold broadcast_shutdown in Hx. destruct (on_srv _ s) as [n s2] eqn:Eb.
    apply broadcast_same in Eb as (_ & _ & Hr & _ & _ & _ & _ & Hp & _); [|done]. injection Hx as <-.
    by apply (housed_idle s).
  - injection Hx as <-. destruct (close_all reason (sy_rooms s)) as [o w'] eqn:Ea.
    unfold housed. cbn. rewrite Ea.
    exact (close_all_present (attached s) _ _ _ _ Hs Ea).
Qed.

Lemma housed_run s0 max h s :
  sys_inv s0 max [] s0 -> housed s0 -> run s0 h s -> Forall unhurried h -> housed s.
Proof.
  intros Hinv H0 Hrun. induction Hrun as [|h s ac s1 Hrun IH Hperm Hact]; intros Hu; [done|].
  apply Forall_app in Hu as [Hu [Ha _]%Forall_cons].
  exact (housed_act s0 max h s ac s1 (inv_run _ _ _ Hcap s0 max h s Hinv Hrun) Hperm Ha Hact (IH Hu)).
Qed.

Section Server.
Variables (store : S) (tokens : T) (hasher : H) (audit : A) (events : E) (max : nat) (clock : Z).
Abbreviation s0 := (@start Q S T H A E K store tokens hasher audit events max clock).
Hypothesis Happ : consistent clock (mkWorld store tokens hasher audit events).

(** C6: Nobody haunts a room.  In every state of a run whose clean-ups met no deadline, each
    member of an open room hears through a connection that is open (or was aborted and is
    still to be cleaned up), that is bound to this player, and that takes the room for its
    current one; so a connection hears from one
    room at most, and a room whose members' connections have all ended has no member. *)
Theorem members_are_connected h s r t q m (Hrun : run s0 h s) (Hu : Forall unhurried h)
  (Hr : r ∈ registry (sy_rooms s)) (Ht : tasks (sy_rooms s) !! r = Some t) (Hopen : at_stopped t = false)
  (Hm : ac_members (at_actor t) !! q = Some m) :
  (exists p pl, sy_peers s !! mb_sink m = Some p /\ pe_stage p <> Draining /\
     au_player (pe_auth p) = Some pl /\ ap_player_id pl = q /\ au_current_room (pe_auth p) = Some r) /\
  forall r2 t2 q2 m2, r2 ∈ registry (sy_rooms s) -> tasks (sy_rooms s) !! r2 = Some t2 ->
    at_stopped t2 = false -> ac_members (at_actor t2) !! q2 = Some m2 -> mb_sink m2 = mb_sink m ->
    r2 = r /\ q2 = q.
Proof.
  assert (Hh : housed s).
  { apply (housed_run s0 max h s); [by apply inv_start|by intros ? ?|done|done]. }
  destruct (Hh r Hr t Ht Hopen) as [Hin _].
  destruct (Hin q m Hm) as (p & Hp & Hst & pl & Hpl & Hq & Hcur). split; [by exists p, pl|].
  intros r2 t2 q2 m2 Hr2 Ht2 Ho2 Hm2 Hs2. destruct (Hh r2 Hr2 t2 Ht2 Ho2) as [Hin2 _].
  destruct (Hin2 q2 m2 Hm2) as (p2 & Hp2 & _ & pl2 & Hpl2 & Hq2 & Hcur2). rewrite Hs2 in Hp2.
  assert (p2 = p) as -> by congruence. split; congruence.
Qed.

End Server.
End Presence.

(* ------------------------------------------------------------------ *)
(** ** The running server of [SystemRun] *)

Module PresenceDemo.

#[local] Existing Instance log_events.
#[local] Existing Instance plain_hasher.
#[local] Existing Instance log_audit.
#[local] Existing Instance simple_prost.
#[local] Existing Instance hex_uuid.
Import UseCases.Demo GwDemo SystemDemo.

(** Two connections of Alice, of which the second has been closed. *)
Lemma demo_unhurried : Forall unhurried (history9 ++ steps state9 second_connection).
Proof. apply Forall_app. vm_compute. repeat constructor. Qed.

(** Alice is in room 300 through connection 77; when her second connection has closed she
    is in no room, and connection 77 is still open. *)
Lemma members_are_connected_witness :
  (exists p, sy_peers state9 !! 77 = Some p /\ pe_stage p <> Draining /\ au_current_room (pe_auth p) = Some 300) /\
  (exists p, sy_peers evicted !! 77 = Some p /\ pe_stage p = Reading) /\
  forall r t q m, r ∈ registry (sy_rooms evicted) -> tasks (sy_rooms evicted) !! r = Some t ->
    at_stopped t = false -> ac_members (at_actor t) !! q = Some m ->
    exists p, sy_peers evicted !! mb_sink m = Some p /\ pe_stage p <> Draining.
Proof.
  split; [|split].
  - assert (Hr : exists t m, tasks (sy_rooms state9) !! 300 = Some t /\ at_stopped t = false /\
      ac_members (at_actor t) !! 20 = Some m /\ mb_sink m = 77)
      by (vm_compute; eexists _, _; split_and!; reflexivity).
    destruct Hr as (t & m & Ht & Hst & Hm & Hs). rewrite <- Hs.
    assert (Hu : Forall unhurried history9) by (pose proof demo_unhurried as Hu; apply Forall_app in Hu; apply Hu).
    assert (Hin : 300 ∈ registry (sy_rooms state9)) by (apply (bool_decide_eq_true_1 (300 ∈ registry (sy_rooms state9))); vm_compute; reflexivity).
    destruct (members_are_connected demo_config rooms_cfg 60000000000 demo_capacity Memory.empty_store MemTokens.new
      tt [] [] 2 0 UseCases.Demo.start_consistent history9 state9 300 t 20 m demo_runs Hu Hin Ht Hst Hm)
      as [(p & pl & Hp & Hd & _ & _ & Hc) _].
    exists p. split_and!; [exact Hp|exact Hd|exact Hc].
  - vm_compute. eexists. split; reflexivity.
  - intros r t q m Hr Ht Hst Hm.
    destruct (members_are_connected demo_config rooms_cfg 60000000000 demo_capacity Memory.empty_store MemTokens.new
      tt [] [] 2 0 UseCases.Demo.start_consistent _ evicted r t q m
      (proj1 closing_a_connection_evicts_the_others) demo_unhurried Hr Ht Hst Hm) as [(p & pl & Hp & Hd & _) _].
    exists p. split; [exact Hp|exact Hd].
Defined.

End PresenceDemo.
