(* ===== verification/SystemTenure.v ===== *)
(** Connections and rooms agree ([System.v]): the counterpart of [SystemPresence].

    A connection keeps the room it believes to be in.  As long as no player is at two
    connections at a time, that room lists the player, until it closes; with two
    connections it may not ([closing_a_connection_evicts_the_others]). *)
From S2P Require Import Bootstrap.
From S2P Require Import Prelude Text Tokio Values Account Player Room Session Frame Connection.
From S2P Require Import Protocol App MemRepos TokenStore UseCases RoomActor RoomService Speech Presence.
From S2P Require Import AuthGate RateLimit Gateway ConnLoop Lifecycle Tls Http TurnEffects System SystemProofs SystemRun.
From S2P Require Import SystemPresence.
From Stdlib Require Import Strings.String.
Open Scope Z_scope.
Open Scope list_scope.
Abbreviation length := Datatypes.length.

Section Tenure.
Context {Q : Type -> Type} `{HQ : Mpsc Q} {S T H A E K : Type} `{HS : Repositories S}
        `{HT : SessionTokenStore T} `{HH : PasswordHasher H} `{HA : AuditLogger A}
        `{HE : EventPublisher E} `{HP : Prost} `{HU : UuidFmt} `{HK : AsyncWrite K}.
Variables (config : TcpGatewayConfig) (rooms_config : RoomServiceConfig) (token_ttl : Z).
Hypothesis Hcap : (1 <= command_capacity rooms_config)%nat.

Abbreviation Sys := (@Sys Q S T H A E K).
Abbreviation Peer := (@Peer Q K).
Abbreviation Action := (@Action K).
Abbreviation act := (@act Q HQ S T H A E K HS HT HH HA HE HP HU HK config rooms_config token_ttl).
Abbreviation run := (@System.run Q HQ S T H A E K HS HT HH HA HE HP HU HK config rooms_config token_ttl).
Abbreviation history := (list (Sys * Action)).
Implicit Types (s : Sys) (p : Peer) (h : history) (w : Rooms Q E) (a : AuthState).

(** No player is at two open connections; one whose task was aborted counts as open until
    its clean-up has run. *)
Definition one_each s : Prop := forall i k pi pk li lk,
  sy_peers s !! i = Some pi -> sy_peers s !! k = Some pk ->
  pe_stage pi <> Draining -> pe_stage pk <> Draining ->
  au_player (pe_auth pi) = Some li -> au_player (pe_auth pk) = Some lk ->
  ap_player_id li = ap_player_id lk -> i = k.

(** Who is not bound is in no room. *)
Definition unbound_outside s : Prop := forall k p,
  sy_peers s !! k = Some p -> au_player (pe_auth p) = None -> au_current_room (pe_auth p) = None.

Record settled s : Prop := mkSettled {
  se_seats : forall r q k, attached s r q k -> stays r q (sy_rooms s);
  se_outside : unbound_outside s
}.

Lemma settled_step s s' :
  tasks (sy_rooms s') = tasks (sy_rooms s) -> registry (sy_rooms s') ⊆ registry (sy_rooms s) ->
  (forall k p', sy_peers s' !! k = Some p' -> exists p, sy_peers s !! k = Some p /\ pe_auth p = pe_auth p' /\
     (pe_stage p' <> Draining -> pe_stage p <> Draining)) ->
  settled s -> settled s'.
Proof.
  intros Ht Hr Hp [Hs Hu]. constructor.
  - intros r q k (p' & Hk & Hst & Hseat). destruct (Hp k p' Hk) as (p & Hk0 & Ha & Hst0).
    apply (stays_sub r q (sy_rooms s)); [done|done|]. apply (Hs r q k). exists p. rewrite Ha. auto.
  - intros k p' Hk. destruct (Hp k p' Hk) as (p & Hk0 & <- & _). by apply Hu with k.
Qed.

Lemma settled_cores s s' :
  tasks (sy_rooms s') = tasks (sy_rooms s) -> registry (sy_rooms s') ⊆ registry (sy_rooms s) ->
  same_cores (sy_peers s) (sy_peers s') -> settled s -> settled s'.
Proof.
  intros Ht Hr Hc. apply settled_step; [done|done|]. intros k p' Hk.
  destruct (same_cores_lookup _ _ _ _ Hc Hk) as (p & Hk0 & He). unfold core in He. injection He as _ _ _ Ha Hst.
  exists p. by rewrite Ha, Hst.
Qed.

(* ------------------------------------------------------------------ *)
(** ** A round of a read loop *)

Section Round.
Variables (s : Sys) (k : Z) (owner : Z -> PlayerId).

Definition others_stay w : Prop := forall r q i, i <> k -> attached s r q i -> stays r q w.

Record tenure w a : Prop := mkTenure {
  te_inv : rooms_inv owner w;
  te_others : others_stay w;
  te_own : forall r q, seat a r q -> stays r q w;
  te_outside : au_player a = None -> au_current_room a = None
}.

Lemma tenure_bind w a pl tok :
  au_player a = None -> tenure w a -> tenure w (mkAuthState (Some pl) (Some tok) (au_current_room a)).
Proof.
  intros Hn [Hi Ho _ Hu]. constructor; [done|done| |done]. intros r q (_ & _ & _ & Hcur). cbn in Hcur.
  rewrite Hu in Hcur by done. done.
Qed.

Lemma tenure_calls t m pl a w ip :
  tenure w a -> au_player a = Some pl -> owner k = ap_player_id pl ->
  tasks w !! env_new_room (tn_env t) = None ->
  (forall r q i, i <> k -> attached s r q i -> ap_player_id pl <> q) ->
  room_calls rooms_config tenure (turn_ctx k ip k t) m pl w a.
Proof.
  intros [Hi Ho Hown Hu] Hpl Howner Hfree Hone. destruct m as [b|b|rq|rq|rq|b|op]; cbn [room_calls]; try done.
  - intros o res w' Hcur Hx. constructor.
    + by eapply join_or_create_inv.
    + intros r q i Hne Ha. eapply join_or_create_stays; [by eapply Hone|exact Hfree|by eapply Ho|exact Hx].
    + intros r q (pl' & Hpl' & <- & Hr). destruct res as [j|e]; cbn in Hpl', Hr; [|congruence].
      injection Hr as <-. assert (pl' = pl) as -> by congruence. by eapply join_or_create_seats.
    + destruct res; cbn; congruence.
  - split.
    + intros i res w' Hx. pose proof (leave_spec owner _ _ _ _ _ _ _ Hi Hx) as (Hi' & -> & Hconf & _).
      cbn [is_ok andb]. assert (Ho' : others_stay w').
      { intros r q j Hne Ha. eapply leave_stays; [by eapply Hone|by eapply Ho|exact Hx]. }
      case_bool_decide as Hcur.
      * constructor; [done|done| |done]. intros r q (_ & _ & _ & ?). done.
      * constructor; [done|done| |done]. intros r q Hseat. apply (confined_stays i r q w); [done| |by apply Hown].
        intros ->. destruct Hseat as (_ & _ & _ & ?). done.
    + intros res w' Hx. pose proof (leave_all_spec owner _ _ _ _ _ _ Hi Hx) as (Hi' & -> & _). cbn [is_ok].
      constructor; [done| |by intros r q (_ & _ & _ & ?)|done].
      intros r q j Hne Ha. eapply leave_all_stays; [by eapply Hone|by eapply Ho|exact Hx].
  - intros i res w' Hx. constructor; [by eapply chat_inv| | |done].
    + intros r q j Hne Ha. eapply chat_stays; [by eapply Ho|exact Hx].
    + intros r q Hseat. eapply chat_stays; [by apply Hown|exact Hx].
Qed.

Lemma tenure_settled p st l :
  settled s -> tenure (gw_rooms (lp_gw l)) (gw_auth (lp_gw l)) -> settled (put_loop k p st l s).
Proof.
  intros [_ Hu] [_ Ho Hown Hout]. constructor.
  - intros r q i (p' & Hk & Hst & Hseat). cbn in *. apply lookup_insert_Some in Hk as [[<- <-]|[Hne Hk]].
    + by apply Hown.
    + apply (Ho r q i); [done|]. by exists p'.
  - intros i p' Hk. cbn in Hk. apply lookup_insert_Some in Hk as [[<- <-]|[_ Hk]]; [exact Hout|by apply Hu with i].
Qed.

End Round.

Lemma settled_read s0 max h s k t s1 :
  sys_inv s0 max h s -> permitted (ReadRound k t) s -> one_each s ->
  read_round config rooms_config k t s = Some s1 -> settled s -> settled s1.
Proof.
  intros Hinv [Hclock Hfree] Hone Hx Hs. specialize (Hclock _ eq_refl). unfold read_round in Hx.
  destruct (sy_peers s !! k) as [p|] eqn:Hk; [|done]. case_decide as Hst; [|done].
  destruct (read_turn _ _ _ _ _ _ _ _) as [st l'] eqn:Et.
  pose proof Hinv as [Happ Hb _ _ _]. destruct (owner_exists _ _ _ _ Hinv) as (owner & Ho & Hown).
  assert (Hten : tenure s k owner (sy_rooms s) (pe_auth p)).
  { constructor; [done|by intros r q i _; apply Hs| |by eapply (se_outside _ Hs)].
    intros r q Hseat. apply (se_seats _ Hs r q k). exists p. split_and!; [done| |done]. by rewrite Hst. }
  apply (read_turn_effect rooms_config (tenure s k owner) (tenure_bind s k owner)) in Et as [[_ _ _ Hr] _ _ _].
  - destruct st; simplify_eq; by eapply tenure_settled.
  - eapply reading_loop_inv; [done|apply (c_wf _ _ Happ)|done|done].
  - by eapply tok_wf_reading.
  - exact Hten.
  - intros f Hf m pl Hd Hpl _. apply tenure_calls; [exact Hten|exact Hpl|by eapply Hown|exact Hfree|].
    intros r q i Hne (p' & Hp' & Hd' & pl' & Hpl' & <- & _) Heq. apply Hne.
    apply (Hone i k p' p pl' pl); try done. by rewrite Hst.
Qed.

Lemma settled_relay s0 max h s k env s1 :
  sys_inv s0 max h s -> permitted (Relay k env) s -> relay k env s = Some s1 -> settled s -> settled s1.
Proof.
  intros Hinv [Hclock _] Hx Hs. specialize (Hclock _ eq_refl). unfold relay in Hx.
  destruct (sy_peers s !! k) as [p|] eqn:Hk; [|done].
  destruct (sinks (sy_rooms s) !! k) as [sk|]; [|done]. case_decide as Hst; [|done].
  destruct (pop (sk_tx sk)) as [[event tx]|]; [|done]. cbv zeta in Hx.
  destruct (translate _ event _) as [go g] eqn:Et.
  apply translate_spec in Et as [(_ & _ & Hr & Ha) _]; [|by apply (tok_wf_reading s0 max h s)].
  cbn [gw_rooms gw_view] in Hr. cbn [gw_auth gw_view] in Ha.
  assert (Hput : forall st l f, lp_gw l = g -> settled (with_rooms (with_sinks f)
            (put_loop k p st l (with_rooms (with_sinks (insert k (mkSink tx (sk_failed sk)))) s)))).
  { intros st l f Hl. apply (settled_step s); cbn; rewrite ?Hl, ?Hr; [done|done| |done].
    intros i p' [[<- <-]|[_ Hi]]%lookup_insert_Some; [|by exists p'].
    exists p. cbn. rewrite Hl, Ha, Hst. by split_and!. }
  destruct go; injection Hx as <-; [|by apply Hput].
  eapply settled_step; [| | |exact (Hput Reading (mkLoop g (pe_session p) (pe_bucket p) (pe_permit p) (sy_gate s)) id eq_refl)];
    [done|done|]. intros i p' Hi. by exists p'.
Qed.

(* ------------------------------------------------------------------ *)
(** ** The end of a connection *)

Lemma cleaned_others s k p rounds now :
  one_each s -> sy_peers s !! k = Some p -> pe_stage p <> Draining -> settled s ->
  cleaned (others_stay s k) p rounds now s.
Proof.
  intros Hone Hk Hst Hs x v Hx r q i Hne Ha. pose proof (se_seats _ Hs r q i Ha) as Hstay.
  unfold cleanup_room in Hx. destruct (au_player (pe_auth p)) as [pl|] eqn:Hpl; [|by injection Hx as _ <-].
  assert (Hq : ap_player_id pl <> q).
  { destruct Ha as (p' & Hp' & Hd' & pl' & Hpl' & <- & _). intros Heq. apply Hne. by apply (Hone i k p' p pl' pl). }
  apply io_bind_inv in Hx as (res & v1 & Hr & Hx). apply io_ret_inv in Hx as [_ <-].
  unfold on_srv_rooms in Hr. destruct (io_bind _ _ _) as [res' w'] eqn:Eb. injection Hr as _ <-. cbn.
  revert Eb. cbn [sv_rooms srv_view].
  apply (preserves_bind (stays r q) live_handles
    (fun hs => leave_each (take rounds hs) (ap_player_id pl) (lit "connection closed") now)); [|intros hs|exact Hstay].
  - apply live_handles_stays.
  - by apply leave_each_stays.
Qed.

Lemma ended_settled s k w s1 :
  others_stay s k w -> tasks (sy_rooms s1) = tasks w -> registry (sy_rooms s1) = registry w ->
  (forall i p', sy_peers s1 !! i = Some p' ->
     (i <> k /\ sy_peers s !! i = Some p') \/ (pe_stage p' = Draining /\ exists p, sy_peers s !! i = Some p /\ pe_auth p' = pe_auth p)) ->
  settled s -> settled s1.
Proof.
  intros Ho Ht Hr Hp [_ Hu]. constructor.
  - intros r q i (p' & Hi & Hd & Hseat). apply (stays_sub r q w); [done|by rewrite Hr|].
    destruct (Hp i p' Hi) as [[Hne Hi0]|[? _]]; [|done]. apply (Ho r q i Hne). by exists p'.
  - intros i p' Hi. destruct (Hp i p' Hi) as [[_ Hi0]|(_ & p & Hi0 & ->)]; by eapply Hu.
Qed.

Lemma settled_clean_up s0 max h s k rounds now s1 :
  sys_inv s0 max h s -> one_each s -> clean_up k rounds now s = Some s1 -> settled s -> settled s1.
Proof.
  intros [_ Hb _ _ _] Hone Hx Hs. unfold clean_up in Hx.
  destruct (sy_peers s !! k) as [p|] eqn:Hk; [|done]. case_decide as Hst; [|done]. cbv zeta in Hx.
  assert (Hd : pe_stage p <> Draining) by (by rewrite Hst).
  destruct (leaving_eq _ k p rounds now s (cleaned_others s k p rounds now Hone Hk Hd Hs) (books_reg_ok _ _ Hb))
    as (r & Hr & He).
  rewrite He in Hx. injection Hx as <-. eapply ended_settled; [exact Hr|done|done| |exact Hs].
  intros i p' Hi. cbn in Hi. apply lookup_insert_Some in Hi as [[<- <-]|[Hne Hi]]; [right|by left].
  split; [done|]. by exists p.
Qed.

Lemma settled_spawned s0 max h s k rounds now s1 :
  sys_inv s0 max h s -> one_each s -> run_spawned k rounds now s = Some s1 -> settled s -> settled s1.
Proof.
  intros [_ Hb _ _ _] Hone Hx Hs. unfold run_spawned in Hx.
  destruct (sy_peers s !! k) as [p|] eqn:Hk; [|done]. case_decide as Hst; [|done].
  assert (Hd : pe_stage p <> Draining) by (by rewrite Hst).
  destruct (spawned_eq _ k p rounds now s (cleaned_others s k p rounds now Hone Hk Hd Hs) (books_reg_ok _ _ Hb))
    as (r & Hr & He).
  rewrite He in Hx. injection Hx as <-. eapply ended_settled; [exact Hr|done|done| |exact Hs].
  intros i p' Hi. cbn in Hi. apply lookup_delete_Some in Hi as [Hne Hi]. by left.
Qed.

Lemma settled_abort s0 max h s k s1 :
  sys_inv s0 max h s -> abort k s = Some s1 -> settled s -> settled s1.
Proof.
  intros [_ Hb _ _ _] Hx. apply (abort_inv max) in Hx as (p & Hk & Hst & ->); [|done].
  apply settled_step; [done|done|]. cbn. intros i p'. destruct (bound p); cbn.
  - intros [[<- <-]|[_ Hi]]%lookup_insert_Some; [|by exists p'].
    exists p. split_and!; [done|done|]. intros _. by destruct Hst as [-> | ->].
  - intros [_ Hi]%lookup_delete_Some. by exists p'.
Qed.

Lemma settled_finish s0 max h s k s1 :
  sys_inv s0 max h s -> finish_connection k s = Some s1 -> settled s -> settled s1.
Proof.
  intros [_ Hb _ _ _] Hx. unfold finish_connection in Hx.
  destruct (sy_peers s !! k) as [p|] eqn:Hk; [|done]. case_decide as Hst; [|done].
  rewrite guard_drop_eq in Hx by (done || by eapply books_reg_ok). injection Hx as <-.
  apply settled_step; [done|done|]. intros i p' Hi. cbn in Hi. apply lookup_delete_Some in Hi as [_ Hi]. by exists p'.
Qed.

Lemma settled_open s0 max h s k sock i now instant s1 :
  sys_inv s0 max h s -> open_connection config k sock i now instant s = Some s1 -> settled s -> settled s1.
Proof.
  intros [_ Hb _ _ _] Hx [Hs Hu]. unfold open_connection in Hx.
  destruct (sy_handshakes s !! k) as [[ip a]|] eqn:Eh; [|done]. cbv zeta in Hx.
  set (p := mkPeer ip _ _ _ _ _ _ _ _) in Hx. set (s2 := with_rooms _ _) in Hx.
  assert (Hr2 : reg_ok s2).
  { intros j Hj%(books_reg_ok _ _ Hb). cbn. apply lookup_insert_is_Some'. by right. }
  rewrite (connection_open_eq k _ p s2) in Hx by (done || apply lookup_insert_eq). injection Hx as <-. constructor.
  - intros r q j (p' & Hj & Hd & Hseat). cbn in Hj. apply (stays_sub r q (sy_rooms s)); [done|done|].
    apply lookup_insert_Some in Hj as [[<- <-]|[_ Hj]]; [|apply (Hs r q j); by exists p'].
    destruct Hseat as (pl & Hpl & _). done.
  - intros j p' Hj. cbn in Hj. apply lookup_insert_Some in Hj as [[<- <-]|[_ Hj]]; [done|by apply Hu with j].
Qed.

(* ------------------------------------------------------------------ *)
(** ** Every action *)

Lemma settled_act s0 max h s (a : Action) s1 :
  sys_inv s0 max h s -> permitted a s -> one_each s -> act a s = Some s1 -> settled s -> settled s1.
Proof.
  intros Hinv Hperm Hone Hx Hs. pose proof Hinv as [_ Hb _ _ _]. pose proof (books_reg_ok _ _ Hb) as Hreg.
  destruct a; cbn [System.act] in Hx.
  - unfold take_socket in Hx. rewrite acquire_eq in Hx by done.
    destruct (fst (permit ip (sy_gate s))); injection Hx as <-; by apply (settled_cores s).
  - unfold handshake_fails in Hx. destruct (sy_handshakes s !! k) as [[ip a]|]; [|done].
    rewrite drop_admission_eq in Hx by done. injection Hx as <-. by apply (settled_cores s).
  - by eapply settled_open.
  - by eapply settled_read.
  - by eapply settled_relay.
  - unfold write_one in Hx. destruct (sy_peers s !! k) as [p|] eqn:Ek; [|done].
    destruct (write_iter _ _) as [st [rx sock]].
    assert (Hs1 : exists p', core p' = core p /\ s1 = with_peers (insert k p') s)
      by (destruct st; simplify_eq; (eexists; split; [|reflexivity]; done)).
    destruct Hs1 as (p' & Hc & ->). apply (settled_cores s); [done|done| |done]. by eapply same_cores_update.
  - unfold writer_stops in Hx. destruct (sy_peers s !! k) as [p|] eqn:Ek; [|done].
    destruct (_ || _); [|done]. injection Hx as <-. apply (settled_cores s); [done|done| |done]. by eapply same_cores_update.
  - by eapply settled_clean_up.
  - by eapply settled_finish.
  - by eapply settled_abort.
  - by eapply settled_spawned.
  - injection Hx as <-. destruct (actor_turn r (sy_rooms s)) as [o w'] eqn:Ea. destruct Hs as [Hs Hu].
    constructor; [|done]. intros i q k Ha. cbn. rewrite Ea.
    exact (actor_turn_stays i q r _ _ _ (Hs i q k Ha) Ea).
  - injection Hx as <-. by apply (settled_cores s).
  - unfold broadcast_shutdown in Hx. destruct (on_srv _ s) as [n s2] eqn:Eb.
    apply broadcast_same in Eb as (_ & _ & Hr & _ & _ & _ & _ & Hp & _); [|done]. injection Hx as <-.
    by apply (settled_cores s); rewrite ?Hr.
  - injection Hx as <-. destruct (close_all reason (sy_rooms s)) as [o w'] eqn:Ea. destruct Hs as [Hs Hu].
    constructor; [|done]. intros i q k Ha. cbn. rewrite Ea.
    exact (close_all_stays i q reason _ _ _ (Hs i q k Ha) Ea).
Qed.

Lemma settled_run s0 max h s :
  sys_inv s0 max [] s0 -> settled s0 -> run s0 h s -> Forall (fun x => one_each (fst x)) h -> settled s.
Proof.
  intros Hinv H0 Hrun. induction Hrun as [|h s ac s1 Hrun IH Hperm Hact]; intros Hu; [done|].
  apply Forall_app in Hu as [Hu [Ha _]%Forall_cons].
  pose proof (settled_act s0 max h s ac s1 (inv_run _ _ _ Hcap s0 max h s Hinv Hrun) Hperm Ha Hact (IH Hu)) as [Hs Hout].
  by constructor.
Qed.

Section Server.
Variables (store : S) (tokens : T) (hasher : H) (audit : A) (events : E) (max : nat) (clock : Z).
Abbreviation s0 := (@start Q S T H A E K store tokens hasher audit events max clock).
Hypothesis Happ : consistent clock (mkWorld store tokens hasher audit events).

(** C7: Connections know where they are.  In every state of a run in which no player was at two
    open connections at a time, the room that an open connection takes for its current one
    exists, and as long as it is open it lists the player of the connection; if besides no
    clean-up met its deadline, it sends that player's events to this very connection. *)
Theorem connections_know_their_room h s k p pl r (Hrun : run s0 h s)
  (Hone : Forall (fun x => one_each (fst x)) h)
  (Hk : sy_peers s !! k = Some p) (Hst : pe_stage p <> Draining) (Hpl : au_player (pe_auth p) = Some pl)
  (Hcur : au_current_room (pe_auth p) = Some r) :
  exists t, tasks (sy_rooms s) !! r = Some t /\
    (r ∈ registry (sy_rooms s) -> at_stopped t = false ->
     exists m, ac_members (at_actor t) !! ap_player_id pl = Some m /\
       (Forall unhurried h -> one_each s -> mb_sink m = k)).
Proof.
  assert (Hs : settled s).
  { apply (settled_run s0 max h s); [by apply inv_start| |done|done].
    constructor; [by intros r' q i (p' & Hi & _)|by intros i p' Hi]. }
  destruct (se_seats _ Hs r (ap_player_id pl) k) as [[t Ht] Hstay]; [exists p; split_and!; [done|done|by exists pl]|].
  exists t. split; [done|]. intros Hin Hopen. destruct (Hstay Hin t Ht Hopen) as [[m Hm] _].
  exists m. split; [done|]. intros Hu Hlast.
  assert (Hh : housed s).
  { apply (housed_run config rooms_config token_ttl Hcap s0 max h s); [by apply inv_start|by intros ? ?|done|done]. }
  destruct (Hh r Hin t Ht Hopen) as [Hms _].
  destruct (Hms _ m Hm) as (p' & Hp' & Hd' & pl' & Hpl' & Hq & _).
  by apply (Hlast (mb_sink m) k p' p pl' pl).
Qed.

End Server.
End Tenure.

(* ------------------------------------------------------------------ *)
(** ** The running server of [SystemRun] *)

(** At most one connection is open. *)
Lemma one_peer {Q : Type -> Type} {S T H A E K : Type} (s : @Sys Q S T H A E K) :
  (size (sy_peers s) <= 1)%nat -> one_each s.
Proof.
  intros Hs i k pi pk li lk Hi Hk _ _ _ _ _. destruct (decide (i = k)) as [|Hne]; [done|]. exfalso.
  assert (Hsub : ({[i]} ∪ {[k]} : gset Z) ⊆ dom (sy_peers s)).
  { intros x [->%elem_of_singleton| ->%elem_of_singleton]%elem_of_union; apply elem_of_dom; eauto. }
  apply subseteq_size in Hsub. rewrite size_union, !size_singleton, size_dom in Hsub by set_solver. lia.
Qed.

Module TenureDemo.

#[local] Existing Instance log_events.
#[local] Existing Instance plain_hasher.
#[local] Existing Instance log_audit.
#[local] Existing Instance simple_prost.
#[local] Existing Instance hex_uuid.
Import UseCases.Demo GwDemo SystemDemo PresenceDemo.

Lemma demo_one_each : Forall (fun x => one_each (fst x)) history9.
Proof.
  eapply (Forall_impl (fun x => (size (sy_peers (fst x)) <= 1)%nat)); [|intros x; apply one_peer].
  apply Forall_forall. intros x Hx. apply Nat.leb_le. revert x Hx. apply Forall_forall.
  vm_compute. repeat constructor.
Qed.

(** Connection 77 takes room 300 for its room, and there Alice is listed with it. *)
Lemma connections_know_their_room_witness :
  exists t m, tasks (sy_rooms state9) !! 300 = Some t /\ ac_members (at_actor t) !! 20 = Some m /\ mb_sink m = 77.
Proof.
  assert (Hp : exists p pl, sy_peers state9 !! 77 = Some p /\ pe_stage p = Reading /\
    au_player (pe_auth p) = Some pl /\ ap_player_id pl = 20 /\ au_current_room (pe_auth p) = Some 300)
    by (vm_compute; eexists _, _; split_and!; reflexivity).
  destruct Hp as (p & pl & Hk & Hst & Hpl & Hid & Hcur).
  assert (Hd : pe_stage p <> Draining) by (rewrite Hst; discriminate).
  destruct (connections_know_their_room demo_config rooms_cfg 60000000000 demo_capacity Memory.empty_store MemTokens.new
    tt [] [] 2 0 UseCases.Demo.start_consistent history9 state9 77 p pl 300 demo_runs demo_one_each Hk Hd Hpl Hcur)
    as (t & Ht & Hopen).
  assert (Hin : 300 ∈ registry (sy_rooms state9))
    by (apply (bool_decide_eq_true_1 (300 ∈ registry (sy_rooms state9))); vm_compute; reflexivity).
  assert (Hst' : exists t', tasks (sy_rooms state9) !! 300 = Some t' /\ at_stopped t' = false)
    by (vm_compute; eexists; split; reflexivity).
  destruct Hst' as (t' & Ht' & Hs'). assert (t' = t) as -> by congruence.
  destruct (Hopen Hin Hs') as (m & Hm & Hsink). rewrite Hid in Hm. exists t, m. split; [exact Ht|]. split; [exact Hm|].
  apply Hsink.
  - pose proof demo_unhurried as Hu. apply Forall_app in Hu. apply Hu.
  - apply one_peer. vm_compute. lia.
Defined.

End TenureDemo.
