(* ===== verification/SystemAccept.v ===== *)
(** The running server behind its accept loop: [System] composed with [Listener]
    ([net-kit/src/listener.rs] and [TcpGateway::run] of [gateway/src/tcp/server.rs]).

    The workers of the accept loop spawn one task for each socket they accept; a task takes
    the admission and a handshake slot and then does the rounds of [System] for its
    connection.  The connection permit is held by the task from the accept to its end.
    A run of this machine is a run of [System] with the worker that each connection belongs
    to, so what [SystemRun], [SystemPresence] and [SystemTenure] prove holds here as well;
    the limits on connections and handshakes hold of the whole server.  A task that is
    aborted at the shutdown deadline may leave the clean-up of its connection to a task that
    no worker waits for; [attended] and [cleaning] tell the two kinds of connections apart. *)
From S2P Require Import Bootstrap.
From S2P Require Import Prelude Text Tokio Values Account Player Room Session Frame Connection.
From S2P Require Import Protocol App MemRepos TokenStore UseCases RoomActor RoomService Speech.
From S2P Require Import AuthGate RateLimit Gateway ConnLoop Lifecycle Listener Tls Http System SystemProofs SystemRun.
From Stdlib Require Import Strings.String.
Open Scope Z_scope.
Open Scope list_scope.
Abbreviation length := Datatypes.length.

Section Accept.
Context {Q : Type -> Type} `{HQ : Mpsc Q} {S T H A E K Sem : Type} `{HS : Repositories S}
        `{HT : SessionTokenStore T} `{HH : PasswordHasher H} `{HA : AuditLogger A}
        `{HE : EventPublisher E} `{HP : Prost} `{HU : UuidFmt} `{HK : AsyncWrite K} `{HSem : Semaphore Sem}.
Variables (config : TcpGatewayConfig) (rooms_config : RoomServiceConfig) (token_ttl : Z).

Abbreviation Sys := (@Sys Q S T H A E K).
Abbreviation Action := (@Action K).
Abbreviation act := (@act Q HQ S T H A E K HS HT HH HA HE HP HU HK config rooms_config token_ttl).
Abbreviation run := (@System.run Q HQ S T H A E K HS HT HH HA HE HP HU HK config rooms_config token_ttl).
Abbreviation Listener := (@Listener Sem).

(* ------------------------------------------------------------------ *)
(** ** The state *)

(** The task of a socket: not yet begun, or with the identifier of its connection. *)
Inductive Handler := Fresh (ip : IpAddr) | Serving (k : Z).

(** [sr_tasks]: the tasks of each worker's [JoinSet]; [sr_slots]: the semaphore of the
    handshakes. *)
Record Server := mkServer {
  sr_sys : Sys; sr_listener : Listener; sr_slots : Sem; sr_tasks : list (list Handler)
}.

Definition with_sys (s : Sys) (x : Server) : Server := mkServer s (sr_listener x) (sr_slots x) (sr_tasks x).
Definition with_listener (l : Listener) (x : Server) : Server := mkServer (sr_sys x) l (sr_slots x) (sr_tasks x).
Definition with_slots (f : Sem -> Sem) (x : Server) : Server :=
  mkServer (sr_sys x) (sr_listener x) (f (sr_slots x)) (sr_tasks x).
Definition with_tasks (i : nat) (ts : list Handler) (x : Server) : Server :=
  mkServer (sr_sys x) (sr_listener x) (sr_slots x) (<[i := ts]> (sr_tasks x)).

(** [TcpGateway::run]: the accept loop is started over the server. *)
Definition server_start (s : Sys) : Server :=
  let l := listener_start (gateway_accept_config config) in
  mkServer s l (sem_new (handshake_slots config)) (replicate (length (ls_workers l)) []).

(* ------------------------------------------------------------------ *)
(** ** What happens *)

(** One round of [System], with the time it reads. *)
Definition system (a : Action) (x : Server) : option Server :=
  match act a (sr_sys x) with
  | Some s => Some (with_sys (with_clock (default (sy_clock (sr_sys x)) (reading a)) s) x)
  | None => None
  end.

(** Worker [i] accepts a socket: it is refused, or a task is spawned for it. *)
Definition accept (i : nat) (ip : IpAddr) (x : Server) : option Server :=
  let l := sr_listener x in
  match ls_workers l !! i, sr_tasks x !! i with
  | Some w, Some ts =>
      if decide (wk_phase w = Accepting) then
        let '(sem, w') := worker_accept (ls_semaphore l) w in
        let x1 := with_listener (set_worker (mkListener sem (ls_shutdown l) (ls_workers l)) i w') x in
        Some (if (length (wk_handshakes w) <? length (wk_handshakes w'))%nat
              then with_tasks i (ts ++ [Fresh ip]) x1 else x1)
      else None
  | _, _ => None
  end.

(** Task [j] of worker [i] runs up to the handshake: the admission and a slot, or nothing. *)
Definition begin (i j : nat) (k now : Z) (x : Server) : option Server :=
  match sr_tasks x !! i with
  | Some ts =>
      match ts !! j with
      | Some (Fresh ip) =>
          match system (Admit k ip now) (with_tasks i (<[j := Serving k]> ts) x) with
          | Some x1 =>
              match sy_handshakes (sr_sys x1) !! k with
              | None => Some x1
              | Some _ =>
                  match Tokio.try_acquire (sr_slots x1) with
                  | Some slots => Some (with_slots (fun _ => slots) x1)
                  | None => system (HandshakeFails k) x1
                  end
              end
          | None => None
          end
      | _ => None
      end
  | None => None
  end.

(** A round of a task that has begun, or of the rest of the server; the handshake's slot is
    dropped with its end. *)
Definition round (a : Action) (x : Server) : option Server :=
  match a with
  | Admit _ _ _ | Abort _ => None
  | HandshakeFails _ | Open _ _ _ _ _ => with_slots sem_release <$> system a x
  | _ => system a x
  end.

(** The task is gone, and its permit with it. *)
Definition reap (i j : nat) (x : Server) : option Server :=
  let l := sr_listener x in
  match ls_workers l !! i, sr_tasks x !! i with
  | Some w, Some ts =>
      let '(sem, w') := worker_reap j (ls_semaphore l) w in
      Some (with_tasks i (delete j ts)
             (with_listener (set_worker (mkListener sem (ls_shutdown l) (ls_workers l)) i w') x))
  | _, _ => None
  end.

(** The connections that have a task, and those whose task was aborted and left a clean-up
    that is still to run. *)
Definition attended (s : Sys) : gset Z := dom (filter (fun kp : Z * @Peer Q K => pe_stage (snd kp) <> Detached) (sy_peers s)).
Definition cleaning (s : Sys) : gset Z := dom (filter (fun kp : Z * @Peer Q K => pe_stage (snd kp) = Detached) (sy_peers s)).

(** A task is over when its connection is, or is left to a clean-up. *)
Definition over (t : Handler) (s : Sys) : bool :=
  match t with
  | Fresh _ => false
  | Serving k => bool_decide (sy_handshakes s !! k = None) && bool_decide (k ∉ attended s)
  end.

Definition ended (i j : nat) (x : Server) : option Server :=
  match sr_tasks x !! i ≫= (fun ts => ts !! j) with
  | Some t => if over t (sr_sys x) then reap i j x else None
  | None => None
  end.

(** [abort_all] has reached the task: what it holds is dropped where it is. *)
Definition aborted (i j : nat) (x : Server) : option Server :=
  match ls_workers (sr_listener x) !! i, sr_tasks x !! i ≫= (fun ts => ts !! j) with
  | Some w, Some t =>
      if decide (wk_phase w = Aborting) then
        match t with
        | Fresh _ => reap i j x
        | Serving k =>
            match sy_handshakes (sr_sys x) !! k, sy_peers (sr_sys x) !! k with
            | Some _, _ => round (HandshakeFails k) x
            | None, Some p =>
                if decide (pe_stage p = Draining) then system (Finish k) x else system (Abort k) x
            | None, None => None
            end
        end
      else None
  | _, _ => None
  end.

(** A worker moves to another phase. *)
Definition worker_moves (i : nat) (can : Worker -> bool) (f : Worker -> Worker) (x : Server) : option Server :=
  match ls_workers (sr_listener x) !! i with
  | Some w => if can w then Some (with_listener (set_worker (sr_listener x) i (f w)) x) else None
  | None => None
  end.

Definition in_phase (p : phase) (w : Worker) : bool := bool_decide (wk_phase w = p).
(** Its [JoinSet] is empty after the loop. *)
Definition may_leave (w : Worker) : bool :=
  (in_phase Listener.Draining w || in_phase Aborting w) && (length (wk_handshakes w) =? 0)%nat.

Inductive ServerAction :=
| Accept (i : nat) (ip : IpAddr)
| Begin (i j : nat) (k now : Z)
| Round (a : Action)
| Ended (i j : nat)
| Aborted (i j : nat)
| Signal
| StopAccepting (i : nat)
| AbortAll (i : nat)
| Leave (i : nat).

Definition server_act (a : ServerAction) (x : Server) : option Server :=
  let l := sr_listener x in
  match a with
  | Accept i ip => accept i ip x
  | Begin i j k now => begin i j k now x
  | Round a => round a x
  | Ended i j => ended i j x
  | Aborted i j => aborted i j x
  | Signal => Some (with_listener (mkListener (ls_semaphore l) true (ls_workers l)) x)
  | StopAccepting i =>
      if ls_shutdown l then worker_moves i (in_phase Accepting) (fun w => mkWorker Listener.Draining (wk_handshakes w)) x else None
  | AbortAll i => worker_moves i (in_phase Listener.Draining) (fun w => mkWorker Aborting (wk_handshakes w)) x
  | Leave i => worker_moves i may_leave worker_finish x
  end.

(** The connections that tasks have begun. *)
Definition serving (t : Handler) : option Z := match t with Fresh _ => None | Serving k => Some k end.
Definition ids (tasks : list (list Handler)) : list Z := omap serving (List.concat tasks).

Definition server_permitted (a : ServerAction) (x : Server) : Prop :=
  match a with
  | Begin _ _ k now => permitted (Admit k 0 now : Action) (sr_sys x) /\ k ∉ ids (sr_tasks x)
  | Round a => permitted a (sr_sys x)
  | _ => True
  end.

Inductive server_run (x0 : Server) : list (Server * ServerAction) -> Server -> Prop :=
| server_run_start : server_run x0 [] x0
| server_run_act h x a x1 :
    server_run x0 h x -> server_permitted a x -> server_act a x = Some x1 -> server_run x0 (h ++ [(x, a)]) x1.

(* ------------------------------------------------------------------ *)
(** ** Every run is a run of [System] *)

Implicit Types (s : Sys) (x : Server).

(** The rest of the server, when [system] has moved it. *)
Definition same_frame x x1 : Prop :=
  sr_listener x1 = sr_listener x /\ sr_slots x1 = sr_slots x /\ sr_tasks x1 = sr_tasks x.

Lemma system_inv a x x1 :
  system a x = Some x1 ->
  same_frame x x1 /\ exists s1, act a (sr_sys x) = Some s1 /\
    sr_sys x1 = with_clock (default (sy_clock (sr_sys x)) (reading a)) s1.
Proof. unfold system. destruct (act a (sr_sys x)) as [s1|]; [|done]. intros [= <-]. split; [done|by exists s1]. Qed.

Lemma system_runs s0 h a x x1 :
  run s0 h (sr_sys x) -> permitted a (sr_sys x) -> system a x = Some x1 ->
  run s0 (h ++ [(sr_sys x, a)]) (sr_sys x1).
Proof. intros Hr Hp (_ & s1 & Ha & ->)%system_inv. by apply run_act. Qed.

(** What a step of the server does to [System]. *)
Definition continues s0 (h : list (Sys * Action)) x x1 : Prop := exists h', run s0 (h ++ h') (sr_sys x1).

Lemma continues_same s0 h x x1 : run s0 h (sr_sys x) -> sr_sys x1 = sr_sys x -> continues s0 h x x1.
Proof. intros Hr He. exists []. by rewrite app_nil_r, He. Qed.

Lemma continues_system s0 h a x x1 x2 :
  run s0 h (sr_sys x) -> permitted a (sr_sys x) -> system a x = Some x1 -> sr_sys x2 = sr_sys x1 ->
  continues s0 h x x2.
Proof. intros Hr Hp Hx He. eexists. rewrite He. by eapply system_runs. Qed.

Lemma reap_inv i j x x1 :
  reap i j x = Some x1 -> sr_sys x1 = sr_sys x /\ sr_slots x1 = sr_slots x /\
  exists w ts sem w', ls_workers (sr_listener x) !! i = Some w /\ sr_tasks x !! i = Some ts /\
    worker_reap j (ls_semaphore (sr_listener x)) w = (sem, w') /\
    sr_listener x1 = set_worker (mkListener sem (ls_shutdown (sr_listener x)) (ls_workers (sr_listener x))) i w' /\
    sr_tasks x1 = <[i := delete j ts]> (sr_tasks x).
Proof.
  unfold reap. destruct (ls_workers _ !! i) as [w|]; [|done]. destruct (sr_tasks x !! i) as [ts|]; [|done].
  destruct (worker_reap _ _ _) as [sem w'] eqn:Ew. intros [= <-]. split_and!; try done. by exists w, ts, sem, w'.
Qed.

Lemma round_inv a x x1 :
  round a x = Some x1 -> exists x2, system a x = Some x2 /\ sr_sys x1 = sr_sys x2 /\
    sr_listener x1 = sr_listener x /\ sr_tasks x1 = sr_tasks x /\
    sr_slots x1 = match a with HandshakeFails _ | Open _ _ _ _ _ => sem_release (sr_slots x) | _ => sr_slots x end.
Proof.
  unfold round. intros Hx.
  assert (Hs : exists x2, system a x = Some x2 /\
    x1 = match a with HandshakeFails _ | Open _ _ _ _ _ => with_slots sem_release x2 | _ => x2 end).
  { destruct a; try done; try (by eexists); destruct (system _ x) as [x2|]; try done; injection Hx as <-; by eexists. }
  destruct Hs as (x2 & Hs & ->). exists x2. split; [done|]. apply system_inv in Hs as [(Hl & Hsl & Ht) _].
  destruct a; cbn [with_slots sr_sys sr_listener sr_tasks sr_slots]; by rewrite ?Hl, ?Hsl, ?Ht.
Qed.

Lemma accept_inv i ip x x1 :
  accept i ip x = Some x1 -> sr_sys x1 = sr_sys x /\ sr_slots x1 = sr_slots x /\
  exists w ts sem w', ls_workers (sr_listener x) !! i = Some w /\ sr_tasks x !! i = Some ts /\
    wk_phase w = Accepting /\ worker_accept (ls_semaphore (sr_listener x)) w = (sem, w') /\
    sr_listener x1 = set_worker (mkListener sem (ls_shutdown (sr_listener x)) (ls_workers (sr_listener x))) i w' /\
    sr_tasks x1 = if (length (wk_handshakes w) <? length (wk_handshakes w'))%nat
                  then <[i := ts ++ [Fresh ip]]> (sr_tasks x) else sr_tasks x.
Proof.
  unfold accept. destruct (ls_workers _ !! i) as [w|]; [|done]. destruct (sr_tasks x !! i) as [ts|]; [|done].
  destruct (decide _); [|done]. destruct (worker_accept _ _) as [sem w'] eqn:Ew. intros [= <-].
  split_and!; [by case_match|by case_match|]. exists w, ts, sem, w'. split_and!; try done; by case_match.
Qed.

(** The task that begins: refused by the gate, without a slot, or in its handshake. *)
Lemma begin_inv i j k now x x1 :
  begin i j k now x = Some x1 ->
  exists ts ip x2, sr_tasks x !! i = Some ts /\ ts !! j = Some (Fresh ip) /\
    system (Admit k ip now) (with_tasks i (<[j := Serving k]> ts) x) = Some x2 /\
    sr_listener x1 = sr_listener x /\ sr_tasks x1 = <[i := <[j := Serving k]> ts]> (sr_tasks x) /\
    (sy_handshakes (sr_sys x2) !! k = None /\ x1 = x2 \/
     is_Some (sy_handshakes (sr_sys x2) !! k) /\ sr_sys x1 = sr_sys x2 /\
       Tokio.try_acquire (sr_slots x) = Some (sr_slots x1) \/
     is_Some (sy_handshakes (sr_sys x2) !! k) /\ system (HandshakeFails k) x2 = Some x1 /\
       sr_slots x1 = sr_slots x).
Proof.
  unfold begin. destruct (sr_tasks x !! i) as [ts|] eqn:Ei; [|done]. destruct (ts !! j) as [[ip|]|] eqn:Ej; [|done..].
  destruct (system _ _) as [x2|] eqn:Es; [|done]. intros Hx. exists ts, ip, x2.
  pose proof (system_inv _ _ _ Es) as [(Hl & Hs & Ht) _]. cbn in Hl, Hs, Ht.
  destruct (sy_handshakes (sr_sys x2) !! k) as [v|] eqn:Eh.
  2: { injection Hx as <-. split_and!; try done. by left. }
  rewrite Hs in Hx. destruct (Tokio.try_acquire (sr_slots x)) as [sl|] eqn:Ea.
  - injection Hx as <-. split_and!; try done. right. left. split_and!; [by eexists|done|done].
  - pose proof (system_inv _ _ _ Hx) as [(Hl' & Hs' & Ht') _].
    split_and!; rewrite ?Hl', ?Ht'; try done. right. right. split_and!; [by eexists|done|]. by rewrite Hs'.
Qed.

Lemma aborted_inv i j x x1 :
  aborted i j x = Some x1 ->
  exists w ts t, ls_workers (sr_listener x) !! i = Some w /\ sr_tasks x !! i = Some ts /\ ts !! j = Some t /\
  ((exists ip, t = Fresh ip) /\ reap i j x = Some x1 \/
   exists k, t = Serving k /\
     (round (HandshakeFails k) x = Some x1 \/ system (Finish k) x = Some x1 \/ system (Abort k) x = Some x1)).
Proof.
  unfold aborted. destruct (ls_workers _ !! i) as [w|]; [|done]. destruct (sr_tasks x !! i) as [ts|] eqn:Ei; [|done].
  cbn [mbind option_bind]. destruct (ts !! j) as [t|] eqn:Ej; [|done]. destruct (decide _); [|done].
  intros Hx. exists w, ts, t. split_and!; try done. destruct t as [ip|k]; [left; by split; [eexists|]|right].
  exists k. split; [done|]. destruct (sy_handshakes _ !! k); [by left|]. destruct (sy_peers _ !! k); [|done].
  right. destruct (decide _); [by left|by right].
Qed.

Lemma worker_moves_inv i can f x x1 :
  worker_moves i can f x = Some x1 -> exists w, ls_workers (sr_listener x) !! i = Some w /\ can w = true /\
    x1 = with_listener (set_worker (sr_listener x) i (f w)) x.
Proof.
  unfold worker_moves. destruct (ls_workers _ !! i) as [w|]; [|done]. destruct (can w) eqn:Ec; [|done].
  intros [= <-]. by exists w.
Qed.

Lemma ended_inv i j x x1 :
  ended i j x = Some x1 -> exists ts k, sr_tasks x !! i = Some ts /\ ts !! j = Some (Serving k) /\
    sy_handshakes (sr_sys x) !! k = None /\ (k ∉ attended (sr_sys x)) /\ reap i j x = Some x1.
Proof.
  unfold ended. destruct (sr_tasks x !! i) as [ts|] eqn:Ei; [|done]. cbn [mbind option_bind].
  destruct (ts !! j) as [[ip|k]|] eqn:Ej; [done| |done]. cbn [over].
  destruct (bool_decide _ && _) eqn:Eo; [|done]. b2p. intros Hx. by exists ts, k.
Qed.

Lemma steps_continue s0 h a x x1 :
  run s0 h (sr_sys x) -> server_permitted a x -> server_act a x = Some x1 -> continues s0 h x x1.
Proof.
  intros Hr Hp Hx. destruct a as [i ip|i j k now|a|i j|i j| |i|i|i]; cbn [server_act server_permitted] in *.
  - apply accept_inv in Hx as (? & _). by apply continues_same.
  - apply begin_inv in Hx as (ts & ip & x2 & _ & _ & Hs & _ & _ & Hx). destruct Hp as [Hp _].
    change (permitted (Admit k ip now : Action) (sr_sys x)) in Hp. destruct Hx as [[_ ->]|[(_ & He & _)|(_ & Hf & _)]].
    + exact (continues_system _ _ _ (with_tasks i (<[j := Serving k]> ts) x) _ _ Hr Hp Hs eq_refl).
    + exact (continues_system _ _ _ (with_tasks i (<[j := Serving k]> ts) x) _ _ Hr Hp Hs He).
    + pose proof (system_runs s0 h _ (with_tasks i (<[j := Serving k]> ts) x) x2 Hr Hp Hs) as Hr2.
      assert (Hp2 : permitted (HandshakeFails k : Action) (sr_sys x2)) by (by split).
      pose proof (system_runs s0 _ _ x2 x1 Hr2 Hp2 Hf) as Hr3.
      eexists. rewrite app_assoc. exact Hr3.
  - apply round_inv in Hx as (x2 & Hs & He & _). by eapply continues_system.
  - apply ended_inv in Hx as (ts & k & _ & _ & _ & _ & Hx). apply reap_inv in Hx as (? & _). by apply continues_same.
  - apply aborted_inv in Hx as (w & ts & t & _ & _ & _ & [[_ Hx]|(k & _ & [Hx|[Hx|Hx]])]).
    + apply reap_inv in Hx as (? & _). by apply continues_same.
    + apply round_inv in Hx as (x2 & Hs & He & _). eapply continues_system; [done| |done|done]. by split.
    + eapply continues_system; [done| |done|done]. by split.
    + eapply continues_system; [done| |done|done]. by split.
  - injection Hx as <-. by apply continues_same.
  - destruct (ls_shutdown _); [|done]. apply worker_moves_inv in Hx as (w & _ & _ & ->). by apply continues_same.
  - apply worker_moves_inv in Hx as (w & _ & _ & ->). by apply continues_same.
  - apply worker_moves_inv in Hx as (w & _ & _ & ->). by apply continues_same.
Qed.

Lemma server_run_is_run x0 h x : server_run x0 h x -> exists h', run (sr_sys x0) h' (sr_sys x).
Proof.
  induction 1 as [|h x a x1 _ (h' & IH) Hp Hx]; [exists []; constructor|].
  destruct (steps_continue _ _ _ _ _ IH Hp Hx) as (h2 & H2). by exists (h' ++ h2).
Qed.

(* ------------------------------------------------------------------ *)
(** ** Which connections there are *)

Lemma attended_lookup s k : k ∈ attended s <-> exists p, sy_peers s !! k = Some p /\ pe_stage p <> Detached.
Proof.
  unfold attended. rewrite elem_of_dom. split.
  - intros [p [Hk Hst]%map_lookup_filter_Some]. by exists p.
  - intros (p & Hk & Hst). exists p. by apply map_lookup_filter_Some.
Qed.

Lemma cleaning_lookup s k : k ∈ cleaning s <-> exists p, sy_peers s !! k = Some p /\ pe_stage p = Detached.
Proof.
  unfold cleaning. rewrite elem_of_dom. split.
  - intros [p [Hk Hst]%map_lookup_filter_Some]. by exists p.
  - intros (p & Hk & Hst). exists p. by apply map_lookup_filter_Some.
Qed.

(** Every connection is one or the other. *)
Lemma attended_cleaning s :
  attended s ## cleaning s /\ attended s ∪ cleaning s = dom (sy_peers s) /\
  (size (attended s) + size (cleaning s) = size (sy_peers s))%nat.
Proof.
  assert (Hd : attended s ## cleaning s).
  { intros k (p & Hk & Hst)%attended_lookup (p' & Hk' & Hst')%cleaning_lookup. congruence. }
  assert (Hu : attended s ∪ cleaning s = dom (sy_peers s)).
  { apply set_eq. intros k. rewrite elem_of_union, attended_lookup, cleaning_lookup, elem_of_dom. split.
    - by intros [(p & -> & _)|(p & -> & _)].
    - intros [p Hk]. destruct (decide (pe_stage p = Detached)); [right|left]; by exists p. }
  split; [done|]. split; [done|]. by rewrite <- size_dom, <- Hu, size_union.
Qed.

Lemma attended_same s s1 : same_cores (sy_peers s) (sy_peers s1) -> attended s1 = attended s.
Proof.
  intros Hc. apply set_eq. intros k. rewrite !attended_lookup. split; intros (p & Hk & Hst).
  - destruct (same_cores_lookup _ _ _ _ Hc Hk) as (p' & Hk' & He). exists p'. split; [done|].
    unfold core in He. congruence.
  - destruct (same_cores_lookup _ _ _ _ (same_cores_sym _ _ Hc) Hk) as (p' & Hk' & He). exists p'. split; [done|].
    unfold core in He. congruence.
Qed.

Lemma on_srv_conns {X} (m : io (@Srv Q E) X) s :
  sy_handshakes (snd (on_srv m s)) = sy_handshakes s /\
  same_cores (sy_peers s) (sy_peers (snd (on_srv m s))).
Proof. unfold on_srv. destruct (m _) as [y v]. cbn [snd]. split; [done|apply put_srv_cores]. Qed.

(** One connection moves on or goes. *)
Lemma attended_insert s s1 k p q :
  sy_peers s !! k = Some p -> (pe_stage p = Detached -> pe_stage q = Detached) ->
  sy_peers s1 = <[k := q]> (sy_peers s) -> attended s1 ⊆ attended s.
Proof.
  intros Hk Hst Hp i. rewrite !attended_lookup, Hp.
  intros (p' & [[<- <-]|[_ Hi]]%lookup_insert_Some & Hd); [|by exists p']. exists p. split; [done|]. auto.
Qed.
Lemma attended_delete s s1 k : sy_peers s1 = delete k (sy_peers s) -> attended s1 ⊆ attended s.
Proof. intros Hp i. rewrite !attended_lookup, Hp. intros (p' & [_ Hi]%lookup_delete_Some & Hd). by exists p'. Qed.

(** A round changes the handshakes and opens connections only as its name says. *)
Definition conns_moved (a : Action) s s1 : Prop :=
  match a with
  | Admit k _ _ =>
      (sy_handshakes s1 = sy_handshakes s \/ exists v, sy_handshakes s1 = <[k := v]> (sy_handshakes s)) /\
      attended s1 = attended s
  | HandshakeFails k =>
      is_Some (sy_handshakes s !! k) /\ sy_handshakes s1 = delete k (sy_handshakes s) /\
      attended s1 = attended s
  | Open k _ _ _ _ =>
      is_Some (sy_handshakes s !! k) /\ sy_handshakes s1 = delete k (sy_handshakes s) /\
      attended s1 ⊆ {[k]} ∪ attended s
  | _ => sy_handshakes s1 = sy_handshakes s /\ attended s1 ⊆ attended s
  end.

Ltac one_peer k s Hx := destruct (sy_peers s !! k) as [?p|] eqn:?Hk; [|done].

Lemma act_conns a s s1 : act a s = Some s1 -> conns_moved a s s1.
Proof.
  intros Hx. destruct a as [k ip now|k|k sock i now instant|k t|k env|k|k|k rounds now|k|k|k rounds now|r|rq|m|why];
    cbn [System.act conns_moved] in *.
  - unfold take_socket in Hx. destruct (on_srv _ s) as [o s2] eqn:Eo.
    pose proof (on_srv_conns (admission_acquire ip now (tg_unauth_timeout config)) s) as [Hh Hd].
    rewrite Eo in Hh, Hd. cbn [snd] in Hh, Hd. apply attended_same in Hd.
    apply (inj Some) in Hx as <-. destruct o as [a|]; cbn; rewrite Hh; split; eauto.
  - unfold handshake_fails in Hx. destruct (sy_handshakes s !! k) as [[ip a]|]; [|done]. apply (inj Some) in Hx as <-.
    destruct (on_srv_conns (drop_admission a) (with_handshakes (delete k) s)) as [-> Hd].
    apply attended_same in Hd as ->. cbn. eauto.
  - unfold open_connection in Hx. destruct (sy_handshakes s !! k) as [[ip a]|]; [|done]. cbv zeta in Hx.
    apply (inj Some) in Hx as <-. rewrite (proj1 (on_srv_conns _ _)), (attended_same _ _ (proj2 (on_srv_conns _ _))).
    cbn. split; [by eexists|]. split; [done|]. intros j. rewrite elem_of_union, elem_of_singleton, !attended_lookup. cbn.
    intros (p & [[<- _]|[_ Hj]]%lookup_insert_Some & Hst); [by left|right; by exists p].
  - unfold read_round in Hx. one_peer k s Hx. destruct (decide _) as [Hst|]; [|done].
    destruct (read_turn _ _ _ _ _ _ _ _) as [[] l]; try done; apply (inj Some) in Hx as <-; (split; [done|]);
      (eapply attended_insert; [exact Hk| |reflexivity]; by rewrite Hst).
  - unfold relay in Hx. one_peer k s Hx. destruct (sinks _ !! k) as [sk|]; [|done].
    destruct (decide _) as [Hst|]; [|done]. destruct (pop _) as [[ev tx]|]; [|done]. cbv zeta in Hx.
    destruct (translate _ _ _) as [[] g]; apply (inj Some) in Hx as <-; (split; [done|]);
      (eapply attended_insert; [exact Hk| |reflexivity]; by rewrite Hst).
  - unfold write_one in Hx. one_peer k s Hx. destruct (write_iter _ _) as [[] [rx sock]]; try done;
      apply (inj Some) in Hx as <-; (split; [done|]); (by eapply attended_insert; [exact Hk| |reflexivity]).
  - unfold writer_stops in Hx. one_peer k s Hx. destruct (_ || _); [|done].
    apply (inj Some) in Hx as <-; (split; [done|]); (by eapply attended_insert; [exact Hk| |reflexivity]).
  - unfold clean_up in Hx. one_peer k s Hx. destruct (decide _) as [Hst|]; [|done]. apply (inj Some) in Hx as <-.
    match goal with |- context [snd (on_srv ?m s)] => destruct (on_srv_conns m s) as [Hh Hc] end.
    cbn. rewrite Hh. split; [done|]. rewrite <- (attended_same _ _ Hc).
    destruct (same_cores_lookup _ _ _ _ (same_cores_sym _ _ Hc) Hk) as (p' & Hk' & He).
    eapply attended_insert; [exact Hk'| |reflexivity]. unfold core in He. cbn. congruence.
  - unfold finish_connection in Hx. one_peer k s Hx. destruct (decide _); [|done]. apply (inj Some) in Hx as <-.
    match goal with |- context [snd (on_srv ?m s)] => destruct (on_srv_conns m s) as [Hh Hc] end.
    cbn. rewrite Hh. split; [done|]. rewrite <- (attended_same _ _ Hc). by eapply attended_delete.
  - unfold abort in Hx. one_peer k s Hx. destruct (decide _); [|done].
    pose proof (on_srv_conns (connection_abort (peer_guard k p) (peer_admission p)) s) as [Hh Hc].
    destruct (on_srv _ s) as [b s2]. cbn [snd] in Hh, Hc. apply (inj Some) in Hx as <-. cbn. rewrite Hh.
    split; [done|]. rewrite <- (attended_same _ _ Hc). destruct b; [|by eapply attended_delete].
    destruct (same_cores_lookup _ _ _ _ (same_cores_sym _ _ Hc) Hk) as (p' & Hk' & He).
    by eapply attended_insert; [exact Hk'| |reflexivity].
  - unfold run_spawned in Hx. one_peer k s Hx. destruct (decide _); [|done]. apply (inj Some) in Hx as <-.
    match goal with |- context [snd (on_srv ?m s)] => destruct (on_srv_conns m s) as [Hh Hc] end.
    cbn. rewrite Hh. split; [done|]. rewrite <- (attended_same _ _ Hc). by eapply attended_delete.
  - by apply (inj Some) in Hx as <-.
  - unfold serve_http in Hx. by apply (inj Some) in Hx as <-.
  - apply (inj Some) in Hx as <-. destruct (on_srv_conns (on_conns (broadcast_shutdown m)) s) as [-> Hc].
    by rewrite (attended_same _ _ Hc).
  - by apply (inj Some) in Hx as <-.
Qed.

(* ------------------------------------------------------------------ *)
(** ** The limits, in every step *)

(** One task among those of all workers. *)
Lemma cell {X} (tasks : list (list X)) i j ts t :
  tasks !! i = Some ts -> ts !! j = Some t ->
  exists l1 l2, List.concat tasks = l1 ++ t :: l2 /\
    (forall t', List.concat (<[i := <[j := t']> ts]> tasks) = l1 ++ t' :: l2) /\
    List.concat (<[i := delete j ts]> tasks) = l1 ++ l2.
Proof.
  intros Hi Hj. assert (Hlt : (i < length tasks)%nat) by (by eapply lookup_lt_Some).
  assert (Hltj : (j < length ts)%nat) by (by eapply lookup_lt_Some).
  exists (List.concat (take i tasks) ++ take j ts), (drop (Datatypes.S j) ts ++ List.concat (drop (Datatypes.S i) tasks)).
  rewrite <- (take_drop_middle tasks i ts Hi) at 1. split_and!.
  - rewrite <- (take_drop_middle ts j t Hj) at 1. rewrite List.concat_app. cbn. by rewrite <- !app_assoc.
  - intros t'. rewrite insert_take_drop by done. rewrite List.concat_app. cbn [List.concat].
    rewrite insert_take_drop by done. by rewrite <- !app_assoc.
  - rewrite insert_take_drop by done. rewrite List.concat_app. cbn [List.concat].
    rewrite delete_take_drop. by rewrite <- !app_assoc.
Qed.

Lemma spawned {X} (tasks : list (list X)) i ts t :
  tasks !! i = Some ts -> exists l1 l2,
    List.concat tasks = l1 ++ l2 /\ List.concat (<[i := ts ++ [t]]> tasks) = l1 ++ t :: l2.
Proof.
  intros Hi. exists (List.concat (take i tasks) ++ ts), (List.concat (drop (Datatypes.S i) tasks)).
  rewrite <- (take_drop_middle tasks i ts Hi) at 1.
  rewrite insert_take_drop by (by eapply lookup_lt_Some). rewrite !List.concat_app. cbn. by rewrite <- !app_assoc.
Qed.

Definition conns s : gset Z := dom (sy_handshakes s) ∪ attended s.

Lemma conns_clock c s : conns (with_clock c s) = conns s.
Proof. done. Qed.

Record limits (n m : nat) x : Prop := mkLimits {
  lm_listener : listener_inv (Some n) (sr_listener x);
  lm_shape : Forall2 (fun w ts => length (wk_handshakes w) = length ts) (ls_workers (sr_listener x)) (sr_tasks x);
  lm_ids : NoDup (ids (sr_tasks x));
  lm_known : forall k, k ∈ conns (sr_sys x) -> k ∈ ids (sr_tasks x);
  lm_slots : (available (sr_slots x) + size (sy_handshakes (sr_sys x)) = m)%nat
}.

(** Only the system moved, and no connection came. *)
Lemma limits_sys n m x x1 :
  limits n m x -> sr_listener x1 = sr_listener x -> sr_tasks x1 = sr_tasks x ->
  conns (sr_sys x1) ⊆ conns (sr_sys x) ->
  (available (sr_slots x1) + size (sy_handshakes (sr_sys x1)) = m)%nat -> limits n m x1.
Proof. intros [] Hl Ht Hc Hs. constructor; rewrite ?Hl, ?Ht; try done. intros k Hk. by apply lm_known0, Hc. Qed.

Lemma size_delete_known {V} (m : gmap Z V) k : is_Some (m !! k) -> size m = Datatypes.S (size (delete k m)).
Proof.
  intros [v Hk]. rewrite <- (insert_delete_id m k v Hk) at 1. by rewrite map_size_insert_None by apply lookup_delete_eq.
Qed.

Lemma limits_round n m a x x1 : limits n m x -> round a x = Some x1 -> limits n m x1.
Proof.
  intros Hl Hx. pose proof Hl as [_ _ _ _ Hsl].
  assert (Hna : match a with Admit _ _ _ => False | _ => True end) by (by destruct a).
  apply round_inv in Hx as (x2 & (_ & s1 & Ha & Hs2)%system_inv & Hs1 & Hli & Ht & Hsl1).
  apply act_conns in Ha. rewrite Hs2 in Hs1. apply (limits_sys n m x); [done|done|done|..];
    rewrite Hs1, ?Hsl1, ?conns_clock; cbn.
  - unfold conns. destruct a; cbn in Ha; try done;
      first [destruct Ha as (Hk%elem_of_dom & -> & ->)|destruct Ha as (Hk%elem_of_dom & -> & ?)|destruct Ha as [-> ?]];
      set_solver.
  - destruct a; cbn in Ha; try done; try (by destruct Ha as [-> _]); destruct Ha as (Hk & -> & _);
      rewrite sem_release_spec; rewrite (size_delete_known _ _ Hk) in Hsl; lia.
Qed.

(** The end of a connection. *)
Lemma limits_closed n m a x x1 :
  limits n m x -> system a x = Some x1 ->
  (forall s s1, conns_moved a s s1 -> sy_handshakes s1 = sy_handshakes s /\ attended s1 ⊆ attended s) ->
  limits n m x1.
Proof.
  intros Hl ((Hli & Hsl & Ht) & s1 & Ha & Hs1)%system_inv Hq. apply act_conns, Hq in Ha as [Hh Hd].
  apply (limits_sys n m x); [done..| |]; rewrite Hs1, ?Hsl, ?conns_clock; cbn; [|rewrite Hh; apply Hl].
  unfold conns. rewrite Hh. set_solver.
Qed.

Lemma shape_length x i w ts :
  Forall2 (fun w ts => length (wk_handshakes w) = length ts) (ls_workers (sr_listener x)) (sr_tasks x) ->
  ls_workers (sr_listener x) !! i = Some w -> sr_tasks x !! i = Some ts -> length (wk_handshakes w) = length ts.
Proof. intros Hs Hw Ht. exact (Forall2_lookup_lr _ _ _ _ _ _ Hs Hw Ht). Qed.

Lemma limits_reap n m i j x x1 ts t :
  limits n m x -> sr_tasks x !! i = Some ts -> ts !! j = Some t ->
  (forall k, t = Serving k -> k ∉ conns (sr_sys x)) -> reap i j x = Some x1 -> limits n m x1.
Proof.
  intros [] Hi Hj Hk Hx.
  apply reap_inv in Hx as (Hs & Hsl & w & ts' & sem & w' & Hw & Hi' & Hr & Hl & Ht). simplify_eq.
  pose proof (shape_length x i w ts lm_shape0 Hw Hi) as Hlen.
  assert (Hj' : (j < length (wk_handshakes w))%nat) by (rewrite Hlen; by eapply lookup_lt_Some).
  destruct (cell _ _ _ _ _ Hi Hj) as (l1 & l2 & Hc & _ & Hdel).
  assert (Hids : ids (sr_tasks x) ≡ₚ option_list (serving t) ++ ids (sr_tasks x1)).
  { unfold ids. rewrite Ht, Hc, Hdel, !omap_app. cbn [omap list_omap].
    destruct (serving t); cbn; [by rewrite Permutation_middle|done]. }
  constructor; rewrite ?Hs, ?Hsl; try done.
  - rewrite Hl. apply (listener_inv_step _ (sr_listener x)); [done|by eapply ls_reap].
  - rewrite Hl, Ht. cbn. apply Forall2_insert; [done|]. unfold worker_reap in Hr. injection Hr as _ <-. cbn.
    rewrite !length_delete by (eauto || by apply lookup_lt_is_Some_2). lia.
  - rewrite Hids in lm_ids0. by apply NoDup_app in lm_ids0 as (_ & _ & ?).
  - intros k Hkc. specialize (lm_known0 k Hkc). rewrite Hids in lm_known0.
    apply elem_of_app in lm_known0 as [Hin|]; [|done]. destruct t as [ip|k']; cbn in Hin; [by apply not_elem_of_nil in Hin|].
    apply list_elem_of_singleton in Hin as ->. by destruct (Hk k' eq_refl).
Qed.

Lemma limits_accept n m i ip x x1 : limits n m x -> accept i ip x = Some x1 -> limits n m x1.
Proof.
  intros [] Hx. apply accept_inv in Hx as (Hs & Hsl & w & ts & sem & w' & Hw & Hi & Hph & Hacc & Hl & Ht).
  pose proof (shape_length x i w ts lm_shape0 Hw Hi) as Hlen.
  assert (Hlist : listener_inv (Some n) (sr_listener x1)).
  { rewrite Hl. apply (listener_inv_step _ (sr_listener x)); [done|by eapply ls_accept]. }
  assert (Hids : ids (sr_tasks x1) = ids (sr_tasks x)).
  { rewrite Ht. destruct (_ <? _)%nat; [|done]. destruct (spawned _ i ts (Fresh ip) Hi) as (l1 & l2 & Hc & Hc').
    unfold ids. by rewrite Hc, Hc', !omap_app. }
  constructor; rewrite ?Hs, ?Hsl, ?Hids; try done. rewrite Hl, Ht. cbn [set_worker ls_workers].
  assert (Hgrow : length (wk_handshakes w') = length (wk_handshakes w) \/
                  length (wk_handshakes w') = Datatypes.S (length (wk_handshakes w))).
  { unfold worker_accept in Hacc. destruct (ls_semaphore _) as [s0|]; [destruct (Tokio.try_acquire s0)|];
      injection Hacc as _ <-; cbn; rewrite ?length_app; cbn; lia. }
  destruct (_ <? _)%nat eqn:Elt; [apply Nat.ltb_lt in Elt|apply Nat.ltb_ge in Elt].
  - apply Forall2_insert; [done|]. rewrite length_app. cbn. lia.
  - rewrite <- (list_insert_id (sr_tasks x) i ts Hi). apply Forall2_insert; [done|]. lia.
Qed.

Lemma limits_begin n m i j k now x x1 :
  limits n m x -> sy_handshakes (sr_sys x) !! k = None -> k ∉ ids (sr_tasks x) ->
  begin i j k now x = Some x1 -> limits n m x1.
Proof.
  intros [] Hfree Hk Hx. apply begin_inv in Hx as (ts & ip & x2 & Hi & Hj & Hs & Hl & Ht & Hx).
  destruct (cell _ _ _ _ _ Hi Hj) as (l1 & l2 & Hc & Hset & _).
  assert (Hids : ids (sr_tasks x1) ≡ₚ k :: ids (sr_tasks x)).
  { unfold ids. rewrite Ht, Hc, Hset, !omap_app. cbn. by rewrite Permutation_middle. }
  apply system_inv in Hs as [(_ & Hsl2 & _) (s1 & Ha & Hs2)]. cbn [sr_sys sr_slots with_tasks] in Hsl2, Ha, Hs2. apply act_conns in Ha.
  assert (Hmoved : conns (sr_sys x1) ⊆ {[k]} ∪ conns (sr_sys x) /\
                   (available (sr_slots x1) + size (sy_handshakes (sr_sys x1)) = m)%nat).
  { destruct Ha as [Ha Hd]. rewrite Hs2 in Hx. cbn in Hx.
    assert (Hdc : forall c, attended (with_clock c s1) = attended (sr_sys x)) by (intros c; exact Hd).
    unfold conns.
    destruct Hx as [[Hnone ->]|[([v Hv] & -> & Hacq)|(_ & Hf & ->)]].
    - rewrite Hs2, Hsl2, Hdc. cbn. destruct Ha as [->|[v Hv]]; [split; [set_solver|done]|].
      rewrite Hv, lookup_insert_eq in Hnone. done.
    - rewrite Hdc. cbn. destruct Ha as [He|[v' ->]]; [by rewrite He, Hfree in Hv|].
      split; [rewrite dom_insert_L; set_solver|]. rewrite map_size_insert_None by done.
      destruct (available (sr_slots x)) as [|c] eqn:Ec; [by rewrite try_acquire_none in Hacq|].
      destruct (try_acquire_some _ c Ec) as (sl & Hsl & <-). simplify_eq. lia.
    - apply system_inv in Hf as [_ (s3 & Hf & ->)]. apply act_conns in Hf as (_ & Hh3 & Hd3).
      rewrite Hs2, Hdc in Hd3. rewrite Hs2 in Hh3. cbn in Hh3 |- *.
      match goal with |- context [attended ?y] => change (attended y) with (attended s3) end. rewrite Hh3, Hd3.
      destruct Ha as [->|[v ->]].
      + rewrite delete_id by done. split; [set_solver|done].
      + rewrite delete_insert_id by done. split; [set_solver|done]. }
  destruct Hmoved as [Hcn Hsl]. constructor; rewrite ?Hl, ?Ht; try done.
  - destruct (Forall2_lookup_r _ _ _ _ _ lm_shape0 Hi) as (w & Hw & Hlen).
    rewrite <- (list_insert_id (ls_workers _) i w Hw). apply Forall2_insert; [done|by rewrite length_insert].
  - rewrite <- Ht, Hids. by constructor.
  - intros k' Hk'. rewrite <- Ht, Hids. apply Hcn, elem_of_union in Hk' as [->%elem_of_singleton|Hk']; [left|right]. by apply lm_known0.
Qed.

Lemma limits_worker n m i w w' x :
  limits n m x -> ls_workers (sr_listener x) !! i = Some w -> length (wk_handshakes w') = length (wk_handshakes w) ->
  listener_step (sr_listener x) (set_worker (sr_listener x) i w') ->
  limits n m (with_listener (set_worker (sr_listener x) i w') x).
Proof.
  intros [] Hw Hlen Hstep. constructor; try done; cbn.
  - by eapply listener_inv_step.
  - destruct (Forall2_lookup_l _ _ _ _ _ lm_shape0 Hw) as (ts & Hts & Hl).
    rewrite <- (list_insert_id (sr_tasks x) i ts Hts). apply Forall2_insert; [done|congruence].
Qed.

Lemma limits_step n m a x x1 :
  limits n m x -> server_permitted a x -> server_act a x = Some x1 -> limits n m x1.
Proof.
  intros Hl Hp Hx. destruct a as [i ip|i j k now|a|i j|i j| |i|i|i]; cbn [server_act server_permitted] in *.
  - by eapply limits_accept.
  - destruct Hp as [[_ (Hh & _)] Hk]. by eapply limits_begin.
  - by eapply limits_round.
  - apply ended_inv in Hx as (ts & k & Hi & Hj & Hh & Hp' & Hx). eapply limits_reap; [done..| |done].
    intros k' [= <-]. unfold conns. rewrite elem_of_union, elem_of_dom, Hh. by intros [[]|?].
  - apply aborted_inv in Hx as (w & ts & t & _ & Hi & Hj & [[[ip ->] Hx]|(k & -> & [Hx|[Hx|Hx]])]).
    + by eapply limits_reap.
    + by eapply limits_round.
    + by eapply limits_closed.
    + by eapply limits_closed.
  - injection Hx as <-. destruct Hl. by constructor.
  - destruct (ls_shutdown _) eqn:Es; [|done]. apply worker_moves_inv in Hx as (w & Hw & Hc & ->).
    unfold in_phase in Hc. b2p. eapply limits_worker; [done|done|done|by apply ls_stop].
  - apply worker_moves_inv in Hx as (w & Hw & Hc & ->). unfold in_phase in Hc. b2p.
    eapply limits_worker; [done|done|done|by apply ls_timeout].
  - apply worker_moves_inv in Hx as (w & Hw & Hc & ->). unfold may_leave, in_phase in Hc.
    apply andb_true_iff in Hc as [Hph Hlen]. apply Nat.eqb_eq in Hlen.
    eapply limits_worker; [done|done| |apply ls_exit; [done|]].
    + unfold worker_finish. destruct w as [[] [|]]; done.
    + intros He. by rewrite He in Hph.
Qed.

Abbreviation max_connections := (Z.to_nat (tg_max_connections config)).

Lemma limits_start s : conns s = ∅ -> limits max_connections (handshake_slots config) (server_start s).
Proof.
  intros Hc. pose proof (listener_inv_start (gateway_accept_config config)) as Hli.
  assert (Hids : forall n, ids (replicate n []) = []) by (intros n; induction n; [done|exact IHn]).
  constructor.
  - exact Hli.
  - cbn [sr_tasks sr_listener server_start ls_workers listener_start]. rewrite length_replicate. by apply Forall2_replicate.
  - cbn [sr_tasks server_start]. rewrite Hids. constructor.
  - cbn [sr_tasks sr_sys server_start]. rewrite Hc. set_solver.
  - cbn [sr_slots sr_sys server_start]. rewrite sem_new_spec.
    assert (sy_handshakes s = ∅) as ->; [|rewrite map_size_empty; lia]. apply dom_empty_inv_L. unfold conns in Hc. set_solver.
Qed.

Lemma limits_run n m x0 h x : limits n m x0 -> server_run x0 h x -> limits n m x.
Proof. intros H0. induction 1; [done|]. by eapply limits_step. Qed.

(** The tasks of all workers are the tasks the listener counts. *)
Lemma count_concat (ws : list Worker) (tasks : list (list Handler)) :
  Forall2 (fun w ts => length (wk_handshakes w) = length ts) ws tasks ->
  count_tasks ws = length (List.concat tasks).
Proof. induction 1 as [|w ts ws tasks Hl _ IH]; [done|]. cbn. rewrite length_app. lia. Qed.

Lemma length_omap_le {X Y} (f : X -> option Y) (l : list X) : (length (omap f l) <= length l)%nat.
Proof. induction l as [|a l IH]; [done|]. cbn. destruct (f a); cbn; lia. Qed.

(** The handshakes and the connections that have a task are at most the running tasks. *)
Lemma conns_running n m max x :
  limits n m x -> books max (sr_sys x) ->
  (size (sy_handshakes (sr_sys x)) + size (attended (sr_sys x)) <= running (sr_listener x))%nat.
Proof.
  intros [] Hb. unfold running. rewrite (count_concat _ _ lm_shape0).
  etransitivity; [|apply (length_omap_le serving)]. fold (ids (sr_tasks x)).
  assert (Hsz : size (conns (sr_sys x)) = (size (sy_handshakes (sr_sys x)) + size (attended (sr_sys x)))%nat).
  { unfold conns. rewrite size_union, size_dom; [done|]. intros k Hh (p & Hp & _)%attended_lookup.
    apply elem_of_dom in Hh as [[ip a] Hh].
    destruct (bk_handshakes _ _ Hb k ip a Hh) as (_ & Hn & _). congruence. }
  rewrite <- Hsz, <- (size_list_to_set (C := gset Z) _ lm_ids0). apply subseteq_size. intros k Hk.
  apply elem_of_list_to_set. by apply lm_known0.
Qed.

(* ------------------------------------------------------------------ *)
(** ** The limits of the running server *)

Hypothesis Hcap : (1 <= command_capacity rooms_config)%nat.

Section Server.
Variables (store : S) (tokens : T) (hasher : H) (audit : A) (events : E) (max : nat) (clock : Z).
Abbreviation s0 := (@start Q S T H A E K store tokens hasher audit events max clock).
Hypothesis Happ : consistent clock (mkWorld store tokens hasher audit events).

(** What every reachable state satisfies. *)
Definition reached x : Prop :=
  limits max_connections (handshake_slots config) x /\ exists h, run s0 h (sr_sys x).

Lemma reached_start : reached (server_start s0).
Proof. split; [by apply limits_start|exists []; constructor]. Qed.

Lemma reached_step a x x1 : reached x -> server_permitted a x -> server_act a x = Some x1 -> reached x1.
Proof.
  intros [Hl [h Hr]] Hp Hx. split; [by eapply limits_step|].
  destruct (steps_continue _ _ _ _ _ Hr Hp Hx) as (h' & Hr'). by exists (h ++ h').
Qed.

Lemma server_run_reached h x : server_run (server_start s0) h x -> reached x.
Proof. induction 1; [apply reached_start|by eapply reached_step]. Qed.

Lemma reached_inv x : reached x -> exists h, sys_inv s0 max h (sr_sys x).
Proof.
  intros [_ [h Hr]]. exists h.
  by apply (inv_run config rooms_config token_ttl Hcap _ _ _ _ (inv_start _ _ _ _ _ max _ Happ)).
Qed.

Lemma reached_books x : reached x -> books max (sr_sys x).
Proof. intros [h Hi]%reached_inv. by apply si_books in Hi. Qed.

(** When no connection has a task, only what the clean-ups still to run hold is left. *)
Lemma only_cleaning x :
  reached x -> conns (sr_sys x) = ∅ ->
  sy_handshakes (sr_sys x) = ∅ /\ dom (sy_peers (sr_sys x)) = cleaning (sr_sys x) /\
  dom (sy_registry (sr_sys x)) = cleaning (sr_sys x) /\
  sy_gauge (sr_sys x) = Z.of_nat (size (cleaning (sr_sys x))) /\
  forall ip, unauth_count (sy_gate (sr_sys x)) ip = 0%nat.
Proof.
  intros Hx Hc. unfold conns in Hc. apply empty_union_L in Hc as [Hh%dom_empty_inv_L Ha].
  destruct (attended_cleaning (sr_sys x)) as (_ & Hu & Hsz). rewrite Ha, union_empty_l_L in Hu.
  rewrite Ha, size_empty in Hsz. cbn in Hsz.
  destruct (reached_books x Hx) as [(_ & Hcount & _) _ Hok Hr Hg]. split_and!; [done|done| | |].
  - rewrite Hu. apply set_eq. intros k. rewrite !elem_of_dom, Hr, fmap_is_Some. done.
  - by rewrite Hg, Hsz.
  - intros ip. cbn in Hcount. rewrite Hcount. unfold permits. rewrite Hh.
    unfold alive. apply count_occ_not_In. intros Hin. apply list_elem_of_In, elem_of_app in Hin as [Hin|Hin].
    { unfold held_by in Hin. rewrite map_to_list_empty in Hin. by apply not_elem_of_nil in Hin. }
    unfold held_by in Hin. apply list_elem_of_omap in Hin as ([k p] & Hk%elem_of_map_to_list & Hp). cbn in Hp.
    destruct (Hok k p Hk) as [Hpm _]. unfold peer_ok in Hpm.
    assert (Hst : pe_stage p = Detached); [|rewrite Hst in Hpm; congruence].
    assert (Hkc : k ∈ cleaning (sr_sys x)) by (rewrite Hu; apply elem_of_dom; eauto).
    apply cleaning_lookup in Hkc as (p' & Hk' & ?). congruence.
Qed.

Lemma nothing_left x :
  reached x -> sy_handshakes (sr_sys x) = ∅ -> sy_peers (sr_sys x) = ∅ ->
  sy_registry (sr_sys x) = ∅ /\ sy_gauge (sr_sys x) = 0 /\
  forall ip, unauth_count (sy_gate (sr_sys x)) ip = 0%nat.
Proof.
  intros Hx Hh Hp.
  assert (Ha : attended (sr_sys x) = ∅) by (unfold attended; by rewrite Hp, map_filter_empty, dom_empty_L).
  assert (Hcl : cleaning (sr_sys x) = ∅) by (unfold cleaning; by rewrite Hp, map_filter_empty, dom_empty_L).
  destruct (only_cleaning x Hx) as (_ & _ & Hr & Hg & Hz).
  { unfold conns. by rewrite Hh, Ha, dom_empty_L, union_empty_l_L. }
  rewrite Hcl in Hr, Hg. split; [by apply dom_empty_inv_L|]. by rewrite size_empty in Hg.
Qed.

Lemma all_exited n m x :
  limits n m x -> Forall (fun w => wk_phase w = Exited) (ls_workers (sr_listener x)) -> conns (sr_sys x) = ∅.
Proof.
  intros [(_ & He & _)] Hex. assert (Hids : ids (sr_tasks x) = []).
  { unfold ids. assert (List.concat (sr_tasks x) = []) as ->; [|done]. clear lm_known0 lm_ids0.
    induction lm_shape0 as [|w ts ws tasks Hlen _ IH]; [done|].
    apply Forall_cons in He as [Hw He], Hex as [Hwx Hex]. rewrite (Hw Hwx) in Hlen. cbn in Hlen.
    destruct ts; [|done]. cbn. by apply IH. }
  apply set_eq. intros k. split; [|set_solver]. intros Hk%lm_known0. rewrite Hids in Hk. by apply not_elem_of_nil in Hk.
Qed.

(** C8: The limits of the configuration are limits of the whole running server.  However
    sockets are accepted, refused, handshaken, served, ended and aborted, in every state a run
    reaches the handshakes under way and the connections that have a task are together at
    most [SERVER_MAX_CONNECTIONS], and the gauge exceeds that at most by the connections whose
    task was aborted and left a clean-up that is still to run; the handshakes are at most the
    handshake slots; a socket is refused by the accept loop only when exactly that many tasks
    run.  Once every worker has left its loop, no handshake, task or permit is left; what is
    registered and counted then, and what [wait_until_drained] waits for, is exactly the
    connections whose clean-ups are still to run.
    The run is one of [System], so what holds of its runs holds here. *)
Theorem accept_loop_bounds_the_server (h : list (Server * ServerAction)) x (Hrun : server_run (server_start s0) h x) :
  let s := sr_sys x in
  (exists h', run s0 h' s) /\
  (size (sy_handshakes s) + size (attended s) <= max_connections)%nat /\
  sy_gauge s <= Z.of_nat max_connections + Z.of_nat (size (cleaning s)) /\
  (size (sy_handshakes s) <= handshake_slots config)%nat /\
  (forall i ip w, ls_workers (sr_listener x) !! i = Some w -> accept i ip x = Some x ->
     running (sr_listener x) = max_connections) /\
  (Forall (fun w => wk_phase w = Exited) (ls_workers (sr_listener x)) ->
     sy_handshakes s = ∅ /\ dom (sy_peers s) = cleaning s /\ dom (sy_registry s) = cleaning s /\
     sy_gauge s = Z.of_nat (size (cleaning s)) /\
     forall ip, unauth_count (sy_gate s) ip = 0%nat).
Proof.
  cbv zeta. pose proof (server_run_reached _ _ Hrun) as Hx. pose proof (reached_books x Hx) as Hb.
  pose proof Hx as [Hl Hr]. pose proof (conns_running _ _ _ _ Hl Hb) as Hle.
  pose proof Hl as [(_ & _ & Hn) Hsh _ _ Hsl].
  assert (Hsem : exists sem, ls_semaphore (sr_listener x) = Some sem /\
                   (available sem + running (sr_listener x) = max_connections)%nat).
  { destruct (ls_semaphore _) as [sem|]; [by exists sem|done]. }
  destruct Hsem as (sem & Hsem & Hav). split; [done|].
  destruct (attended_cleaning (sr_sys x)) as (_ & _ & Hsz).
  split_and!; [lia|rewrite (bk_gauge _ _ Hb); lia|lia| |].
  - intros i ip w Hw Hacc. apply accept_inv in Hacc as (_ & _ & w0 & ts & sem' & w' & Hw0 & _ & _ & Ha & He & _).
    simplify_eq. rewrite Hsem in Ha. unfold worker_accept in Ha. destruct (Tokio.try_acquire sem) as [sem1|] eqn:Et.
    + injection Ha as <- <-. apply (f_equal (fun l => ls_workers l !! i)) in He. cbn in He.
      rewrite list_lookup_insert_eq in He by (by eapply lookup_lt_Some). rewrite Hw in He.
      apply (f_equal (fun o => length (wk_handshakes (default w o)))) in He. cbn in He. rewrite length_app in He. cbn in He. lia.
    + destruct (available sem) as [|c] eqn:Ec; [lia|]. destruct (try_acquire_some sem c Ec) as (? & ? & _). congruence.
  - intros Hex. apply only_cleaning; [done|]. by eapply all_exited.
Qed.

(* ------------------------------------------------------------------ *)
(** ** Shutting down in order *)

(** The steps of a shutdown in which nobody is cut off. *)
Definition orderly (a : ServerAction) : bool :=
  match a with Accept _ _ | Aborted _ _ | AbortAll _ => false | _ => true end.

Definition winds x x1 : Prop :=
  exists a, orderly a = true /\ server_permitted a x /\ server_act a x = Some x1.

Lemma winds_run h x x1 :
  server_run (server_start s0) h x -> star winds x x1 ->
  exists h', server_run (server_start s0) (h ++ h') x1 /\ Forall (fun y => orderly (snd y) = true) h'.
Proof.
  intros Hr. induction 1 as [|x1 x2 _ (h' & IH & Ho) (a & Ha & Hp & Hx)].
  - exists []. by rewrite app_nil_r.
  - exists (h' ++ [(x1, a)]). rewrite app_assoc. split; [by eapply server_run_act|]. apply Forall_app. by repeat constructor.
Qed.

(** A measure that some orderly step always lowers comes down to zero. *)
Lemma wind_down (P : Server -> Prop) (f : Server -> nat) :
  (forall x, P x -> f x <> 0%nat -> exists x1, winds x x1 /\ P x1 /\ (f x1 < f x)%nat) ->
  forall x, P x -> exists x1, star winds x x1 /\ P x1 /\ f x1 = 0%nat.
Proof.
  intros Hstep x. induction x as [x IH] using (induction_ltof1 _ f). intros Hx.
  destruct (decide (f x = 0%nat)) as [H0|Hn0]; [exists x; by split_and!; [constructor| |]|].
  destruct (Hstep x Hx Hn0) as (x1 & Hw & Hx1 & Hlt). destruct (IH x1 Hlt Hx1) as (x2 & Hs & Hx2 & H0).
  exists x2. split_and!; [|done|done]. eapply star_trans; [|exact Hs]. eapply star_snoc; [constructor|done].
Qed.

Definition fresh_task (t : Handler) : option Z := match t with Fresh ip => Some ip | Serving _ => None end.
Definition waiting x : nat := length (omap fresh_task (List.concat (sr_tasks x))).

Lemma in_concat_cell {X} (tasks : list (list X)) t :
  t ∈ List.concat tasks -> exists i ts j, tasks !! i = Some ts /\ ts !! j = Some t.
Proof.
  rewrite list_elem_of_In, in_concat. intros (ts & Hts & Ht). rewrite <- !list_elem_of_In in *.
  apply list_elem_of_lookup in Hts as [i Hi], Ht as [j Hj]. by exists i, ts, j.
Qed.

Definition stopping x : Prop := reached x /\ ls_shutdown (sr_listener x) = true.

Lemma admit_possible k ip now x : is_Some (system (Admit k ip now) x).
Proof. unfold system. cbn [System.act]. unfold take_socket. destruct (on_srv _ _). by eexists. Qed.

Lemma handshake_fails_possible k x : is_Some (sy_handshakes (sr_sys x) !! k) -> is_Some (system (HandshakeFails k) x).
Proof. intros [[ip a] Hk]. unfold system. cbn [System.act]. unfold handshake_fails. rewrite Hk. by eexists. Qed.

(** Every accepted socket gets as far as its handshake. *)
Lemma begin_all x : stopping x -> waiting x <> 0%nat ->
  exists x1, winds x x1 /\ stopping x1 /\ (waiting x1 < waiting x)%nat.
Proof.
  intros [Hx Hsd] Hw.
  assert (Hin : exists ip, Fresh ip ∈ List.concat (sr_tasks x)).
  { unfold waiting in Hw. destruct (omap fresh_task _) as [|ip l] eqn:Eo; [done|].
    assert (Hip : ip ∈ omap fresh_task (List.concat (sr_tasks x))) by (rewrite Eo; left).
    apply list_elem_of_omap in Hip as (t & Ht & Hf). exists ip. by destruct t; simplify_eq/=. }
  destruct Hin as (ip & (i & ts & j & Hi & Hj)%in_concat_cell).
  set (k := fresh (dom (sy_handshakes (sr_sys x)) ∪ dom (sy_peers (sr_sys x)) ∪ dom (sinks (sy_rooms (sr_sys x)))
                   ∪ list_to_set (ids (sr_tasks x)) : gset Z)).
  assert (Hk : k ∉ dom (sy_handshakes (sr_sys x)) ∪ dom (sy_peers (sr_sys x)) ∪ dom (sinks (sy_rooms (sr_sys x)))
                   ∪ list_to_set (ids (sr_tasks x))) by apply is_fresh.
  rewrite !not_elem_of_union, elem_of_list_to_set, !not_elem_of_dom in Hk. destruct Hk as [[[Hkh Hkp] Hks] Hki].
  assert (Hp : server_permitted (Begin i j k 0) x) by (by repeat split).
  assert (Hb : is_Some (begin i j k 0 x)).
  { unfold begin. rewrite Hi, Hj. destruct (admit_possible k ip 0 (with_tasks i (<[j := Serving k]> ts) x)) as [x2 ->].
    destruct (sy_handshakes (sr_sys x2) !! k) as [v|] eqn:Eh; [|by eexists].
    destruct (Tokio.try_acquire _); [by eexists|]. apply handshake_fails_possible. by eexists. }
  destruct Hb as [x1 Hb]. exists x1. split; [exists (Begin i j k 0); by split_and!|].
  pose proof (reached_step (Begin i j k 0) x x1 Hx Hp Hb) as Hx1.
  apply begin_inv in Hb as (ts' & ip' & x2 & Hi' & Hj' & _ & Hl & Ht & _). simplify_eq.
  split; [split; [done|congruence]|]. destruct (cell _ _ _ _ _ Hi Hj) as (l1 & l2 & Hc & Hset & _).
  unfold waiting. rewrite Ht, Hc, Hset, !omap_app, !length_app. cbn. lia.
Qed.

(** Every connection ends. *)
Lemma close_one x : stopping x /\ waiting x = 0%nat -> open_work (sr_sys x) <> 0%nat ->
  exists x1, winds x x1 /\ (stopping x1 /\ waiting x1 = 0%nat) /\ (open_work (sr_sys x1) < open_work (sr_sys x))%nat.
Proof.
  intros [[Hx Hsd] Hw] Hn0. destruct (reached_inv x Hx) as [h Hinv].
  destruct (drain_action (sr_sys x)) as [a|] eqn:Ea.
  2: { destruct Hn0. unfold drain_action in Ea. unfold open_work.
       destruct (map_to_list (sy_handshakes _)) as [|[? ?] ?] eqn:Eh; [|done].
       destruct (map_to_list (sy_peers _)) as [|[? ?] ?] eqn:Ep; [|done].
       apply map_to_list_empty_iff in Eh, Ep. by rewrite Eh, Ep. }
  destruct (drain_step config rooms_config token_ttl Hcap store tokens hasher audit events max clock h (sr_sys x) a Hinv Ea) as (Hp & s1 & Ha & Hlt).
  assert (Hround : exists x1, round a x = Some x1).
  { unfold drain_action in Ea. destruct (map_to_list _) as [|[k v] l].
    - destruct (map_to_list _) as [|[k p] l]; [done|]. destruct (pe_stage p); injection Ea as <-;
        cbn [round]; unfold system; rewrite Ha; by eexists.
    - injection Ea as <-. cbn [round]. unfold system. rewrite Ha. by eexists. }
  destruct Hround as [x1 Hr]. exists x1. split; [exists (Round a); by split_and!|].
  pose proof (reached_step (Round a) x x1 Hx Hp Hr) as Hx1.
  apply round_inv in Hr as (x2 & (_ & s2 & Ha2 & Hs2)%system_inv & Hs & Hl & Ht & _). simplify_eq.
  split; [split; [split; [done|congruence]|unfold waiting in *; by rewrite Ht]|]. rewrite Hs, Hs2. exact Hlt.
Qed.

Definition vacant x : Prop :=
  stopping x /\ waiting x = 0%nat /\ sy_handshakes (sr_sys x) = ∅ /\ sy_peers (sr_sys x) = ∅.

(** Every task is collected. *)
Lemma reap_one x : vacant x -> length (List.concat (sr_tasks x)) <> 0%nat ->
  exists x1, winds x x1 /\ vacant x1 /\ (length (List.concat (sr_tasks x1)) < length (List.concat (sr_tasks x)))%nat.
Proof.
  intros ([Hx Hsd] & Hw & Hh0 & Hp0) Hn0.
  destruct (List.concat (sr_tasks x)) as [|t rest] eqn:Et; [done|]. rewrite <- Et.
  assert (Hin : t ∈ List.concat (sr_tasks x)) by (rewrite Et; left).
  destruct t as [ip|k]; [unfold waiting in Hw; by rewrite Et in Hw|].
  destruct (in_concat_cell _ _ Hin) as (i & ts & j & Hi & Hj).
  assert (Hh : sy_handshakes (sr_sys x) !! k = None) by (by rewrite Hh0).
  assert (Hp : k ∉ attended (sr_sys x)) by (rewrite attended_lookup, Hp0; by intros (p & ? & _)).
  pose proof Hx as [[_ Hsh _ _ _] _].
  destruct (Forall2_lookup_r _ _ _ _ _ Hsh Hi) as (w & Hwk & _).
  assert (Hr : exists x1, ended i j x = Some x1).
  { unfold ended. rewrite Hi. cbn [mbind option_bind]. rewrite Hj. cbn [over]. rewrite Hh, (bool_decide_true (k ∉ _)) by done. cbn.
    unfold reap. rewrite Hwk, Hi. destruct (worker_reap _ _ _). by eexists. }
  destruct Hr as [x1 Hr]. exists x1. split; [exists (Ended i j); by split_and!|].
  pose proof (reached_step (Ended i j) x x1 Hx I Hr) as Hx1.
  apply ended_inv in Hr as (ts' & k' & _ & _ & _ & _ & Hr).
  apply reap_inv in Hr as (Hs & _ & w1 & ts1 & sem & w' & _ & Hi1 & _ & Hl & Ht). simplify_eq.
  destruct (cell _ _ _ _ _ Hi Hj) as (l1 & l2 & Hcc & _ & Hdel).
  split; [split_and!|]; [split; [done|by rewrite Hl]| |by rewrite Hs|by rewrite Hs|].
  - unfold waiting in *. rewrite Ht, Hdel. rewrite Hcc in Hw. by rewrite !omap_app in Hw |- *.
  - rewrite Ht, Hdel, Hcc, !length_app. cbn. lia.
Qed.

(** The phases a worker has left. *)
Definition phases_left (p : phase) : nat := match p with Accepting => 2 | Exited => 0 | _ => 1 end.
Definition workers_left x : nat := sum_list_with (fun w => phases_left (wk_phase w)) (ls_workers (sr_listener x)).

Lemma workers_left_insert (ws : list Worker) i w w' :
  ws !! i = Some w -> (phases_left (wk_phase w') < phases_left (wk_phase w))%nat ->
  (sum_list_with (fun w => phases_left (wk_phase w)) (<[i := w']> ws) <
   sum_list_with (fun w => phases_left (wk_phase w)) ws)%nat.
Proof.
  intros Hi Hlt. rewrite insert_take_drop by (by eapply lookup_lt_Some).
  rewrite <- (take_drop_middle ws i w Hi) at 3. rewrite !sum_list_with_app. cbn. lia.
Qed.

Definition deserted x : Prop := vacant x /\ List.concat (sr_tasks x) = [].

(** Every worker leaves its loop. *)
Lemma leave_one x : deserted x -> workers_left x <> 0%nat ->
  exists x1, winds x x1 /\ deserted x1 /\ (workers_left x1 < workers_left x)%nat.
Proof.
  intros [([Hx Hsd] & Hw & Hh0 & Hp0) Ht] Hn0.
  assert (Hex : Exists (fun w => phases_left (wk_phase w) <> 0%nat) (ls_workers (sr_listener x))).
  { apply not_Forall_Exists; [intros w; apply _|]. intros Hall. apply Hn0. unfold workers_left.
    induction Hall as [|w ws H0 _ IH]; [done|]. cbn. rewrite H0. exact IH. }
  apply Exists_exists in Hex as (w & Hin & Hph). apply list_elem_of_lookup in Hin as [i Hi].
  pose proof Hx as [[_ Hsh _ _ _] _]. destruct (Forall2_lookup_l _ _ _ _ _ Hsh Hi) as (ts & Hts & Hlen).
  assert (Hnil : wk_handshakes w = []).
  { apply length_zero_iff_nil. rewrite Hlen. apply length_zero_iff_nil. destruct ts as [|t ts]; [done|].
    assert (Hcell : t ∈ List.concat (sr_tasks x)); [|rewrite Ht in Hcell; by apply not_elem_of_nil in Hcell].
    rewrite list_elem_of_In, in_concat. exists (t :: ts). rewrite <- list_elem_of_In. split; [by eapply list_elem_of_lookup_2|by left]. }
  assert (Hmove : exists a w', orderly a = true /\ server_permitted a x /\
    server_act a x = Some (with_listener (set_worker (sr_listener x) i w') x) /\
    (phases_left (wk_phase w') < phases_left (wk_phase w))%nat).
  { destruct (wk_phase w) eqn:Ep; [exists (StopAccepting i)|exists (Leave i)|exists (Leave i)|done]; eexists;
      (split_and!; [done|done|cbn [server_act]; rewrite ?Hsd; unfold worker_moves, may_leave, in_phase; rewrite Hi, Ep, ?Hnil; reflexivity|]);
      unfold worker_finish; rewrite ?Ep, ?Hnil; cbn; lia. }
  destruct Hmove as (a & w' & Ho & Hp & Ha & Hlt). eexists. split; [by exists a; split_and!|].
  pose proof (reached_step a x _ Hx Hp Ha) as Hx1.
  split; [|exact (workers_left_insert _ _ _ _ Hi Hlt)].
  split; [split_and!|done]; [by split|done|done|done].
Qed.

(** C9: The server can always be shut down to the end, accept loop included, without cutting
    anybody off.  From every state a run reaches there is a continuation that accepts nothing
    more and aborts nothing, after which every worker has left its loop, every task has been
    collected, and no handshake, connection, registration or permit is left, nor a clean-up
    that an earlier abort left behind. *)
Theorem accept_loop_shuts_down (h : list (Server * ServerAction)) x (Hrun : server_run (server_start s0) h x) :
  exists h' x', server_run (server_start s0) (h ++ h') x' /\ Forall (fun y => orderly (snd y) = true) h' /\
    Forall (fun w => wk_phase w = Exited) (ls_workers (sr_listener x')) /\ List.concat (sr_tasks x') = [] /\
    sy_handshakes (sr_sys x') = ∅ /\ sy_peers (sr_sys x') = ∅ /\ sy_registry (sr_sys x') = ∅ /\
    sy_gauge (sr_sys x') = 0 /\ forall ip, unauth_count (sy_gate (sr_sys x')) ip = 0%nat.
Proof.
  pose proof (server_run_reached _ _ Hrun) as Hx.
  set (x0 := with_listener (mkListener (ls_semaphore (sr_listener x)) true (ls_workers (sr_listener x))) x).
  assert (H0 : winds x x0) by (by exists Signal).
  assert (Hx0 : stopping x0) by (split; [by apply (reached_step Signal x)|done]).
  destruct (wind_down _ _ begin_all x0 Hx0) as (x1 & Hs1 & Hx1 & Hw1).
  destruct (wind_down _ (fun x => open_work (sr_sys x)) close_one x1 (conj Hx1 Hw1)) as (x2 & Hs2 & [Hx2 Hw2] & Hn2).
  assert (Hv : vacant x2).
  { unfold open_work in *. split_and!; [done|done|apply map_size_empty_inv; lia|].
    apply map_empty. intros k. destruct (sy_peers (sr_sys x2) !! k) as [p|] eqn:Hk; [|done].
    pose proof (work_delete rooms_config Hcap _ _ _ Hk). destruct (pe_stage p); cbn in *; lia. }
  destruct (wind_down _ _ reap_one x2 Hv) as (x3 & Hs3 & Hx3 & Ht3). apply length_zero_iff_nil in Ht3.
  destruct (wind_down _ _ leave_one x3 (conj Hx3 Ht3)) as (x4 & Hs4 & [Hx4 Ht4] & Hl4).
  assert (Hstar : star winds x x4).
  { eapply star_trans; [eapply star_snoc; [constructor|exact H0]|].
    eapply star_trans; [exact Hs1|]. eapply star_trans; [exact Hs2|]. by eapply star_trans. }
  destruct (winds_run h x x4 Hrun Hstar) as (h' & Hr' & Ho). exists h', x4.
  destruct Hx4 as ([Hx4 _] & _ & Hh4 & Hp4). split_and!; try done; try apply (nothing_left x4 Hx4 Hh4 Hp4).
  apply Forall_lookup. intros i w Hi. unfold workers_left in Hl4.
  rewrite <- (take_drop_middle _ i w Hi), sum_list_with_app in Hl4. cbn in Hl4.
  destruct (wk_phase w); cbn in Hl4; [lia|lia|lia|done].
Qed.

End Server.

End Accept.

(* ------------------------------------------------------------------ *)
(** ** By example: one connection at most *)

Module AcceptDemo.

#[local] Existing Instance log_events.
#[local] Existing Instance plain_hasher.
#[local] Existing Instance log_audit.
#[local] Existing Instance simple_prost.
#[local] Existing Instance hex_uuid.
Import UseCases.Demo GwDemo HttpDemo LoopDemo SystemDemo.

Definition one_config : TcpGatewayConfig :=
  mkTcpGatewayConfig 0 0 (mkSocketAddr false 0 1) 4096 4 4 1000 1000 (mkRate true 100 10) 1 10 1 true 0.
Definition DemoServer : Type :=
  @Server queue Memory.Store MemTokens.State unit (list (option Z * rstr * rstr)) (list DomainEvent) (list Z) nat.
Definition DemoStep : Type := @ServerAction (list Z).
Abbreviation demo_serve := (server_act (K := list Z) (HA := log_audit) (Sem := nat) one_config rooms_cfg 60000000000).
Abbreviation demo_server_run := (server_run (K := list Z) (Sem := nat) one_config rooms_cfg 60000000000).

Definition x0 : DemoServer := server_start one_config d0.

(** Alice registers, logs in and connects; while she is bound, a second socket is refused. *)
Definition busy : list DemoStep :=
  [Round (Request (HttpRegister 10 20 1 2 (mkRegisterRequest (lit " Alice_01 ") (lit "super-secret") (lit "爱丽丝"))));
   Round (Request (HttpLogin 3 4 5 [7; 8] login_rq));
   Accept 0 1; Begin 0 0 77 6; Round (Open 77 [] 5 7 8); Round (ReadRound 77 (turn_of bind_frame)); Accept 0 2].

Definition next (x : DemoServer) (a : DemoStep) : DemoServer := default x (demo_serve a x).
Fixpoint doable (x : DemoServer) (l : list DemoStep) : Prop :=
  match l with
  | [] => True
  | a :: l => server_permitted a x /\ bool_decide (is_Some (demo_serve a x)) = true /\ doable (next x a) l
  end.
Fixpoint taken (x : DemoServer) (l : list DemoStep) : list (DemoServer * DemoStep) :=
  match l with [] => [] | a :: l => (x, a) :: taken (next x a) l end.

Lemma serve_all l : forall h x,
  demo_server_run x0 h x -> doable x l -> demo_server_run x0 (h ++ taken x l) (foldl next x l).
Proof.
  induction l as [|a l IH]; intros h x Hrun Hp; [by rewrite app_nil_r|].
  destruct Hp as (Hperm & Hact & Hp). apply bool_decide_eq_true in Hact as [x1 Hact]. cbn [taken foldl].
  change ((x, a) :: taken (next x a) l) with ([(x, a)] ++ taken (next x a) l). rewrite app_assoc.
  apply IH; [|exact Hp]. unfold next. rewrite Hact. cbn [default from_option id]. by eapply server_run_act.
Qed.

Local Ltac clocked := split; [intros ? [= <-]; vm_compute; discriminate|].

Lemma busy_doable : doable x0 busy.
Proof.
  unfold busy. cbn [doable]. split_and!; try exact I; try (vm_compute; reflexivity).
  - split; [done|]. vm_compute. split; discriminate.
  - clocked. split; [vm_compute; reflexivity|]. intros p ts. vm_compute. discriminate.
  - split; [split; [done|]; split_and!; vm_compute; reflexivity|]. vm_compute. by intros ?%not_elem_of_nil.
  - split; done.
  - clocked. vm_compute. reflexivity.
Qed.

Definition x7 : DemoServer := foldl next x0 busy.
Lemma busy_run : demo_server_run x0 (taken x0 busy) x7.
Proof. exact (serve_all busy [] x0 (server_run_start _ _ _ x0) busy_doable). Qed.

(** The shutdown signal comes and its deadline passes: the task is aborted and collected. *)
Definition cut_off : list DemoStep :=
  [Signal; StopAccepting 0; AbortAll 0; Aborted 0 0; Ended 0 0; Leave 0].
Definition x13 : DemoServer := foldl next x7 cut_off.
Lemma cut_off_run : demo_server_run x0 (taken x0 busy ++ taken x7 cut_off) x13.
Proof. apply serve_all; [exact busy_run|]. unfold cut_off. cbn [doable]. split_and!; try exact I; vm_compute; reflexivity. Qed.

(** The one connection is Alice's, and another socket is refused because one task runs.
    When it has been aborted and the worker has left, the connection is still registered and
    counted, until the clean-up that it left has run. *)
Lemma accept_loop_bounds_the_server_witness :
  size (sy_peers (sr_sys x7)) = 1%nat /\ running (sr_listener x7) = Z.to_nat (tg_max_connections one_config) /\
  (exists h', System.run (K := list Z) one_config rooms_cfg 60000000000 d0 h' (sr_sys x7)) /\
  dom (sy_registry (sr_sys x13)) = cleaning (sr_sys x13) /\ cleaning (sr_sys x13) = {[77]} /\
  sy_gauge (sr_sys x13) = 1 /\ sy_gauge (sr_sys (next x13 (Round (RunSpawned 77 5 50)))) = 0.
Proof.
  pose proof (accept_loop_bounds_the_server one_config rooms_cfg 60000000000 demo_capacity Memory.empty_store
    MemTokens.new tt [] [] 2 0 UseCases.Demo.start_consistent (taken x0 busy) x7 busy_run) as (Hr & _ & _ & _ & Hfull & _).
  assert (Hw : is_Some (ls_workers (sr_listener x7) !! 0%nat)) by (vm_compute; by eexists).
  destruct Hw as [w Hw]. split; [vm_compute; reflexivity|]. split; [|split; [exact Hr|]].
  { apply (Hfull 0%nat 3 w Hw). vm_compute. reflexivity. }
  pose proof (accept_loop_bounds_the_server one_config rooms_cfg 60000000000 demo_capacity Memory.empty_store
    MemTokens.new tt [] [] 2 0 UseCases.Demo.start_consistent _ x13 cut_off_run) as (_ & _ & _ & _ & _ & Hex).
  destruct Hex as (_ & _ & Hreg & Hg & _); [vm_compute; repeat constructor|].
  split; [exact Hreg|]. split_and!; vm_compute; reflexivity.
Defined.

Lemma accept_loop_shuts_down_witness :
  running (sr_listener x7) = 1%nat /\
  exists h' x', demo_server_run x0 (taken x0 busy ++ h') x' /\
    Forall (fun w => wk_phase w = Exited) (ls_workers (sr_listener x')) /\ sy_peers (sr_sys x') = ∅.
Proof.
  split; [vm_compute; reflexivity|].
  destruct (accept_loop_shuts_down one_config rooms_cfg 60000000000 demo_capacity Memory.empty_store
    MemTokens.new tt [] [] 2 0 UseCases.Demo.start_consistent (taken x0 busy) x7 busy_run)
    as (h' & x' & Hrun & _ & Hex & _ & _ & Hp & _).
  exists h', x'. split; [exact Hrun|]. split; [exact Hex|exact Hp].
Defined.

End AcceptDemo.
