(* ===== verification/Client.v ===== *)
(** The quickstart client ([server-bin/examples/quickstart_client.rs]): binds with a token,
    asks for the profile, opens a room and says a line in it.

    What it calls outside (reading certificates, TCP, the TLS client) is the class
    [TlsClient]; the connection it then talks over is any reader and any writer.  A line it
    prints is kept as what it is formatted from. *)
From S2P Require Import Bootstrap.
From S2P Require Import Prelude Text Tokio Values Account Player Room Session Frame Connection.
From S2P Require Import Protocol App MemRepos TokenStore UseCases RoomActor RoomService.
From S2P Require Import AuthGate RateLimit Gateway ConnLoop Lifecycle Http Tls System SystemProofs SystemRun.
From Stdlib Require Import Strings.String.
Open Scope Z_scope.
Open Scope list_scope.
Abbreviation length := Datatypes.length.
Abbreviation concat := List.concat.

(** [Box<dyn Error>], by where it comes from. *)
Inductive ClientError :=
| Text (message : rstr)
| Unexpected (wanted : rstr) (got : OutboundMessage)
| OfNet (e : NetError)
| OfProtocol (e : ProtocolError)
| OfHost (e : rstr).

Inductive Line :=
| HandshakeDone (server_addr : rstr)
| BindLine (ok : bool) (player_id : option rstr)
| ProfileLine (p : pb.ProfileResponse)
| EventLine (e : pb.RoomEventNotification)
| AllDone.

(** [flag_value]: the argument after the first one that is the flag. *)
Definition flag_value (args : list rstr) (flag dflt : rstr) : rstr :=
  default dflt (list_find (fun item => item = flag) args ≫= fun '(index, _) => args !! Datatypes.S index).

Example flag_given :
  flag_value [lit "--token"; lit "t"; lit "--server"; lit "a:1"] (lit "--server") (lit "127.0.0.1:8080") = lit "a:1".
Proof. vm_compute. reflexivity. Qed.
Example flag_without_value :
  flag_value [lit "--server"] (lit "--server") (lit "127.0.0.1:8080") = lit "127.0.0.1:8080".
Proof. vm_compute. reflexivity. Qed.

Definition max_frame : Z := 65536.

(* ------------------------------------------------------------------ *)
(** ** The conversation *)

Section Conversation.
Context `{HP : Prost} {R K : Type} `{HR : AsyncRead R} `{HK : AsyncWrite K}.

(** The two halves of the connection, and what was printed. *)
Record Talk := mkTalk { tk_reader : R; tk_writer : K; tk_lines : list Line }.

Definition print (l : Line) : io Talk unit := fun t => (tt, mkTalk (tk_reader t) (tk_writer t) (tk_lines t ++ [l])).

(** [write_frame(&mut writer, &ClientCodec.encode(message)?, max_frame).await?] *)
Definition request (m : InboundMessage) : io Talk (result unit ClientError) := fun t =>
  match codec_encode (Codec := ClientCodec) m with
  | Err e => (Err (OfProtocol e), t)
  | Ok f =>
      let '(r, w) := write_frame f max_frame (tk_writer t) in
      (map_err OfNet r, mkTalk (tk_reader t) w (tk_lines t))
  end.

Definition next_message : io Talk (result OutboundMessage ClientError) := fun t =>
  let '(r, rd) := read_frame 65536 (tk_reader t) in
  let t' := mkTalk rd (tk_writer t) (tk_lines t) in
  match r with
  | Err e => (Err (OfNet e), t')
  | Ok None => (Err (Text (lit "服务端关闭连接")), t')
  | Ok (Some frame) => (map_err OfProtocol (codec_decode (Codec := ClientCodec) frame), t')
  end.

(** [if let OutboundMessage::RoomEvent(event) = next_message(&mut reader).await? { println! }] *)
Definition print_event (m : OutboundMessage) : io Talk unit :=
  match m with ORoomEvent event => print (EventLine event) | _ => io_ret tt end.

(** Steps 2 to 4 of [main]. *)
Definition conversation (token : rstr) : io Talk (result unit ClientError) :=
  await? _ := request (Bind (pb.mkBindRequest token)) in
  await? m1 := next_message in
  match m1 with
  | OBindResult result =>
      let* _ := print (BindLine (pb.br_ok result) (pb.br_player_id result)) in
      await? _ := request (GetProfile pb.mkGetProfileRequest) in
      await? m2 := next_message in
      match m2 with
      | OProfile profile =>
          let* _ := print (ProfileLine profile) in
          await? _ := request (JoinRoom (pb.mkJoinRoomRequest None)) in
          await? m3 := next_message in
          let* _ := print_event m3 in
          await? _ := request (InRoomChat (pb.mkRoomChatRequest (lit "大家好,我来了"))) in
          await? m4 := next_message in
          let* _ := print_event m4 in
          let* _ := print AllDone in
          io_ret (Ok tt)
      | other => io_ret (Err (Unexpected (lit "期望 Profile") other))
      end
  | other => io_ret (Err (Unexpected (lit "期望 BindResult") other))
  end.

(* ------------------------------------------------------------------ *)
(** ** What the conversation does with any stream *)

(** The four requests, and their bytes. *)
Definition requests (token : rstr) : list InboundMessage :=
  [Bind (pb.mkBindRequest token); GetProfile pb.mkGetProfileRequest; JoinRoom (pb.mkJoinRoomRequest None);
   InRoomChat (pb.mkRoomChatRequest (lit "大家好,我来了"))].
Definition wire (m : InboundMessage) : list Z :=
  match codec_encode (Codec := ClientCodec) m with
  | Ok f => match encode_frame f max_frame with Ok bs => bs | Err _ => [] end
  | Err _ => []
  end.

(** The next [n] messages of a stream of bytes, up to the first that is none. *)
Fixpoint messages (n : nat) (bytes : list Z) : list OutboundMessage :=
  match n with
  | O => []
  | Datatypes.S n' =>
      match parse_frame bytes max_frame with
      | PFrame f rest =>
          match codec_decode (Codec := ClientCodec) f with
          | Ok m => m :: messages n' rest
          | Err _ => []
          end
      | _ => []
      end
  end.

(** What is printed for the answer to request [i]; [None]: the client gives up. *)
Definition answer_lines (i : nat) (m : OutboundMessage) : option (list Line) :=
  match i, m with
  | O, OBindResult r => Some [BindLine (pb.br_ok r) (pb.br_player_id r)]
  | 1%nat, OProfile p => Some [ProfileLine p]
  | (2 | 3)%nat, ORoomEvent e => Some [EventLine e]
  | (2 | 3)%nat, _ => Some []
  | _, _ => None
  end.

(** The lines for the answers from request [i] on, up to the first that is refused. *)
Fixpoint answers (i : nat) (ms : list OutboundMessage) : list (list Line) :=
  match ms with
  | [] => []
  | m :: ms' => match answer_lines i m with Some l => l :: answers (Datatypes.S i) ms' | None => [] end
  end.

Lemma request_spec m t r t' :
  request m t = (r, t') -> tk_reader t' = tk_reader t /\ tk_lines t' = tk_lines t /\
  exists k, written (tk_writer t') = written (tk_writer t) ++ take k (wire m) /\ (r = Ok tt -> take k (wire m) = wire m).
Proof.
  unfold request, wire. destruct (codec_encode (Codec := ClientCodec) m) as [f|e].
  2: { intros [= <- <-]. split_and!; try done. exists 0%nat. cbn. by rewrite app_nil_r. }
  unfold write_frame, io_try, io_lift, io_ret, io_bind.
  destruct (encode_frame f max_frame) as [bs|e]; cbn.
  2: { intros [= <- <-]. cbn. split_and!; try done. exists 0%nat. by rewrite app_nil_r. }
  destruct (write_all bs (tk_writer t)) as [[[]|e] w] eqn:Ew; cbn.
  - apply write_all_ok in Ew. destruct (flush w) as [[[]|e] w'] eqn:Ef; cbn; intros [= <- <-]; cbn;
      apply flush_written in Ef; (split_and!; [done|done|]); exists (length bs); by rewrite take_ge, Ef, Ew by done.
  - apply write_all_err in Ew as [k Hk]. intros [= <- <-]. cbn. split_and!; try done. by exists k.
Qed.

Lemma next_message_spec t r t' :
  next_message t = (r, t') -> tk_writer t' = tk_writer t /\ tk_lines t' = tk_lines t /\
  match r with
  | Ok m => forall n, messages (Datatypes.S n) (pending (tk_reader t)) = m :: messages n (pending (tk_reader t'))
  | Err _ => forall n, messages n (pending (tk_reader t)) = []
  end.
Proof.
  unfold next_message. pose proof (read_frame_meets_spec 65536 (tk_reader t)) as Hs.
  destruct (read_frame 65536 (tk_reader t)) as [res rd]. unfold read_frame_spec in Hs. cbn [fst snd] in Hs.
  assert (Hno : (forall f rest, parse_frame (pending (tk_reader t)) max_frame <> PFrame f rest) ->
            forall n, messages n (pending (tk_reader t)) = []).
  { intros Hn [|n]; cbn [messages]; [done|]. destruct (parse_frame _ _) as [| | | | |f rest] eqn:Ep; try done.
    by destruct (Hn f rest). }
  unfold max_frame in *. destruct (parse_frame (pending (tk_reader t)) 65536) as [| |d|d| |f rest] eqn:Ep.
  1,2: destruct Hs as (e & _ & _ & ->); intros Hx; specialize (Hno ltac:(done));
    destruct (bool_decide _); injection Hx as <- <-; by split_and!.
  - destruct Hs as [-> _]. intros [= <- <-]. split_and!; try done. by apply Hno.
  - destruct Hs as [-> _]. intros [= <- <-]. split_and!; try done. by apply Hno.
  - destruct Hs as (e & _ & _ & ->). intros [= <- <-]. split_and!; try done. by apply Hno.
  - destruct Hs as (-> & Hr & _). intros [= <- <-]. split_and!; try done.
    destruct (decode_outbound (opcode f) (payload f)) as [m|e] eqn:Ed; cbn [map_err]; intros n.
    + cbn [messages tk_reader]. unfold max_frame. rewrite Ep. cbn [codec_decode ClientCodec]. by rewrite Ed, Hr.
    + destruct n; cbn [messages]; [done|]. unfold max_frame. rewrite Ep. cbn [codec_decode ClientCodec]. by rewrite Ed.
Qed.

(** A writer that never fails, and requests that fit a frame. *)
Definition undisturbed (token : rstr) : Prop :=
  (forall bs (w : K), is_ok (fst (write_all bs w)) = true) /\ (forall w : K, is_ok (fst (flush w)) = true) /\
  Forall (fun m => wire m <> []) (requests token).

Lemma request_ok token m t : undisturbed token -> m ∈ requests token -> exists t', request m t = (Ok tt, t').
Proof.
  intros (Hw & Hf & Hfit) Hin. rewrite Forall_forall in Hfit. specialize (Hfit m Hin). unfold request, wire in *.
  destruct (codec_encode (Codec := ClientCodec) m) as [f|e]; [|done].
  unfold write_frame, io_try, io_lift, io_ret, io_bind. destruct (encode_frame f max_frame) as [bs|e]; [|done].
  specialize (Hw bs (tk_writer t)). destruct (write_all bs _) as [[[]|e] w]; [|done]. cbn.
  specialize (Hf w). destruct (flush w) as [[[]|e] w']; [|done]. cbn. by eexists.
Qed.

Lemma answers_lookup ms : forall i j m,
  (j <= length (answers i ms))%nat -> ms !! j = Some m ->
  match answer_lines (i + j) m with
  | Some l => answers i ms !! j = Some l
  | None => length (answers i ms) = j
  end.
Proof.
  induction ms as [|a ms IH]; intros i j m Hj Hm; [done|]. cbn [answers] in *.
  destruct j as [|j]; cbn in Hm.
  - injection Hm as ->. rewrite Nat.add_0_r. by destruct (answer_lines i m).
  - destruct (answer_lines i a) as [l|]; cbn in Hj; [|lia]. specialize (IH (Datatypes.S i) j m ltac:(lia) Hm).
    rewrite <- Nat.add_succ_comm. destruct (answer_lines _ m); cbn; [done|lia].
Qed.

Lemma answers_length ms : forall i, (length (answers i ms) <= length ms)%nat.
Proof. induction ms as [|m ms IH]; intros i; cbn; [lia|]. destruct (answer_lines i m); cbn; [|lia]. specialize (IH (Datatypes.S i)). lia. Qed.

(** The messages the client is going to see. *)
Definition incoming (t : Talk) : list OutboundMessage := messages 4 (pending (tk_reader t)).

Section Steps.
Variables (token : rstr) (t0 : Talk).
Abbreviation ms := (incoming t0).
Abbreviation heard_lines := (answers 0 ms).
Abbreviation sent i := (concat (map wire (take i (requests token)))).

(** [i] requests were answered as the client expects, ... *)
Record progress (i : nat) (t : Talk) : Prop := mkProgress {
  pr_accepted : (i <= length heard_lines)%nat;
  pr_written : written (tk_writer t) = written (tk_writer t0) ++ sent i;
  pr_lines : tk_lines t = tk_lines t0 ++ concat (take i heard_lines);
  pr_rest : messages (4 - i) (pending (tk_reader t)) = drop i ms
}.

(** ... one more was sent, and [m] came in, ... *)
Record came (i : nat) (m : OutboundMessage) (t : Talk) : Prop := mkCame {
  cm_accepted : (i <= length heard_lines)%nat;
  cm_message : ms !! i = Some m;
  cm_written : written (tk_writer t) = written (tk_writer t0) ++ sent (Datatypes.S i);
  cm_lines : tk_lines t = tk_lines t0 ++ concat (take i heard_lines);
  cm_rest : messages (4 - Datatypes.S i) (pending (tk_reader t)) = drop (Datatypes.S i) ms
}.

(** ... or the client gave up during that exchange. *)
Record gave_up (i : nat) (t : Talk) : Prop := mkGaveUp {
  gu_accepted : (i <= length heard_lines)%nat;
  gu_written : exists k, written (tk_writer t) =
    written (tk_writer t0) ++ sent i ++ take k (default [] (wire <$> requests token !! i));
  gu_lines : tk_lines t = tk_lines t0 ++ concat (take i heard_lines);
  gu_undisturbed : undisturbed token ->
    i = length heard_lines /\ written (tk_writer t) = written (tk_writer t0) ++ sent (Datatypes.S i)
}.

Lemma sent_succ i m : requests token !! i = Some m -> sent (Datatypes.S i) = sent i ++ wire m.
Proof. intros Hm. rewrite (take_S_r _ _ _ Hm), map_app, concat_app. cbn. by rewrite app_nil_r. Qed.

Lemma exchange i m (k : OutboundMessage -> io Talk (result unit ClientError)) t res t' :
  progress i t -> requests token !! i = Some m ->
  (await? _ := request m in await? a := next_message in k a) t = (res, t') ->
  (exists e, res = Err e) /\ gave_up i t' \/ exists a t2, k a t2 = (res, t') /\ came i a t2.
Proof.
  intros [Ha Hw Hl Hr] Hm Hx. pose proof (sent_succ i m Hm) as Hsent.
  assert (Hi : (i < 4)%nat) by (apply lookup_lt_Some in Hm; exact Hm).
  apply io_try_inv in Hx as [([] & t1 & Hq & Hx)|(e & Hq & ->)].
  - pose proof (request_spec _ _ _ _ Hq) as (Hr1 & Hl1 & k1 & Hw1 & Hk1). rewrite (Hk1 eq_refl), Hw in Hw1.
    rewrite <- app_assoc, <- Hsent in Hw1.
    apply io_try_inv in Hx as [(a & t2 & Hn & Hx)|(e & Hn & ->)];
      pose proof (next_message_spec _ _ _ Hn) as (Hw2 & Hl2 & Hmsg).
    + right. exists a, t2. split; [done|]. specialize (Hmsg (4 - Datatypes.S i)%nat).
      replace (Datatypes.S (4 - Datatypes.S i)) with (4 - i)%nat in Hmsg by lia. rewrite Hr1, Hr in Hmsg.
      assert (Hlook : ms !! i = Some a).
      { replace i with (i + 0)%nat at 1 by lia. rewrite <- lookup_drop, Hmsg. done. }
      constructor; try done; [by rewrite Hw2|by rewrite Hl2, Hl1|].
      rewrite (drop_S _ _ _ Hlook) in Hmsg. apply (f_equal tail) in Hmsg. symmetry. exact Hmsg.
    + left. split; [by exists e|]. specialize (Hmsg (4 - i)%nat). rewrite Hr1, Hr in Hmsg.
      assert (Hlen : length heard_lines = i).
      { pose proof (answers_length ms 0). apply (f_equal length) in Hmsg. rewrite length_drop in Hmsg. change (length (@nil OutboundMessage)) with 0%nat in Hmsg. lia. }
      constructor; [done| |by rewrite Hl2, Hl1|]; rewrite Hw2, Hw1; [|by split].
      exists (length (wire m)). rewrite Hm. cbn [fmap option_fmap option_map default from_option id].
      by rewrite Hsent, (take_ge (wire m)) by lia.
  - left. split; [by exists e|]. pose proof (request_spec _ _ _ _ Hq) as (Hr1 & Hl1 & k1 & Hw1 & _).
    constructor; [done| |by rewrite Hl1|].
    + exists k1. rewrite Hw1, Hw, Hm. cbn [fmap option_fmap option_map default from_option id].
      by rewrite app_assoc.
    + intros Hu. destruct (request_ok token m t Hu) as [t2 H2]; [by eapply list_elem_of_lookup_2|congruence].
Qed.

Lemma came_accept i m l t t' :
  came i m t -> answer_lines i m = Some l -> tk_reader t' = tk_reader t -> tk_writer t' = tk_writer t ->
  tk_lines t' = tk_lines t ++ l -> progress (Datatypes.S i) t'.
Proof.
  intros [Ha Hm Hw Hl Hr] Hans Hrd Hwr Hln.
  pose proof (answers_lookup ms 0 i m Ha Hm) as Hlook. cbn [Nat.add] in Hlook. rewrite Hans in Hlook.
  constructor; rewrite ?Hrd, ?Hwr; try done.
  - apply lookup_lt_Some in Hlook. lia.
  - rewrite Hln, Hl, (take_S_r _ _ _ Hlook), concat_app. cbn. by rewrite app_nil_r, app_assoc.
Qed.

Lemma came_refuse i m q t : came i m t -> answer_lines i m = None -> requests token !! i = Some q -> gave_up i t.
Proof.
  intros [Ha Hm Hw Hl Hr] Hans Hq.
  pose proof (answers_lookup ms 0 i m Ha Hm) as Hlook. cbn [Nat.add] in Hlook. rewrite Hans in Hlook.
  constructor; try done. exists (length (wire q)). rewrite Hw, (sent_succ i q Hq), Hq.
  cbn [fmap option_fmap option_map default from_option id]. by rewrite (take_ge (wire q)) by lia.
Qed.

End Steps.

Lemma progress_start token t : progress token t 0 t.
Proof. constructor; [lia|by rewrite app_nil_r|by rewrite app_nil_r|done]. Qed.

Lemma print_event_lines i m t u t' :
  (i = 2 \/ i = 3)%nat -> print_event m t = (u, t') ->
  exists l, answer_lines i m = Some l /\ tk_reader t' = tk_reader t /\ tk_writer t' = tk_writer t /\
    tk_lines t' = tk_lines t ++ l.
Proof.
  intros Hi Hx. destruct m; cbn in Hx; unfold print, io_ret in Hx; injection Hx as _ <-;
    destruct Hi as [-> | ->]; cbn; eexists; (split; [reflexivity|]); cbn; by rewrite ?app_nil_r.
Qed.

(** How a conversation ends. *)
Definition ends (token : rstr) (t0 : Talk) (res : result unit ClientError) (t' : Talk) : Prop :=
  (exists e i, res = Err e /\ (i < 4)%nat /\ gave_up token t0 i t') \/
  (exists t, res = Ok tt /\ progress token t0 4 t /\ tk_writer t' = tk_writer t /\ tk_lines t' = tk_lines t ++ [AllDone]).

Lemma ends_gave_up token t0 i res t' :
  (i < 4)%nat -> (exists e, res = Err e) /\ gave_up token t0 i t' -> ends token t0 res t'.
Proof. intros Hi [[e ->] Hg]. left. by exists e, i. Qed.

(** The last two exchanges. *)
Lemma room_ends token t0 t res t' :
  progress token t0 2 t ->
  (await? _ := request (JoinRoom (pb.mkJoinRoomRequest None)) in
   await? m3 := next_message in
   let* _ := print_event m3 in
   await? _ := request (InRoomChat (pb.mkRoomChatRequest (lit "大家好,我来了"))) in
   await? m4 := next_message in
   let* _ := print_event m4 in
   let* _ := print AllDone in
   io_ret (Ok tt)) t = (res, t') -> ends token t0 res t'.
Proof.
  intros Hp Hx. apply (exchange token t0 2 _ _ _ _ _ Hp eq_refl) in Hx as [Hg|(m3 & t3 & Hx & Hc)];
    [by eapply ends_gave_up; [|done]; lia|].
  apply io_bind_inv in Hx as (u & t4 & He & Hx).
  destruct (print_event_lines 2 _ _ _ _ (or_introl eq_refl) He) as (l & Hl & Hr & Hw & Hlines).
  pose proof (came_accept _ _ _ _ _ _ _ Hc Hl Hr Hw Hlines) as Hp3.
  apply (exchange token t0 3 _ _ _ _ _ Hp3 eq_refl) in Hx as [Hg|(m4 & t5 & Hx & Hc4)];
    [by eapply ends_gave_up; [|done]; lia|].
  apply io_bind_inv in Hx as (u' & t6 & He' & Hx).
  destruct (print_event_lines 3 _ _ _ _ (or_intror eq_refl) He') as (l' & Hl' & Hr' & Hw' & Hlines').
  pose proof (came_accept _ _ _ _ _ _ _ Hc4 Hl' Hr' Hw' Hlines') as Hp4.
  right. exists t6. cbn in Hx. unfold io_bind, print, io_ret in Hx. injection Hx as <- <-. by split_and!.
Qed.

Lemma conversation_ends token t0 res t' : conversation token t0 = (res, t') -> ends token t0 res t'.
Proof.
  intros Hx. unfold conversation in Hx.
  apply (exchange token t0 0 _ _ _ _ _ (progress_start token t0) eq_refl) in Hx as [Hg|(m1 & t1 & Hx & Hc)];
    [by eapply ends_gave_up; [|done]; lia|].
  assert (Hrefuse : forall q t2, answer_lines 0 m1 = None -> io_ret (Err (Unexpected q m1)) t1 = (res, t2) -> t2 = t' ->
    ends token t0 res t').
  { intros q t2 Hn [<- <-]%io_ret_inv <-. eapply (ends_gave_up _ _ 0); [lia|]. split; [by eexists|]. by eapply came_refuse. }
  destruct m1 as [b| | | | |]; try (by eapply Hrefuse; [reflexivity|exact Hx|]). clear Hrefuse.
  apply io_bind_inv in Hx as (u & t2 & Hpr & Hx). unfold print in Hpr. injection Hpr as _ <-.
  pose proof (came_accept token t0 0 _ _ t1 (mkTalk _ _ _) Hc eq_refl eq_refl eq_refl eq_refl) as Hp1.
  apply (exchange token t0 1 _ _ _ _ _ Hp1 eq_refl) in Hx as [Hg|(m2 & t3 & Hx & Hc2)];
    [by eapply ends_gave_up; [|done]; lia|].
  assert (Hrefuse : forall q t2, answer_lines 1 m2 = None -> io_ret (Err (Unexpected q m2)) t3 = (res, t2) -> t2 = t' ->
    ends token t0 res t').
  { intros q t2 Hn [<- <-]%io_ret_inv <-. eapply (ends_gave_up _ _ 1); [lia|]. split; [by eexists|]. by eapply came_refuse. }
  destruct m2 as [| |p| | |]; try (by eapply Hrefuse; [reflexivity|exact Hx|]). clear Hrefuse.
  apply io_bind_inv in Hx as (u2 & t4 & Hpr & Hx). unfold print in Hpr. injection Hpr as _ <-.
  pose proof (came_accept token t0 1 _ _ t3 (mkTalk _ _ _) Hc2 eq_refl eq_refl eq_refl eq_refl) as Hp2.
  by apply (room_ends token t0 _ _ _ Hp2).
Qed.

Lemma messages_length n : forall bs, (length (messages n bs) <= n)%nat.
Proof.
  induction n as [|n IH]; intros bs; [done|]. cbn [messages]. destruct (parse_frame _ _); try (cbn; lia).
  destruct (codec_decode _); cbn [length]; [|cbn; lia]. specialize (IH rest). lia.
Qed.

(** Four answers are a bind result and a profile, whatever they say, and any two messages. *)
Lemma four_answers ms : (length ms <= 4)%nat ->
  (length (answers 0 ms) = 4%nat <-> exists b p m3 m4, ms = [OBindResult b; OProfile p; m3; m4]).
Proof.
  intros Hl. split; [|intros (b & p & m3 & m4 & ->); by destruct m3, m4].
  destruct ms as [|[b| | | | |] [|[| |p| | |] [|m3 [|m4 [|m5 ms]]]]]; cbn in Hl |- *; try done; try lia;
    try (by destruct m3); intros _; by exists b, p, m3, m4.
Qed.

(** C25: What the quickstart client does, whatever the server sends.  It sends the bind, the
    profile request, the join and the chat line in this order, each only after a message
    came in for the one before: the first must be a bind result and the second a profile,
    of which it does not look at what they say; for the join and the chat line any message
    will do, an error notification too, and only a room event is printed.  It prints
    exactly what these answers say, and that all is done exactly when four came, so that
    this line does not mean that anything worked.  When its own writes do not fail it stops
    only at the end of the answers, with the request for the next one sent in full. *)
Theorem client_talks_in_turn (token : rstr) (t t' : Talk) (res : result unit ClientError)
  (Hrun : conversation token t = (res, t')) :
  let answered := answers 0 (incoming t) in
  let sent n := concat (map wire (take n (requests token))) in
  (length answered = 4%nat <-> exists b p m3 m4, incoming t = [OBindResult b; OProfile p; m3; m4]) /\
  exists n k, (n <= length answered)%nat /\ (is_ok res = true <-> n = 4%nat) /\
    written (tk_writer t') = written (tk_writer t) ++ sent n ++ take k (default [] (wire <$> requests token !! n)) /\
    tk_lines t' = tk_lines t ++ concat (take n answered) ++ (if is_ok res then [AllDone] else []) /\
    (undisturbed token -> n = length answered /\
       written (tk_writer t') = written (tk_writer t) ++ sent (Datatypes.S n)).
Proof.
  cbv zeta. split; [apply four_answers, messages_length|].
  destruct (conversation_ends _ _ _ _ Hrun) as [(e & i & -> & Hi & [Ha [k Hk] Hl Hu])|(t1 & -> & [Ha Hw Hl Hr] & Hw' & Hl')].
  - exists i, k. cbn [is_ok]. split_and!; try done; [split; [done|lia]|]. by rewrite app_nil_r.
  - exists 4%nat, 0%nat. cbn [is_ok]. rewrite Hw', Hw, Hl', Hl. split_and!; try done.
    + cbn [take]. by rewrite app_nil_r.
    + by rewrite app_assoc.
    + intros _. split; [|done]. apply Nat.le_antisymm; [done|].
      etransitivity; [apply answers_length|apply messages_length].
Qed.

End Conversation.

(* ------------------------------------------------------------------ *)
(** ** [main] *)

(** What [main] calls outside: the PEM reader, [rustls]'s client configuration, TCP and the
    TLS connector.  The errors are kept as their texts. *)
Class TlsClient (W R K : Type) := {
  RootCert : Type;
  Roots : Type;
  ClientConfig : Type;
  TcpSock : Type;
  ServerName : Type;
  pem_file_iter : rstr -> io W (result (list (result RootCert rstr)) rstr);
  roots_empty : Roots;
  roots_add : Roots -> RootCert -> result Roots rstr;
  (** [builder_with_provider(...).with_protocol_versions] *)
  client_versions : list TlsVersion -> result (list TlsVersion) rstr;
  (** [with_root_certificates(roots).with_no_client_auth()] *)
  with_root_certificates : list TlsVersion -> Roots -> ClientConfig;
  tcp_connect : rstr -> io W (result TcpSock rstr);
  server_name : rstr -> result ServerName rstr;
  tls_connect : ClientConfig -> ServerName -> TcpSock -> io W (result (R * K) rstr);
  trusted : Roots -> list RootCert;
  cc_versions : ClientConfig -> list TlsVersion;
  cc_roots : ClientConfig -> Roots;
  roots_empty_spec : trusted roots_empty = [];
  roots_add_spec r c r' : roots_add r c = Ok r' -> trusted r' = trusted r ++ [c];
  client_versions_spec vs b : client_versions vs = Ok b -> b = vs;
  with_root_certificates_spec vs r :
    cc_versions (with_root_certificates vs r) = vs /\ cc_roots (with_root_certificates vs r) = r
}.

Section Main.
Context `{HP : Prost} {W R K : Type} `{HR : AsyncRead R} `{HK : AsyncWrite K} `{HT : TlsClient W R K}.

(** [for cert in ...pem_file_iter(&root_ca)? { roots.add(cert?)?; }] *)
Fixpoint add_roots (roots : Roots) (certs : list (result RootCert rstr)) : result Roots rstr :=
  match certs with
  | [] => Ok roots
  | cert :: certs' => let? c := cert in let? r := roots_add roots c in add_roots r certs'
  end.

(** Step 1: the TLS connection to the server. *)
Definition connect (server_addr root_ca : rstr) : io W (result (R * K) rstr) :=
  await? certs := pem_file_iter root_ca in
  await? roots := io_lift (add_roots roots_empty certs) in
  await? versions := io_lift (client_versions [TLS13]) in
  let tls_config := with_root_certificates versions roots in
  await? tcp := tcp_connect server_addr in
  await? domain := io_lift (server_name (lit "localhost")) in
  tls_connect tls_config domain tcp.

Definition main (args : list rstr) : io (list Line * W) (result unit ClientError) := fun '(lines, w) =>
  let token := flag_value args (lit "--token") [] in
  if is_empty token then
    (Err (Text (lit "缺少 --token:请先通过 HTTP /login 获取(见本文件头部说明)")), (lines, w))
  else
    let server_addr := flag_value args (lit "--server") (lit "127.0.0.1:8080") in
    let root_ca := flag_value args (lit "--root-ca") (lit "$(mkcert -CAROOT)/rootCA.pem") in
    match connect server_addr root_ca w with
    | (Err e, w') => (Err (OfHost e), (lines, w'))
    | (Ok (reader, writer), w') =>
        let '(res, t) := conversation token (mkTalk reader writer (lines ++ [HandshakeDone server_addr])) in
        (res, (tk_lines t, w'))
    end.

Lemma add_roots_trusted certs : forall roots r,
  add_roots roots certs = Ok r -> exists cs, certs = map Ok cs /\ trusted r = trusted roots ++ cs.
Proof.
  induction certs as [|[c|e] certs IH]; intros roots r Hx; cbn in Hx; [|destruct (roots_add roots c) as [r1|] eqn:Ea|done].
  - injection Hx as <-. exists []. by rewrite app_nil_r.
  - destruct (IH _ _ Hx) as (cs & -> & Ht). exists (c :: cs). split; [done|].
    by rewrite Ht, (roots_add_spec _ _ _ Ea), <- app_assoc.
  - done.
Qed.

(** The client talks only over a TLS 1.3 connection to "localhost" that trusts exactly the
    certificates of the given file, and only with a token; otherwise it prints nothing. *)
Theorem client_connects_securely (args : list rstr) (lines lines' : list Line) (w w' : W)
  (res : result unit ClientError) (Hrun : main args (lines, w) = (res, (lines', w'))) :
  let token := flag_value args (lit "--token") [] in
  (lines' = lines /\ exists e, res = Err e) \/
  token <> [] /\
  exists config name tcp w1 w2 cs reader writer t,
    tls_connect config name tcp w2 = (Ok (reader, writer), w') /\
    cc_versions config = [TLS13] /\ server_name (lit "localhost") = Ok name /\
    pem_file_iter (flag_value args (lit "--root-ca") (lit "$(mkcert -CAROOT)/rootCA.pem")) w = (Ok (map Ok cs), w1) /\
    trusted (cc_roots config) = cs /\
    conversation token (mkTalk reader writer
      (lines ++ [HandshakeDone (flag_value args (lit "--server") (lit "127.0.0.1:8080"))])) = (res, t) /\
    lines' = tk_lines t.
Proof.
  cbv zeta. unfold main in Hrun. cbv zeta in Hrun. destruct (flag_value args (lit "--token") []) as [|c token] eqn:Et.
  { injection Hrun as <- <- <-. left. split; [done|by eexists]. }
  cbn [is_empty] in Hrun. set (addr := flag_value args (lit "--server") _) in *.
  set (ca := flag_value args (lit "--root-ca") _) in *.
  destruct (connect addr ca w) as [[[reader writer]|e] w3] eqn:Ec.
  2: { injection Hrun as <- <- <-. left. split; [done|by eexists]. }
  destruct (conversation _ _) as [r t] eqn:Et2. injection Hrun as <- <- <-. right. split; [done|].
  unfold connect in Ec. apply io_try_inv in Ec as [(certs & w1 & Hpem & Ec)|(e & _ & ?)]; [|done].
  apply io_try_inv in Ec as [(roots & w2 & Hroots & Ec)|(e & _ & ?)]; [|done]. apply io_ret_inv in Hroots as [Hroots <-].
  apply io_try_inv in Ec as [(vs & w2 & Hvs & Ec)|(e & _ & ?)]; [|done]. apply io_ret_inv in Hvs as [Hvs <-].
  apply io_try_inv in Ec as [(tcp & w4 & _ & Ec)|(e & _ & ?)]; [|done].
  apply io_try_inv in Ec as [(name & w5 & Hname & Ec)|(e & _ & ?)]; [|done]. apply io_ret_inv in Hname as [Hname <-].
  destruct (add_roots_trusted _ _ _ Hroots) as (cs & -> & Htr). rewrite roots_empty_spec in Htr. cbn in Htr.
  apply client_versions_spec in Hvs as ->. destruct (with_root_certificates_spec [TLS13] roots) as [Hv Hr].
  exists (with_root_certificates [TLS13] roots), name, tcp, w1, w4, cs, reader, writer, t.
  rewrite Hv, Hr. by split_and!.
Qed.

End Main.

(* ------------------------------------------------------------------ *)
(** ** The client and the running server *)

Module ClientDemo.

#[local] Existing Instance log_events.
#[local] Existing Instance plain_hasher.
#[local] Existing Instance log_audit.
#[local] Existing Instance simple_prost.
#[local] Existing Instance hex_uuid.
Import UseCases.Demo GwDemo HttpDemo LoopDemo SystemDemo.

(** The frame limit of the client. *)
Definition quick_config : TcpGatewayConfig :=
  mkTcpGatewayConfig 0 0 (mkSocketAddr false 0 1) 65536 4 4 1000 1000 (mkRate true 100 10) 10 10 1 true 0.
Abbreviation quick := (act_after (K := list Z) (HA := log_audit) quick_config rooms_cfg 60000000000).
Definition token : rstr := random_token [7; 8].

(** The frames the server reads from what the client writes. *)
Definition client_frames : list (option Frame) :=
  map (fun r => match r with Ok o => o | Err _ => None end)
      (fst (read_frames (R := byte_stream) 4 65536 (mkStream (concat (map wire (requests token))) None))).
Definition client_round (i : nat) (t : Z) : DemoAction :=
  ReadRound 77 (mkTurn t t false (Ok <$> client_frames !! i) false t (mkEnv t t t (300 + Z.of_nat i) true)).

(** Alice registers and logs in over HTTP; her client connects and the server serves it. *)
Definition serving_alice : list DemoAction :=
  [Request (HttpRegister 10 20 1 2 (mkRegisterRequest (lit " Alice_01 ") (lit "super-secret") (lit "爱丽丝")));
   Request (HttpLogin 3 4 5 [7; 8] login_rq);
   Admit 77 1 6; Open 77 [] 5 7 8;
   client_round 0 10; WriteOne 77;
   client_round 1 20; WriteOne 77;
   client_round 2 30; RunActor 302; Relay 77 (mkEnv 40 40 40 300 true); WriteOne 77;
   client_round 3 50; RunActor 302; Relay 77 (mkEnv 60 60 60 300 true); WriteOne 77].

Abbreviation possible := (acts_possible (K := list Z) (HA := log_audit) quick_config rooms_cfg 60000000000).
Definition served_state : DemoSys := foldl quick d0 serving_alice.

Local Ltac clocked := split; [intros ? [= <-]; vm_compute; discriminate|].
Local Ltac untimed := split; [done|].

Lemma serving_possible : possible d0 serving_alice.
Proof.
  assert (Hsome : forall (a : DemoAction) (s : DemoSys),
    bool_decide (is_Some (act (K := list Z) (HA := log_audit) quick_config rooms_cfg 60000000000 a s)) = true ->
    is_Some (act (K := list Z) (HA := log_audit) quick_config rooms_cfg 60000000000 a s))
    by (intros a s; apply bool_decide_eq_true_1).
  unfold serving_alice, client_round. cbn [acts_possible].
  split_and!; try exact I; try (apply Hsome; vm_compute; reflexivity); try (untimed; exact I).
  - untimed. vm_compute. split; discriminate.
  - clocked. split; [vm_compute; reflexivity|]. intros p ts. vm_compute. discriminate.
  - untimed. split_and!; vm_compute; reflexivity.
  - clocked. vm_compute. reflexivity.
  - clocked. vm_compute. reflexivity.
  - clocked. vm_compute. reflexivity.
  - clocked. exact I.
  - clocked. vm_compute. reflexivity.
  - clocked. exact I.
Qed.

(** What the server wrote to Alice's socket, and the client over it. *)
Definition answered : list Z := default [] (pe_sock <$> sy_peers served_state !! 77).
Definition talk0 : @Talk byte_stream (list Z) := mkTalk (mkStream answered None) [] [].
Definition talk1 : @Talk byte_stream (list Z) := snd (conversation token talk0).

Definition alice : rstr := uuid_to_string 20.
Definition room : rstr := uuid_to_string 302.

(** The session of the README: over a run of the server that reads what the client writes,
    the client gets its answers, sees itself join and hears its own line. *)
Example quickstart_session :
  System.run (K := list Z) quick_config rooms_cfg 60000000000 d0
    (acts_history quick_config rooms_cfg 60000000000 d0 serving_alice) served_state /\
  fst (conversation token talk0) = Ok tt /\
  tk_writer talk1 = concat (map wire (requests token)) /\
  tk_lines talk1 =
    [BindLine true (Some alice);
     ProfileLine (pb.mkProfileResponse true (Some alice) (Some (lit "爱丽丝")) (Some 1) (Some 0) (Some 0) None);
     EventLine (pb.mkRoomEventNotification (Some (pb.MemberJoined room alice (lit "爱丽丝"))));
     EventLine (pb.mkRoomEventNotification (Some (pb.RoomChat room alice (lit "爱丽丝") (lit "大家好,我来了"))));
     AllDone].
Proof.
  split; [exact (acts_run quick_config rooms_cfg 60000000000 d0 serving_alice [] d0 (run_start _ _ _ d0) serving_possible)|].
  vm_compute. auto.
Qed.

Lemma client_talks_in_turn_witness :
  is_ok (fst (conversation token talk0)) = true /\
  tk_lines talk1 = concat (answers 0 (incoming talk0)) ++ [AllDone] /\
  written (tk_writer talk1) = concat (map wire (requests token)).
Proof.
  assert (Hok : is_ok (fst (conversation token talk0)) = true) by (vm_compute; reflexivity).
  split; [exact Hok|].
  destruct (client_talks_in_turn token talk0 talk1 (fst (conversation token talk0)) (surjective_pairing _))
    as (_ & n & k & Hn & Hiff & Hw & Hl & _).
  apply Hiff in Hok as Hn4. subst n. rewrite Hw, Hl, Hok. cbn [talk0 tk_lines tk_writer written list_write app take lookup].
  split.
  - vm_compute. reflexivity.
  - change (requests token !! 4%nat) with (@None InboundMessage). cbn [fmap option_fmap option_map default from_option].
    by rewrite take_nil, app_nil_r.
Defined.

(** The whole program, when certificates are the paths of their files and the connection is
    the one above. *)
#[program] Definition demo_tls_client : TlsClient unit byte_stream (list Z) := {|
  RootCert := rstr;
  Roots := list rstr;
  ClientConfig := list TlsVersion * list rstr;
  TcpSock := rstr;
  ServerName := rstr;
  pem_file_iter path := io_ret (Ok [Ok path]);
  roots_empty := [];
  roots_add r c := Ok (r ++ [c]);
  client_versions vs := Ok vs;
  with_root_certificates vs r := (vs, r);
  tcp_connect addr := io_ret (Ok addr);
  server_name n := Ok n;
  tls_connect _ _ _ := io_ret (Ok (mkStream answered None, []));
  trusted r := r;
  cc_versions := fst;
  cc_roots := snd
|}.
Next Obligation. done. Qed.
Next Obligation. by intros r c r' [= <-]. Qed.
Next Obligation. by intros vs b [= ->]. Qed.
Next Obligation. done. Qed.
#[local] Existing Instance demo_tls_client.

Example quickstart_main :
  main (W := unit) [lit "--token"; token; lit "--root-ca"; lit "rootCA.pem"] ([], tt) =
    (Ok tt, (HandshakeDone (lit "127.0.0.1:8080") :: tk_lines talk1, tt)).
Proof. vm_compute. reflexivity. Qed.
Example quickstart_without_a_token :
  fst (main (W := unit) [lit "--server"; lit "a:1"] ([], tt)) =
    Err (Text (lit "缺少 --token:请先通过 HTTP /login 获取(见本文件头部说明)")).
Proof. vm_compute. reflexivity. Qed.

(** The last line only says that four answers came: here the join was refused and the server is
    about to stop, the client was in no room and said nothing to anybody. *)
Definition frame_bytes (m : OutboundMessage) : list Z :=
  match codec_encode (Codec := GameCodec) m with
  | Ok f => match encode_frame f max_frame with Ok bs => bs | Err _ => [] end
  | Err _ => []
  end.
Definition refusing : list Z :=
  concat (map frame_bytes
    [Protocol.bind_ok (lit "p") (lit "n"); OProfile (pb.mkProfileResponse false None None None None None (Some (lit "busy")));
     error_notification ERR_SERVER_BUSY (lit "busy"); OShutdown (pb.mkServerShutdownNotice (lit "bye"))]).
Example all_done_without_a_room :
  let '(res, t) := conversation token (mkTalk (mkStream refusing None) ([] : list Z) []) in
  res = Ok tt /\ last (tk_lines t) = Some AllDone /\
  Forall (fun l => match l with EventLine _ => False | _ => True end) (tk_lines t).
Proof. vm_compute. split; [done|]. split; [done|]. repeat constructor. Qed.

End ClientDemo.
