(* ===== verification/TestsDomain.v ===== *)
(** The unit tests of the crate [domain], run on the models: one definition for each test
    function of [domain/src], of the same name, which is [true] when all of its assertions
    hold.  Fresh identifiers and the time are fixed; the tests' checks of the UUID version
    concern the crate [uuid] and are left out. *)
From S2P Require Import Prelude Text Values Account Player Room Session.
From Stdlib Require Import Strings.String.
Open Scope string_scope.
Open Scope Z_scope.
Open Scope list_scope.

(** [assert_eq!] *)
Definition same {A} `{EqDecision A} (x y : A) : bool := bool_decide (x = y).
(** All assertions of a test. *)
Definition asserts (l : list bool) : bool := forallb id l.
(** [str::repeat] *)
Definition repeated (n : nat) (s : rstr) : rstr := List.concat (repeat s n).
(** [Utc::now()] *)
Definition now : DateTime := 1_000_000_000_000.
(** [chrono::Duration::hours], [seconds] *)
Definition seconds (n : Z) : Z := n * 1_000_000_000.
Definition hours (n : Z) : Z := seconds (n * 3600).

(* ------------------------------------------------------------------ *)
(** ** [room/aggregate.rs] *)
Module RoomTests.

Definition room (max : Z) : Room := Room.open 1 max now.

Definition full (r : result bool DomainError) : bool :=
  match r with Err (RoomFull _) => true | _ => false end.
Definition closed (r : result bool DomainError) : bool :=
  match r with Err (RoomClosed _) => true | _ => false end.

Definition open_clamps_capacity_and_starts_waiting : bool :=
  asserts [same (rm_max_players (room 0)) 1; same (rm_state (room 0)) Waiting;
           same (rm_max_players (room 8192)) 8192].

Definition join_is_idempotent_and_enforces_capacity : bool :=
  let '(j1, r) := try_join (room 2) 11 in
  let '(j2, r) := try_join r 11 in
  let '(j3, r) := try_join r 12 in
  let '(j4, r) := try_join r 13 in
  asserts [same j1 (Ok true); same j2 (Ok false); same j3 (Ok true); full j4;
           same (member_count r) 2%nat; is_full r].

Definition leave_only_removes_members : bool :=
  let '(_, r) := try_join (room 2) 11 in
  let '(l1, r) := try_leave r 11 in
  let '(l2, r) := try_leave r 11 in
  let '(l3, r) := try_leave r 12 in
  asserts [same l1 (Ok true); same l2 (Ok false); same l3 (Ok false); same (member_count r) 0%nat].

Definition closed_room_rejects_join_and_leave : bool :=
  let '(_, r) := Room.close (room 2) in
  asserts [closed (fst (try_join r 11)); closed (fst (try_leave r 11)); negb (fst (Room.close r))].

Definition state_machine_allows_only_forward_transitions : bool :=
  let '(t1, r) := transition_to (room 2) Settling in
  let '(t2, r) := transition_to r InProgress in
  let '(t3, r) := transition_to r Settling in
  let '(t4, r) := transition_to r Closed in
  let '(t5, r') := transition_to r Waiting in
  asserts [same t1 (Err (IllegalTransition (lit "Waiting") (lit "Settling")));
           is_ok t2; is_ok t3; is_ok t4; same (rm_state r) Closed;
           match t5 with Err (IllegalTransition _ _) => true | _ => false end].

End RoomTests.

(* ------------------------------------------------------------------ *)
(** ** [player/aggregate.rs] *)
Module PlayerTests.

Definition fixture : Player :=
  match Nickname.try_new (lit "勇者") with
  | Ok nick => Player.create 20 10 nick now
  | Err _ => Player.create 0 0 (Nickname.mk []) now
  end.

Definition create_starts_at_level_one : bool :=
  asserts [same (pl_level fixture) 1; same (pl_exp fixture) 0; same (pl_last_login_at fixture) None;
           same (pl_account_id fixture) 10].

Definition gain_exp_levels_up_exactly_at_threshold : bool :=
  let '(p1, l1) := gain_exp fixture 99 in
  let '(p2, l2) := gain_exp p1 1 in
  asserts [same l1 None; same (pl_level p1) 1; same (pl_exp p1) 99;
           same l2 (Some 2); same (pl_level p2) 2; same (pl_exp p2) 0].

Definition gain_exp_can_skip_multiple_levels : bool :=
  let '(p, l) := gain_exp fixture 600 in
  asserts [same l (Some 4); same (pl_level p) 4; same (pl_exp p) 0].

Definition gain_exp_saturates_at_max_level : bool :=
  let '(p1, l1) := gain_exp fixture (u_max 64) in
  let '(p2, l2) := gain_exp p1 (u_max 64) in
  asserts [same l1 (Some MAX_LEVEL); same (pl_level p1) MAX_LEVEL;
           same l2 None; same (pl_level p2) MAX_LEVEL].

Definition record_login_updates_last_login : bool :=
  same (pl_last_login_at (record_login fixture now)) (Some now).

End PlayerTests.

(* ------------------------------------------------------------------ *)
(** ** [account/aggregate.rs] *)
Module AccountTests.

Definition fixture : Account :=
  Account.register 10 (match Username.try_new (lit "alice") with Ok n => n | Err _ => Username.mk [] end)
    (PasswordHash.new (lit "hash")) now.

Definition register_creates_active_account_with_v7_id : bool := same (acc_status fixture) Active.

Definition banned_until_expiry_restores_login : bool :=
  let expired := now - hours 1 in
  let future := now + hours 1 in
  asserts [allows_login Active now; negb (allows_login Suspended now);
           negb (allows_login (Banned (lit "作弊") (Some future)) now);
           allows_login (Banned (lit "作弊") (Some expired)) now;
           negb (allows_login (Banned (lit "永久") None) now)].

Definition status_codes_and_lifecycle : bool :=
  let banned := ban fixture (lit "外挂") None in
  let active := activate banned in
  asserts [same (code (acc_status fixture)) 0; same (code (acc_status banned)) 2;
           same (code (acc_status active)) 0; same (code (acc_status (suspend active))) 1].

End AccountTests.

(* ------------------------------------------------------------------ *)
(** ** [session/aggregate.rs] *)
Module SessionTests.

Definition base : Session.Session := Session.new 5 now.

Definition new_session_is_unauthenticated : bool :=
  asserts [negb (Session.is_authenticated base); same (Session.player_id base) None;
           same (Session.connected_at base) now].

Definition bind_player_authenticates_and_touches : bool :=
  let session := Session.bind_player base 20 now in
  asserts [Session.is_authenticated session; same (Session.player_id session) (Some 20);
           same (Session.last_heartbeat_at session) now].

Definition heartbeat_expiry_respects_threshold : bool :=
  let timeout := seconds 60 in
  let session := Session.touch_heartbeat base (now + seconds 30) in
  asserts [negb (Session.is_heartbeat_expired base now timeout);
           negb (Session.is_heartbeat_expired session (now + seconds 60) timeout);
           Session.is_heartbeat_expired session (now + seconds 91) timeout].

End SessionTests.

(* ------------------------------------------------------------------ *)
(** ** [shared/value.rs] and [events.rs] *)
Module ValueTests.

Definition username_accepts_valid_and_normalizes_case : bool :=
  match Username.try_new (lit "  Tom_01 ") with
  | Ok name => same (Username.as_str name) (lit "tom_01")
  | Err _ => false
  end.

Definition username_rejects_bad_length_and_charset : bool :=
  asserts [is_err (Username.try_new (lit "ab")); is_err (Username.try_new (repeated 33 (lit "a")));
           is_err (Username.try_new (lit "bad name!"));
           match Username.try_new (lit "bad name!") with
           | Err (InvalidValue field _) => (field =? "username")%string
           | _ => false
           end].

Definition nickname_counts_unicode_chars_and_rejects_control : bool :=
  asserts [is_ok (Nickname.try_new (lit "玩家一号")); is_err (Nickname.try_new (lit "  "));
           is_err (Nickname.try_new (repeated 33 (lit "长")));
           is_err (Nickname.try_new (lit "bad" ++ [10] ++ lit "name"))].

Definition password_length_boundary_and_masking : bool :=
  asserts [is_ok (PlainPassword.try_new (repeated 8 (lit "p")));
           is_err (PlainPassword.try_new (repeated 7 (lit "p")));
           is_err (PlainPassword.try_new (repeated 129 (lit "p")));
           is_err (PlainPassword.try_new (lit "pass" ++ [13] ++ lit "word"));
           match PlainPassword.try_new (lit "secret-pw") with
           | Ok pwd =>
               asserts [same (PlainPassword.debug pwd) (lit "PlainPassword(***)");
                        same (PlainPassword.display pwd) (lit "***");
                        same (PlainPassword.expose pwd) (lit "secret-pw")]
           | Err _ => false
           end].

Definition password_hash_is_masked_in_logs : bool :=
  let hash := PasswordHash.new (lit "$argon2id$v=19$secret") in
  asserts [same (PasswordHash.debug hash) (lit "PasswordHash(***)");
           match strip_prefix (lit "$argon2id") (PasswordHash.expose hash) with Some _ => true | None => false end].

Definition events_expose_occurrence_time : bool :=
  asserts [same (occurred_at (PlayerLeveledUp 20 2 now)) now;
           same (occurred_at (DRoomClosed 30 (lit "停机") now)) now].

End ValueTests.

(* ------------------------------------------------------------------ *)

Definition domain_tests : list bool :=
  [RoomTests.open_clamps_capacity_and_starts_waiting; RoomTests.join_is_idempotent_and_enforces_capacity;
   RoomTests.leave_only_removes_members; RoomTests.closed_room_rejects_join_and_leave;
   RoomTests.state_machine_allows_only_forward_transitions;
   PlayerTests.create_starts_at_level_one; PlayerTests.gain_exp_levels_up_exactly_at_threshold;
   PlayerTests.gain_exp_can_skip_multiple_levels; PlayerTests.gain_exp_saturates_at_max_level;
   PlayerTests.record_login_updates_last_login;
   AccountTests.register_creates_active_account_with_v7_id; AccountTests.banned_until_expiry_restores_login;
   AccountTests.status_codes_and_lifecycle;
   SessionTests.new_session_is_unauthenticated; SessionTests.bind_player_authenticates_and_touches;
   SessionTests.heartbeat_expiry_respects_threshold;
   ValueTests.username_accepts_valid_and_normalizes_case; ValueTests.username_rejects_bad_length_and_charset;
   ValueTests.nickname_counts_unicode_chars_and_rejects_control; ValueTests.password_length_boundary_and_masking;
   ValueTests.password_hash_is_masked_in_logs; ValueTests.events_expose_occurrence_time].

(** The unit tests of [domain] pass on the models. *)
Theorem domain_tests_pass : asserts domain_tests = true.
Proof. vm_compute. reflexivity. Qed.
