(* ===== verification/UnitOfWork.v ===== *)
(** The port of atomic units ([application/src/unit_of_work.rs]): its contract, the double of
    its test and the test.

    The trait's comment asks for a unit that is kept as a whole or given up as a whole.  The
    repository holds no implementation but the double, which runs the operation and nothing
    else: it keeps the contract for the operations that change nothing when they fail, and
    for no others. *)
From S2P Require Import Prelude Text App TestsDomain.
Open Scope Z_scope.

(** [UnitOfWork::commit]; an operation is a computation that can fail. *)
Class UnitOfWork (W : Type) := {
  commit : forall {T}, io W (result T AppError) -> io W (result T AppError)
}.

(** All of [op] is kept, or nothing of it. *)
Definition kept_whole {W T} (run : io W (result T AppError)) (op : io W (result T AppError)) : Prop :=
  forall w, match op w with
            | (Ok v, w') => run w = (Ok v, w')
            | (Err e, _) => run w = (Err e, w)
            end.
Definition atomic_units {W} (U : UnitOfWork W) : Prop :=
  forall T (op : io W (result T AppError)), kept_whole (commit op) op.

(** [a], and [b] when it succeeds. *)
Definition and_then {W T} (a : io W (result unit AppError)) (b : io W (result T AppError)) : io W (result T AppError) :=
  let* r := a in match r with Ok _ => b | Err e => io_ret (Err e) end.

(** Two operations in one atomic unit: the first one's writes are gone when the second
    fails. *)
Lemma second_failure_undoes_the_first {W T} (U : UnitOfWork W) (a : io W (result unit AppError))
    (b : io W (result T AppError)) w w1 w2 e :
  atomic_units U -> a w = (Ok tt, w1) -> b w1 = (Err e, w2) -> commit (and_then a b) w = (Err e, w).
Proof.
  intros HU Ha Hb. specialize (HU T (and_then a b) w). unfold and_then, io_bind in HU.
  rewrite Ha in HU. cbn in HU. by rewrite Hb in HU.
Qed.

(** [PassthroughUnitOfWork] *)
Definition passthrough {W} : UnitOfWork W := {| commit T op := op |}.

Lemma passthrough_keeps_whole {W T} (op : io W (result T AppError)) :
  kept_whole (commit (UnitOfWork := passthrough) op) op <-> forall w e w', op w = (Err e, w') -> w' = w.
Proof.
  split.
  - intros H w e w' Hop. specialize (H w). cbn in H. rewrite Hop in H. congruence.
  - intros H w. cbn. destruct (op w) as [[v|e] w'] eqn:Hop; [done|]. by rewrite (H _ _ _ Hop).
Qed.

Definition write_then_fail : io Z (result unit AppError) := fun w => (Err Busy, w + 1).

Lemma passthrough_is_not_atomic : ~ atomic_units (passthrough (W := Z)).
Proof.
  intros H. pose proof (proj1 (passthrough_keeps_whole write_then_fail) (H unit write_then_fail) 0 Busy 1 eq_refl).
  discriminate.
Qed.

(** The test. *)
Definition commit_runs_operation_and_propagates_error : bool :=
  asserts [same (fst (commit (UnitOfWork := passthrough) (io_ret (Ok (41 + 1))) tt)) (Ok 42);
           same (fst (commit (UnitOfWork := passthrough) (io_ret (Err Busy : result unit AppError)) tt)) (Err Busy)].

Lemma unit_of_work_test_passes : commit_runs_operation_and_propagates_error = true.
Proof. reflexivity. Qed.
