(* ===== verification/TestsApplication.v ===== *)
(** The unit tests of the use cases and of the rooms ([application/src]), run on the models.
    As in [TestsDomain] each test function is a definition of its name, [true] when its
    assertions hold.

    The hasher and the audit are the doubles of [Fakes]; accounts, players and tokens are
    kept by the in-memory stores, which answer what the doubles answer
    ([doubles_answer_alike], [fake_tokens_are_memory_tokens]).  A double that a test
    defines for itself is an instance of the port it fails. *)
From S2P Require Import Prelude Text Tokio Values Account Player Room Session App MemRepos TokenStore.
From S2P Require Import UseCases RoomActor RoomService Fakes TestsDomain.
From Stdlib Require Import Strings.String.
Open Scope string_scope.
Open Scope Z_scope.
Open Scope list_scope.

Definition is_validation {A} (r : result A AppError) : bool :=
  match r with Err (Validation _) => true | _ => false end.
Definition is_conflict {A} (r : result A AppError) : bool :=
  match r with Err (Conflict _) => true | _ => false end.
Definition is_not_found {A} (r : result A AppError) : bool :=
  match r with Err (NotFound _) => true | _ => false end.
Definition is_internal {A} (r : result A AppError) : bool :=
  match r with Err (Internal _) => true | _ => false end.

Definition TestWorld : Type := World Memory.Store MemTokens.State unit FakeAudit (list DomainEvent).
Definition world (store : Memory.Store) : TestWorld := mkWorld store MemTokens.new tt (mkFakeAudit 0 []) [].
Definition accounts_len (w : TestWorld) : nat := size (Memory.accounts (w_store w)).

#[local] Existing Instance fake_hasher.
#[local] Existing Instance fake_audit.
#[local] Existing Instance log_events.

(* ------------------------------------------------------------------ *)
(** ** [auth/register.rs] *)
Module RegisterTests.

Definition cmd : RegisterCommand :=
  mkRegisterCommand (lit "alice_01") (lit "super-secret") (lit "爱丽丝").
Definition empty : TestWorld := world Memory.empty_store.

Definition registers_account_and_player : bool :=
  let '(r, w) := register_execute 10 20 now now cmd empty in
  asserts [match r with Ok res => same (rr_nickname res) (lit "爱丽丝") | Err _ => false end;
           same (accounts_len w) 1%nat; same (fau_count (w_audit w)) 1%nat].

Definition audit_records_normalized_username_and_player : bool :=
  let '(r, w) := register_execute 10 20 now now
                   (mkRegisterCommand (lit "  ALICE_01  ") (rc_password cmd) (rc_nickname cmd)) empty in
  match r, fau_records (w_audit w) with
  | Ok res, (player, entry) :: _ =>
      asserts [same player (Some (rr_player_id res));
               same entry (lit "register:{" ++ [34] ++ lit "username" ++ [34] ++ lit ":" ++ [34] ++ lit "alice_01"
                           ++ [34] ++ lit "}")]
  | _, _ => false
  end.

(** [FailingAudit] *)
Definition failing_audit : AuditLogger FakeAudit := {|
  record p action detail := io_ret (Err (Storage (lit "audit unavailable")))
|}.
Definition audit_failure_does_not_fail_registration : bool :=
  is_ok (fst (register_execute (HA := failing_audit) 10 20 now now cmd empty)).

Definition rejects_duplicate_username : bool :=
  let '(_, w) := register_execute 10 20 now now cmd empty in
  match fst (register_execute 11 21 now now cmd w) with
  | Err e => same e (Conflict (lit "用户名已被占用"))
  | Ok _ => false
  end.

Definition validates_input_before_any_persistence : bool :=
  let '(r1, w) := register_execute 10 20 now now (mkRegisterCommand (lit "a") (lit "super-secret") (lit "x")) empty in
  let '(r2, w) := register_execute 11 21 now now (mkRegisterCommand (lit "alice_01") (lit "short") (lit "x")) w in
  asserts [is_validation r1; is_validation r2; same (accounts_len w) 0%nat].

Definition hasher_failure_aborts_registration : bool :=
  is_internal (fst (register_execute (HH := failing_hasher) 10 20 now now cmd empty)).

(** [Unavailable]: the in-memory store with a registration that fails. *)
#[program] Definition unavailable_registration : Repositories Memory.Store := {|
  accounts_view := accounts_view; players_view := players_view; kept_time := kept_time; repo_wf := repo_wf;
  find_account_by_id := find_account_by_id; find_by_username := find_by_username; save_account := save_account;
  find_player_by_id := find_player_by_id; find_by_account := find_by_account; save_player := save_player;
  repo_gain_exp := repo_gain_exp; repo_record_login := repo_record_login;
  store_register a p := io_ret (Err (Storage (lit "unavailable")));
  repo_wf_account := repo_wf_account; repo_wf_player := repo_wf_player;
  find_account_by_id_spec := find_account_by_id_spec; find_by_username_spec := find_by_username_spec;
  find_player_by_id_spec := find_player_by_id_spec; find_by_account_spec := find_by_account_spec;
  repo_gain_exp_spec := repo_gain_exp_spec; repo_record_login_spec := repo_record_login_spec
|}.
Next Obligation. intros a p s r s' Hwf _ [= <- <-]. split; [exact Hwf|]. by left. Qed.

Definition storage_failure_does_not_write_or_audit_a_partial_registration : bool :=
  let '(r, w) := register_execute (HS := unavailable_registration) 10 20 now now cmd empty in
  asserts [match r with Err (Storage _) => true | _ => false end; same (accounts_len w) 0%nat;
           same (fau_count (w_audit w)) 0%nat].

End RegisterTests.

(* ------------------------------------------------------------------ *)
(** ** [auth/login.rs] *)
Module LoginTests.

(** Alice with a status, as [FakeAccounts::with_status] and [FakePlayers::for_account]
    prepare her. *)
Definition deps_with (status : AccountStatus) : TestWorld :=
  match with_status (lit "alice") status now, for_account 20 (lit "alice") now with
  | Some accounts, Some players =>
      world (Memory.mkStore (list_to_map ((fun kv => (acc_id (snd kv), snd kv)) <$> map_to_list accounts)) players)
  | _, _ => world Memory.empty_store
  end.
Definition ttl : Z := seconds 60.
Definition login (cmd : LoginCommand) (w : TestWorld) : result LoginResult AppError * TestWorld :=
  login_execute ttl now now now [7; 8] cmd w.
Definition cmd : LoginCommand := mkLoginCommand (lit "Alice") (lit "super-secret").
Definition tokens_issued (w : TestWorld) : nat := size (MemTokens.by_token (w_tokens w)).

Definition login_issues_token_and_records_login : bool :=
  let '(r, w) := login cmd (deps_with Active) in
  match r with
  | Ok res => asserts [same (lr_expires_in_secs res) 60; same (tokens_issued w) 1%nat;
                       same (lr_nickname res) (lit "玩家_alice")]
  | Err _ => false
  end.

Definition wrong_password_is_generic_unauthorized : bool :=
  let '(r, w) := login (mkLoginCommand (lit "alice") (lit "wrong-password")) (deps_with Active) in
  asserts [match r with Err e => same e (Unauthorized (lit "用户名或密码错误")) | Ok _ => false end;
           same (tokens_issued w) 0%nat].

Definition unknown_user_is_generic_unauthorized : bool :=
  match fst (login (mkLoginCommand (lit "nobody") (lit "super-secret")) (deps_with Active)) with
  | Err (Unauthorized _) => true
  | _ => false
  end.

Definition banned_account_is_forbidden : bool :=
  match fst (login cmd (deps_with (Banned (lit "作弊") None))) with Err (Forbidden _) => true | _ => false end.

(** [FailedReplacement]: the in-memory tokens, where none can be created. *)
#[program] Definition failed_replacement : SessionTokenStore MemTokens.State := {|
  tok_wf := tok_wf; live := live; unused := unused; expiry := expiry;
  tok_create now rnd p ttl := io_ret (Err (Storage (lit "replacement failed")));
  tok_resolve := tok_resolve; tok_revoke_player := tok_revoke_player;
  tok_wf_later := tok_wf_later; tok_resolve_spec := tok_resolve_spec; tok_revoke_spec := tok_revoke_spec
|}.
Next Obligation. intros now0 rnd p d s r s' Hwf _ _ [= <- <-]. split; [exact Hwf|]. intros t t' _. by left. Qed.

Definition replacement_failure_aborts_login : bool :=
  match fst (login_execute (HT := failed_replacement) ttl now now now [7; 8] cmd (deps_with Active)) with
  | Err e => same e (Storage (lit "replacement failed"))
  | Ok _ => false
  end.

Definition invalid_username_shape_is_validation_error : bool :=
  is_validation (fst (login (mkLoginCommand (lit "!!") (lit "super-secret")) (deps_with Active))).

End LoginTests.

(* ------------------------------------------------------------------ *)
(** ** [player/progression.rs], [player/profile.rs] and [error.rs] *)
Module PlayerUseCaseTests.

Definition fixture (nickname : rstr) : TestWorld :=
  match Nickname.try_new nickname with
  | Ok nick => world (snd (save_player (Player.create 20 10 nick now) Memory.empty_store))
  | Err _ => world Memory.empty_store
  end.
Definition gain (p amount : Z) (w : TestWorld) : result PlayerProfile AppError * TestWorld :=
  gain_exp_execute now p amount w.

Definition adds_exp_without_level_up : bool :=
  let '(r, w) := gain 20 50 (fixture (lit "阿快")) in
  match r with
  | Ok profile => asserts [same (pp_level profile) 1; same (pp_exp profile) 50; same (w_events w) []]
  | Err _ => false
  end.

Definition level_up_publishes_domain_event : bool :=
  let '(r, w) := gain 20 100 (fixture (lit "阿快")) in
  asserts [match r with Ok profile => same (pp_level profile) 2 | Err _ => false end;
           match last (w_events w) with Some (PlayerLeveledUp _ 2 _) => true | _ => false end].

Definition zero_exp_is_validation_error : bool := is_validation (fst (gain 20 0 (fixture (lit "阿快")))).
Definition unknown_player_is_not_found : bool := is_not_found (fst (gain 99 10 (fixture (lit "阿快")))).

(** [FailedEvents]; that the level was stored before is seen in the state that is left. *)
#[program] Definition failed_events : EventPublisher (list DomainEvent) := {|
  published s := s;
  publish e := io_ret (Err (Internal (lit "publish failed")))
|}.
Next Obligation. by intros e s r s' [= <- <-]. Qed.

Definition publication_observes_committed_state_and_failure_is_post_commit : bool :=
  let '(r, w) := gain_exp_execute (HE := failed_events) now 20 100 (fixture (lit "阿快")) in
  asserts [match r with Err (PostCommit _) => true | _ => false end;
           match Memory.players (w_store w) !! 20 with
           | Some saved => same (pl_level saved) 2 && same (pl_exp saved) 0
           | None => false
           end].

Definition returns_profile_for_existing_player : bool :=
  match fst (profile_execute 20 (fixture (lit "阿宽"))) with
  | Ok profile => asserts [same (pp_nickname profile) (lit "阿宽"); same (pp_level profile) 1]
  | Err _ => false
  end.

Definition missing_player_is_not_found : bool :=
  is_not_found (fst (profile_execute 20 (world Memory.empty_store))).

Definition maps_domain_and_repo_errors : bool :=
  asserts [match app_of_domain (RoomFull 30) with Conflict _ => true | _ => false end;
           match app_of_repo (RStorage (lit "down")) with Storage _ => true | _ => false end;
           same (AppError_to_string Busy) (lit "服务繁忙,请稍后重试")].

End PlayerUseCaseTests.

(* ------------------------------------------------------------------ *)
(** ** [room/sink.rs] and [room/actor.rs]

    The receivers of the tests are sinks 1 to 4.  Awaiting a reply lets the actor take its
    turn; [recv] is what a receiver has in its queue. *)
Module ActorTests.

Definition TestRooms : Type := Rooms queue (list DomainEvent).
Definition rooms_with (capacity : nat) : TestRooms :=
  service_new [] (list_to_map (map (fun k => (k, sink_new (chan capacity))) [1; 2; 3; 4])).

Definition recv (k : Z) : io TestRooms (option RoomEvent) := fun w =>
  match sinks w !! k with
  | Some s =>
      match pop (sk_tx s) with
      | Some (e, tx) =>
          (Some e, mkRooms (registry w) (tasks w) (<[k := mkSink tx (sk_failed s)]> (sinks w)) (publisher w))
      | None => (None, w)
      end
  | None => (None, w)
  end.
(** The drop of a receiver. *)
Definition hang_up (k : Z) : io TestRooms unit := fun w =>
  (tt, mkRooms (registry w) (tasks w)
         (alter (fun s => mkSink (drop_rx (sk_tx s)) (sk_failed s)) k (sinks w)) (publisher w)).
Definition send (c : RoomCommand) : io TestRooms (option Reply) :=
  let* _ := handle_send 9 c in actor_turn 9.
Definition post (c : RoomCommand) : io TestRooms bool :=
  let* sent := handle_try_send 9 c in let* _ := actor_turn 9 in io_ret (is_ok sent).
(** [RoomActor::spawn(room(max), 16)], then the test. *)
Definition with_actor (max : Z) (test : io TestRooms bool) : bool :=
  fst ((let* _ := spawn (Room.open 9 max now) 16 in test) (rooms_with ROOM_EVENT_CAPACITY)).
Definition join_actor (p : PlayerId) (k : Z) : io TestRooms (option Reply) := send (Join p (lit "n") k).

Definition joined (p : PlayerId) (e : option RoomEvent) : bool :=
  match e with Some (MemberJoined _ q _) => same p q | _ => false end.
Definition left (p : PlayerId) (e : option RoomEvent) : bool :=
  match e with Some (MemberLeft _ q) => same p q | _ => false end.
Definition accepted (r : option Reply) : bool := match r with Some (JoinReply (Ok _)) => true | _ => false end.
Definition nothing (e : option RoomEvent) : bool := same e None.

Definition failure_is_sticky_after_queue_recovers : bool :=
  let event := EvClosed 9 (lit "test") in
  let sink := sink_try_send event (sink_try_send event (sink_new (chan (Q := queue) 1))) in
  match pop (sk_tx sink) with
  | Some (_, tx) => same (sink_failed_poll (mkSink tx (sk_failed sink))) (Some tt)
  | None => false
  end.

Definition join_broadcasts_member_joined_to_all : bool :=
  with_actor 4 (
    let* r1 := send (Join 11 (lit "a") 1) in
    let* own := recv 1 in
    let* r2 := send (Join 12 (lit "b") 2) in
    let* seen_by_1 := recv 1 in
    let* seen_by_2 := recv 2 in
    io_ret (asserts [accepted r1; joined 11 own; accepted r2; joined 12 seen_by_1; joined 12 seen_by_2])).

Definition chat_reaches_members_but_not_outsiders : bool :=
  with_actor 4 (
    let* _ := join_actor 11 1 in
    let* _ := recv 1 in
    let* p1 := post (Chat 11 (lit "大家好")) in
    let* event := recv 1 in
    let* p2 := post (Chat 12 (lit "偷听")) in
    let* p3 := post (Chat 11 (lit "   ")) in
    let* later := recv 1 in
    io_ret (asserts [p1; p2; p3; match event with Some (EvChat _ _ _ text) => same text (lit "大家好") | _ => false end;
                     nothing later])).

Definition leave_notifies_and_last_member_closes_room : bool :=
  with_actor 4 (
    let* _ := join_actor 11 1 in
    let* _ := join_actor 12 2 in
    let* _ := recv 1 in
    let* _ := recv 1 in
    let* _ := recv 2 in
    let* _ := send (Leave 11 (lit "主动退出")) in
    let* event := recv 2 in
    let* own := recv 1 in
    let* closed := recv 1 in
    let* _ := send (Leave 12 (lit "主动退出")) in
    let* ack := recv 2 in
    let* last := recv 2 in
    fun w => (asserts [left 11 event; left 11 own; nothing closed; left 12 ack;
                       match last with Some (EvClosed _ _) => true | _ => false end; handle_is_closed w 9], w)).

Definition close_command_broadcasts_closed_event : bool :=
  with_actor 4 (
    let* _ := join_actor 11 1 in
    let* _ := recv 1 in
    let* _ := send (Close (lit "服务器维护")) in
    let* event := recv 1 in
    fun w => (asserts [match event with Some (EvClosed _ reason) => same reason (lit "服务器维护") | _ => false end;
                       handle_is_closed w 9], w)).

Definition full_room_rejects_join_with_conflict : bool :=
  with_actor 1 (
    let* _ := join_actor 11 1 in
    let* _ := hang_up 1 in
    let* outcome := send (Join 12 (lit "late") 2) in
    io_ret (match outcome with
            | Some (JoinReply (Err e)) => same e (Conflict (lit "房间已满"))
            | _ => false
            end)).

Definition repeat_join_is_idempotent_without_duplicate_event : bool :=
  with_actor 4 (
    let* _ := join_actor 11 1 in
    let* _ := recv 1 in
    let* again := send (Join 11 (lit "n") 2) in
    let* later := recv 1 in
    io_ret (asserts [accepted again; nothing later])).

End ActorTests.

(* ------------------------------------------------------------------ *)
(** ** [room/service.rs] *)
Module ServiceTests.
Import ActorTests.

(** A service with rooms of [max] players, and receivers of 64 events. *)
Definition with_service (max : Z) (test : RoomServiceConfig -> io TestRooms bool) : bool :=
  fst (test (mkServiceConfig 16 max) (rooms_with 64)).
Definition join_room (config : RoomServiceConfig) (room : option RoomId) (new_id : RoomId) (p : PlayerId)
    (nickname : rstr) (k : Z) : io TestRooms (result RoomId AppError) :=
  join_or_create config room new_id p nickname k now now.
Definition rooms_open : io TestRooms nat := fun w => (active_rooms w, w).
Definition run_room (r : RoomId) : io TestRooms unit := let* _ := actor_turn r in io_ret tt.

Definition configured_capacity_allows_city_scale_rooms : bool :=
  with_service 8192 (fun config =>
    let* _ := hang_up 1 in
    let* r1 := join_room config None 9 11 (lit "城主") 1 in
    let* r2 := join_room config (Some 9) 10 12 (lit "居民") 2 in
    let* event := recv 2 in
    io_ret (asserts [is_ok r1; is_ok r2; match event with Some (MemberJoined _ _ _) => true | _ => false end])).

Definition create_and_join_returns_new_room : bool :=
  with_service 4 (fun config =>
    let* r := join_room config None 9 11 (lit "p") 1 in
    let* n := rooms_open in
    io_ret (asserts [same r (Ok 9); same n 1%nat; negb (same r (Ok 0))])).

Definition join_existing_room_and_chat : bool :=
  with_service 4 (fun config =>
    let* _ := join_room config None 9 11 (lit "c") 1 in
    let* _ := hang_up 1 in
    let* r := join_room config (Some 9) 10 12 (lit "j") 2 in
    let* event := recv 2 in
    let* said := chat 9 12 (lit " 一起打排位 ") in
    let* _ := run_room 9 in
    let* heard := recv 2 in
    io_ret (asserts [is_ok r; joined 12 event; is_ok said;
                     match heard with Some (EvChat _ _ _ text) => same text (lit "一起打排位") | _ => false end])).

Definition chat_validates_input : bool :=
  with_service 4 (fun config =>
    let* _ := join_room config None 9 11 (lit "c") 1 in
    let* _ := hang_up 1 in
    let* blank := chat 9 11 (lit "   ") in
    let* long := chat 9 11 (repeated (MAX_CHAT_CHARS + 1) (lit "字")) in
    let* outsider := chat 9 12 (lit "hi") in
    io_ret (asserts [is_validation blank; is_validation long; is_ok outsider])).

Definition chat_to_missing_room_is_not_found : bool :=
  with_service 4 (fun _ => let* r := chat 99 11 (lit "hi") in io_ret (is_not_found r)).

Definition leave_all_and_close_all_shut_down : bool :=
  with_service 4 (fun config =>
    let* _ := join_room config None 9 11 (lit "c") 1 in
    let* left := leave_all 12 (lit "disconnect") now in
    let* closed := close_all (lit "维护停机") in
    let* _ := run_room 9 in
    let* e1 := recv 1 in
    let* e2 := recv 1 in
    let* n := rooms_open in
    let is_closed e := match e with Some (EvClosed _ reason) => same reason (lit "维护停机") | _ => false end in
    io_ret (asserts [is_ok left; is_ok closed; is_closed e1 || is_closed e2; same n 0%nat])).

Definition join_full_room_reports_conflict : bool :=
  with_service 1 (fun config =>
    let* _ := join_room config None 9 11 (lit "c") 1 in
    let* _ := hang_up 1 in
    let* r := join_room config (Some 9) 10 12 (lit "late") 2 in
    io_ret (is_conflict r)).

End ServiceTests.

(* ------------------------------------------------------------------ *)

Definition application_tests : list bool :=
  [RegisterTests.registers_account_and_player; RegisterTests.audit_records_normalized_username_and_player;
   RegisterTests.audit_failure_does_not_fail_registration; RegisterTests.rejects_duplicate_username;
   RegisterTests.validates_input_before_any_persistence; RegisterTests.hasher_failure_aborts_registration;
   RegisterTests.storage_failure_does_not_write_or_audit_a_partial_registration;
   LoginTests.login_issues_token_and_records_login; LoginTests.wrong_password_is_generic_unauthorized;
   LoginTests.unknown_user_is_generic_unauthorized; LoginTests.banned_account_is_forbidden;
   LoginTests.replacement_failure_aborts_login; LoginTests.invalid_username_shape_is_validation_error;
   PlayerUseCaseTests.adds_exp_without_level_up; PlayerUseCaseTests.level_up_publishes_domain_event;
   PlayerUseCaseTests.zero_exp_is_validation_error; PlayerUseCaseTests.unknown_player_is_not_found;
   PlayerUseCaseTests.publication_observes_committed_state_and_failure_is_post_commit;
   PlayerUseCaseTests.returns_profile_for_existing_player; PlayerUseCaseTests.missing_player_is_not_found;
   PlayerUseCaseTests.maps_domain_and_repo_errors;
   ActorTests.failure_is_sticky_after_queue_recovers; ActorTests.join_broadcasts_member_joined_to_all;
   ActorTests.chat_reaches_members_but_not_outsiders; ActorTests.leave_notifies_and_last_member_closes_room;
   ActorTests.close_command_broadcasts_closed_event; ActorTests.full_room_rejects_join_with_conflict;
   ActorTests.repeat_join_is_idempotent_without_duplicate_event;
   ServiceTests.configured_capacity_allows_city_scale_rooms; ServiceTests.create_and_join_returns_new_room;
   ServiceTests.join_existing_room_and_chat; ServiceTests.chat_validates_input;
   ServiceTests.chat_to_missing_room_is_not_found; ServiceTests.leave_all_and_close_all_shut_down;
   ServiceTests.join_full_room_reports_conflict].

(** The unit tests of [application] pass on the models. *)
Theorem application_tests_pass : asserts application_tests = true.
Proof. vm_compute. reflexivity. Qed.
