(* ===== verification/TestsInfrastructure.v ===== *)
(** The unit tests of the stores, the row conversion, the event bus, the password hasher and
    the configuration ([infrastructure/src]), run on the models; one definition for each
    test function, as in [TestsDomain].

    What is not in the repository is the instance its file gives: PostgreSQL's types are
    the rows themselves, the bus is that of [Events], a password hash is the salt and the
    password.  The tests that look into argon2's output or reach for the network have no
    definition. *)
From S2P Require Import Prelude Text Tokio Values Account Player Room Session App MemRepos TokenStore.
From S2P Require Import RedisTokens RoomActor RoomService SqlRepos Password Events Config TestsDomain.
From S2P Require Import TestsApplication.
From Stdlib Require Import Strings.String.
Open Scope string_scope.
Open Scope Z_scope.
Open Scope list_scope.

(* ------------------------------------------------------------------ *)
(** ** [cache/memory_token_store.rs], [cache/redis_token_store.rs] *)
Module TokenTests.

(** 32 random bytes *)
Definition bytes_of (n : nat) : list Z := repeat (Z.of_nat n) 32.

Definition create_resolve_revoke_roundtrip : bool :=
  fst ((let* token := MemTokens.create now (bytes_of 1) 20 (seconds 60) in
        match token with
        | Err _ => io_ret false
        | Ok token =>
            let* found := MemTokens.resolve now token in
            let* count := MemTokens.live_tokens now in
            let* _ := MemTokens.revoke_player 20 in
            let* gone := MemTokens.resolve now token in
            let* none := MemTokens.live_tokens now in
            io_ret (asserts [same found (Ok (Some 20)); same count 1%nat; same gone (Ok None); same none 0%nat])
        end) MemTokens.new).

Definition expired_token_resolves_to_none : bool :=
  let later := now + 5_000_000 in
  fst ((let* token := MemTokens.create now (bytes_of 1) 20 0 in
        match token with
        | Err _ => io_ret false
        | Ok token =>
            let* found := MemTokens.resolve later token in
            let* count := MemTokens.live_tokens later in
            io_ret (asserts [same found (Ok None); same count 0%nat])
        end) MemTokens.new).

Definition unknown_token_is_none : bool :=
  same (fst (MemTokens.resolve now (lit "missing") MemTokens.new)) (Ok None).

Definition tokens_are_unique_per_create : bool :=
  let '(first, s) := MemTokens.create now (bytes_of 1) 20 (seconds 60) MemTokens.new in
  let '(second, _) := MemTokens.create now (bytes_of 2) 20 (seconds 60) s in
  asserts [is_ok first; is_ok second; negb (same first second);
           match first with Ok token => same (Datatypes.length token) 64%nat | Err _ => false end].

Definition keys_are_prefixed_and_scoped : bool :=
  asserts [same (RedisTokens.token_key (lit "abc")) (lit "token:abc");
           match strip_prefix (lit "ptokens:") (RedisTokens.player_index_key (HU := hex_uuid) 20) with
           | Some _ => true
           | None => false
           end].

End TokenTests.

(* ------------------------------------------------------------------ *)
(** ** [persistence/repositories/memory_repos.rs] and [room_repo.rs] *)
Module RepositoryTests.

Definition present {A} (r : result (option A) RepoError) : bool := match r with Ok (Some _) => true | _ => false end.
Definition absent {A} (r : result (option A) RepoError) : bool := match r with Ok None => true | _ => false end.

Definition account_and_player_roundtrip : bool :=
  match Username.try_new (lit "dave") with
  | Err _ => false
  | Ok name =>
      fst ((let* _ := Memory.save_account (Account.register 10 name (PasswordHash.new (lit "hash")) now) in
            let* dave := Memory.find_by_username (lit "dave") in
            let* nobody := Memory.find_by_username (lit "nobody") in
            let* by_id := Memory.find_account_by_id 10 in
            let* player := Memory.seed 11 20 now (lit "勇者戴夫") in
            match player with
            | None => io_ret false
            | Some player =>
                let* p1 := Memory.find_player_by_id (pl_id player) in
                let* p2 := Memory.find_by_account (pl_account_id player) in
                io_ret (asserts [present dave; absent nobody; present by_id; present p1; present p2])
            end) Memory.empty_store)
  end.

Definition save_find_delete_roundtrip : bool :=
  let '(_, repo) := RoomRepo.save (Room.open 9 4 now) RoomRepo.new in
  let '(found, _) := RoomRepo.find_by_id 9 repo in
  let '(_, after) := RoomRepo.delete 9 repo in
  asserts [same (RoomRepo.len repo) 1%nat;
           match found with Ok (Some room) => same (rm_id room) 9 | _ => false end;
           absent (fst (RoomRepo.find_by_id 9 after))].

Definition missing_room_is_none : bool := absent (fst (RoomRepo.find_by_id 9 RoomRepo.new)).

End RepositoryTests.

(* ------------------------------------------------------------------ *)
(** ** [persistence/converters.rs] *)
Module ConverterTests.

#[local] Existing Instance hex_uuid.

Definition account : Account :=
  Account.register 10 (match Username.try_new (lit "carol") with Ok n => n | Err _ => Username.mk [] end)
    (PasswordHash.new (lit "$argon2id$hash")) now.

Definition test_account_model : account_row := mkAccountRow 10 (lit "carol") (lit "hash") 0 None None now.
Definition test_player_model : player_row := mkPlayerRow 20 10 (lit "铁头娃") 1 0 None now.

Definition account_roundtrip_preserves_fields : bool :=
  let active := account_to_active account in
  let model := mkAccountRow (ar_id active) (ar_username active) (ar_password_hash active) (ar_status active)
                 None None (ar_created_at active) in
  match account_to_domain model with
  | Ok restored =>
      asserts [same (acc_id restored) (acc_id account);
               same (Username.as_str (acc_username restored)) (lit "carol");
               same (PasswordHash.expose (acc_password_hash restored)) (lit "$argon2id$hash");
               same (acc_status restored) Active; same (acc_created_at restored) (acc_created_at account)]
  | Err _ => false
  end.

Definition banned_status_roundtrip_with_reason_and_until : bool :=
  let until := now + hours 72 in
  let active := account_to_active (ban account (lit "恶意刷屏") (Some until)) in
  let m := test_account_model in
  let model := mkAccountRow (ar_id m) (ar_username m) (ar_password_hash m) 2
                 (ar_banned_reason active) (ar_banned_until active) (ar_created_at m) in
  asserts [same (ar_status active) 2; same (ar_banned_reason active) (Some (lit "恶意刷屏"));
           match account_to_domain model with
           | Ok restored => same (acc_status restored) (Banned (lit "恶意刷屏") (Some until))
           | Err _ => false
           end].

Definition unknown_status_code_is_storage_error : bool :=
  match status_from_code 9 with Err (RStorage _) => true | _ => false end.

Definition player_roundtrip_preserves_fields : bool :=
  match Nickname.try_new (lit "铁头娃") with
  | Err _ => false
  | Ok nickname =>
      let player := record_login (fst (gain_exp (Player.create 20 10 nickname now) 250)) now in
      match player_to_domain (player_to_active player) with
      | Ok restored =>
          asserts [same (pl_id restored) (pl_id player); same (pl_level restored) (pl_level player);
                   same (pl_exp restored) (pl_exp player);
                   same (Nickname.as_str (pl_nickname restored)) (lit "铁头娃");
                   same (pl_last_login_at restored) (pl_last_login_at player)]
      | Err _ => false
      end
  end.

Definition player_clamps_negative_columns : bool :=
  let m := test_player_model in
  match player_to_domain (mkPlayerRow (pr_id m) (pr_account_id m) (pr_nickname m) (-5) (-100)
                            (pr_last_login_at m) (pr_created_at m)) with
  | Ok restored => asserts [same (pl_level restored) 0; same (pl_exp restored) 0]
  | Err _ => false
  end.

End ConverterTests.

(* ------------------------------------------------------------------ *)
(** ** [events.rs] *)
Module EventTests.
Import EventsDemo.

#[local] Existing Instance demo_broadcast.

Definition Publisher : Type := InMemoryEventPublisher (B := bus).
Definition leveled_up (level : Z) : DomainEvent := PlayerLeveledUp 20 level now.
Definition rx_recv (r : nat) : io Publisher (option (received DomainEvent)) := fun p =>
  let '(o, tx) := bc_try_recv r (ep_tx p) in (o, mkPublisher tx (ep_published p)).
Definition level_of (o : option (received DomainEvent)) : option Z :=
  match o with Some (Value (PlayerLeveledUp _ level _)) => Some level | _ => None end.

Definition subscribers_receive_events_in_order : bool :=
  fst ((let* rx := subscribe in
        let* _ := bus_publish (leveled_up 2) in
        let* _ := bus_publish (leveled_up 3) in
        let* first := rx_recv rx in
        let* second := rx_recv rx in
        fun p => (asserts [same (level_of first) (Some 2); same (level_of second) (Some 3);
                           same (subscriber_count p) 1%nat], p)) (publisher_new 16 : Publisher)).

Definition publish_without_subscribers_is_ok : bool :=
  is_ok (fst (bus_publish (DRoomClosed 9 (lit "停机") now) (publisher_new 4 : Publisher))).

(** Of four events a queue of two keeps the last two, after saying that it lagged. *)
Definition capacity_bounds_backlog : bool :=
  fst ((let* rx := subscribe in
        let* _ := bus_publish (leveled_up 1) in
        let* _ := bus_publish (leveled_up 2) in
        let* _ := bus_publish (leveled_up 3) in
        let* _ := bus_publish (leveled_up 4) in
        let* lagged := rx_recv rx in
        let* _ := rx_recv rx in
        let* last := rx_recv rx in
        let* none := rx_recv rx in
        io_ret (asserts [match lagged with Some (Lagged _) => true | _ => false end;
                         same (level_of last) (Some 4); match none with None => true | Some _ => false end]))
       (publisher_new 2 : Publisher)).

End EventTests.

(* ------------------------------------------------------------------ *)
(** ** [password.rs] *)
Module PasswordTests.

#[local] Existing Instance plain_argon2.

Definition hasher_of (memory iterations parallelism : Z) (concurrency : nat) : result (Hasher (Sem := nat)) AppError :=
  hasher_new memory iterations parallelism concurrency [1; 2; 3] [].
Definition with_hasher (test : io (Hasher (Sem := nat)) bool) : bool :=
  match hasher_of 8192 2 1 2 with Ok h => fst (test h) | Err _ => false end.

Definition rejects_invalid_params : bool :=
  asserts [is_err (hasher_of 1 0 0 2); is_err (hasher_of 8192 2 1 0)].

Definition verify_accepts_correct_and_rejects_wrong_password : bool :=
  with_hasher (
    let* hash := argon2_hash (lit "super-secret") in
    match hash with
    | Err _ => io_ret false
    | Ok hash =>
        let* correct := argon2_verify (lit "super-secret") hash in
        let* wrong := argon2_verify (lit "wrong-password") hash in
        io_ret (asserts [same correct (Ok true); same wrong (Ok false)])
    end).

Definition verify_across_instances_uses_embedded_params : bool :=
  match hasher_of 8192 2 1 2, hasher_of 16384 3 2 2 with
  | Ok legacy, Ok stricter =>
      match fst (argon2_hash (lit "super-secret") legacy) with
      | Ok hash => same (fst (argon2_verify (lit "super-secret") hash stricter)) (Ok true)
      | Err _ => false
      end
  | _, _ => false
  end.

Definition cancelled_request_keeps_worker_permit_until_completion : bool :=
  let '(started, j) := job_request 1 (mkJobs (sem_new (S := nat) 1) [] []) in
  let cancelled := mkJobs (jb_permits j) (jb_running j) [] in
  let ended := mkJobs (sem_release (jb_permits cancelled)) [] [] in
  asserts [same started (Ok tt); same (fst (job_request 2 j)) (Err Busy);
           same (fst (job_request 2 cancelled)) (Err Busy); same (fst (job_request 2 ended)) (Ok tt)].

Definition worker_error_and_panic_release_capacity : bool :=
  match hasher_new (Sem := nat) 8192 2 1 1 [1] [false; true; false] with
  | Err _ => false
  | Ok h =>
      fst ((let* failure := run_work (fun h => (Err (Internal (lit "test failure")) : result unit AppError, ph_salts h)) in
            let* panic := run_work (fun h => (Ok tt, ph_salts h)) in
            let* hash := argon2_hash (lit "pw") in
            io_ret (asserts [same failure (Err (Internal (lit "test failure"))); is_internal panic; is_ok hash])) h)
  end.

End PasswordTests.

(* ------------------------------------------------------------------ *)
(** ** [config.rs] *)
Module ConfigTests.

(** [Config::from_lookup] over a map of variables. *)
Definition config_with (entries : list (string * rstr)) : ConfigResult Config :=
  from_lookup quote (fun name => snd <$> (find (fun e => (fst e =? name)%string) entries)).
Definition read (entries : list (string * rstr)) (check : Config -> bool) : bool :=
  match config_with entries with Ok config => check config | Err _ => false end.
Definition parse_error (name : string) (r : ConfigResult Config) : bool :=
  match r with Err (Parse n _) => (n =? name)%string | _ => false end.
Definition invalid {A} (name : string) (r : ConfigResult A) : bool :=
  match r with Err (Invalid n _) => (n =? name)%string | _ => false end.
(** [str::contains] *)
Fixpoint contains (needle text : rstr) : bool :=
  match strip_prefix needle text with
  | Some _ => true
  | None => match text with [] => false | _ :: text => contains needle text end
  end.

Definition defaults_match_prd_table : bool :=
  read [] (fun config =>
    let n := network config in let a := app config in
    asserts [same (nc_write_drain_timeout_ms n) 1000; same (nc_tcp_bind_addr n) (lit "0.0.0.0:8080");
      same (nc_http_bind_addr n) (lit "0.0.0.0:8081"); same (nc_http_redirect_addr n) None;
      same (nc_wss_bind_addr n) (lit "0.0.0.0:8082"); same (nc_max_connections n) 10_000;
      same (nc_backlog n) 1024; same (nc_accept_concurrency n) 256; same (nc_read_buffer_size n) 16_384;
      same (nc_write_buffer_size n) 16_384; same (nc_channel_per_conn n) 256; same (nc_channel_per_room n) 512;
      same (nc_max_frame_size n) 65_536; same (nc_heartbeat_interval_secs n) 20;
      same (nc_heartbeat_timeout_secs n) 60; same (nc_unauth_timeout_secs n) 10; same (nc_unauth_max_per_ip n) 5;
      nc_tcp_nodelay n; same (nc_tcp_keepalive_secs n) 30;
      rc_enabled (rate_limit config); same (rc_per_conn (rate_limit config)) 100; same (rc_burst (rate_limit config)) 10;
      same (tc_cert_path (tls config)) (lit "./certs/server.crt");
      same (tc_key_path (tls config)) (lit "./certs/server.key"); same (tc_ca_path (tls config)) None;
      same (tc_min_version (tls config)) (lit "TLSv1.3");
      same (dc_max_connections (database config)) 30; same (dc_min_connections (database config)) 5;
      same (dc_connect_timeout_secs (database config)) 5; same (dc_idle_timeout_secs (database config)) 300;
      same (dc_sqlx_log_level (database config)) (lit "warn");
      same (rdc_url (redis config)) (lit "redis://127.0.0.1:6379"); same (rdc_pool_max_size (redis config)) 10;
      same (rdc_default_ttl_secs (redis config)) 604_800; same (rdc_connect_timeout_secs (redis config)) 2;
      same (lc_level (log config)) (lit "info"); same (lc_format (log config)) (lit "json");
      negb (lc_otel_enabled (log config)); same (lc_metrics_port (log config)) 9090;
      same (ac_session_token_ttl_secs a) 604_800; same (ac_password_max_concurrency a) 2;
      same (password_params a) (19_456, 3, 4); same (session_token_ttl a) (from_secs 604_800);
      same (ac_max_players_per_room a) 64; same (ac_shutdown_timeout_secs a) 30;
      is_database_url_placeholder config; is_ok (validate config)]).

Definition password_concurrency_is_configurable_and_positive : bool :=
  asserts [read [("APP_PASSWORD_MAX_CONCURRENCY", lit "3")] (fun config =>
             asserts [same (ac_password_max_concurrency (app config)) 3; is_ok (validate config)]);
           read [("APP_PASSWORD_MAX_CONCURRENCY", lit "0")] (fun config =>
             invalid "APP_PASSWORD_MAX_CONCURRENCY" (validate config))].

Definition overrides_apply_and_blank_optional_becomes_none : bool :=
  read [("SERVER_TCP_BIND_ADDR", lit "127.0.0.1:9000"); ("SERVER_HTTP_REDIRECT_ADDR", lit "0.0.0.0:80");
        ("SERVER_MAX_FRAME_SIZE", lit "4096"); ("SERVER_WRITE_DRAIN_TIMEOUT_MS", lit "25");
        ("SERVER_MAX_CONNECTIONS", lit "500"); ("SERVER_ACCEPT_CONCURRENCY", lit "32");
        ("SERVER_TCP_NODELAY", lit "false"); ("SERVER_RATE_LIMIT_ENABLED", lit "off");
        ("APP_MAX_PLAYERS_PER_ROOM", lit "4"); ("APP_MAX_ROOM_CEILING", lit "8192");
        ("TLS_CA_PATH", lit "   "); ("DATABASE_URL", lit "postgres://real:pw@db:5432/game")] (fun config =>
    let n := network config in
    asserts [same (nc_tcp_bind_addr n) (lit "127.0.0.1:9000");
             same (nc_http_redirect_addr n) (Some (lit "0.0.0.0:80")); same (nc_max_frame_size n) 4096;
             same (nc_write_drain_timeout_ms n) 25; same (nc_max_connections n) 500;
             same (nc_accept_concurrency n) 32; negb (nc_tcp_nodelay n); negb (rc_enabled (rate_limit config));
             same (ac_max_players_per_room (app config)) 4; same (tc_ca_path (tls config)) None;
             negb (is_database_url_placeholder config)]).

Definition parse_failures_are_reported_without_panic : bool :=
  asserts [match config_with [("SERVER_MAX_CONNECTIONS", lit "many")] with
           | Err e => contains (lit "SERVER_MAX_CONNECTIONS") (ConfigError_to_string e)
           | Ok _ => false
           end;
           parse_error "SERVER_MAX_CONNECTIONS" (config_with [("SERVER_MAX_CONNECTIONS", lit "many")]);
           parse_error "METRICS_PORT" (config_with [("METRICS_PORT", lit "70000")]);
           parse_error "SERVER_TCP_NODELAY" (config_with [("SERVER_TCP_NODELAY", lit "maybe")]);
           parse_error "APP_PASSWORD_MEMORY_KB" (config_with [("APP_PASSWORD_MEMORY_KB", lit "-1")])].

Definition tls_downgrade_is_rejected : bool :=
  invalid "TLS_MIN_VERSION" (config_with [("TLS_MIN_VERSION", lit "TLSv1.2")]).

Definition validate_rejects_bad_heartbeat_and_unbounded_queue : bool :=
  asserts [read [("SERVER_HEARTBEAT_TIMEOUT_SECS", lit "25"); ("SERVER_HEARTBEAT_INTERVAL_SECS", lit "20")]
             (fun config => invalid "SERVER_HEARTBEAT_TIMEOUT_SECS" (validate config));
           read [("SERVER_HEARTBEAT_TIMEOUT_SECS", lit "60"); ("SERVER_CHANNEL_PER_CONN_SIZE", lit "0")]
             (fun config => invalid "SERVER_CHANNEL_PER_CONN_SIZE" (validate config))].

Definition room_queue_capacity_is_validated_before_serving : bool :=
  asserts [read [("SERVER_CHANNEL_PER_ROOM_SIZE", lit "0")] (fun config =>
             invalid "SERVER_CHANNEL_PER_ROOM_SIZE" (validate config));
           read [("SERVER_CHANNEL_PER_ROOM_SIZE", lit "1")] (fun config => is_ok (validate config));
           read [("SERVER_CHANNEL_PER_ROOM_SIZE", lit "512")] (fun config => is_ok (validate config))].

(** The rooms publish to the log of events here. *)
Definition positive_room_queue_capacity_can_create_rooms : bool :=
  forallb (fun capacity =>
    read [("SERVER_CHANNEL_PER_ROOM_SIZE", capacity)] (fun config =>
      let rooms_config := mkServiceConfig (Z.to_nat (nc_channel_per_room (network config)))
                            (ac_max_players_per_room (app config)) in
      is_ok (validate config) &&
      fst ((let* joined := ServiceTests.join_room rooms_config None 9 11 (lit "Alice") 1 in
            let* closed := close_all (lit "test complete") in
            io_ret (asserts [is_ok joined; is_ok closed])) (ActorTests.rooms_with 8))))
    [lit "1"; lit "512"].

Definition display_hides_sensitive_values : bool :=
  read [] (fun config =>
    asserts [negb (contains (lit "postgres://") (Config_to_string config));
             contains (lit "tcp: 0.0.0.0:8080") (Config_to_string config)]).

Definition boolean_values_are_flexible : bool :=
  asserts [forallb (fun value => read [("SERVER_TCP_NODELAY", value)] (fun config => nc_tcp_nodelay (network config)))
             [lit "1"; lit "true"; lit "YES"; lit "on"];
           forallb (fun value => read [("SERVER_TCP_NODELAY", value)] (fun config => negb (nc_tcp_nodelay (network config))))
             [lit "0"; lit "false"; lit "No"; lit "off"]].

End ConfigTests.

(* ------------------------------------------------------------------ *)

Definition infrastructure_tests : list bool :=
  [TokenTests.create_resolve_revoke_roundtrip; TokenTests.expired_token_resolves_to_none;
   TokenTests.unknown_token_is_none; TokenTests.tokens_are_unique_per_create; TokenTests.keys_are_prefixed_and_scoped;
   RepositoryTests.account_and_player_roundtrip; RepositoryTests.save_find_delete_roundtrip;
   RepositoryTests.missing_room_is_none;
   ConverterTests.account_roundtrip_preserves_fields; ConverterTests.banned_status_roundtrip_with_reason_and_until;
   ConverterTests.unknown_status_code_is_storage_error; ConverterTests.player_roundtrip_preserves_fields;
   ConverterTests.player_clamps_negative_columns;
   EventTests.subscribers_receive_events_in_order; EventTests.publish_without_subscribers_is_ok;
   EventTests.capacity_bounds_backlog;
   PasswordTests.rejects_invalid_params; PasswordTests.verify_accepts_correct_and_rejects_wrong_password;
   PasswordTests.verify_across_instances_uses_embedded_params;
   PasswordTests.cancelled_request_keeps_worker_permit_until_completion;
   PasswordTests.worker_error_and_panic_release_capacity;
   ConfigTests.defaults_match_prd_table; ConfigTests.password_concurrency_is_configurable_and_positive;
   ConfigTests.overrides_apply_and_blank_optional_becomes_none;
   ConfigTests.parse_failures_are_reported_without_panic; ConfigTests.tls_downgrade_is_rejected;
   ConfigTests.validate_rejects_bad_heartbeat_and_unbounded_queue;
   ConfigTests.room_queue_capacity_is_validated_before_serving;
   ConfigTests.positive_room_queue_capacity_can_create_rooms; ConfigTests.display_hides_sensitive_values;
   ConfigTests.boolean_values_are_flexible].

(** The unit tests of [infrastructure] pass on the models. *)
Theorem infrastructure_tests_pass : asserts infrastructure_tests = true.
Proof. vm_compute. reflexivity. Qed.
