(* ===== verification/TestsNet.v ===== *)
(** The unit tests of framing, backpressure, connections and the protocol
    ([net-kit/src], [protocol/src]), run on the models as in [TestsDomain].

    A duplex pipe is a list of bytes written and a stream that ends after the bytes to be
    read; prost is the instance of [Protocol].  The sockets of the listener's tests are accepted
    sockets; the tests of certificates or of prost's own bytes have no definition. *)
From S2P Require Import Prelude Text Tokio Values Frame Connection Protocol Listener TestsDomain.
From Stdlib Require Import Strings.String.
Open Scope string_scope.
Open Scope Z_scope.
Open Scope list_scope.

Definition is_malformed {A} (r : result A NetError) : bool := match r with Err (Malformed _) => true | _ => false end.
Definition is_too_large {A} (r : result A NetError) : bool := match r with Err (FrameTooLarge _ _) => true | _ => false end.
Definition is_closed_error {A} (r : result A NetError) : bool := match r with Err Frame.Closed => true | _ => false end.
Definition stream (bytes : list Z) : byte_stream := mkStream bytes None.

(* ------------------------------------------------------------------ *)
(** ** [codec.rs] *)
Module CodecTests.

Definition MAX : Z := 64.
(** [u32::to_be_bytes] *)
Definition be32 (n : Z) : list Z := to_be 4 n.

Definition encode_prefix_is_big_endian_total_len : bool :=
  match encode_frame (frame_new 0x0102 (lit "hi")) MAX with
  | Ok bytes => asserts [same (take 4 bytes) (be32 4); same (take 2 (drop 4 bytes)) [1; 2]; same (drop 6 bytes) (lit "hi")]
  | Err _ => false
  end.

Definition encode_rejects_oversize_and_allows_empty_body : bool :=
  asserts [match encode_frame (frame_new 1 (repeat 0 64)) MAX with
           | Err (FrameTooLarge declared max) => same declared (MAX + 2) && same max MAX
           | _ => false
           end;
           is_ok (encode_frame (frame_new 1 []) MAX)].

Definition decode_wire_len_validates_bounds : bool :=
  asserts [same (decode_wire_len (be32 MIN_FRAME_LEN) MAX) (Ok MIN_FRAME_LEN);
           is_malformed (decode_wire_len (be32 1) MAX); is_too_large (decode_wire_len (be32 (MAX + 1)) MAX)].

Definition read_write_roundtrip : bool :=
  let sent := frame_new 0x00ff (lit "payload") in
  match write_frame sent MAX [] with
  | (Ok _, wire) => same (fst (read_frame MAX (stream wire))) (Ok (Some sent))
  | _ => false
  end.

Definition read_frame_returns_none_on_clean_eof : bool := same (fst (read_frame MAX (stream []))) (Ok None).
Definition read_frame_rejects_oversized_declaration : bool :=
  is_too_large (fst (read_frame MAX (stream (be32 (MAX + 1))))).
Definition read_frame_rejects_malformed_short_frame : bool := is_malformed (fst (read_frame MAX (stream (be32 1)))).

End CodecTests.

(* ------------------------------------------------------------------ *)
(** ** [backpressure.rs] and [error.rs] *)
Module BackpressureTests.

Definition frame (n : Z) : Frame := frame_new n [n].
Definition Sender : Type := OutboundSender queue.
Definition sender (capacity : nat) : Sender := outbound_new (chan capacity).
(** [rx.recv()] and the drop of [rx] *)
Definition recv : io Sender (option Frame) := fun o =>
  match pop (ob_tx o) with
  | Some (f, tx) => (Some f, mkOutbound tx (ob_disconnected o))
  | None => (None, o)
  end.
Definition drop_receiver : io Sender unit := fun o => (tt, mkOutbound (drop_rx (ob_tx o)) (ob_disconnected o)).
Definition closed : io Sender bool := fun o => (ob_is_closed o, o).

Definition bounded_queue_reports_full_then_closed : bool :=
  fst ((let* r1 := try_send_frame (frame 1) in
        let* r2 := try_send_frame (frame 2) in
        let* r3 := try_send_frame (frame 3) in
        let* _ := recv in
        let* c1 := closed in
        let* r4 := try_send_frame (frame 4) in
        let* _ := drop_receiver in
        let* r5 := try_send_frame (frame 4) in
        let* c2 := closed in
        io_ret (asserts [is_ok r1; is_ok r2; same r3 (Err QueueFull); c1; is_closed_error r4; is_closed_error r5; c2]))
       (sender 2)).

(** The second send waits for room: its future is pending, and ready after a receipt. *)
Definition send_frame_waits_for_capacity_and_fails_when_closed : bool :=
  fst ((let* r1 := send_frame_poll (frame 1) in
        let* pending := send_frame_poll (frame 2) in
        let* got := recv in
        let* ready := send_frame_poll (frame 2) in
        let* _ := drop_receiver in
        let* r3 := send_frame_poll (frame 3) in
        io_ret (asserts [same r1 (Some (Ok tt)); same pending None; same got (Some (frame 1));
                         same ready (Some (Ok tt));
                         match r3 with Some r => is_closed_error r | None => false end]))
       (sender 1)).

Definition capacity_reflects_bound : bool := same (capacity (sender 7)) 7%nat.

Definition disconnect_detection : bool :=
  asserts [is_disconnect (Io (mkIoError UnexpectedEof (lit "eof"))); is_disconnect Frame.Closed;
           negb (is_disconnect QueueFull);
           same (NetError_to_string (FrameTooLarge 10 4)) (lit "帧超限: 声明 10 字节,上限 4 字节")].

End BackpressureTests.

(* ------------------------------------------------------------------ *)
(** ** [connection.rs] *)
Module ConnectionTests.
Import BackpressureTests.

Definition max_frame_size : Z := 1024.
Definition connection : conn queue (list Z) := split_connection 4 [].
(** The writer works off what the sender was given; the bytes the peer gets. *)
Definition written_after (send : io Sender (result unit NetError)) : result unit NetError * (writer_status * list Z) :=
  let '(r, out) := send (c_out connection) in
  let '(st, (_, wire)) := write_task 8 max_frame_size (ob_tx out, c_sink connection) in
  (r, (st, wire)).

Definition frames_flow_from_sender_to_reader : bool :=
  let hello := frame_new 0x0001 (lit "hello") in
  let ack := frame_new 0x8002 (lit "ack") in
  let '(r, (_, wire)) := written_after (try_send_frame hello) in
  asserts [is_ok r; same (fst (read_frame max_frame_size (stream wire))) (Ok (Some hello));
           match write_frame ack max_frame_size [] with
           | (Ok _, back) => same (fst (read_frame max_frame_size (stream back))) (Ok (Some ack))
           | _ => false
           end].

Definition dropping_sender_flushes_queued_frame_for_reading_peer : bool :=
  let '(r, (_, wire)) := written_after (try_send_frame (frame_new 1 (repeat 7 128))) in
  asserts [is_ok r; match fst (read_frame 1024 (stream wire)) with
                    | Ok (Some frame) => same (payload frame) (repeat 7 128)
                    | _ => false
                    end].

Definition oversized_frame_is_skipped_not_fatal : bool :=
  let '(r, (st, wire)) := written_after (try_send_frame (frame_new 1 (repeat 0 1024))) in
  asserts [is_ok r; match st with WtIdle => true | _ => false end; same wire []].

(** The [select!] drops the writer, with [k] bytes of the frame it may be writing on the wire. *)
Definition cancelled (k : nat) (c : conn queue (list Z)) : option (conn queue (list Z)) :=
  let out := c_out c in
  let out' := mkOutbound (drop_rx (ob_tx out)) (ob_disconnected out) in
  if c_writer c && (ob_disconnected out || negb (c_senders c)) then
    Some (match items (ob_tx out) with
          | [] => mkConn out' (c_sink c) false (c_senders c) (c_accepted c) (c_taken c)
          | f :: _ => mkConn out' (c_sink c ++ take k (wire_bytes max_frame_size f)) false (c_senders c)
                             (c_accepted c) (c_taken c ++ [f])
          end)
  else None.

Lemma cancelled_step k c c' : cancelled k c = Some c' -> conn_step max_frame_size c c'.
Proof.
  destruct c as [out w [] sd acc tk]; unfold cancelled; cbn [c_out c_sink c_writer c_senders c_accepted c_taken andb]; [|done].
  destruct (ob_disconnected out || negb sd) eqn:Ec; [|done]. intros Hx. apply (inj Some) in Hx as <-.
  assert (Hc : ob_disconnected out = true \/ sd = false).
  { apply orb_true_iff in Ec as [?|?]; [by left|right; by destruct sd]. }
  destruct (items (ob_tx out)) as [|f l] eqn:Ei; [by apply step_cancel|].
  by eapply step_cancel_write.
Qed.

(** What a sender does, and the drop of the last one. *)
Definition by_sender (m : io Sender unit) (c : conn queue (list Z)) : conn queue (list Z) :=
  mkConn (snd (m (c_out c))) (c_sink c) (c_writer c) (c_senders c) (c_accepted c) (c_taken c).
Definition send_quietly (f : Frame) : io Sender unit := fun o => (tt, snd (try_send_frame f o)).
Definition drop_sender (c : conn queue (list Z)) : conn queue (list Z) :=
  mkConn (c_out c) (c_sink c) (c_writer c) false (c_accepted c) (c_taken c).
Definition writer_ended (o : option (conn queue (list Z))) : bool :=
  match o with Some c => negb (c_writer c) | None => false end.

Definition dropping_sender_ends_writer_task : bool := writer_ended (cancelled 0 (drop_sender connection)).

(** The pipe takes one byte; nobody reads. *)
Definition explicit_disconnect_cancels_blocked_socket_write : bool :=
  let blocked := by_sender (send_quietly (frame_new 1 (repeat 0 128))) connection in
  let c := cancelled 1 (by_sender disconnect blocked) in
  asserts [negb (writer_ended (cancelled 1 blocked)); writer_ended c;
           match c with Some c => ob_is_closed (c_out c) | None => false end].

Definition writer_stops_after_senders_drop_even_when_peer_does_not_read : bool :=
  let blocked := by_sender (send_quietly (frame_new 1 (repeat 0 128))) (split_connection 1 []) in
  writer_ended (cancelled 1 (drop_sender blocked)).

End ConnectionTests.

(* ------------------------------------------------------------------ *)
(** ** [listener.rs]

    A client that connects is a socket that a worker accepts; the handlers of the tests end
    by themselves. *)
Module ListenerTests.

Abbreviation Listener := (@Listener nat).

(** Worker [i] accepts a socket; whether a handler runs for it. *)
Definition client (i : nat) : io Listener bool := fun l =>
  match ls_workers l !! i with
  | Some w =>
      let '(sem, w') := worker_accept (ls_semaphore l) w in
      ((List.length (wk_handshakes w) <? List.length (wk_handshakes w'))%nat,
       set_worker (mkListener sem (ls_shutdown l) (ls_workers l)) i w')
  | None => (false, l)
  end.
(** The first handler of worker [i] has ended. *)
Definition handler_ends (i : nat) : io Listener unit := fun l =>
  match ls_workers l !! i with
  | Some w =>
      let '(sem, w') := worker_reap 0 (ls_semaphore l) w in
      (tt, set_worker (mkListener sem (ls_shutdown l) (ls_workers l)) i w')
  | None => (tt, l)
  end.
(** The signal reaches the workers, whose handlers have ended: [accept_loop] returns. *)
Definition shutdown_returns (l : Listener) : bool :=
  forallb (fun w => match wk_phase (worker_finish (mkWorker Draining (wk_handshakes w))) with
                    | Exited => true | _ => false end) (ls_workers l).

Fixpoint repeated {A} (m : nat -> io Listener A) (n : nat) : io Listener (list A) :=
  match n with
  | O => io_ret []
  | S n' => let* x := m n' in let* xs := repeated m n' in io_ret (x :: xs)
  end.

Definition serves_connections_until_shutdown : bool :=
  let '((connected, running_handlers), l) :=
    (let* connected := client 0 in
     let* before := (fun l => (running l, l)) in
     let* _ := handler_ends 0 in
     io_ret (connected, before)) (accept_loop_start (Some 8%nat)) in
  asserts [connected; same running_handlers 1%nat; shutdown_returns l].

(** The handler of the first client sleeps while the second one connects. *)
Definition rejects_connections_over_concurrency_limit : bool :=
  fst ((let* first := client 0 in let* second := client 0 in io_ret (asserts [first; negb second]))
       (accept_loop_start (Some 1%nat))).

Definition concurrent_handshake_pipeline_surges : bool :=
  let worker n := (n mod 8)%nat in
  let '((clients, seen), l) :=
    (let* clients := repeated (fun n => client (worker n)) 32 in
     let* seen := (fun l => (running l, l)) in
     let* _ := repeated (fun n => handler_ends (worker n)) 32 in
     io_ret (clients, seen)) (listener_start (mkAcceptConfig 1000000000 (Some 64%nat) 8)) in
  asserts [forallb id clients; same seen 32%nat; shutdown_returns l].

End ListenerTests.

(* ------------------------------------------------------------------ *)
(** ** [messages.rs] and [router.rs] of the protocol *)
Module ProtocolTests.

#[local] Existing Instance simple_prost.

#[global] Instance InboundMessage_eq_dec : EqDecision InboundMessage.
Proof. solve_decision. Defined.

Definition encode_inbound (message : InboundMessage) (opcode : Z) : Frame :=
  frame_new opcode
    match message with
    | Bind msg => encode_to_vec msg
    | Heartbeat msg => encode_to_vec msg
    | JoinRoom msg => encode_to_vec msg
    | LeaveRoom msg => encode_to_vec msg
    | InRoomChat msg => encode_to_vec msg
    | GetProfile _ => []
    | Unknown _ => []
    end.

Definition inbound_roundtrip_covers_all_messages : bool :=
  forallb (fun '(message, opcode) =>
    match codec_decode (Codec := GameCodec) (encode_inbound message opcode) with
    | Ok decoded => same decoded message && same (in_opcode decoded) opcode
    | Err _ => false
    end)
    [(Bind (pb.mkBindRequest (lit "tok")), OP_C2S_BIND);
     (Heartbeat (pb.mkHeartbeatPing 42), OP_C2S_HEARTBEAT);
     (JoinRoom (pb.mkJoinRoomRequest (Some (lit "r"))), OP_C2S_JOIN_ROOM);
     (LeaveRoom (pb.mkLeaveRoomRequest None), OP_C2S_LEAVE_ROOM);
     (InRoomChat (pb.mkRoomChatRequest (lit "你好")), OP_C2S_ROOM_CHAT)].

Definition unknown_opcode_yields_unknown_message : bool :=
  match codec_decode (Codec := GameCodec) (frame_new 0x7FFF []) with
  | Ok decoded => same decoded (Unknown 0x7FFF) && same (in_opcode decoded) 0x7FFF
  | Err _ => false
  end.

Definition outbound_roundtrip_covers_all_messages : bool :=
  forallb (fun message =>
    match encode_outbound message with
    | Ok (opcode, payload) =>
        (0x8001 <=? opcode) && is_ok (codec_decode (Codec := ClientCodec) (frame_new opcode payload))
    | Err _ => false
    end)
    [OBindResult (pb.mkBindResult true None None None); OHeartbeatAck (pb.mkHeartbeatAck 1);
     OProfile (pb.mkProfileResponse true None None (Some 2) None None None);
     ORoomEvent (pb.mkRoomEventNotification (Some (pb.MemberLeft (lit "r") (lit "p"))));
     OError (pb.mkErrorNotification 1 (lit "m")); OShutdown (pb.mkServerShutdownNotice (lit "bye"))].

Definition bind_helpers_carry_fields : bool :=
  asserts [match bind_ok (lit "player-1") (lit "昵称") with
           | OBindResult result =>
               asserts [pb.br_ok result; same (pb.br_player_id result) (Some (lit "player-1"));
                        same (pb.br_nickname result) (Some (lit "昵称"))]
           | _ => false
           end;
           match bind_rejected (lit "token 无效") with
           | OBindResult result => asserts [negb (pb.br_ok result); same (pb.br_error result) (Some (lit "token 无效"))]
           | _ => false
           end].

(** The context counts its calls; an empty payload is the ping of time 0 (proto3). *)
Definition test_router : Router unit nat :=
  route OP_C2S_HEARTBEAT
    (fun _ message => match message with
                      | Heartbeat _ => fun calls => (Ok None, S calls)
                      | _ => io_ret (Err (Handler (lit "assertion failed")))
                      end) router_new.

Definition dispatches_registered_opcode : bool :=
  let '(r, calls) := dispatch test_router tt (Heartbeat (pb.mkHeartbeatPing 0)) 0%nat in
  asserts [is_ok r; same calls 1%nat].

Definition unregistered_opcode_is_rejected : bool :=
  match fst (dispatch test_router tt (Unknown 0x0777) 0%nat) with
  | Err (UnsupportedOpcode op) => same op 0x0777
  | _ => false
  end.

Definition route_metadata_is_exposed : bool :=
  asserts [has_route test_router OP_C2S_HEARTBEAT; negb (has_route test_router 0x0009);
           same (route_count test_router) 1%nat].

End ProtocolTests.

(* ------------------------------------------------------------------ *)

Definition net_tests : list bool :=
  [CodecTests.encode_prefix_is_big_endian_total_len; CodecTests.encode_rejects_oversize_and_allows_empty_body;
   CodecTests.decode_wire_len_validates_bounds; CodecTests.read_write_roundtrip;
   CodecTests.read_frame_returns_none_on_clean_eof; CodecTests.read_frame_rejects_oversized_declaration;
   CodecTests.read_frame_rejects_malformed_short_frame;
   BackpressureTests.bounded_queue_reports_full_then_closed;
   BackpressureTests.send_frame_waits_for_capacity_and_fails_when_closed; BackpressureTests.capacity_reflects_bound;
   BackpressureTests.disconnect_detection;
   ConnectionTests.frames_flow_from_sender_to_reader;
   ConnectionTests.dropping_sender_flushes_queued_frame_for_reading_peer;
   ConnectionTests.oversized_frame_is_skipped_not_fatal; ConnectionTests.dropping_sender_ends_writer_task;
   ConnectionTests.explicit_disconnect_cancels_blocked_socket_write;
   ConnectionTests.writer_stops_after_senders_drop_even_when_peer_does_not_read;
   ListenerTests.serves_connections_until_shutdown; ListenerTests.rejects_connections_over_concurrency_limit;
   ListenerTests.concurrent_handshake_pipeline_surges;
   ProtocolTests.inbound_roundtrip_covers_all_messages; ProtocolTests.unknown_opcode_yields_unknown_message;
   ProtocolTests.outbound_roundtrip_covers_all_messages; ProtocolTests.bind_helpers_carry_fields;
   ProtocolTests.dispatches_registered_opcode; ProtocolTests.unregistered_opcode_is_rejected;
   ProtocolTests.route_metadata_is_exposed].

(** The unit tests of [net-kit] and [protocol] pass on the models. *)
Theorem net_tests_pass : asserts net_tests = true.
Proof. vm_compute. reflexivity. Qed.
