(* ===== verification/TestsGateway.v ===== *)
(** The unit tests of the gateway ([gateway/src]), run on the models as in [TestsDomain].

    The crate [http] parses authorities; the tests' hosts and its answers to them are a
    table here.  prost and the text of identifiers are the instances of [Protocol] and
    [Values]. *)
From S2P Require Import Prelude Text Tokio Values Session App Frame Connection Protocol MemRepos TokenStore UseCases RoomActor RoomService.
From S2P Require Import AuthGate RateLimit Gateway Lifecycle Http TestsDomain.
From Stdlib Require Import Strings.String.
Open Scope string_scope.
Open Scope Z_scope.
Open Scope list_scope.

(* ------------------------------------------------------------------ *)
(** ** [tcp/auth_gate.rs] *)
Module GateTests.

(** Addresses 10.0.0.n *)
Definition ip (n : Z) : IpAddr := 0x0A000000 + n.
Definition count (a : IpAddr) : io AuthGate nat := fun g => (unauth_count g a, g).

Definition enforces_per_ip_limit_and_releases_slots : bool :=
  let a := ip 1 in
  fst ((let* a1 := acquire a in
        let* a2 := acquire a in
        let* a3 := acquire a in
        let* n := count a in
        let* _ := release a in
        let* a4 := acquire a in
        let* _ := release a in
        let* _ := release a in
        let* none := count a in
        let* other := acquire (ip 2) in
        io_ret (asserts [a1; a2; negb a3; same n 2%nat; a4; same none 0%nat; other])) (gate_new 2)).

Definition release_without_acquire_is_noop : bool :=
  let a := ip 3 in
  fst ((let* _ := release a in
        let* n := count a in
        let* taken := acquire a in
        io_ret (asserts [same n 0%nat; taken])) (gate_new 1)).

Definition permit_drop_releases_only_its_ip : bool :=
  let a := ip 1 in
  let b := ip 2 in
  fst ((let* first := permit a in
        let* second := permit a in
        let* other := permit b in
        let* _ := match first with Some p => drop_permit p | None => io_ret tt end in
        let* count_a := count a in
        let* count_b := count b in
        io_ret (asserts [same first (Some a); same second None; same other (Some b);
                         same count_a 0%nat; same count_b 1%nat])) (gate_new 1)).

End GateTests.

(* ------------------------------------------------------------------ *)
(** ** [tcp/rate_limit.rs] *)
Module RateTests.

Definition settings : RateLimitSettings := mkRate true 10 5.
Definition with_bucket (test : io TokenBucket bool) : bool :=
  match bucket_new now settings with Some bucket => fst (test bucket) | None => false end.

Definition allows_burst_then_rejects_until_refill : bool :=
  with_bucket (
    let* granted := acquire_many 5 now in
    let* sixth := try_acquire now in
    let later := now + 500_000_000 in
    let* r1 := try_acquire later in
    let* r2 := try_acquire later in
    io_ret (asserts [same granted 5%nat; negb sixth; r1; r2])).

Definition refill_never_exceeds_capacity : bool :=
  with_bucket (
    let much_later := now + seconds 3600 in
    let* granted := acquire_many 5 much_later in
    let* sixth := try_acquire much_later in
    io_ret (asserts [same granted 5%nat; negb sixth])).

Definition disabled_limit_is_none : bool :=
  asserts [match bucket_new now (mkRate false 10 5) with None => true | Some _ => false end;
           match bucket_new now (mkRate true 0 5) with None => true | Some _ => false end].

End RateTests.

(* ------------------------------------------------------------------ *)
(** ** [tcp/connections.rs] *)
Module RegistryTests.

#[local] Existing Instance simple_prost.

Definition Registry : Type := gmap Z (option (@OutboundSender queue)).
Definition ack : OutboundMessage := OHeartbeatAck (pb.mkHeartbeatAck 1).
Definition queue_of (k : Z) : io Registry (option Frame) := fun conns =>
  match conns !! k with
  | Some (Some o) =>
      match pop (ob_tx o) with
      | Some (f, tx) => (Some f, <[k := Some (mkOutbound tx (ob_disconnected o))]> conns)
      | None => (None, conns)
      end
  | _ => (None, conns)
  end.
Definition drop_receiver (k : Z) : io Registry unit := fun conns =>
  (tt, alter (fmap (fun o => mkOutbound (drop_rx (ob_tx o)) (ob_disconnected o))) k conns).
Definition active : io Registry nat := fun conns => (active_count conns, conns).

Definition register_count_remove_lifecycle : bool :=
  fst ((let* _ := Lifecycle.register 1 (outbound_new (chan 4)) in
        let* one := active in
        let* removed := remove 1 in
        let* none := active in
        io_ret (asserts [same one 1%nat; match removed with Some _ => true | None => false end; same none 0%nat]))
       (registry_new : Registry)).

Definition broadcast_delivers_to_live_queues : bool :=
  fst ((let* _ := Lifecycle.register 1 (outbound_new (chan 4)) in
        let* _ := Lifecycle.register 2 (outbound_new (chan 4)) in
        let* sent := broadcast_all ack in
        let* f1 := queue_of 1 in
        let* f2 := queue_of 2 in
        let* _ := drop_receiver 1 in
        let* _ := drop_receiver 2 in
        let* later := broadcast_all ack in
        io_ret (asserts [same sent 2%nat; match f1 with Some _ => true | None => false end;
                         match f2 with Some _ => true | None => false end; same later 0%nat]))
       (registry_new : Registry)).

End RegistryTests.

(* ------------------------------------------------------------------ *)
(** ** [tcp/convert.rs] and [tcp/router_setup.rs] *)
Module ConvertTests.

#[local] Existing Instance simple_prost.
#[local] Existing Instance hex_uuid.
#[local] Existing Instance log_events.
#[local] Existing Instance plain_hasher.

Definition event_of (e : RoomEvent) : option pb.Event := pb.re_event (room_event_to_notification e).

Definition every_room_event_maps_to_proto_oneof : bool :=
  asserts [match event_of (MemberJoined 9 20 (lit "玩家")) with
           | Some (pb.MemberJoined room_id _ _) => same room_id (uuid_to_string 9)
           | _ => false
           end;
           match event_of (MemberLeft 9 20) with Some (pb.MemberLeft _ _) => true | _ => false end;
           match event_of (EvChat 9 20 (lit "玩家") (lit "你好")) with
           | Some (pb.RoomChat _ _ _ text) => same text (lit "你好")
           | _ => false
           end;
           match event_of (EvClosed 9 (lit "停机")) with
           | Some (pb.RoomClosed _ reason) => same reason (lit "停机")
           | _ => false
           end].

Definition all_c2s_opcodes_have_routes : bool :=
  let router : Router ConnContext (@Gw queue Memory.Store MemTokens.State (list DomainEvent)) := build_router GwDemo.rooms_cfg in
  asserts (same (route_count router) 6%nat ::
           map (has_route router) [OP_C2S_BIND; OP_C2S_HEARTBEAT; OP_C2S_JOIN_ROOM; OP_C2S_LEAVE_ROOM;
                                   OP_C2S_ROOM_CHAT; OP_C2S_GET_PROFILE]).

End ConvertTests.

(* ------------------------------------------------------------------ *)
(** ** [http/error.rs] and [http/server.rs] *)
Module HttpTests.

Definition maps_app_errors_to_http_statuses : bool :=
  forallb (fun '(err, expected) => same (fst (api_error_response (api_of_app err))) expected)
    [(Validation (lit "bad"), BAD_REQUEST); (Unauthorized (lit "no"), UNAUTHORIZED);
     (Forbidden (lit "no"), FORBIDDEN); (NotFound (lit "x"), NOT_FOUND); (Conflict (lit "dup"), CONFLICT);
     (Busy, SERVICE_UNAVAILABLE); (RateLimited, TOO_MANY_REQUESTS);
     (Internal (lit "boom"), INTERNAL_SERVER_ERROR); (Storage (lit "boom"), INTERNAL_SERVER_ERROR)].

(** The hosts of the tests that parse, with their host part and port. *)
Definition authorities : list Authority :=
  [mkAuthority (lit "game.example.com") (lit "game.example.com") None;
   mkAuthority (lit "h.local") (lit "h.local") None;
   mkAuthority (lit "example.com:80") (lit "example.com") (Some 80);
   mkAuthority (lit "example.com:8080") (lit "example.com") (Some 8080);
   mkAuthority (lit "[::1]:8080") (lit "[::1]") (Some 8080);
   mkAuthority (lit "[::1]") (lit "[::1]") None;
   mkAuthority (lit "user@example.com") (lit "example.com") None;
   mkAuthority (lit "example.com:99999") (lit "example.com") None].
Definition parse_authority (text : rstr) : option Authority := find (fun a => same (au_text a) text) authorities.
Definition location (port : Z) (host : rstr) (path : option rstr) : option rstr :=
  match to_https parse_authority port (Some host) path with
  | Ok (status, target) => if status =? PERMANENT_REDIRECT then Some target else None
  | Err _ => None
  end.

Definition redirect_keeps_host_path_and_method_semantics : bool :=
  same (location 443 (lit "game.example.com") (Some (lit "/login?next=/me")))
       (Some (lit "https://game.example.com/login?next=/me")).

Definition redirect_defaults_to_slash_when_path_missing : bool :=
  same (location 443 (lit "h.local") None) (Some (lit "https://h.local/")).

Definition hsts_header_is_always_present : bool :=
  same (snd <$> find (fun h => same (fst h) (lit "strict-transport-security")) (hsts_middleware []))
       (Some (lit "max-age=63072000; includeSubDomains")).

Definition redirect_replaces_ports_and_validates_authority : bool :=
  forallb (fun '(host, port, target) => same (location port host (Some (lit "/a?q=1"))) (Some target))
    [(lit "example.com:80", 443, lit "https://example.com/a?q=1");
     (lit "example.com:8080", 8443, lit "https://example.com:8443/a?q=1");
     (lit "[::1]:8080", 8443, lit "https://[::1]:8443/a?q=1"); (lit "[::1]", 443, lit "https://[::1]/a?q=1")] &&
  forallb (fun host => same (to_https parse_authority 443 host (Some (lit "/"))) (Err BAD_REQUEST))
    [None; Some []; Some (lit "bad/path"); Some (lit "user@example.com"); Some (lit "example.com:99999")].

End HttpTests.

(* ------------------------------------------------------------------ *)

Definition gateway_tests : list bool :=
  [GateTests.enforces_per_ip_limit_and_releases_slots; GateTests.release_without_acquire_is_noop;
   GateTests.permit_drop_releases_only_its_ip;
   RateTests.allows_burst_then_rejects_until_refill; RateTests.refill_never_exceeds_capacity;
   RateTests.disabled_limit_is_none;
   RegistryTests.register_count_remove_lifecycle; RegistryTests.broadcast_delivers_to_live_queues;
   ConvertTests.every_room_event_maps_to_proto_oneof; ConvertTests.all_c2s_opcodes_have_routes;
   HttpTests.maps_app_errors_to_http_statuses; HttpTests.redirect_keeps_host_path_and_method_semantics;
   HttpTests.redirect_defaults_to_slash_when_path_missing; HttpTests.hsts_header_is_always_present;
   HttpTests.redirect_replaces_ports_and_validates_authority].

(** The unit tests of [gateway] pass on the models. *)
Theorem gateway_tests_pass : asserts gateway_tests = true.
Proof. vm_compute. reflexivity. Qed.
